(** * A shallow embedding of the reactivity core of Vue 2.5

    The development follows the sources file by file:

    - [src/core/observer/dep.js]        : [Dep], [pushTarget], [popTarget];
    - [src/core/observer/watcher.js]    : [Watcher];
    - [src/core/observer/traverse.js]   : [traverse];
    - [src/core/observer/scheduler.js]  : [queueWatcher], [flushSchedulerQueue];
    - [src/core/observer/index.js]      : [observe], [defineReactive];
    - [src/core/instance/lifecycle.js]  : [callHook];
    - [src/core/instance/state.js]      : [getData], the computed getter.

    JavaScript objects that are shared and mutated (watchers, Deps,
    containers, component instances) live in a store and are referred to
    by their key; module-level [let]s are fields of [State].  Functions
    supplied by the application (getters, callbacks, hooks) are values of
    [code]: trees of the engine entry points they call. Since such a
    function may call back into the engine without bound, everything
    that can reach application code takes a fuel argument. *)

From Stdlib Require Import ZArith Lia.
From stdpp Require Import gmap strings list sorting.

#[local] Set Warnings "-clear-no-such-hyp".  (* set_solver clears eagerly *)

(** ** JavaScript values *)

(** Finite numbers are represented by integers; [NaN] is kept apart since
    it is the one value that is not strictly equal to itself. Objects and
    arrays are references into [objects]. *)
Inductive Val : Type :=
  | VUndef
  | VNull
  | VBool (b : bool)
  | VNum (z : Z)
  | VNaN
  | VStr (s : string)
  | VObj (r : nat).

(** [a === b] *)
Definition strict_eq (a b : Val) : bool :=
  match a, b with
  | VUndef, VUndef => true
  | VNull, VNull => true
  | VBool x, VBool y => bool_decide (x = y)
  | VNum x, VNum y => bool_decide (x = y)
  | VStr x, VStr y => bool_decide (x = y)
  | VObj x, VObj y => bool_decide (x = y)
  | _, _ => false
  end.

(** [isObject] of shared/util: [obj !== null && typeof obj === 'object'] *)
Definition isObject (v : Val) : bool :=
  match v with VObj _ => true | _ => false end.

(** Thrown values. *)
Definition Exn : Type := string.

(** ** Application code *)

(** A function of the application, as the sequence of engine entry points
    it reaches; what it does next may depend on the values it has read. *)
Inductive code : Type :=
  | Ret (v : Val)                              (* return v *)
  | Raise (e : Exn)                            (* throw e *)
  | Read (p : nat) (k : Val -> code)           (* obj.key, through reactiveGetter *)
  | Write (p : nat) (v : Val) (k : code)       (* obj.key = v, through reactiveSetter *)
  | ReadComputed (w : nat) (k : Val -> code)   (* vm.key, through computedGetter *)
  | Teardown (w : nat) (k : code)              (* watcher.teardown(), e.g. unwatchFn *)
  | RunHook (vm : nat) (hook : string) (k : code)  (* callHook(vm, hook), e.g. from creating or destroying a child *)
  | InitData (vm : nat) (k : Val -> code).     (* getData(vm.$options.data, vm) *)

(** ** Calls that leave the engine *)
Inductive event : Type :=
  | EvGetter (w : nat)                         (* this.getter.call(vm, vm) *)
  | EvCallback (w : nat) (v old : Val)         (* this.cb.call(vm, value, oldValue) *)
  | EvBefore (w : nat)                         (* watcher.before() *)
  | EvHandler (vm : nat) (hook : string) (i : nat)  (* handlers[i].call(vm) *)
  | EvData (vm : nat)                          (* data.call(vm, vm) *)
  | EvHandleError (e : Exn) (vm : nat) (info : string)
  | EvWarn (msg : string) (vm : nat)
  | EvNotify (d : nat)                         (* dep.notify() *)
  | EvActivated (vm : nat).                    (* activateChildComponent(vm, true) *)

(** ** Objects of the store *)

(** [class Watcher] *)
Record Watcher : Type := mkWatcher {
  w_vm : nat;  (* vm *)
  w_expression : string;  (* expression *)
  w_cb : Val -> Val -> code;  (* cb *)
  w_deep : bool;  (* deep *)
  w_user : bool;  (* user *)
  w_computed : bool;  (* computed *)
  w_sync : bool;  (* sync *)
  w_dirty : bool;  (* dirty *)
  w_active : bool;  (* active *)
  w_dep : nat;  (* dep, the Dep of a computed watcher, by id *)
  w_deps : list nat;  (* deps, by Dep id, in push order *)
  w_newDeps : list nat;  (* newDeps *)
  w_depIds : gset nat;  (* depIds *)
  w_newDepIds : gset nat;  (* newDepIds *)
  w_before : option code;  (* before *)
  w_getter : code;  (* getter *)
  w_value : Val  (* value *)
}.

Definition set_w_dirty (x : bool) (r : Watcher) : Watcher :=
  mkWatcher (w_vm r) (w_expression r) (w_cb r) (w_deep r) (w_user r) (w_computed r) (w_sync r) x (w_active r) (w_dep r) (w_deps r) (w_newDeps r) (w_depIds r) (w_newDepIds r) (w_before r) (w_getter r) (w_value r).
Definition set_w_active (x : bool) (r : Watcher) : Watcher :=
  mkWatcher (w_vm r) (w_expression r) (w_cb r) (w_deep r) (w_user r) (w_computed r) (w_sync r) (w_dirty r) x (w_dep r) (w_deps r) (w_newDeps r) (w_depIds r) (w_newDepIds r) (w_before r) (w_getter r) (w_value r).
Definition set_w_deps (x : list nat) (r : Watcher) : Watcher :=
  mkWatcher (w_vm r) (w_expression r) (w_cb r) (w_deep r) (w_user r) (w_computed r) (w_sync r) (w_dirty r) (w_active r) (w_dep r) x (w_newDeps r) (w_depIds r) (w_newDepIds r) (w_before r) (w_getter r) (w_value r).
Definition set_w_newDeps (x : list nat) (r : Watcher) : Watcher :=
  mkWatcher (w_vm r) (w_expression r) (w_cb r) (w_deep r) (w_user r) (w_computed r) (w_sync r) (w_dirty r) (w_active r) (w_dep r) (w_deps r) x (w_depIds r) (w_newDepIds r) (w_before r) (w_getter r) (w_value r).
Definition set_w_depIds (x : gset nat) (r : Watcher) : Watcher :=
  mkWatcher (w_vm r) (w_expression r) (w_cb r) (w_deep r) (w_user r) (w_computed r) (w_sync r) (w_dirty r) (w_active r) (w_dep r) (w_deps r) (w_newDeps r) x (w_newDepIds r) (w_before r) (w_getter r) (w_value r).
Definition set_w_newDepIds (x : gset nat) (r : Watcher) : Watcher :=
  mkWatcher (w_vm r) (w_expression r) (w_cb r) (w_deep r) (w_user r) (w_computed r) (w_sync r) (w_dirty r) (w_active r) (w_dep r) (w_deps r) (w_newDeps r) (w_depIds r) x (w_before r) (w_getter r) (w_value r).
Definition set_w_value (x : Val) (r : Watcher) : Watcher :=
  mkWatcher (w_vm r) (w_expression r) (w_cb r) (w_deep r) (w_user r) (w_computed r) (w_sync r) (w_dirty r) (w_active r) (w_dep r) (w_deps r) (w_newDeps r) (w_depIds r) (w_newDepIds r) (w_before r) (w_getter r) x.

(** [class Observer]; [value] is the key under which the container is stored. *)
Record Observer : Type := mkObserver {
  ob_dep : nat;  (* dep, by id *)
  ob_vmCount : nat
}.

(** An own property of a container, as [Object.getOwnPropertyDescriptor]
    sees it: a data property, an accessor the application defined, or the
    accessor installed by [defineReactive] (with the key of its closure). *)
Inductive Slot : Type :=
  | SData (v : Val) (configurable : bool)
  | SAccessor (get : option code) (set : option (Val -> code)) (configurable : bool)
  | SReactive (p : nat).

(** A container (plain object or array). *)
Record Obj : Type := mkObj {
  o_isFrozen : bool;  (* Object.isFrozen(value) *)
  o_isArray : bool;  (* Array.isArray(value) *)
  o_isPlain : bool;  (* isPlainObject(value) *)
  o_extensible : bool;  (* Object.isExtensible(value) *)
  o_isVue : bool;  (* value._isVue *)
  o_isVNode : bool;  (* value instanceof VNode *)
  o_ob : option Observer;  (* value.__ob__ *)
  o_keys : list (string * Slot);  (* own enumerable properties, in Object.keys order *)
  o_items : list Val  (* elements, when an array *)
}.

Definition set_o_ob (x : option Observer) (r : Obj) : Obj :=
  mkObj (o_isFrozen r) (o_isArray r) (o_isPlain r) (o_extensible r) (o_isVue r) (o_isVNode r) x (o_keys r) (o_items r).
Definition set_o_keys (x : list (string * Slot)) (r : Obj) : Obj :=
  mkObj (o_isFrozen r) (o_isArray r) (o_isPlain r) (o_extensible r) (o_isVue r) (o_isVNode r) (o_ob r) x (o_items r).

(** The variables closed over by [reactiveGetter] and [reactiveSetter]. *)
Record Property : Type := mkProperty {
  p_dep : nat;  (* dep, by id *)
  p_val : Val;  (* val *)
  p_childOb : option nat;  (* childOb, by the reference of its container *)
  p_getter : option code;  (* getter *)
  p_setter : option (Val -> code);  (* setter *)
  p_customSetter : option code;  (* customSetter *)
  p_shallow : bool  (* shallow *)
}.

Definition set_p_val (x : Val) (r : Property) : Property :=
  mkProperty (p_dep r) x (p_childOb r) (p_getter r) (p_setter r) (p_customSetter r) (p_shallow r).
Definition set_p_childOb (x : option nat) (r : Property) : Property :=
  mkProperty (p_dep r) (p_val r) x (p_getter r) (p_setter r) (p_customSetter r) (p_shallow r).

(** A component instance, as far as the engine looks at it. *)
Record VM : Type := mkVM {
  vm_watchers : list nat;  (* vm._watchers *)
  vm_watcher : option nat;  (* vm._watcher *)
  vm_isBeingDestroyed : bool;
  vm_isMounted : bool;
  vm_hasHookEvent : bool;
  vm_hooks : gmap string (list code);  (* vm.$options[hook] *)
  vm_events : gmap string (list code);  (* vm._events *)
  vm_data : code  (* vm.$options.data *)
}.

Definition set_vm_watchers (x : list nat) (r : VM) : VM :=
  mkVM x (vm_watcher r) (vm_isBeingDestroyed r) (vm_isMounted r) (vm_hasHookEvent r) (vm_hooks r) (vm_events r) (vm_data r).

(** The module-level variables and the store. *)
Record State : Type := mkState {
  seenObjects : gset nat;  (* traverse.js: seenObjects, the ids of the Deps it holds *)
  watchers : gmap nat Watcher;  (* Watcher objects, by id *)
  dep_subs : gmap nat (list nat);  (* Dep objects: subs, by Dep id *)
  dep_uid : nat;  (* uid of dep.js *)
  target : option nat;  (* Dep.target *)
  targetStack : list nat;  (* targetStack, top first *)
  queue : list nat;  (* scheduler.js: queue *)
  activatedChildren : list nat;  (* scheduler.js: activatedChildren *)
  has : gset nat;  (* scheduler.js: the ids with has[id] === true *)
  circular : gmap nat nat;  (* scheduler.js: circular *)
  waiting : bool;
  flushing : bool;
  index : nat;
  shouldObserve : bool;  (* observer/index.js *)
  objects : gmap nat Obj;  (* containers, by reference *)
  next_ref : nat;  (* next unused reference *)
  props : gmap nat Property;  (* closures of defineReactive *)
  vms : gmap nat VM;  (* component instances *)
  ticks : nat;  (* flushes handed to nextTick and not yet run *)
  trace : list event  (* calls that left the engine, oldest first *)
}.

Definition set_seenObjects (x : gset nat) (r : State) : State :=
  mkState x (watchers r) (dep_subs r) (dep_uid r) (target r) (targetStack r) (queue r) (activatedChildren r) (has r) (circular r) (waiting r) (flushing r) (index r) (shouldObserve r) (objects r) (next_ref r) (props r) (vms r) (ticks r) (trace r).
Definition set_watchers (x : gmap nat Watcher) (r : State) : State :=
  mkState (seenObjects r) x (dep_subs r) (dep_uid r) (target r) (targetStack r) (queue r) (activatedChildren r) (has r) (circular r) (waiting r) (flushing r) (index r) (shouldObserve r) (objects r) (next_ref r) (props r) (vms r) (ticks r) (trace r).
Definition set_dep_subs (x : gmap nat (list nat)) (r : State) : State :=
  mkState (seenObjects r) (watchers r) x (dep_uid r) (target r) (targetStack r) (queue r) (activatedChildren r) (has r) (circular r) (waiting r) (flushing r) (index r) (shouldObserve r) (objects r) (next_ref r) (props r) (vms r) (ticks r) (trace r).
Definition set_dep_uid (x : nat) (r : State) : State :=
  mkState (seenObjects r) (watchers r) (dep_subs r) x (target r) (targetStack r) (queue r) (activatedChildren r) (has r) (circular r) (waiting r) (flushing r) (index r) (shouldObserve r) (objects r) (next_ref r) (props r) (vms r) (ticks r) (trace r).
Definition set_target (x : option nat) (r : State) : State :=
  mkState (seenObjects r) (watchers r) (dep_subs r) (dep_uid r) x (targetStack r) (queue r) (activatedChildren r) (has r) (circular r) (waiting r) (flushing r) (index r) (shouldObserve r) (objects r) (next_ref r) (props r) (vms r) (ticks r) (trace r).
Definition set_targetStack (x : list nat) (r : State) : State :=
  mkState (seenObjects r) (watchers r) (dep_subs r) (dep_uid r) (target r) x (queue r) (activatedChildren r) (has r) (circular r) (waiting r) (flushing r) (index r) (shouldObserve r) (objects r) (next_ref r) (props r) (vms r) (ticks r) (trace r).
Definition set_queue (x : list nat) (r : State) : State :=
  mkState (seenObjects r) (watchers r) (dep_subs r) (dep_uid r) (target r) (targetStack r) x (activatedChildren r) (has r) (circular r) (waiting r) (flushing r) (index r) (shouldObserve r) (objects r) (next_ref r) (props r) (vms r) (ticks r) (trace r).
Definition set_activatedChildren (x : list nat) (r : State) : State :=
  mkState (seenObjects r) (watchers r) (dep_subs r) (dep_uid r) (target r) (targetStack r) (queue r) x (has r) (circular r) (waiting r) (flushing r) (index r) (shouldObserve r) (objects r) (next_ref r) (props r) (vms r) (ticks r) (trace r).
Definition set_has (x : gset nat) (r : State) : State :=
  mkState (seenObjects r) (watchers r) (dep_subs r) (dep_uid r) (target r) (targetStack r) (queue r) (activatedChildren r) x (circular r) (waiting r) (flushing r) (index r) (shouldObserve r) (objects r) (next_ref r) (props r) (vms r) (ticks r) (trace r).
Definition set_circular (x : gmap nat nat) (r : State) : State :=
  mkState (seenObjects r) (watchers r) (dep_subs r) (dep_uid r) (target r) (targetStack r) (queue r) (activatedChildren r) (has r) x (waiting r) (flushing r) (index r) (shouldObserve r) (objects r) (next_ref r) (props r) (vms r) (ticks r) (trace r).
Definition set_waiting (x : bool) (r : State) : State :=
  mkState (seenObjects r) (watchers r) (dep_subs r) (dep_uid r) (target r) (targetStack r) (queue r) (activatedChildren r) (has r) (circular r) x (flushing r) (index r) (shouldObserve r) (objects r) (next_ref r) (props r) (vms r) (ticks r) (trace r).
Definition set_flushing (x : bool) (r : State) : State :=
  mkState (seenObjects r) (watchers r) (dep_subs r) (dep_uid r) (target r) (targetStack r) (queue r) (activatedChildren r) (has r) (circular r) (waiting r) x (index r) (shouldObserve r) (objects r) (next_ref r) (props r) (vms r) (ticks r) (trace r).
Definition set_index (x : nat) (r : State) : State :=
  mkState (seenObjects r) (watchers r) (dep_subs r) (dep_uid r) (target r) (targetStack r) (queue r) (activatedChildren r) (has r) (circular r) (waiting r) (flushing r) x (shouldObserve r) (objects r) (next_ref r) (props r) (vms r) (ticks r) (trace r).
Definition set_shouldObserve (x : bool) (r : State) : State :=
  mkState (seenObjects r) (watchers r) (dep_subs r) (dep_uid r) (target r) (targetStack r) (queue r) (activatedChildren r) (has r) (circular r) (waiting r) (flushing r) (index r) x (objects r) (next_ref r) (props r) (vms r) (ticks r) (trace r).
Definition set_objects (x : gmap nat Obj) (r : State) : State :=
  mkState (seenObjects r) (watchers r) (dep_subs r) (dep_uid r) (target r) (targetStack r) (queue r) (activatedChildren r) (has r) (circular r) (waiting r) (flushing r) (index r) (shouldObserve r) x (next_ref r) (props r) (vms r) (ticks r) (trace r).
Definition set_next_ref (x : nat) (r : State) : State :=
  mkState (seenObjects r) (watchers r) (dep_subs r) (dep_uid r) (target r) (targetStack r) (queue r) (activatedChildren r) (has r) (circular r) (waiting r) (flushing r) (index r) (shouldObserve r) (objects r) x (props r) (vms r) (ticks r) (trace r).
Definition set_props (x : gmap nat Property) (r : State) : State :=
  mkState (seenObjects r) (watchers r) (dep_subs r) (dep_uid r) (target r) (targetStack r) (queue r) (activatedChildren r) (has r) (circular r) (waiting r) (flushing r) (index r) (shouldObserve r) (objects r) (next_ref r) x (vms r) (ticks r) (trace r).
Definition set_vms (x : gmap nat VM) (r : State) : State :=
  mkState (seenObjects r) (watchers r) (dep_subs r) (dep_uid r) (target r) (targetStack r) (queue r) (activatedChildren r) (has r) (circular r) (waiting r) (flushing r) (index r) (shouldObserve r) (objects r) (next_ref r) (props r) x (ticks r) (trace r).
Definition set_ticks (x : nat) (r : State) : State :=
  mkState (seenObjects r) (watchers r) (dep_subs r) (dep_uid r) (target r) (targetStack r) (queue r) (activatedChildren r) (has r) (circular r) (waiting r) (flushing r) (index r) (shouldObserve r) (objects r) (next_ref r) (props r) (vms r) x (trace r).
Definition set_trace (x : list event) (r : State) : State :=
  mkState (seenObjects r) (watchers r) (dep_subs r) (dep_uid r) (target r) (targetStack r) (queue r) (activatedChildren r) (has r) (circular r) (waiting r) (flushing r) (index r) (shouldObserve r) (objects r) (next_ref r) (props r) (vms r) (ticks r) x.

(** The [id] of a watcher and of a Dep is the key under which the store
    holds it: ids are handed out by a counter and never reused. *)

(** ** shared/util *)

(** Modelled from the spec: [remove(arr, item)] of shared/util is imported
    by dep.js and watcher.js and is not among the sources. "Remove if
    present; no-op otherwise": the first occurrence is spliced out. *)
Fixpoint remove (x : nat) (l : list nat) : list nat :=
  match l with
  | [] => []
  | y :: l' => if decide (x = y) then l' else y :: remove x l'
  end.

(** ** dep.js *)

(** [this.subs] of the Dep with id [d] *)
Definition subsOf (d : nat) (s : State) : list nat := dep_subs s !!! d.

(** [addSub(sub) { this.subs.push(sub) }] *)
Definition Dep_addSub (d sub : nat) (s : State) : State :=
  set_dep_subs (<[d := subsOf d s ++ [sub]]> (dep_subs s)) s.

(** [removeSub(sub) { remove(this.subs, sub) }] *)
Definition Dep_removeSub (d sub : nat) (s : State) : State :=
  set_dep_subs (<[d := remove sub (subsOf d s)]> (dep_subs s)) s.

(** [pushTarget(_target)]: the previous target is saved only when there
    is one. [None] stands for both [null] and [undefined]. *)
Definition pushTarget (t : option nat) (s : State) : State :=
  let s1 := match target s with
            | Some w => set_targetStack (w :: targetStack s) s
            | None => s
            end in
  set_target t s1.

(** [popTarget()]: [Dep.target = targetStack.pop()], which is [undefined]
    on an empty stack. *)
Definition popTarget (s : State) : State :=
  match targetStack s with
  | w :: st => set_target (Some w) (set_targetStack st s)
  | [] => set_target None s
  end.

(** ** watcher.js, the part that calls no application code *)

(** [addDep(dep)] *)
Definition Watcher_addDep (w d : nat) (s : State) : State :=
  match watchers s !! w with
  | None => s
  | Some W =>
      if decide (d ∈ w_newDepIds W) then s
      else
        let W1 := set_w_newDepIds ({[d]} ∪ w_newDepIds W) W in
        let W2 := set_w_newDeps (w_newDeps W1 ++ [d]) W1 in
        let s1 := set_watchers (<[w := W2]> (watchers s)) s in
        if decide (d ∈ w_depIds W) then s1 else Dep_addSub d w s1
  end.

(** [Dep.prototype.depend()] *)
Definition Dep_depend (d : nat) (s : State) : State :=
  match target s with
  | Some w => Watcher_addDep w d s
  | None => s
  end.

(** [cleanupDeps()]: the [while (i--)] loop walks [deps] from its last
    element to its first. *)
Definition Watcher_cleanupDeps (w : nat) (s : State) : State :=
  match watchers s !! w with
  | None => s
  | Some W =>
      let s1 := foldl (fun s d =>
                         if decide (d ∈ w_newDepIds W) then s
                         else Dep_removeSub d w s)
                      s (reverse (w_deps W)) in
      let W1 := set_w_newDepIds ∅ (set_w_depIds (w_newDepIds W) W) in
      let W2 := set_w_newDeps [] (set_w_deps (w_newDeps W) W1) in
      set_watchers (<[w := W2]> (watchers s1)) s1
  end.

(** [teardown()] *)
Definition Watcher_teardown (w : nat) (s : State) : State :=
  match watchers s !! w with
  | None => s
  | Some W =>
      if w_active W then
        let s1 := match vms s !! w_vm W with
                  | Some V =>
                      if vm_isBeingDestroyed V then s
                      else set_vms (<[w_vm W :=
                             set_vm_watchers (remove w (vm_watchers V)) V]> (vms s)) s
                  | None => s
                  end in
        let s2 := foldl (fun s d => Dep_removeSub d w s) s1 (reverse (w_deps W)) in
        set_watchers (<[w := set_w_active false W]> (watchers s2)) s2
      else s
  end.

(** ** scheduler.js, the part that calls no application code *)

Definition MAX_UPDATE_COUNT : nat := 100.

(** The backward scan of [queueWatcher],
    [while (i > index && queue[i].id > watcher.id) i--], started at
    [i = j - 1]; the result is [i + 1], the position handed to [splice]. *)
Fixpoint scan (q : list nat) (idx id : nat) (j : nat) : nat :=
  match j with
  | 0 => 0
  | S i =>
      match q !! i with
      | Some x =>
          if bool_decide (idx < i) && bool_decide (id < x)
          then scan q idx id i
          else S i
      | None => S i
      end
  end.

(** [queue.splice(j, 0, w)] *)
Definition splice_in (j w : nat) (q : list nat) : list nat :=
  take j q ++ w :: drop j q.

(** [queueWatcher(watcher)]. [has[id]] is only ever [true] or [null] and
    only ever tested with [== null]: [has] is kept as the set of the ids
    whose entry is [true]. *)
Definition queueWatcher (w : nat) (s : State) : State :=
  if decide (w ∈ has s) then s
  else
    let s1 := set_has ({[w]} ∪ has s) s in
    let s2 :=
      if flushing s1 then
        set_queue (splice_in (scan (queue s1) (index s1) w (length (queue s1)))
                             w (queue s1)) s1
      else set_queue (queue s1 ++ [w]) s1 in
    if waiting s2 then s2
    else set_ticks (S (ticks s2)) (set_waiting true s2).

(** [queue.sort((a, b) => a.id - b.id)] *)
Definition sort_queue (q : list nat) : list nat := merge_sort (≤) q.

(** ** Computations that may call application code *)

Inductive Res (A : Type) : Type :=
  | Ok (a : A)          (* normal completion *)
  | Thrown (e : Exn).   (* an exception is propagating *)
Arguments Ok {A} a.
Arguments Thrown {A} e.

(** [None]: no result, because the fuel ran out or because a reference
    that the code dereferences is not in the store. *)
Definition M (A : Type) : Type := State -> option (Res A * State).

Definition ret {A} (a : A) : M A := fun s => Some (Ok a, s).
Definition throw {A} (e : Exn) : M A := fun s => Some (Thrown e, s).
Definition no_result {A} : M A := fun _ => None.

Definition bind {A B} (m : M A) (k : A -> M B) : M B :=
  fun s =>
    match m s with
    | Some (Ok a, s1) => k a s1
    | Some (Thrown e, s1) => Some (Thrown e, s1)
    | None => None
    end.

Notation "x <- m ;; k" := (bind m (fun x => k))
  (at level 100, m at level 99, right associativity).
Notation "m ;;; k" := (bind m (fun _ => k))
  (at level 100, right associativity).

Definition gets {A} (f : State -> A) : M A := fun s => Some (Ok (f s), s).
Definition modify (f : State -> State) : M unit := fun s => Some (Ok tt, f s).
Definition record (e : event) : M unit :=
  modify (fun s => set_trace (trace s ++ [e]) s).
Definition when (b : bool) (m : M unit) : M unit := if b then m else ret tt.

(** [try { m } catch (e) { h e }] *)
Definition try_catch {A} (m : M A) (h : Exn -> M A) : M A :=
  fun s =>
    match m s with
    | Some (Thrown e, s1) => h e s1
    | r => r
    end.

(** [try { m } finally { f }], where [f] may look at how [m] completed. *)
Definition try_finally {A} (m : M A) (f : Res A -> M unit) : M A :=
  fun s =>
    match m s with
    | Some (r, s1) =>
        match f r s1 with
        | Some (Ok _, s2) => Some (r, s2)
        | Some (Thrown e, s2) => Some (Thrown e, s2)
        | None => None
        end
    | None => None
    end.

(** [for (let i = 0; i < l.length; i++) f(l[i])] over a snapshot [l] *)
Fixpoint for_each {A} (l : list A) (f : A -> M unit) : M unit :=
  match l with
  | [] => ret tt
  | x :: l' => f x ;;; for_each l' f
  end.

Definition the_watcher (w : nat) : M Watcher :=
  fun s => match watchers s !! w with Some W => Some (Ok W, s) | None => None end.
Definition the_prop (p : nat) : M Property :=
  fun s => match props s !! p with Some P => Some (Ok P, s) | None => None end.
Definition the_obj (r : nat) : M Obj :=
  fun s => match objects s !! r with Some o => Some (Ok o, s) | None => None end.
Definition the_vm (v : nat) : M VM :=
  fun s => match vms s !! v with Some V => Some (Ok V, s) | None => None end.

Definition upd_watcher (w : nat) (f : Watcher -> Watcher) (s : State) : State :=
  set_watchers (alter f w (watchers s)) s.
Definition upd_prop (p : nat) (f : Property -> Property) (s : State) : State :=
  set_props (alter f p (props s)) s.
Definition upd_obj (r : nat) (f : Obj -> Obj) (s : State) : State :=
  set_objects (alter f r (objects s)) s.

(** [new Dep()] *)
Definition new_Dep : M nat :=
  fun s =>
    let d := dep_uid s in
    Some (Ok d, set_dep_uid (S d) (set_dep_subs (<[d := []]> (dep_subs s)) s)).

(** The object literal [{}] *)
Definition empty_object : Obj :=
  mkObj false false true true false false None [] [].
Definition new_object : M Val :=
  fun s =>
    let r := next_ref s in
    Some (Ok (VObj r), set_next_ref (S r) (set_objects (<[r := empty_object]> (objects s)) s)).

(** [Watcher.prototype.depend()]: [this.dep] exists on computed watchers. *)
Definition Watcher_depend (w : nat) (s : State) : State :=
  match watchers s !! w with
  | Some W =>
      if w_computed W && bool_decide (is_Some (target s))
      then Dep_depend (w_dep W) s
      else s
  | None => s
  end.

(** [newVal === value || (newVal !== newVal && value !== value)] *)
Definition same_value (newVal value : Val) : bool :=
  strict_eq newVal value
  || (negb (strict_eq newVal newVal) && negb (strict_eq value value)).

Definition quote : string := String (Ascii.ascii_of_nat 34) EmptyString.
Definition getter_info (W : Watcher) : string :=
  "getter for watcher " +:+ quote +:+ w_expression W +:+ quote.
Definition callback_info (W : Watcher) : string :=
  "callback for watcher " +:+ quote +:+ w_expression W +:+ quote.
Definition loop_warning (W : Watcher) : string :=
  "You may have an infinite update loop " +:+
  (if w_user W
   then "in watcher with expression " +:+ quote +:+ w_expression W +:+ quote
   else "in a component render function.").

(** The two functions that [getAndInvoke] is called with. *)
Inductive callback : Type :=
  | OwnCb          (* this.cb *)
  | NotifyOwnDep.  (* () => { this.dep.notify() } *)

(** [Object.getOwnPropertyDescriptor(obj, key)] *)
Definition slot_of (key : string) (o : Obj) : option Slot :=
  snd <$> (snd <$> list_find (fun kv => kv.1 = key) (o_keys o)).

(** [Object.defineProperty(obj, key, ...)] on the list of own properties *)
Fixpoint put_slot (key : string) (sl : Slot) (l : list (string * Slot))
  : list (string * Slot) :=
  match l with
  | [] => [(key, sl)]
  | (k, x) :: l' => if decide (k = key) then (k, sl) :: l' else (k, x) :: put_slot key sl l'
  end.

(** ** The engine *)

Section Engine.

(** [process.env.NODE_ENV !== 'production'] *)
Variable dev : bool.

(** [isServerRendering()] *)
Variable ssr : bool.

(** observer/traverse.js: [traverse(val)], that is
    [_traverse(val, seenObjects); seenObjects.clear()]. The recursive
    function belongs to the engine below and is passed in. The set is
    cleared when [_traverse] returns, and only then. *)
Definition traverse (_traverse : Val -> M unit) (val : Val) : M unit :=
  _traverse val ;;; modify (set_seenObjects ∅).

(** [resetSchedulerState()] *)
Definition resetSchedulerState (s : State) : State :=
  let s1 := set_activatedChildren [] (set_queue [] (set_index 0 s)) in
  let s2 := set_has ∅ s1 in
  let s3 := if dev then set_circular ∅ s2 else s2 in
  set_flushing false (set_waiting false s3).


(** observer/index.js: [dependArray(value)], entered behind the test
    [Array.isArray(value)] of either caller *)
Fixpoint dependArray (n : nat) (value : Val) {struct n} : M unit :=
  match n with
  | 0 => no_result
  | S n' =>
      match value with
      | VObj r =>
          o <- the_obj r ;;
          when (o_isArray o)
            (for_each (o_items o) (fun e =>
               match e with
               | VObj r' =>
                   o' <- the_obj r' ;;
                   match o_ob o' with
                   | Some ob => modify (Dep_depend (ob_dep ob))
                   | None => ret tt
                   end ;;;
                   dependArray n' e
               | _ => ret tt
               end))
      | _ => ret tt
      end
  end.

(** One fixpoint on the fuel: each function below is the source function
    of the same name, and every call into another of them, or into
    application code, spends one unit. *)
Fixpoint exec (n : nat) (c : code) {struct n} : M Val :=
  match n with
  | 0 => no_result
  | S n' =>
      match c with
      | Ret v => ret v
      | Raise e => throw e
      | Read p k => v <- reactiveGetter n' p ;; exec n' (k v)
      | Write p v k => reactiveSetter n' p v ;;; exec n' k
      | ReadComputed w k => v <- computedGetter n' w ;; exec n' (k v)
      | Teardown w k => modify (Watcher_teardown w) ;;; exec n' k
      | RunHook vm hook k => callHook n' vm hook ;;; exec n' k
      | InitData vm k => v <- getData n' vm ;; exec n' (k v)
      end
  end

(** watcher.js: [get()] *)
with Watcher_get (n : nat) (w : nat) {struct n} : M Val :=
  match n with
  | 0 => no_result
  | S n' =>
      W <- the_watcher w ;;
      modify (pushTarget (Some w)) ;;;
      try_finally
        (try_catch
           (record (EvGetter w) ;;; exec n' (w_getter W))
           (fun e =>
              if w_user W
              then record (EvHandleError e (w_vm W) (getter_info W)) ;;; ret VUndef
              else throw e))
        (fun r =>
           let value := match r with Ok v => v | Thrown _ => VUndef end in
           when (w_deep W) (traverse (_traverse n') value) ;;;
           modify popTarget ;;;
           modify (Watcher_cleanupDeps w))
  end

(** watcher.js: [getAndInvoke(cb)] *)
with Watcher_getAndInvoke (n : nat) (w : nat) (cb : callback) {struct n} : M unit :=
  match n with
  | 0 => no_result
  | S n' =>
      value <- Watcher_get n' w ;;
      W <- the_watcher w ;;
      if negb (strict_eq value (w_value W)) || isObject value || w_deep W then
        let oldValue := w_value W in
        modify (upd_watcher w (fun W => set_w_dirty false (set_w_value value W))) ;;;
        let call :=
          match cb with
          | OwnCb =>
              record (EvCallback w value oldValue) ;;;
              exec n' (w_cb W value oldValue) ;;; ret tt
          | NotifyOwnDep => Dep_notify n' (w_dep W)
          end in
        if w_user W
        then try_catch call
               (fun e => record (EvHandleError e (w_vm W) (callback_info W)))
        else call
      else ret tt
  end

(** watcher.js: [run()] *)
with Watcher_run (n : nat) (w : nat) {struct n} : M unit :=
  match n with
  | 0 => no_result
  | S n' =>
      W <- the_watcher w ;;
      if w_active W then Watcher_getAndInvoke n' w OwnCb else ret tt
  end

(** watcher.js: [update()] *)
with Watcher_update (n : nat) (w : nat) {struct n} : M unit :=
  match n with
  | 0 => no_result
  | S n' =>
      W <- the_watcher w ;;
      if w_computed W then
        l <- gets (subsOf (w_dep W)) ;;
        if bool_decide (length l = 0)
        then modify (upd_watcher w (set_w_dirty true))
        else Watcher_getAndInvoke n' w NotifyOwnDep
      else if w_sync W then Watcher_run n' w
      else modify (queueWatcher w)
  end

(** watcher.js: [evaluate()] *)
with Watcher_evaluate (n : nat) (w : nat) {struct n} : M Val :=
  match n with
  | 0 => no_result
  | S n' =>
      W <- the_watcher w ;;
      (if w_dirty W then
         v <- Watcher_get n' w ;;
         modify (upd_watcher w (fun W => set_w_dirty false (set_w_value v W)))
       else ret tt) ;;;
      W1 <- the_watcher w ;;
      ret (w_value W1)
  end

(** dep.js: [notify()], over [this.subs.slice()] *)
with Dep_notify (n : nat) (d : nat) {struct n} : M unit :=
  match n with
  | 0 => no_result
  | S n' =>
      record (EvNotify d) ;;;
      l <- gets (subsOf d) ;;
      for_each l (fun w => Watcher_update n' w)
  end

(** state.js: [computedGetter], the accessor made by [createComputedGetter] *)
with computedGetter (n : nat) (w : nat) {struct n} : M Val :=
  match n with
  | 0 => no_result
  | S n' =>
      modify (Watcher_depend w) ;;;
      Watcher_evaluate n' w
  end

(** observer/index.js: [reactiveGetter] of the closure [p] *)
with reactiveGetter (n : nat) (p : nat) {struct n} : M Val :=
  match n with
  | 0 => no_result
  | S n' =>
      P <- the_prop p ;;
      value <- match p_getter P with
               | Some g => exec n' g
               | None => ret (p_val P)
               end ;;
      t <- gets target ;;
      (if t is Some _ then
         modify (Dep_depend (p_dep P)) ;;;
         P1 <- the_prop p ;;
         match p_childOb P1 with
         | Some r =>
             o <- the_obj r ;;
             match o_ob o with
             | Some ob => modify (Dep_depend (ob_dep ob))
             | None => ret tt
             end ;;;
             dependArray n' value
         | None => ret tt
         end
       else ret tt) ;;;
      ret value
  end

(** observer/index.js: [reactiveSetter(newVal)] of the closure [p] *)
with reactiveSetter (n : nat) (p : nat) (newVal : Val) {struct n} : M unit :=
  match n with
  | 0 => no_result
  | S n' =>
      P <- the_prop p ;;
      value <- match p_getter P with
               | Some g => exec n' g
               | None => ret (p_val P)
               end ;;
      if same_value newVal value then ret tt
      else
        match p_customSetter P with
        | Some f => when dev (exec n' f ;;; ret tt)
        | None => ret tt
        end ;;;
        match p_setter P with
        | Some f => exec n' (f newVal) ;;; ret tt
        | None => modify (upd_prop p (set_p_val newVal))
        end ;;;
        childOb <- (if p_shallow P then ret None else observe n' newVal false) ;;
        modify (upd_prop p (set_p_childOb childOb)) ;;;
        Dep_notify n' (p_dep P)
  end

(** observer/index.js: [observe(value, asRootData)]; the result is the
    reference of the container whose [__ob__] is returned. *)
with observe (n : nat) (value : Val) (asRootData : bool) {struct n} : M (option nat) :=
  match n with
  | 0 => no_result
  | S n' =>
      match value with
      | VObj r =>
          o <- the_obj r ;;
          if o_isVNode o then ret None
          else
            so <- gets shouldObserve ;;
            ob <- (if o_ob o is Some _ then ret (Some r)
                   else if so && negb ssr && (o_isArray o || o_isPlain o)
                           && o_extensible o && negb (o_isVue o)
                   then Observer_new n' r ;;; ret (Some r)
                   else ret None) ;;
            when (asRootData && bool_decide (is_Some ob))
              (modify (upd_obj r (fun o =>
                 set_o_ob ((fun b => mkObserver (ob_dep b) (S (ob_vmCount b))) <$> o_ob o) o))) ;;;
            ret ob
      | _ => ret None
      end
  end

(** observer/index.js: [new Observer(value)]. The patched array methods
    that [augment] installs are those of array.js; installing them does
    not touch the state kept here. *)
with Observer_new (n : nat) (r : nat) {struct n} : M unit :=
  match n with
  | 0 => no_result
  | S n' =>
      d <- new_Dep ;;
      modify (upd_obj r (set_o_ob (Some (mkObserver d 0)))) ;;;
      o <- the_obj r ;;
      if o_isArray o then observeArray n' (o_items o)
      else walk n' r
  end

(** observer/index.js: [walk(obj)] *)
with walk (n : nat) (r : nat) {struct n} : M unit :=
  match n with
  | 0 => no_result
  | S n' =>
      o <- the_obj r ;;
      for_each (o_keys o).*1 (fun key => defineReactive n' r key None None false)
  end

(** observer/index.js: [observeArray(items)] *)
with observeArray (n : nat) (items : list Val) {struct n} : M unit :=
  match n with
  | 0 => no_result
  | S n' => for_each items (fun e => observe n' e false ;;; ret tt)
  end

(** observer/index.js: [defineReactive(obj, key, val, customSetter, shallow)];
    [val = None] is the call with two arguments. *)
with defineReactive (n : nat) (r : nat) (key : string) (val : option Val)
       (customSetter : option code) (shallow : bool) {struct n} : M unit :=
  match n with
  | 0 => no_result
  | S n' =>
      d <- new_Dep ;;
      o <- the_obj r ;;
      let property := slot_of key o in
      match property with
      | Some (SData _ false) | Some (SAccessor _ _ false) => ret tt
      | _ =>
          let getter :=
            match property with
            | Some (SAccessor g _ _) => g
            | Some (SReactive p) => Some (Read p Ret)
            | _ => None
            end in
          let setter :=
            match property with
            | Some (SAccessor _ f _) => f
            | Some (SReactive p) => Some (fun v => Write p v (Ret VUndef))
            | _ => None
            end in
          val1 <- (if (negb (bool_decide (is_Some getter)) || bool_decide (is_Some setter))
                      && negb (bool_decide (is_Some val))
                   then (* val = obj[key] *)
                     match property, getter with
                     | Some (SData v _), _ => ret v
                     | Some _, Some g => exec n' g
                     | _, _ => ret VUndef
                     end
                   else ret (default VUndef val)) ;;
          childOb <- (if shallow then ret None else observe n' val1 false) ;;
          modify (fun s => set_props
                    (<[d := mkProperty d val1 childOb getter setter customSetter shallow]>
                       (props s)) s) ;;;
          modify (upd_obj r (fun o => set_o_keys (put_slot key (SReactive d) (o_keys o)) o))
      end
  end

(** observer/traverse.js: [_traverse(val, seen)], with [seenObjects] for
    [seen]. The keys are those that [Object.keys(val)] returns when the
    loop starts; [val[i]] and [val[keys[i]]] are read when their turn
    comes, the latter through the accessor of the property where it has
    one. A key that is no longer an own property is looked up in the
    prototype, which the store does not hold: no result. *)
with _traverse (n : nat) (val : Val) {struct n} : M unit :=
  match n with
  | 0 => no_result
  | S n' =>
      match val with
      | VObj r =>
          o <- the_obj r ;;
          if o_isFrozen o || o_isVNode o then ret tt
          else
            let members :=
              if o_isArray o then
                for_each (reverse (seq 0 (length (o_items o)))) (fun i =>
                  o1 <- the_obj r ;;
                  _traverse n' (default VUndef (o_items o1 !! i)))
              else
                for_each (reverse (o_keys o).*1) (fun key =>
                  o1 <- the_obj r ;;
                  v <- match slot_of key o1 with
                       | Some (SData v _) => ret v
                       | Some (SAccessor (Some g) _ _) => exec n' g
                       | Some (SAccessor None _ _) => ret VUndef
                       | Some (SReactive p) => reactiveGetter n' p
                       | None => no_result
                       end ;;
                  _traverse n' v) in
            match o_ob o with
            | Some ob =>
                seen <- gets seenObjects ;;
                if decide (ob_dep ob ∈ seen) then ret tt
                else modify (set_seenObjects ({[ob_dep ob]} ∪ seen)) ;;; members
            | None => members
            end
      | _ => ret tt
      end
  end

(** instance/lifecycle.js: [callHook(vm, hook)] *)
with callHook (n : nat) (vm : nat) (hook : string) {struct n} : M unit :=
  match n with
  | 0 => no_result
  | S n' =>
      modify (pushTarget None) ;;;
      V <- the_vm vm ;;
      match vm_hooks V !! hook with
      | Some handlers =>
          for_each (imap (fun i h => (i, h)) handlers) (fun ih =>
            try_catch
              (record (EvHandler vm hook ih.1) ;;; exec n' ih.2 ;;; ret tt)
              (fun e => record (EvHandleError e vm (hook +:+ " hook"))))
      | None => ret tt
      end ;;;
      V1 <- the_vm vm ;;
      when (vm_hasHookEvent V1) (Vue_emit n' vm ("hook:" +:+ hook)) ;;;
      modify popTarget
  end

(** instance/events.js: [vm.$emit(event)] *)
with Vue_emit (n : nat) (vm : nat) (ev : string) {struct n} : M unit :=
  match n with
  | 0 => no_result
  | S n' =>
      V <- the_vm vm ;;
      match vm_events V !! ev with
      | Some cbs =>
          for_each cbs (fun f =>
            try_catch (exec n' f ;;; ret tt)
              (fun e => record (EvHandleError e vm
                          ("event handler for " +:+ quote +:+ ev +:+ quote))))
      | None => ret tt
      end
  end

(** instance/state.js: [getData(data, vm)], with [data = vm.$options.data] *)
with getData (n : nat) (vm : nat) {struct n} : M Val :=
  match n with
  | 0 => no_result
  | S n' =>
      modify (pushTarget None) ;;;
      V <- the_vm vm ;;
      try_finally
        (try_catch
           (record (EvData vm) ;;; exec n' (vm_data V))
           (fun e => record (EvHandleError e vm "data()") ;;; new_object))
        (fun _ => modify popTarget)
  end.

(** ** scheduler.js, the flush *)

(** [callActivatedHooks(queue)]: [activateChildComponent] belongs to the
    component tree and is left as a call out of the engine. *)
Definition callActivatedHooks (q : list nat) : M unit :=
  for_each q (fun vm => record (EvActivated vm)).

(** [callUpdatedHooks(queue)], a [while (i--)] loop *)
Definition callUpdatedHooks (n : nat) (q : list nat) : M unit :=
  for_each (reverse q) (fun w =>
    W <- the_watcher w ;;
    V <- the_vm (w_vm W) ;;
    when (bool_decide (vm_watcher V = Some w) && vm_isMounted V)
      (callHook n (w_vm W) "updated")).

(** The body of the [for] loop of [flushSchedulerQueue], for
    [watcher = queue[index]]; the result is [false] when the body ends
    in [break]. *)
Definition flush_turn (n : nat) (w : nat) : M bool :=
  W <- the_watcher w ;;
  match w_before W with
  | Some b => record (EvBefore w) ;;; exec n b ;;; ret tt
  | None => ret tt
  end ;;;
  modify (fun s => set_has (has s ∖ {[w]}) s) ;;;
  Watcher_run n w ;;;
  again <- gets (fun s => bool_decide (w ∈ has s)) ;;
  if dev && again then
    modify (fun s => set_circular
              (<[w := S (default 0 (circular s !! w))]> (circular s)) s) ;;;
    c <- gets (fun s => default 0 (circular s !! w)) ;;
    if bool_decide (MAX_UPDATE_COUNT < c)
    then record (EvWarn (loop_warning W) (w_vm W)) ;;; ret false
    else ret true
  else ret true.

(** The loop [for (index = 0; index < queue.length; index++)], entered
    with [index] already set; [queue] and [index] are read afresh at
    every turn. *)
Fixpoint flushLoop (n : nat) {struct n} : M unit :=
  match n with
  | 0 => no_result
  | S n' =>
      i <- gets index ;;
      q <- gets queue ;;
      match q !! i with
      | None => ret tt
      | Some w =>
          continue <- flush_turn n' w ;;
          if continue : bool
          then modify (fun s => set_index (S (index s)) s) ;;; flushLoop n'
          else ret tt
      end
  end.

(** [flushSchedulerQueue()]; the closing [devtools.emit('flush')] is a
    call out of the engine that nothing here observes. *)
Definition flushSchedulerQueue (n : nat) : M unit :=
  modify (set_flushing true) ;;;
  modify (fun s => set_queue (sort_queue (queue s)) s) ;;;
  modify (set_index 0) ;;;
  flushLoop n ;;;
  activatedQueue <- gets activatedChildren ;;
  updatedQueue <- gets queue ;;
  modify resetSchedulerState ;;;
  callActivatedHooks activatedQueue ;;;
  callUpdatedHooks n updatedQueue.

(** Modelled from the spec: [nextTick] of util is not among the sources.
    It is "invoke this callback once, after currently queued synchronous
    work": [next_tick] is the host taking one flush off [ticks] and
    running it. *)
Definition next_tick (n : nat) : M unit :=
  t <- gets ticks ;;
  match t with
  | 0 => ret tt
  | S t' => modify (set_ticks t') ;;; flushSchedulerQueue n
  end.

End Engine.

(** * Specifications *)

(** ** Subscriber lists *)

(** The loop shared by [cleanupDeps] and [teardown]: [removeSub(this)] on
    those Deps of [l] that [keep] does not retain. *)
Definition unsubscribe (w : nat) (keep : gset nat) (l : list nat) (s : State) : State :=
  foldl (fun s d => if decide (d ∈ keep) then s else Dep_removeSub d w s) s l.

(** What ties the subscriber lists to the bookkeeping of the watchers:
    no list holds a watcher twice; a watcher is in the list of a Dep only
    if it has that Dep in [depIds] or [newDepIds]; and the id sets are
    covered by the arrays they shadow. *)
Record subs_inv (s : State) : Prop := {
  inv_NoDup : ∀ d, NoDup (subsOf d s);
  inv_known : ∀ d w, w ∈ subsOf d s →
    ∃ W, watchers s !! w = Some W ∧ (d ∈ w_depIds W ∨ d ∈ w_newDepIds W);
  inv_deps : ∀ w W d, watchers s !! w = Some W → d ∈ w_depIds W → d ∈ w_deps W;
  inv_newDeps : ∀ w W d, watchers s !! w = Some W → d ∈ w_newDepIds W → d ∈ w_newDeps W
}.

(** ** Relations that every engine call respects *)

(** [preserves R m]: whenever [m] has a result, the state it ends in is
    related by [R] to the state it started from. *)
Definition preserves {A} (R : relation State) (m : M A) : Prop :=
  ∀ s r s', m s = Some (r, s') → R s s'.

Section Specs.
Context (dev ssr : bool).
Context (R : relation State) (cb_ok : nat → bool).

  (** The steps out of which the engine is built. [cb_ok w] says that
      recording a call of the callback of [w] respects [R]; for the other
      watchers [R] must hold vacuously from a state in which they are
      active, since that is where [run] calls the callback. *)
Record respects : Prop := {
    rs_preorder : PreOrder R;
    rs_pushTarget t s : R s (pushTarget t s);
    rs_popTarget s : R s (popTarget s);
    rs_seen x s : R s (set_seenObjects x s);
    rs_depend d s : R s (Dep_depend d s);
    rs_cleanupDeps w s : R s (Watcher_cleanupDeps w s);
    rs_teardown w s : R s (Watcher_teardown w s);
    rs_value w v s :
      R s (upd_watcher w (fun W => set_w_dirty false (set_w_value v W)) s);
    rs_dirty w s : R s (upd_watcher w (set_w_dirty true) s);
    rs_queueWatcher w s : R s (queueWatcher w s);
    rs_upd_prop p f s : R s (upd_prop p f s);
    rs_set_ob r d s : R s (upd_obj r (set_o_ob (Some (mkObserver d 0))) s);
    rs_vmCount r s :
      R s (upd_obj r (fun o =>
             set_o_ob ((fun b => mkObserver (ob_dep b) (S (ob_vmCount b))) <$> o_ob o) o) s);
    rs_set_keys r key d s :
      R s (upd_obj r (fun o => set_o_keys (put_slot key (SReactive d) (o_keys o)) o) s);
    rs_new_prop d P s : R s (set_props (<[d := P]> (props s)) s);
    rs_new_Dep s :
      R s (set_dep_uid (S (dep_uid s))
             (set_dep_subs (<[dep_uid s := []]> (dep_subs s)) s));
    rs_new_object s :
      R s (set_next_ref (S (next_ref s))
             (set_objects (<[next_ref s := empty_object]> (objects s)) s));
    rs_record e s :
      (∀ w v o, e = EvCallback w v o → cb_ok w = true) →
      R s (set_trace (trace s ++ [e]) s);
    rs_active w W s s' :
      cb_ok w = false → watchers s !! w = Some W → w_active W = true → R s s'
  }.

  (** The same for the flush, given the steps of scheduler.js. *)
Record respects_sched : Prop := {
    rf_flushing s : R s (set_flushing true s);
    rf_sort s : R s (set_queue (sort_queue (queue s)) s);
    rf_index i s : R s (set_index i s);
    rf_has w s : R s (set_has (has s ∖ {[w]}) s);
    rf_circular w s :
      R s (set_circular (<[w := S (default 0 (circular s !! w))]> (circular s)) s);
    rf_reset s : R s (resetSchedulerState dev s);
    rf_ticks t s : R s (set_ticks t s)
  }.

  (** What is shown of the functions of the engine at a given fuel. *)
Record engine_preserves (n : nat) : Prop := {
    ep_exec c : preserves R (exec dev ssr n c);
    ep_get w : preserves R (Watcher_get dev ssr n w);
    ep_traverse v : preserves R (_traverse dev ssr n v);
    ep_getAndInvoke w cb :
      cb_ok w = true ∨ cb = NotifyOwnDep →
      preserves R (Watcher_getAndInvoke dev ssr n w cb);
    ep_run w : preserves R (Watcher_run dev ssr n w);
    ep_update w : preserves R (Watcher_update dev ssr n w);
    ep_evaluate w : preserves R (Watcher_evaluate dev ssr n w);
    ep_notify d : preserves R (Dep_notify dev ssr n d);
    ep_computedGetter w : preserves R (computedGetter dev ssr n w);
    ep_reactiveGetter p : preserves R (reactiveGetter dev ssr n p);
    ep_reactiveSetter p v : preserves R (reactiveSetter dev ssr n p v);
    ep_observe v b : preserves R (observe dev ssr n v b);
    ep_Observer_new r : preserves R (Observer_new dev ssr n r);
    ep_walk r : preserves R (walk dev ssr n r);
    ep_observeArray l : preserves R (observeArray dev ssr n l);
    ep_defineReactive r k v c b :
      preserves R (defineReactive dev ssr n r k v c b);
    ep_callHook vm h : preserves R (callHook dev ssr n vm h);
    ep_emit vm e : preserves R (Vue_emit dev ssr n vm e);
    ep_getData vm : preserves R (getData dev ssr n vm)
  }.

End Specs.

Definition subs_inv_kept : relation State := fun s s' => subs_inv s → subs_inv s'.


(** The operations on subscriptions that the rest of the engine is built
    from: entering and leaving an evaluation, tracking a Dep, and the two
    ways of unsubscribing. *)
Inductive dep_op : Type :=
  | OpPushTarget (t : option nat)
  | OpPopTarget
  | OpTrack (d : nat)          (* dep.depend() *)
  | OpCleanup (w : nat)        (* watcher.cleanupDeps() *)
  | OpTeardown (w : nat).      (* watcher.teardown() *)

Definition run_op (s : State) (o : dep_op) : State :=
  match o with
  | OpPushTarget t => pushTarget t s
  | OpPopTarget => popTarget s
  | OpTrack d => Dep_depend d s
  | OpCleanup w => Watcher_cleanupDeps w s
  | OpTeardown w => Watcher_teardown w s
  end.

(** ** One evaluation of a watcher *)

(** [dep.depend()] on each of [rs] in turn: what an evaluation amounts to
    for the engine when its getter reads [rs]. *)
Definition track_all (rs : list nat) (s : State) : State :=
  foldl (fun s d => Dep_depend d s) s rs.

(** The value that [get()] holds in [value] after the [try] block. *)
Definition value_of (r : Res Val) : Val :=
  match r with Ok v => v | Thrown _ => VUndef end.

(** The state in which the [finally] block of [get()] starts, when the
    getter completed with [r] in [s]: a user watcher has reported what
    the getter threw. *)
Definition after_getter (W : Watcher) (r : Res Val) (s : State) : State :=
  match r with
  | Thrown e =>
      if w_user W
      then set_trace (trace s ++ [EvHandleError e (w_vm W) (getter_info W)]) s
      else s
  | Ok _ => s
  end.

(** How [get()] completes when its getter completed with [r]. *)
Definition get_result (W : Watcher) (r : Res Val) : Res Val :=
  match r with
  | Thrown e => if w_user W then Ok VUndef else Thrown e
  | Ok v => Ok v
  end.

(** The state in which [get()] enters the getter of [w]. *)
Definition getter_start (w : nat) (s : State) : State :=
  let s0 := pushTarget (Some w) s in
  set_trace (trace s0 ++ [EvGetter w]) s0.

Section GetParts.
Context (dev ssr : bool).

(** The [finally] block of [get()], entered with [value] as the [try]
    block left it. *)
Definition get_finally (n : nat) (w : nat) (W : Watcher) (value : Val) : M unit :=
  when (w_deep W) (traverse (_traverse dev ssr n) value) ;;;
  modify popTarget ;;;
  modify (Watcher_cleanupDeps w).

(** How [get()] completes: as the [finally] block does when that
    throws, else as the [try] block did. *)
Definition get_end (W : Watcher) (r : Res Val) (f : option (Res unit * State))
  : option (Res Val * State) :=
  match f with
  | Some (Ok _, s') => Some (get_result W r, s')
  | Some (Thrown e, s') => Some (Thrown e, s')
  | None => None
  end.

End GetParts.

(** ** A watcher that was torn down *)

Definition inactive (w : nat) (s : State) : Prop :=
  ∃ W, watchers s !! w = Some W ∧ w_active W = false.

(** No call of the callback of [w] among the events [t]. *)
Definition no_callback (w : nat) (t : list event) : Prop :=
  ∀ v old, EvCallback w v old ∉ t.

(** From a state in which [w] is inactive: [w] is still inactive, and
    what was added to the trace holds no call of its callback. *)
Definition stays_silent (w : nat) : relation State := fun s s' =>
  inactive w s →
  inactive w s' ∧ ∃ t, trace s' = trace s ++ t ∧ no_callback w t.

(** ** What never changes in a watcher *)

(** The fields of a watcher that are set by its constructor only. *)
Definition same_watcher (W W' : Watcher) : Prop :=
  w_vm W' = w_vm W ∧ w_expression W' = w_expression W ∧ w_cb W' = w_cb W
  ∧ w_deep W' = w_deep W ∧ w_user W' = w_user W ∧ w_computed W' = w_computed W
  ∧ w_sync W' = w_sync W ∧ w_dep W' = w_dep W ∧ w_before W' = w_before W
  ∧ w_getter W' = w_getter W.

(** The watcher [w] stays in the store, with these fields as they were. *)
Definition keeps_watcher (w : nat) : relation State := fun s s' =>
  ∀ W, watchers s !! w = Some W →
       ∃ W', watchers s' !! w = Some W' ∧ same_watcher W W'.

(** ** Writes to a reactive property *)

Section SetterParts.
Context (dev ssr : bool).

(** [getter ? getter.call(obj) : val], the first statement of both
    accessors. *)
Definition current_value (n : nat) (P : Property) : M Val :=
  match p_getter P with
  | Some g => exec dev ssr n g
  | None => ret (p_val P)
  end.

(** The statements of [reactiveSetter] between its test and
    [childOb = ...]: the custom setter, then the assignment. *)
Definition store_value (n : nat) (p : nat) (P : Property) (newVal : Val) : M unit :=
  match p_customSetter P with
  | Some f => when dev (exec dev ssr n f ;;; ret tt)
  | None => ret tt
  end ;;;
  match p_setter P with
  | Some f => exec dev ssr n (f newVal) ;;; ret tt
  | None => modify (upd_prop p (set_p_val newVal))
  end.

End SetterParts.

(** A container without observer to which [observe] attaches one. *)
Definition observable (ssr : bool) (r : nat) (s : State) : Prop :=
  ∃ o, objects s !! r = Some o
       ∧ o_isVNode o = false ∧ o_ob o = None
       ∧ shouldObserve s = true ∧ ssr = false
       ∧ o_isArray o || o_isPlain o = true
       ∧ o_extensible o = true ∧ o_isVue o = false.

Definition observed (r : nat) (s : State) : Prop :=
  ∃ o ob, objects s !! r = Some o ∧ o_ob o = Some ob.

(** References are handed out in order. *)
Definition refs_fresh (s : State) : Prop :=
  ∀ r, is_Some (objects s !! r) → r < next_ref s.

Definition stays_observed (r : nat) : relation State := fun s s' =>
  refs_fresh s → observed r s → refs_fresh s' ∧ observed r s'.

(** ** The scheduler *)

(** The part of the queue behind the cursor. *)
Definition pending (s : State) : list nat := drop (S (index s)) (queue s).

(** Between two flushes: every queued watcher is queued once, and [has]
    holds the ids of the queue. *)
Definition idle_inv (s : State) : Prop :=
  flushing s = false ∧ NoDup (queue s) ∧ ∀ x, x ∈ queue s ↔ x ∈ has s.

(** During a turn of the flush loop: the cursor is on the watcher being
    run, and the watchers behind it are in strictly ascending order of
    id and flagged in [has]. *)
Definition flush_inv (s : State) : Prop :=
  flushing s = true ∧ index s < length (queue s)
  ∧ StronglySorted lt (pending s) ∧ ∀ x, x ∈ pending s → x ∈ has s.

(** At the head of the flush loop: the same from the cursor on. *)
Definition loop_inv (s : State) : Prop :=
  flushing s = true
  ∧ StronglySorted lt (drop (index s) (queue s))
  ∧ ∀ x, x ∈ drop (index s) (queue s) → x ∈ has s.

Definition sched_ok (s : State) : Prop := flush_inv s ∨ idle_inv s.

(** What a call made from application code may do to the scheduler:
    flag and enqueue watchers, behind the cursor when a flush is in
    progress and at the end of the queue otherwise. *)
Definition sched_kept : relation State := fun s s' =>
  sched_ok s →
  sched_ok s' ∧ flushing s' = flushing s ∧ index s' = index s
  ∧ has s ⊆ has s'
  ∧ (flushing s = true →
     take (S (index s)) (queue s') = take (S (index s)) (queue s)
     ∧ (∀ x, x ∈ pending s' → x ∈ pending s ∨ x ∉ has s)
     ∧ ∀ x, x ∈ pending s → x ∈ pending s')
  ∧ (flushing s = false → queue s `prefix_of` queue s').

(** The state in which [flushSchedulerQueue] enters its loop. *)
Definition flush_start (s : State) : State :=
  set_index 0 (set_queue (sort_queue (queue s)) (set_flushing true s)).

Section FlushSteps.
Context (dev ssr : bool).

(** The first half of a turn of the flush loop: the [before] hook, the
    clearing of [has[id]], and [run()]. *)
Definition turn_run (n : nat) (w : nat) : M unit :=
  W <- the_watcher w ;;
  match w_before W with
  | Some b => record (EvBefore w) ;;; exec dev ssr n b ;;; ret tt
  | None => ret tt
  end ;;;
  modify (fun s => set_has (has s ∖ {[w]}) s) ;;;
  Watcher_run dev ssr n w.

(** The second half, the guard against circular updates, from the state
    [s] that [run()] left: the state it leaves, and whether the loop
    goes on. *)
Definition circular_check (w : nat) (W : Watcher) (s : State) : bool * State :=
  if dev && bool_decide (w ∈ has s) then
    let c := S (default 0 (circular s !! w)) in
    let s1 := set_circular (<[w := c]> (circular s)) s in
    if bool_decide (MAX_UPDATE_COUNT < c)
    then (false, set_trace (trace s1 ++ [EvWarn (loop_warning W) (w_vm W)]) s1)
    else (true, s1)
  else (true, s).

(** The flush loop again, with a log of its turns: each turn as the
    watcher that had it, the part of the queue that was behind it when
    the turn began, and the part behind it when the turn ended. The
    log comes with how the loop ended and the state it ended in. *)
Fixpoint flush_log (n : nat) (s : State) {struct n}
  : option (list (nat * list nat * list nat) * Res unit * State) :=
  match n with
  | 0 => None
  | S n' =>
      match queue s !! index s with
      | None => Some ([], Ok tt, s)
      | Some w =>
          match flush_turn dev ssr n' w s with
          | Some (Ok true, s1) =>
              match flush_log n' (set_index (S (index s1)) s1) with
              | Some (steps, r, s') => Some ((w, pending s, pending s1) :: steps, r, s')
              | None => None
              end
          | Some (Ok false, s1) => Some ([(w, pending s, pending s1)], Ok tt, s1)
          | Some (Thrown e, s1) => Some ([(w, pending s, pending s1)], Thrown e, s1)
          | None => None
          end
      end
  end.

End FlushSteps.

(** The watchers that had a turn, in order. *)
Definition runs (steps : list (nat * list nat * list nat)) : list nat :=
  map (fun t => t.1.1) steps.

(** The loop ended because the cursor reached the end of the queue. *)
Definition completed (r : Res unit) (s : State) : Prop :=
  r = Ok tt ∧ queue s !! index s = None.

(** The turn [t] put [w] into the part of the queue that was still to
    run: [w] was behind the cursor when the turn ended and had not been
    when it began. *)
Definition requeued_in (w : nat) (t : nat * list nat * list nat) : bool :=
  bool_decide (w ∈ t.2) && negb (bool_decide (w ∈ t.1.2)).

(** The number of turns of [steps] that did so. *)
Definition requeues (w : nat) (steps : list (nat * list nat * list nat)) : nat :=
  length (List.filter (requeued_in w) steps).

(** A turn in order: its watcher is below all that were behind it, which
    were in ascending order; they are still behind it at its end, with
    what the turn added, in ascending order. *)
Definition turn_ok (t : nat * list nat * list nat) : Prop :=
  StronglySorted lt (t.1.1 :: t.1.2)
  ∧ StronglySorted lt t.2
  ∧ ∀ x, x ∈ t.1.2 → x ∈ t.2.

(** * A small store

    The record [{a: 1}] of scenario 1: its field is the closure 0 with
    the Dep 0, and the user watcher 1 of the component 0 watches it, in
    the batched mode. *)

Definition ex_vm : VM :=
  mkVM [1] None false false false ∅ ∅ (Ret VUndef).

Definition ex_watcher : Watcher :=
  mkWatcher 0 "a" (fun _ _ => Ret VUndef)
    false true false false false true 0
    [0] [] {[0]} ∅ None (Read 0 Ret) (VNum 1).

Definition ex_prop : Property :=
  mkProperty 0 (VNum 1) None None None None false.

Definition ex_state : State :=
  mkState ∅ {[1 := ex_watcher]} {[0 := [1]]} 1 None [] [] [] ∅ ∅
          false false 0 true ∅ 0 {[0 := ex_prop]} {[0 := ex_vm]} 0 [].

(** No Dep, no watcher, nothing scheduled. *)
Definition blank : State :=
  mkState ∅ ∅ ∅ 0 None [] [] [] ∅ ∅ false false 0 true ∅ 0 ∅ ∅ 0 [].

(** The fields [a] and [b], closures 0 and 1, hold 1 and 2. The watcher
    1 was evaluated while [a] was 0 and is subscribed to the Dep of
    [a]. Its getter reads [a], calls [teardown()] on the watcher
    itself, as an [unwatch] called from inside the watched function
    does, and then reads [b]. *)
Definition quitter_state : State :=
  mkState ∅ {[1 := mkWatcher 0 "a + b" (fun _ _ => Ret VUndef)
                   false true false false false true 0
                   [0] [] {[0]} ∅ None
                   (Read 0 (fun a => Teardown 1 (Read 1 (fun _ => Ret a))))
                   (VNum 0)]}
          {[0 := [1]; 1 := []]} 2 None [] [] [] ∅ ∅
          false false 0 true ∅ 0
          {[0 := mkProperty 0 (VNum 1) None None None None false;
            1 := mkProperty 1 (VNum 2) None None None None false]}
          {[0 := ex_vm]} 0 [].

(** [truthy v], as in [if (v)] *)
Definition truthy (v : Val) : bool :=
  match v with
  | VUndef | VNull | VNaN => false
  | VBool b => b
  | VNum z => negb (bool_decide (z = 0%Z))
  | VStr s => negb (bool_decide (s = ""%string))
  | VObj _ => true
  end.

(** A watcher whose getter is [() => this.flag ? this.x : undefined], in
    the state that its evaluation with [flag = true] left behind and
    after [flag] was set to [false]: it is subscribed to the Deps 0 (of
    [flag]) and 1 (of [x]). *)
Definition stale_getter : code :=
  Read 0 (fun flag => if truthy flag then Read 1 Ret else Ret VUndef).

Definition stale_watcher : Watcher :=
  mkWatcher 0 "flag ? x : undefined" (fun _ _ => Ret VUndef)
    false true false false false true 0
    [0; 1] [] {[0; 1]} ∅ None stale_getter (VNum 7).

Definition stale_state : State :=
  mkState ∅ {[1 := stale_watcher]} {[0 := [1]; 1 := [1]]} 2 None [] [] [] ∅ ∅
          false false 0 true ∅ 0
          {[0 := mkProperty 0 (VBool false) None None None None false;
            1 := mkProperty 1 (VNum 7) None None None None false]}
          {[0 := ex_vm]} 0 [].

(** A user watcher whose getter throws, with the value 1 cached from an
    earlier evaluation. *)
Definition throw_watcher : Watcher :=
  mkWatcher 0 "x" (fun _ _ => Ret VUndef)
    false true false false false true 0
    [] [] ∅ ∅ None (Raise "boom") (VNum 1).

Definition throw_state : State :=
  mkState ∅ {[1 := throw_watcher]} ∅ 0 None [] [] [] ∅ ∅
          false false 0 true ∅ 0 ∅ {[0 := ex_vm]} 0 [].

(** Scenario 3: the computed watcher 2 for [double = a * 2], over the
    field [a] of [ex_state] set to 5, never read so far. *)
Definition times2 (v : Val) : Val :=
  match v with VNum z => VNum (2 * z) | _ => VNaN end.

Definition double_watcher : Watcher :=
  mkWatcher 0 "double" (fun _ _ => Ret VUndef)
    false false true false true true 1
    [] [] ∅ ∅ None (Read 0 (fun a => Ret (times2 a))) VUndef.

Definition double_state : State :=
  mkState ∅ {[2 := double_watcher]} {[0 := []; 1 := []]} 2 None [] [] [] ∅ ∅
          false false 0 true ∅ 0
          {[0 := mkProperty 0 (VNum 5) None None None None false]}
          {[0 := ex_vm]} 0 [].

(** A field defined with [shallow = true] that holds 1, and an
    unobserved plain object under the reference 5. *)
Definition shallow_state : State :=
  mkState ∅ ∅ {[0 := []]} 1 None [] [] [] ∅ ∅
          false false 0 true {[5 := empty_object]} 6
          {[0 := mkProperty 0 (VNum 1) None None None None true]}
          ∅ 0 [].

(** The same with [shallow = false]. *)
Definition deep_state : State :=
  set_props {[0 := mkProperty 0 (VNum 1) None None None None false]} shallow_state.

(** * Stores for the scheduler *)

(** Three writes to the field [a] of [ex_state], in one burst. *)
Definition three_writes : code :=
  Write 0 (VNum 2) (Write 0 (VNum 3) (Write 0 (VNum 4) (Ret VUndef))).

(** The fields [a] and [b], closures 0 and 1. The watchers 2 and 4 watch
    [a], the watchers 1 and 3 watch [b], and the callback of 2 writes
    what it was given to [b]. *)
Definition watch (key : string) (p : nat) (cb : Val → Val → code) (v : Val) : Watcher :=
  mkWatcher 0 key cb false true false false false true 0
    [p] [] {[p]} ∅ None (Read p Ret) v.

Definition relay_state : State :=
  mkState ∅ {[1 := watch "b" 1 (fun _ _ => Ret VUndef) (VNum 0);
            2 := watch "a" 0 (fun v _ => Write 1 v (Ret VUndef)) (VNum 0);
            3 := watch "b" 1 (fun _ _ => Ret VUndef) (VNum 0);
            4 := watch "a" 0 (fun _ _ => Ret VUndef) (VNum 0)]}
          {[0 := [4; 2]; 1 := [3; 1]]} 2 None [] [] [] ∅ ∅
          false false 0 true ∅ 0
          {[0 := mkProperty 0 (VNum 0) None None None None false;
            1 := mkProperty 1 (VNum 0) None None None None false]}
          {[0 := ex_vm]} 0 [].

(** A watcher of [a] whose callback writes [a + 1] to [a], as long as
    [a] is below [limit]. *)
Definition bump (p : nat) (limit : Z) (v : Val) : code :=
  match v with
  | VNum z => if bool_decide (z < limit)%Z then Write p (VNum (z + 1)) (Ret VUndef)
              else Ret VUndef
  | _ => Ret VUndef
  end.

Definition self_watcher (limit : Z) : Watcher :=
  watch "a" 0 (fun v _ => bump 0 limit v) (VNum 0).

Definition self_state (limit : Z) : State :=
  mkState ∅ {[1 := self_watcher limit]}
          {[0 := [1]]} 1 None [] [] [] ∅ ∅
          false false 0 true ∅ 0
          {[0 := mkProperty 0 (VNum 0) None None None None false]}
          {[0 := ex_vm]} 0 [].

(** Two watchers that trigger each other: 1 watches [x] and its callback
    writes the value to [y]; 2 watches [y] and its callback writes
    [y + 1] to [x], as long as [y] is below [limit]. *)
Definition mutual_state (limit : Z) : State :=
  mkState ∅ {[1 := watch "x" 0 (fun v _ => Write 1 v (Ret VUndef)) (VNum 0);
            2 := watch "y" 1 (fun v _ => bump 0 limit v) (VNum 0)]}
          {[0 := [1]; 1 := [2]]} 2 None [] [] [] ∅ ∅
          false false 0 true ∅ 0
          {[0 := mkProperty 0 (VNum 0) None None None None false;
            1 := mkProperty 1 (VNum 0) None None None None false]}
          {[0 := ex_vm]} 0 [].

(** The state that [c] leaves, or [s] itself where it leaves none. *)
Definition after {A} (c : M A) (s : State) : State :=
  match c s with Some (_, s') => s' | None => s end.

Definition is_warn (e : event) : bool :=
  match e with EvWarn _ _ => true | _ => false end.

Definition is_callback (w : nat) (e : event) : bool :=
  match e with EvCallback w' _ _ => bool_decide (w' = w) | _ => false end.

(** The calls of the callback of [w] among the events [t], counted. *)
Definition callbacks (w : nat) (t : list event) : nat :=
  length (filter (fun e => is_callback w e = true) t).

(** * Stores for the hooks *)

(** The watcher 1 of the component 0 calls [callHook(vm, "created")] in
    the middle of its getter, as a render function does when it creates
    a child; the computed watcher 2 has not been evaluated; the field
    [a] is the closure 0. The hook has the one handler [h], and
    [data()] is [d]. *)
Definition render_watcher (getter : code) : Watcher :=
  mkWatcher 0 "render" (fun _ _ => Ret VUndef)
    false false false false false true 0
    [] [] ∅ ∅ None getter VUndef.

Definition hook_watcher : Watcher :=
  render_watcher (RunHook 0 "created" (Ret VUndef)).

Definition one_watcher : Watcher :=
  mkWatcher 0 "one" (fun _ _ => Ret VUndef)
    false false true false true true 1
    [] [] ∅ ∅ None (Ret (VNum 1)) VUndef.

Definition hook_state (h d : code) : State :=
  mkState ∅ {[1 := hook_watcher; 2 := one_watcher]} {[0 := []; 1 := []]} 2
          None [] [] [] ∅ ∅ false false 0 true ∅ 0
          {[0 := mkProperty 0 (VNum 5) None None None None false]}
          {[0 := mkVM [1; 2] None false false false {["created" := [h]]} ∅ d]} 0 [].

(** A handler that only reads [a]; one that first calls another hook;
    one that first reads the computed property. *)
Definition read_a : code := Read 0 (fun _ => Ret VUndef).
Definition hook_then_read : code := RunHook 0 "mounted" read_a.
Definition computed_then_read : code := ReadComputed 2 (fun _ => read_a).

(** The same with [getData] in the place of the hook. *)
Definition data_state (d : code) : State :=
  set_watchers
    {[1 := render_watcher (InitData 0 (fun _ => Ret VUndef));
      2 := one_watcher]}
    (hook_state (Ret VUndef) d).

(** The watcher 1 of [hook_state], batched, with a getter that calls
    [callHook(vm, "created")] and then returns the field [a]. *)
Definition hook_read_state (h : code) : State :=
  set_watchers
    {[1 := render_watcher (RunHook 0 "created" (Read 0 Ret)); 2 := one_watcher]}
    (hook_state h (Ret VUndef)).

(** What an evaluation of watcher 1 leaves: how [get()] completed, the
    subscribers of the Dep of [a], the [deps] of the watcher, and the
    target and its stack. *)
Definition outcome (x : option (Res Val * State))
  : option (Res Val * list nat * option (list nat) * option nat * list nat) :=
  (fun x => (fst x, subsOf 0 (snd x), w_deps <$> watchers (snd x) !! 1,
             target (snd x), targetStack (snd x))) <$> x.
(** ** Completions *)

(** [m] never completes by throwing. *)
Definition returns_ok {A} (m : M A) : Prop :=
  ∀ s r s', m s = Some (r, s') → ∃ a, r = Ok a.

(** The trace only grows. *)
Definition trace_grows : relation State := fun s s' =>
  ∃ t, trace s' = trace s ++ t.

(** The handlers of [vm.$options[hook]]. *)
Definition handlers_of (V : VM) (hook : string) : list code :=
  default [] (vm_hooks V !! hook).

(** A function of the application that returns, or throws, at once. *)
Definition at_once (o : Val + Exn) : code :=
  match o with
  | inl v => Ret v
  | inr e => Raise e
  end.

(** What [callHook(vm, hook)] leaves in the trace for handlers that
    complete as [os], the first of them being the handler [k]: the call
    of each handler, followed by [handleError] if the handler threw. *)
Fixpoint hook_events (vm : nat) (hook : string) (k : nat) (os : list (Val + Exn))
  : list event :=
  match os with
  | [] => []
  | o :: os' =>
      EvHandler vm hook k
      :: match o with
         | inl _ => []
         | inr e => [EvHandleError e vm (hook +:+ " hook")]
         end
      ++ hook_events vm hook (S k) os'
  end.

(** The component 0 with three handlers for [created], the second of
    which throws, and a listener for the hook event that throws too. *)
Definition noisy_vm : VM :=
  mkVM [] None false false true
       {["created" := [Ret VUndef; Raise "oops"; Ret VUndef]]}
       {["hook:created" := [Raise "late"; Ret VUndef]]}
       (Raise "no data").

Definition noisy_state : State :=
  mkState ∅ ∅ ∅ 0 None [] [] [] ∅ ∅ false false 0 true ∅ 0 ∅ {[0 := noisy_vm]} 0 [].
(** A user watcher of the field [a] whose callback throws. *)
Definition grumpy_state : State :=
  mkState ∅ {[1 := watch "a" 0 (fun _ _ => Raise "cb") (VNum 0)]}
          {[0 := [1]]} 1 None [] [] [] ∅ ∅ false false 0 true ∅ 0
          {[0 := mkProperty 0 (VNum 1) None None None None false]}
          {[0 := ex_vm]} 0 [].

(** A deep user watcher whose getter returns the plain object 0, which
    has no observer and one property, an accessor whose getter throws. *)
Definition thorny_state : State :=
  mkState ∅ {[1 := mkWatcher 0 "form" (fun _ _ => Ret VUndef)
                   true true false false false true 0
                   [] [] ∅ ∅ None (Ret (VObj 0)) VUndef]}
          ∅ 0 None [] [] [] ∅ ∅ false false 0 true
          {[0 := mkObj false false true true false false None
                   [("bad", SAccessor (Some (Raise "thorn")) None true)] []]}
          1 ∅ {[0 := ex_vm]} 0 [].

(** [w] is a watcher of the store that [update()] hands to the
    scheduler. *)
Definition batched (w : nat) (s : State) : Prop :=
  ∃ W, watchers s !! w = Some W ∧ w_computed W = false ∧ w_sync W = false.

(** [queueWatcher] for each of [l] in turn. *)
Definition queue_all (l : list nat) (s : State) : State :=
  foldl (fun s w => queueWatcher w s) s l.
(** ** Flushes handed to [nextTick] *)

(** Between two flushes: a flush is waiting to run exactly if [waiting]
    is set, and it is set whenever a watcher is queued. *)
Definition scheduled (s : State) : Prop :=
  flushing s = false
  ∧ ticks s = (if waiting s then 1 else 0)
  ∧ (queue s ≠ [] → waiting s = true).

(** What the engine keeps of the flags of the scheduler. *)
Definition sched_flags : relation State := fun s s' =>
  flushing s' = flushing s
  ∧ (waiting s = true → waiting s' = true ∧ ticks s' = ticks s)
  ∧ (scheduled s → scheduled s').

(** The watcher 1 is not a user watcher, and its getter throws once the
    field [a] is no longer 0. *)
Definition fragile_state : State :=
  mkState ∅ {[1 := mkWatcher 0 "render" (fun _ _ => Ret VUndef)
                   false false false false false true 0
                   [0] [] {[0]} ∅ None
                   (Read 0 (fun v => if strict_eq v (VNum 0) then Ret v else Raise "boom"))
                   (VNum 0)]}
          {[0 := [1]]} 1 None [] [] [] ∅ ∅ false false 0 true ∅ 0
          {[0 := mkProperty 0 (VNum 0) None None None None false]}
          {[0 := ex_vm]} 0 [].
(** ** An active computed watcher *)

Definition positive (v : Val) : Val :=
  match v with
  | VNum z => VBool (bool_decide (0 < z)%Z)
  | _ => VBool false
  end.

(** The computed watcher 2 is [() => this.a > 0], evaluated while [a]
    was 1; its Dep 1 has the batched watcher 1 of the component as its
    one subscriber. *)
Definition sign_state : State :=
  mkState ∅ {[1 := mkWatcher 0 "render" (fun _ _ => Ret VUndef)
                   false false false false false true 0
                   [1] [] {[1]} ∅ None (ReadComputed 2 Ret) (VBool true);
            2 := mkWatcher 0 "positive" (fun _ _ => Ret VUndef)
                   false false true false false true 1
                   [0] [] {[0]} ∅ None (Read 0 (fun a => Ret (positive a))) (VBool true)]}
          {[0 := [2]; 1 := [1]]} 2 None [] [] [] ∅ ∅ false false 0 true ∅ 0
          {[0 := mkProperty 0 (VNum 1) None None None None false]}
          {[0 := ex_vm]} 0 [].

(** ** Conversion of a container by its observer *)

(** What never changes of a container. *)
Definition same_flags (o o' : Obj) : Prop :=
  o_isArray o' = o_isArray o ∧ o_isPlain o' = o_isPlain o
  ∧ o_extensible o' = o_extensible o ∧ o_isVue o' = o_isVue o
  ∧ o_isVNode o' = o_isVNode o ∧ o_items o' = o_items o.

(** What a call of the engine keeps: the closures of [defineReactive]
    that there are; of the containers, their flags and elements; and of
    a container that has its observer, the observer and, the container
    [X] aside, its properties. *)
Definition keys_kept (X : option nat) : relation State := fun s s' =>
  refs_fresh s →
  refs_fresh s' ∧ shouldObserve s' = shouldObserve s
  ∧ (∀ p, is_Some (props s !! p) → is_Some (props s' !! p))
  ∧ ∀ r o, objects s !! r = Some o →
      ∃ o', objects s' !! r = Some o' ∧ same_flags o o'
            ∧ (is_Some (o_ob o) →
               is_Some (o_ob o') ∧ (X ≠ Some r → o_keys o' = o_keys o)).

(** What is shown of the functions of the engine at a given fuel. *)
Record keys_preserved (dev ssr : bool) (n : nat) : Prop := {
  kp_exec c : preserves (keys_kept None) (exec dev ssr n c);
  kp_get w : preserves (keys_kept None) (Watcher_get dev ssr n w);
  kp_getAndInvoke w cb : preserves (keys_kept None) (Watcher_getAndInvoke dev ssr n w cb);
  kp_run w : preserves (keys_kept None) (Watcher_run dev ssr n w);
  kp_update w : preserves (keys_kept None) (Watcher_update dev ssr n w);
  kp_evaluate w : preserves (keys_kept None) (Watcher_evaluate dev ssr n w);
  kp_notify d : preserves (keys_kept None) (Dep_notify dev ssr n d);
  kp_computedGetter w : preserves (keys_kept None) (computedGetter dev ssr n w);
  kp_reactiveGetter p : preserves (keys_kept None) (reactiveGetter dev ssr n p);
  kp_reactiveSetter p v : preserves (keys_kept None) (reactiveSetter dev ssr n p v);
  kp_observe v b : preserves (keys_kept None) (observe dev ssr n v b);
  kp_Observer_new r : preserves (keys_kept (Some r)) (Observer_new dev ssr n r);
  kp_walk r : preserves (keys_kept (Some r)) (walk dev ssr n r);
  kp_observeArray l : preserves (keys_kept None) (observeArray dev ssr n l);
  kp_defineReactive r key val cs sh :
    preserves (keys_kept (Some r)) (defineReactive dev ssr n r key val cs sh);
  kp_callHook vm hook : preserves (keys_kept None) (callHook dev ssr n vm hook);
  kp_emit vm ev : preserves (keys_kept None) (Vue_emit dev ssr n vm ev);
  kp_getData vm : preserves (keys_kept None) (getData dev ssr n vm);
  kp_traverse v : preserves (keys_kept None) (_traverse dev ssr n v)
}.
(** [observe(value)] returns an observer for the container [r]: it has
    one, or qualifies for one. *)
Definition eligible (ssr : bool) (r : nat) (s : State) : Prop :=
  ∃ o, objects s !! r = Some o ∧ o_isVNode o = false
       ∧ (is_Some (o_ob o)
          ∨ (shouldObserve s = true ∧ ssr = false ∧ o_isArray o || o_isPlain o = true
             ∧ o_extensible o = true ∧ o_isVue o = false)).

(** What [defineReactive(obj, key)] makes of the own property [sl]: a
    property that is not configurable is left as it is, any other gets
    the accessor of a closure. *)
Definition made_reactive (s' : State) (sl : Slot) (new : option Slot) : Prop :=
  match sl with
  | SData _ false | SAccessor _ _ false => new = Some sl
  | _ => ∃ d, new = Some (SReactive d) ∧ is_Some (props s' !! d)
  end.
(** The plain object 0 is [{a: 1, child: <1>, fixed: 3}] with [fixed]
    not configurable, the plain object 1 is [{c: 2}], and the array 2
    is [[<1>, 5]]; none has an observer. *)
Definition tree_state : State :=
  mkState ∅ ∅ ∅ 0 None [] [] [] ∅ ∅ false false 0 true
    {[0 := mkObj false false true true false false None
             [("a", SData (VNum 1) true); ("child", SData (VObj 1) true);
              ("fixed", SData (VNum 3) false)] [];
      1 := mkObj false false true true false false None [("c", SData (VNum 2) true)] [];
      2 := mkObj false true false true false false None [] [VObj 1; VNum 5]]}
    3 ∅ ∅ 0 [].
(** A frozen plain object under the reference 0 and the instance of a
    component under the reference 1. *)
Definition sealed_state : State :=
  mkState ∅ ∅ ∅ 0 None [] [] [] ∅ ∅ false false 0 true
    {[0 := mkObj false false true false false false None [("a", SData (VNum 1) false)] [];
      1 := mkObj false false true true true false None [("a", SData (VNum 1) true)] []]}
    2 ∅ ∅ 0 [].

From stdpp Require pretty.

(** * Mutation of containers *)

(** ** array.js *)

Definition set_o_items (x : list Val) (r : Obj) : Obj :=
  mkObj (o_isFrozen r) (o_isArray r) (o_isPlain r) (o_extensible r) (o_isVue r) (o_isVNode r) (o_ob r) (o_keys r) x.

(** A call of one of [methodsToPatch], with numbers for the arguments
    that the native method converts to numbers. [sort] is left out: its
    comparisons are calls of application code made by the native
    method. *)
Inductive method : Type :=
  | Push (args : list Val)                   (* push(...args) *)
  | Pop                                      (* pop() *)
  | Shift                                    (* shift() *)
  | Unshift (args : list Val)                (* unshift(...args) *)
  | Splice (start : Z) (deleteCount : option Z) (items : list Val)
                                             (* splice(start[, deleteCount, ...items]) *)
  | Reverse.                                 (* reverse() *)

(** [Array.prototype.splice]: where it starts, and how many elements it
    removes, in an array of length [len]. *)
Definition splice_start (len : nat) (start : Z) : nat :=
  if bool_decide (start < 0)%Z
  then Z.to_nat (Z.max (Z.of_nat len + start) 0)
  else Nat.min (Z.to_nat start) len.

Definition splice_count (len from : nat) (deleteCount : option Z) : nat :=
  match deleteCount with
  | None => len - from
  | Some c => Nat.min (Z.to_nat (Z.max c 0)) (len - from)
  end.

(** What the native method leaves in an array that holds [l], and what
    it returns: a value, or the elements of a new array. *)
Definition native (r : nat) (m : method) (l : list Val) : list Val * (Val + list Val) :=
  match m with
  | Push args => (l ++ args, inl (VNum (Z.of_nat (length (l ++ args)))))
  | Pop =>
      match last l with
      | Some x => (take (length l - 1) l, inl x)
      | None => (l, inl VUndef)
      end
  | Shift =>
      match l with
      | x :: l' => (l', inl x)
      | [] => (l, inl VUndef)
      end
  | Unshift args => (args ++ l, inl (VNum (Z.of_nat (length (args ++ l)))))
  | Splice start deleteCount items =>
      let from := splice_start (length l) start in
      let count := splice_count (length l) from deleteCount in
      (take from l ++ items ++ drop (from + count) l, inr (take count (drop from l)))
  | Reverse => (reverse l, inl (VObj r))
  end.

(** An array literal *)
Definition new_array (items : list Val) : M Val :=
  fun s =>
    let r := next_ref s in
    Some (Ok (VObj r),
          set_next_ref (S r)
            (set_objects (<[r := mkObj false true false true false false None [] items]>
                            (objects s)) s)).

(** [original.apply(this, args)] for [this] an array [r] that is
    extensible. For anything else the outcome depends on what the store
    does not record (the attributes of the elements, the properties of
    an object that is no array): no result. *)
Definition original (r : nat) (m : method) : M Val :=
  o <- the_obj r ;;
  if o_isArray o && o_extensible o then
    let '(l, result) := native r m (o_items o) in
    modify (upd_obj r (set_o_items l)) ;;;
    match result with
    | inl v => ret v
    | inr removed => new_array removed
    end
  else no_result.

(** [inserted], where it is set *)
Definition inserted (m : method) : option (list Val) :=
  match m with
  | Push args | Unshift args => Some args
  | Splice _ _ items => Some items
  | Pop | Shift | Reverse => None
  end.

(** A property name: [KIndex i] is a key for which [isValidArrayIndex]
    holds, the number [i]; [KName k] is any other key. *)
Inductive Key : Type :=
  | KIndex (i : nat)
  | KName (k : string).

Definition key_name (key : Key) : string :=
  match key with
  | KIndex i => stdpp.pretty.pretty_nat i
  | KName k => k
  end.

Definition configurable (sl : Slot) : bool :=
  match sl with
  | SData _ c | SAccessor _ _ c => c
  | SReactive _ => true
  end.

Section Mutation.
Context (dev ssr : bool).

(** array.js: [mutator(...args)], the function installed for [method] *)
Definition mutator (n : nat) (r : nat) (m : method) : M Val :=
  match n with
  | 0 => no_result
  | S n' =>
      result <- original r m ;;
      o <- the_obj r ;;
      match o_ob o with
      | Some ob =>
          match inserted m with
          | Some l => observeArray dev ssr n' l
          | None => ret tt
          end ;;;
          Dep_notify dev ssr n' (ob_dep ob) ;;;
          ret result
      | None => throw "TypeError"   (* [ob] is undefined *)
      end
  end.

(** [target.method(...args)]: the observer of an array installs the
    methods of array.js on it when it is made; an array without an
    observer has the native ones. *)
Definition call_method (n : nat) (r : nat) (m : method) : M Val :=
  o <- the_obj r ;;
  if o_ob o is Some _ then mutator n r m else original r m.

(** What the store does not record of a container. *)
Context (hidden : nat → string → bool).
  (* [key in target] for a key that [Object.keys(target)] does not hold:
     inherited, or not enumerable *)
Context (in_Object_prototype : string → bool).   (* [key in Object.prototype] *)
Context (writable : nat → string → bool).
  (* the attribute [writable] of a data property *)

(** [target[key] = val], in strict mode *)
Definition assign (n : nat) (r : nat) (key : string) (val : Val) : M unit :=
  o <- the_obj r ;;
  match slot_of key o with
  | Some (SReactive p) => reactiveSetter dev ssr n p val
  | Some (SAccessor _ (Some f) _) => exec dev ssr n (f val) ;;; ret tt
  | Some (SAccessor _ None _) => throw "TypeError"
  | Some (SData _ c) =>
      if writable r key
      then modify (upd_obj r (fun o => set_o_keys (put_slot key (SData val c) (o_keys o)) o))
      else throw "TypeError"
  | None =>
      if hidden r key then no_result
      else if o_extensible o
      then modify (upd_obj r (fun o => set_o_keys (put_slot key (SData val true) (o_keys o)) o))
      else throw "TypeError"
  end.

(** [ob && ob.vmCount] *)
Definition is_root (o : Obj) : bool :=
  match o_ob o with
  | Some ob => negb (bool_decide (ob_vmCount ob = 0))
  | None => false
  end.

(** observer/index.js: [set(target, key, val)] for a container
    [target]. The warnings are calls of [warn] without a component,
    which the trace has no event for. For an array and a key that is no
    index the outcome depends on properties of arrays that the store
    does not record: no result. *)
Definition Vue_set (n : nat) (r : nat) (key : Key) (val : Val) : M Val :=
  match n with
  | 0 => no_result
  | S n' =>
      o <- the_obj r ;;
      match o_isArray o, key with
      | true, KIndex i =>
          (* target.length = Math.max(target.length, key); a hole reads
             as undefined *)
          modify (upd_obj r (fun o =>
            set_o_items (o_items o ++ replicate (i - length (o_items o)) VUndef) o)) ;;;
          call_method n' r (Splice (Z.of_nat i) (Some 1%Z) [val]) ;;;
          ret val
      | true, KName _ => no_result
      | false, _ =>
          let k := key_name key in
          if (bool_decide (is_Some (slot_of k o)) || hidden r k)
             && negb (in_Object_prototype k)
          then assign n' r k val ;;; ret val
          else if o_isVue o || is_root o then ret val
          else
            match o_ob o with
            | None => assign n' r k val ;;; ret val
            | Some ob =>
                defineReactive dev ssr n' r k (Some val) None false ;;;
                Dep_notify dev ssr n' (ob_dep ob) ;;;
                ret val
            end
      end
  end.

(** observer/index.js: [del(target, key)] for a container [target],
    with the same provisos. *)
Definition Vue_del (n : nat) (r : nat) (key : Key) : M unit :=
  match n with
  | 0 => no_result
  | S n' =>
      o <- the_obj r ;;
      match o_isArray o, key with
      | true, KIndex i =>
          call_method n' r (Splice (Z.of_nat i) (Some 1%Z) []) ;;; ret tt
      | true, KName _ => no_result
      | false, _ =>
          let k := key_name key in
          if o_isVue o || is_root o then ret tt
          else
            match slot_of k o with
            | None => if hidden r k then no_result else ret tt
            | Some sl =>
                if configurable sl then
                  (* delete target[key] *)
                  modify (upd_obj r (fun o =>
                    set_o_keys (filter (fun kv => kv.1 ≠ k) (o_keys o)) o)) ;;;
                  match o_ob o with
                  | Some ob => Dep_notify dev ssr n' (ob_dep ob)
                  | None => ret tt
                  end
                else throw "TypeError"
            end
      end
  end.

End Mutation.
(** The array 0 is [[1, 2]] and has its observer, with the Dep 0; the
    plain object 1 is [{c: 2}] and has none; the array 2 is [[7]] and
    has none. The field [list], closure 0 with the Dep 1, holds the
    array 0, and the batched watcher 1 has read it. *)
Definition list_state : State :=
  mkState ∅ {[1 := mkWatcher 0 "list" (fun _ _ => Ret VUndef)
                   false true false false false true 0
                   [1; 0] [] {[0; 1]} ∅ None (Read 0 Ret) (VObj 0)]}
          {[0 := [1]; 1 := [1]]} 2 None [] [] [] ∅ ∅ false false 0 true
          {[0 := mkObj false true false true false false (Some (mkObserver 0 0)) []
                   [VNum 1; VNum 2];
            1 := mkObj false false true true false false None [("c", SData (VNum 2) true)] [];
            2 := mkObj false true false true false false None [] [VNum 7]]}
          3
          {[0 := mkProperty 1 (VObj 0) (Some 0) None None None false]}
          {[0 := ex_vm]} 0 [].
(** The plain object 0 is [{a: 1, fixed: 3}] with [a] reactive (closure
    0) and [fixed] not configurable; it has its observer, with the Dep
    1, as the value of the field [form] (closure 1) that the batched
    watcher 1 has read. The object 1 is the same as the data of a
    component, and the plain object 2 is [{c: 2}] without an observer. *)
Definition form_state : State :=
  mkState ∅ {[1 := mkWatcher 0 "form" (fun _ _ => Ret VUndef)
                   false true false false false true 0
                   [2; 1] [] {[1; 2]} ∅ None (Read 1 Ret) (VObj 0)]}
          {[0 := []; 1 := [1]; 2 := [1]; 3 := []]} 4 None [] [] [] ∅ ∅ false false 0 true
          {[0 := mkObj false false true true false false (Some (mkObserver 1 0))
                   [("a", SReactive 0); ("fixed", SData (VNum 3) false)] [];
            1 := mkObj false false true true false false (Some (mkObserver 3 1))
                   [("a", SReactive 0)] [];
            2 := mkObj false false true true false false None [("c", SData (VNum 2) true)] []]}
          3
          {[0 := mkProperty 0 (VNum 1) None None None None false;
            1 := mkProperty 2 (VObj 0) (Some 0) None None None false]}
          {[0 := ex_vm]} 0 [].

(** ** Reads *)

(** What [depend()] does to the state, seen from the watcher [w]: it
    adds to [newDepIds] and to lists of subscribers. *)
Definition reads_grow (w : nat) : relation State := fun s s' =>
  target s' = target s ∧ trace s' = trace s
  ∧ objects s' = objects s ∧ props s' = props s
  ∧ (∀ d x, x ∈ subsOf d s → x ∈ subsOf d s')
  ∧ ∀ W, watchers s !! w = Some W →
      ∃ W', watchers s' !! w = Some W' ∧ w_depIds W' = w_depIds W
            ∧ w_newDepIds W ⊆ w_newDepIds W'.

(** The watcher [w] has collected the Dep [d] in this evaluation, and is
    among its subscribers unless it has [d] from the evaluation
    before. *)
Definition reached (w d : nat) (s : State) : Prop :=
  ∃ W, watchers s !! w = Some W ∧ d ∈ w_newDepIds W
       ∧ (d ∈ w_depIds W ∨ w ∈ subsOf d s).

Definition collected (w : nat) (s : State) : Prop :=
  ∀ W d, watchers s !! w = Some W → d ∈ w_newDepIds W → reached w d s.

(** The containers that are elements of the array [v], or of an array
    among its elements, and so on. *)
Inductive nested (s : State) : Val → nat → Prop :=
  | nested_here a oa r :
      objects s !! a = Some oa → o_isArray oa = true → VObj r ∈ o_items oa →
      nested s (VObj a) r
  | nested_deeper a oa r r' :
      objects s !! a = Some oa → o_isArray oa = true → VObj r ∈ o_items oa →
      nested s (VObj r) r' →
      nested s (VObj a) r'.
(** The watcher 1 is the target and has collected nothing yet; the
    field [list] (closure 0, with the Dep 1) holds the array 0, which
    has its observer, with the Dep 0, and whose first element, the
    object 1, has its observer, with the Dep 3. *)
Definition reading_state : State :=
  mkState ∅ {[1 := mkWatcher 0 "list" (fun _ _ => Ret VUndef)
                   false true false false false true 0
                   [] [] ∅ ∅ None (Read 0 Ret) VUndef]}
          {[0 := []; 1 := []; 2 := []; 3 := []]} 4 (Some 1) [] [] [] ∅ ∅ false false 0 true
          {[0 := mkObj false true false true false false (Some (mkObserver 0 0)) []
                   [VObj 1; VNum 2];
            1 := mkObj false false true true false false (Some (mkObserver 3 0))
                   [("c", SReactive 2)] []]}
          2
          {[0 := mkProperty 1 (VObj 0) (Some 0) None None None false;
            2 := mkProperty 2 (VNum 2) None None None None false]}
          {[0 := ex_vm]} 0 [].

(** ** The [updated] hooks of a flush *)

(** What no call of the engine changes of a component and of a
    watcher. *)
Definition vm_static : relation State := fun s s' =>
  (∀ v V, vms s !! v = Some V →
     ∃ V', vms s' !! v = Some V' ∧ vm_watcher V' = vm_watcher V
           ∧ vm_isMounted V' = vm_isMounted V ∧ vm_hooks V' = vm_hooks V)
  ∧ (∀ w W, watchers s !! w = Some W →
       ∃ W', watchers s' !! w = Some W' ∧ w_vm W' = w_vm W).

(** The component whose [updated] hook [callUpdatedHooks] calls for the
    watcher [w]: [w] is its render watcher, and it is mounted. *)
Definition updated_of (s : State) (w : nat) : option nat :=
  match watchers s !! w with
  | Some W =>
      match vms s !! w_vm W with
      | Some V =>
          if bool_decide (vm_watcher V = Some w) && vm_isMounted V
          then Some (w_vm W) else None
      | None => None
      end
  | None => None
  end.

(** The calls of the handlers of [hook] of the component [vm]. *)
Definition hook_calls (s : State) (hook : string) (vm : nat) : list event :=
  match vms s !! vm with
  | Some V => map (EvHandler vm hook) (seq 0 (length (handlers_of V hook)))
  | None => []
  end.

(** The components 0 and 1 are mounted, with the render watchers 1 and
    2; the component 2 is not, and the watcher 4 is a watcher of the
    component 1 that [$watch] made. *)
Definition family_state : State :=
  mkState ∅ {[1 := render_watcher (Ret VUndef);
            2 := mkWatcher 1 "render" (fun _ _ => Ret VUndef)
                   false false false false false true 0 [] [] ∅ ∅ None (Ret VUndef) VUndef;
            3 := mkWatcher 2 "render" (fun _ _ => Ret VUndef)
                   false false false false false true 0 [] [] ∅ ∅ None (Ret VUndef) VUndef;
            4 := mkWatcher 1 "a" (fun _ _ => Ret VUndef)
                   false true false false false true 0 [] [] ∅ ∅ None (Ret VUndef) VUndef]}
          ∅ 0 None [] [] [] ∅ ∅ false false 0 true ∅ 0 ∅
          {[0 := mkVM [1] (Some 1) false true false
                   {["updated" := [Ret VUndef; Raise "oops"]]} ∅ (Ret VUndef);
            1 := mkVM [2; 4] (Some 2) false true false
                   {["updated" := [Ret VUndef]]} ∅ (Ret VUndef);
            2 := mkVM [3] (Some 3) false false false
                   {["updated" := [Ret VUndef]]} ∅ (Ret VUndef)]}
          0 [].

(** ** The callback of a watcher *)

(** The user watcher 1 of the field [a], which holds 1; the watcher has
    cached the value 1, and its callback writes what it is given to the
    field [b]. *)
Definition echo_state : State :=
  mkState ∅ {[1 := watch "a" 0 (fun v _ => Write 1 v (Ret VUndef)) (VNum 1)]}
          {[0 := [1]; 1 := []]} 2 None [] [] [] ∅ ∅ false false 0 true ∅ 0
          {[0 := mkProperty 0 (VNum 1) None None None None false;
            1 := mkProperty 1 (VNum 0) None None None None false]}
          {[0 := ex_vm]} 0 [].


(** * Properties *)

(** ** Subscriber lists *)

Section Remove.
  Implicit Types (x y : nat) (l : list nat).

Lemma remove_subseteq x y l : y ∈ remove x l → y ∈ l.
  Proof.
    induction l as [|z l IH]; simpl; [done|].
    case_decide; set_solver.
  Qed.

Lemma remove_other x y l : y ≠ x → y ∈ l → y ∈ remove x l.
  Proof.
    intros Hne. induction l as [|z l IH]; simpl; [done|].
    case_decide; set_solver.
  Qed.

Lemma remove_absent x l : x ∉ l → remove x l = l.
  Proof.
    induction l as [|z l IH]; simpl; [done|].
    intros Hx. case_decide; [set_solver|].
    f_equal. apply IH. set_solver.
  Qed.

Lemma remove_NoDup x l : NoDup l → NoDup (remove x l).
  Proof.
    induction 1 as [|z l Hz Hl IH]; simpl; [constructor|].
    case_decide; [done|].
    constructor; [|done]. intros ?%remove_subseteq. done.
  Qed.

Lemma remove_gone x l : NoDup l → x ∉ remove x l.
  Proof.
    induction 1 as [|z l Hz Hl IH]; simpl; [set_solver|].
    case_decide; [by subst|]. set_solver.
  Qed.
End Remove.

Lemma subsOf_addSub d d' w s :
  subsOf d' (Dep_addSub d w s)
  = if decide (d = d') then subsOf d s ++ [w] else subsOf d' s.
Proof.
  unfold subsOf, Dep_addSub; simpl. case_decide as Hd.
  - subst. by rewrite lookup_total_insert_eq.
  - by rewrite lookup_total_insert_ne.
Qed.

Lemma subsOf_removeSub d d' w s :
  subsOf d' (Dep_removeSub d w s)
  = if decide (d = d') then remove w (subsOf d s) else subsOf d' s.
Proof.
  unfold subsOf, Dep_removeSub; simpl. case_decide as Hd.
  - subst. by rewrite lookup_total_insert_eq.
  - by rewrite lookup_total_insert_ne.
Qed.

Lemma unsubscribe_all w l s :
  foldl (fun s d => Dep_removeSub d w s) s l = unsubscribe w ∅ l s.
Proof.
  unfold unsubscribe. revert s. induction l as [|d l IH]; intros s; simpl; [done|].
  rewrite IH. by rewrite decide_False by set_solver.
Qed.

Section Unsubscribe.
  Context (w : nat) (keep : gset nat).
  Implicit Types (l : list nat) (s : State).

Lemma unsubscribe_frame l s :
    let s' := unsubscribe w keep l s in
    watchers s' = watchers s ∧ target s' = target s ∧ targetStack s' = targetStack s
    ∧ vms s' = vms s ∧ trace s' = trace s ∧ queue s' = queue s ∧ has s' = has s
    ∧ props s' = props s ∧ objects s' = objects s.
  Proof.
    revert s. induction l as [|d l IH]; intros s; simpl; [done|].
    case_decide; [apply IH|].
    destruct (IH (Dep_removeSub d w s)) as (->&->&->&->&->&->&->&->&->). done.
  Qed.

Lemma unsubscribe_subseteq l s d x :
    x ∈ subsOf d (unsubscribe w keep l s) → x ∈ subsOf d s.
  Proof.
    revert s. induction l as [|d' l IH]; intros s; simpl; [done|].
    case_decide; [apply IH|].
    intros Hx%IH. rewrite subsOf_removeSub in Hx.
    case_decide; [subst; by eapply remove_subseteq|done].
  Qed.

Lemma unsubscribe_other l s d x :
    x ≠ w → x ∈ subsOf d s → x ∈ subsOf d (unsubscribe w keep l s).
  Proof.
    intros Hne. revert s. induction l as [|d' l IH]; intros s; simpl; [done|].
    case_decide; [apply IH|].
    intros Hx. apply IH. rewrite subsOf_removeSub.
    case_decide; [subst; by apply remove_other|done].
  Qed.

Lemma unsubscribe_NoDup l s d :
    NoDup (subsOf d s) → NoDup (subsOf d (unsubscribe w keep l s)).
  Proof.
    revert s. induction l as [|d' l IH]; intros s; simpl; [done|].
    case_decide; [apply IH|].
    intros Hnd. apply IH. rewrite subsOf_removeSub.
    case_decide; [subst; by apply remove_NoDup|done].
  Qed.

Lemma unsubscribe_kept l s d :
    (d ∈ l → d ∈ keep) → subsOf d (unsubscribe w keep l s) = subsOf d s.
  Proof.
    revert s. induction l as [|d' l IH]; intros s Hd; simpl; [done|].
    case_decide.
    - apply IH. set_solver.
    - rewrite IH by set_solver. rewrite subsOf_removeSub.
      rewrite decide_False; [done|]. intros ->. set_solver.
  Qed.

Lemma unsubscribe_gone l s d :
    d ∈ l → d ∉ keep → NoDup (subsOf d s) → w ∉ subsOf d (unsubscribe w keep l s).
  Proof.
    revert s. induction l as [|d' l IH]; intros s Hd Hk Hnd; simpl; [set_solver|].
    destruct (decide (d' = d)) as [->|Hne].
    - rewrite decide_False by done.
      intros Hw%unsubscribe_subseteq. rewrite subsOf_removeSub, decide_True in Hw by done.
      by eapply remove_gone.
    - assert (d ∈ l) by set_solver.
      case_decide; [by apply IH|].
      apply IH; [done..|]. rewrite subsOf_removeSub.
      by rewrite decide_False.
  Qed.
End Unsubscribe.

(** ** The subscription invariant *)

Lemma cleanupDeps_unfold w s :
  Watcher_cleanupDeps w s =
  match watchers s !! w with
  | None => s
  | Some W =>
      let s1 := unsubscribe w (w_newDepIds W) (reverse (w_deps W)) s in
      set_watchers
        (<[w := set_w_newDeps [] (set_w_deps (w_newDeps W)
                  (set_w_newDepIds ∅ (set_w_depIds (w_newDepIds W) W)))]> (watchers s1)) s1
  end.
Proof. reflexivity. Qed.

Lemma teardown_unfold w s :
  Watcher_teardown w s =
  match watchers s !! w with
  | None => s
  | Some W =>
      if w_active W then
        let s1 := match vms s !! w_vm W with
                  | Some V =>
                      if vm_isBeingDestroyed V then s
                      else set_vms (<[w_vm W :=
                             set_vm_watchers (remove w (vm_watchers V)) V]> (vms s)) s
                  | None => s
                  end in
        let s2 := unsubscribe w ∅ (reverse (w_deps W)) s1 in
        set_watchers (<[w := set_w_active false W]> (watchers s2)) s2
      else s
  end.
Proof.
  unfold Watcher_teardown. destruct (watchers s !! w) as [W|]; [|done].
  destruct (w_active W); [|done]. simpl. by rewrite unsubscribe_all.
Qed.

Lemma addDep_preserves w d s : subs_inv s → subs_inv (Watcher_addDep w d s).
Proof.
  intros [Hnd Hkn Hdp Hnw]. unfold Watcher_addDep.
  destruct (watchers s !! w) as [W|] eqn:HW; [|done].
  case_decide as Hnew; [done|].
  set (W2 := set_w_newDeps _ _).
  assert (∀ d' x, x ∈ subsOf d' s →
            ∃ W', <[w:=W2]> (watchers s) !! x = Some W'
                  ∧ (d' ∈ w_depIds W' ∨ d' ∈ w_newDepIds W')) as Hkn'.
  { intros d' x (W'&HW'&Hin)%Hkn. destruct (decide (x = w)) as [->|Hx].
    - exists W2. rewrite lookup_insert_eq. split; [done|].
      assert (W' = W) as -> by congruence. subst W2; simpl. set_solver.
    - exists W'. by rewrite lookup_insert_ne. }
  assert (∀ x W' d', <[w:=W2]> (watchers s) !! x = Some W' →
            (d' ∈ w_depIds W' → d' ∈ w_deps W')
            ∧ (d' ∈ w_newDepIds W' → d' ∈ w_newDeps W')) as Hfields.
  { intros x W' d'. destruct (decide (x = w)) as [->|Hx].
    - rewrite lookup_insert_eq. intros [= <-]. subst W2; simpl. split; [by eauto|].
      rewrite elem_of_union, elem_of_singleton, elem_of_app, list_elem_of_singleton.
      intros [->|?]; [by right|left; eauto].
    - rewrite lookup_insert_ne by done. intros HW'. split; eauto. }
  case_decide as Hold.
  - split; simpl; [done|done|..]; intros x W' d' HW'; by apply (Hfields x W' d').
  - split.
    + intros d'. rewrite subsOf_addSub. case_decide; [subst d'|apply Hnd].
      unfold subsOf at 1; simpl. apply NoDup_app. split_and!; [apply Hnd| |apply NoDup_singleton].
      intros x Hx ->%list_elem_of_singleton.
      apply Hkn in Hx as (W'&HW'&Hin). assert (W' = W) as -> by congruence. tauto.
    + intros d' x. rewrite subsOf_addSub. case_decide; [subst d'|apply Hkn'].
      unfold subsOf at 1; simpl. intros [Hx| ->%list_elem_of_singleton]%elem_of_app.
      * by apply Hkn'.
      * exists W2. simpl. rewrite lookup_insert_eq. split; [done|].
        subst W2; simpl. set_solver.
    + intros x W' d' HW'; by apply (Hfields x W' d').
    + intros x W' d' HW'; by apply (Hfields x W' d').
Qed.

Lemma depend_preserves d s : subs_inv s → subs_inv (Dep_depend d s).
Proof. unfold Dep_depend. destruct (target s); [apply addDep_preserves|done]. Qed.

Lemma cleanupDeps_preserves w s : subs_inv s → subs_inv (Watcher_cleanupDeps w s).
Proof.
  intros [Hnd Hkn Hdp Hnw]. rewrite cleanupDeps_unfold.
  destruct (watchers s !! w) as [W|] eqn:HW; [|done]. simpl.
  set (s1 := unsubscribe _ _ _ _). set (W2 := set_w_newDeps _ _).
  destruct (unsubscribe_frame w (w_newDepIds W) (reverse (w_deps W)) s)
    as (Hws&_). fold s1 in Hws.
  split; simpl.
  - intros d. by apply unsubscribe_NoDup.
  - intros d x Hx. pose proof Hx as (W'&HW'&Hin)%unsubscribe_subseteq%Hkn.
    rewrite Hws. destruct (decide (x = w)) as [->|Hne].
    + exists W2. rewrite lookup_insert_eq. split; [done|]. subst W2; simpl. left.
      assert (W' = W) as -> by congruence.
      destruct (decide (d ∈ w_newDepIds W)) as [|Hout]; [done|]. exfalso.
      destruct Hin as [Hin|Hin]; [|done].
      revert Hx. apply unsubscribe_gone; [|done|apply Hnd].
      apply elem_of_reverse. eauto.
    + exists W'. by rewrite lookup_insert_ne.
  - intros x W' d. rewrite Hws. destruct (decide (x = w)) as [->|Hne].
    + rewrite lookup_insert_eq. intros [= <-]. subst W2; simpl. eauto.
    + rewrite lookup_insert_ne by done. eauto.
  - intros x W' d. rewrite Hws. destruct (decide (x = w)) as [->|Hne].
    + rewrite lookup_insert_eq. intros [= <-]. subst W2; simpl. set_solver.
    + rewrite lookup_insert_ne by done. eauto.
Qed.

Lemma teardown_preserves w s : subs_inv s → subs_inv (Watcher_teardown w s).
Proof.
  intros [Hnd Hkn Hdp Hnw]. rewrite teardown_unfold.
  destruct (watchers s !! w) as [W|] eqn:HW; [|done].
  destruct (w_active W); [|done]. simpl.
  set (s1 := match vms s !! _ with Some _ => _ | None => _ end).
  assert (watchers s1 = watchers s ∧ ∀ d, subsOf d s1 = subsOf d s) as [Hw1 Hs1].
  { subst s1. destruct (vms s !! _) as [V|]; [|done]. by destruct (vm_isBeingDestroyed V). }
  set (s2 := unsubscribe _ _ _ _).
  destruct (unsubscribe_frame w ∅ (reverse (w_deps W)) s1) as (Hws&_). fold s2 in Hws.
  rewrite Hw1 in Hws.
  assert (∀ x W', <[w:=set_w_active false W]> (watchers s2) !! x = Some W' →
            ∃ W0, watchers s !! x = Some W0 ∧ w_depIds W' = w_depIds W0
                  ∧ w_newDepIds W' = w_newDepIds W0 ∧ w_deps W' = w_deps W0
                  ∧ w_newDeps W' = w_newDeps W0) as Hsame.
  { intros x W'. rewrite Hws. destruct (decide (x = w)) as [->|Hne].
    - rewrite lookup_insert_eq. intros [= <-]. by exists W.
    - rewrite lookup_insert_ne by done. intros ?. by exists W'. }
  split; simpl.
  - intros d. apply unsubscribe_NoDup. rewrite Hs1. apply Hnd.
  - intros d x Hx%unsubscribe_subseteq. rewrite Hs1 in Hx.
    apply Hkn in Hx as (W'&HW'&Hin). rewrite Hws.
    destruct (decide (x = w)) as [->|Hne].
    + exists (set_w_active false W). rewrite lookup_insert_eq. split; [done|].
      assert (W' = W) as -> by congruence. done.
    + exists W'. by rewrite lookup_insert_ne.
  - intros x W' d HW'. destruct (Hsame x W' HW') as (W0&H0&->&_&->&_). eauto.
  - intros x W' d HW'. destruct (Hsame x W' HW') as (W0&H0&_&->&_&->). eauto.
Qed.

Lemma pushTarget_preserves t s : subs_inv s → subs_inv (pushTarget t s).
Proof. intros [????]. unfold pushTarget. destruct (target s); by split. Qed.

Lemma popTarget_preserves s : subs_inv s → subs_inv (popTarget s).
Proof. intros [????]. unfold popTarget. destruct (targetStack s); by split. Qed.

(** ** Relations that every engine call respects *)

Section Combinators.
  Context (R : relation State) `{!PreOrder R}.

Lemma preserves_ret {A} (a : A) : preserves R (ret a).
  Proof. intros s r s' [= <- <-]. reflexivity. Qed.

Lemma preserves_throw {A} e : preserves R (@throw A e).
  Proof. intros s r s' [= <- <-]. reflexivity. Qed.

Lemma preserves_no_result {A} : preserves R (@no_result A).
  Proof. intros s r s' [=]. Qed.

Lemma preserves_gets {A} (f : State → A) : preserves R (gets f).
  Proof. intros s r s' [= <- <-]. reflexivity. Qed.

Lemma preserves_modify f : (∀ s, R s (f s)) → preserves R (modify f).
  Proof. intros Hf s r s' [= <- <-]. apply Hf. Qed.

Lemma preserves_bind {A B} (m : M A) (k : A → M B) :
    preserves R m → (∀ a, preserves R (k a)) → preserves R (bind m k).
  Proof.
    intros Hm Hk s r s'. unfold bind.
    destruct (m s) as [[[a|e] s1]|] eqn:Hms; [|intros [= <- <-]|done].
    - intros Hks. etrans; [by eapply Hm|by eapply Hk].
    - by eapply Hm.
  Qed.

Lemma preserves_when b m : preserves R m → preserves R (when b m).
  Proof. destruct b; [done|]. intros _. apply preserves_ret. Qed.

Lemma preserves_try_catch {A} (m : M A) h :
    preserves R m → (∀ e, preserves R (h e)) → preserves R (try_catch m h).
  Proof.
    intros Hm Hh s r s'. unfold try_catch.
    destruct (m s) as [[[a|e] s1]|] eqn:Hms; [intros [= <- <-]| |done].
    - by eapply Hm.
    - intros Hhs. etrans; [by eapply Hm|by eapply Hh].
  Qed.

Lemma preserves_try_finally {A} (m : M A) f :
    preserves R m → (∀ r, preserves R (f r)) → preserves R (try_finally m f).
  Proof.
    intros Hm Hf s r s'. unfold try_finally.
    destruct (m s) as [[r1 s1]|] eqn:Hms; [|done].
    destruct (f r1 s1) as [[[[]|e] s2]|] eqn:Hfs; [| |done].
    - intros [= <- <-]. etrans; [by eapply Hm|by eapply Hf].
    - intros [= <- <-]. etrans; [by eapply Hm|by eapply Hf].
  Qed.

Lemma preserves_for_each {A} (l : list A) f :
    (∀ x, preserves R (f x)) → preserves R (for_each l f).
  Proof.
    intros Hf. induction l as [|x l IH]; simpl.
    - apply preserves_ret.
    - apply preserves_bind; [apply Hf|done].
  Qed.

Lemma preserves_the_watcher w : preserves R (the_watcher w).
  Proof.
    intros s r s'. unfold the_watcher.
    destruct (watchers s !! w); [|done]. intros [= <- <-]. reflexivity.
  Qed.

Lemma preserves_the_prop p : preserves R (the_prop p).
  Proof.
    intros s r s'. unfold the_prop.
    destruct (props s !! p); [|done]. intros [= <- <-]. reflexivity.
  Qed.

Lemma preserves_the_obj x : preserves R (the_obj x).
  Proof.
    intros s r s'. unfold the_obj.
    destruct (objects s !! x); [|done]. intros [= <- <-]. reflexivity.
  Qed.

Lemma preserves_the_vm v : preserves R (the_vm v).
  Proof.
    intros s r s'. unfold the_vm.
    destruct (vms s !! v); [|done]. intros [= <- <-]. reflexivity.
  Qed.

Lemma foldl_respects {A} (f : State → A → State) l s :
    (∀ s a, R s (f s a)) → R s (foldl f s l).
  Proof.
    intros Hf. revert s. induction l as [|a l IH]; intros s; simpl; [reflexivity|].
    etrans; [apply Hf|apply IH].
  Qed.
End Combinators.

Section Respects.
  Context (dev ssr : bool).
  Context (R : relation State) (cb_ok : nat → bool).

  Context (HR : respects R cb_ok).

Lemma respects_preorder : PreOrder R.
  Proof. exact (rs_preorder _ _ HR). Qed.
  #[local] Existing Instance respects_preorder.

Lemma preserves_record e :
    (∀ w v o, e = EvCallback w v o → cb_ok w = true) → preserves R (record e).
  Proof. intros He. apply (preserves_modify R). intros s. by apply (rs_record _ _ HR). Qed.

Lemma preserves_new_Dep : preserves R new_Dep.
  Proof. intros s r s' [= <- <-]. apply (rs_new_Dep _ _ HR). Qed.

Lemma preserves_new_object : preserves R new_object.
  Proof. intros s r s' [= <- <-]. apply (rs_new_object _ _ HR). Qed.

Lemma Watcher_depend_respects w s : R s (Watcher_depend w s).
  Proof.
    unfold Watcher_depend. destruct (watchers s !! w); [|reflexivity].
    destruct (_ && _); [apply (rs_depend _ _ HR)|reflexivity].
  Qed.

Ltac pres_prim :=
    first
      [ apply (rs_pushTarget _ _ HR) | apply (rs_popTarget _ _ HR) | apply (rs_depend _ _ HR)
      | apply (rs_cleanupDeps _ _ HR) | apply (rs_teardown _ _ HR) | apply (rs_value _ _ HR)
      | apply (rs_dirty _ _ HR) | apply (rs_queueWatcher _ _ HR) | apply (rs_upd_prop _ _ HR)
      | apply (rs_set_ob _ _ HR) | apply (rs_vmCount _ _ HR) | apply (rs_set_keys _ _ HR)
      | apply (rs_new_prop _ _ HR) | apply (rs_seen _ _ HR)
      | apply Watcher_depend_respects ].

Ltac pres_step :=
    lazymatch goal with
    | |- preserves _ (traverse _ _) => unfold traverse
    | |- preserves _ (bind _ _) => apply (preserves_bind R); [|intros ?]
    | |- preserves _ (ret _) => apply (preserves_ret R)
    | |- preserves _ (throw _) => apply (preserves_throw R)
    | |- preserves _ no_result => apply (preserves_no_result R)
    | |- preserves _ (gets _) => apply (preserves_gets R)
    | |- preserves _ (when _ _) => apply (preserves_when R)
    | |- preserves _ (try_catch _ _) => apply (preserves_try_catch R); [|intros ?]
    | |- preserves _ (try_finally _ _) => apply (preserves_try_finally R); [|intros ?]
    | |- preserves _ (for_each _ _) => apply (preserves_for_each R); intros ?
    | |- preserves _ (the_watcher _) => apply (preserves_the_watcher R)
    | |- preserves _ (the_prop _) => apply (preserves_the_prop R)
    | |- preserves _ (the_obj _) => apply (preserves_the_obj R)
    | |- preserves _ (the_vm _) => apply (preserves_the_vm R)
    | |- preserves _ (record _) => apply preserves_record; by intros ???
    | |- preserves _ new_Dep => apply preserves_new_Dep
    | |- preserves _ new_object => apply preserves_new_object
    | |- preserves _ (modify _) => apply (preserves_modify R); intros ?; pres_prim
    | |- preserves _ (if ?b then _ else _) => destruct b
    | |- preserves _ (match ?x with _ => _ end) => destruct x
    end.

Lemma dependArray_preserves n v : preserves R (dependArray n v).
  Proof.
    revert v. induction n as [|n IH]; intros v; simpl; [apply (preserves_no_result R)|].
    repeat first [apply IH | pres_step].
  Qed.

Theorem engine_respects n : engine_preserves dev ssr R cb_ok n.
  Proof.
    induction n as [|n IH].
    { split; intros; apply (preserves_no_result R). }
    destruct IH as [? ? ? Hinvoke ? ? ? ? ? ? ? ? ? ? ? ? ? ? ?].
    split; intros; simpl.
    5: { (* run: the callback is called only on an active watcher *)
      destruct (cb_ok w) eqn:Hok.
      - repeat first [ done | apply Hinvoke; by left | pres_step ].
      - intros s r s'. unfold bind, the_watcher.
        destruct (watchers s !! w) as [W|] eqn:HW; [|done].
        destruct (w_active W) eqn:Hact.
        + intros _. by eapply (rs_active _ _ HR).
        + intros [= <- <-]. reflexivity. }
    all: repeat first
           [ done
           | apply dependArray_preserves
           | apply Hinvoke; by right
           | apply preserves_record;
             match goal with H : _ ∨ _ |- _ => destruct H as [?|[=]] end;
             by intros ??? [= -> _ _]
           | pres_step ].
  Qed.

  Context (HS : respects_sched dev R).

Ltac pres_sched :=
    first
      [ apply (rf_flushing _ _ HS) | apply (rf_sort _ _ HS) | apply (rf_index _ _ HS)
      | apply (rf_has _ _ HS) | apply (rf_circular _ _ HS) | apply (rf_reset _ _ HS)
      | apply (rf_ticks _ _ HS) ].

Ltac pres_flush :=
    repeat first
      [ done
      | apply (ep_exec _ _ _ _ _ (engine_respects _))
      | apply (ep_run _ _ _ _ _ (engine_respects _))
      | apply (ep_callHook _ _ _ _ _ (engine_respects _))
      | apply (preserves_modify R); intros ?; pres_sched
      | pres_step ].

Lemma flush_turn_preserves n w :
    preserves R (flush_turn dev ssr n w).
  Proof. unfold flush_turn. pres_flush. Qed.

Lemma flushLoop_preserves n : preserves R (flushLoop dev ssr n).
  Proof.
    induction n as [|n IH]; simpl; [apply (preserves_no_result R)|].
    repeat first [ done | apply flush_turn_preserves
                 | apply (preserves_modify R); intros ?; pres_sched | pres_step ].
  Qed.

Lemma callUpdatedHooks_preserves n q :
    preserves R (callUpdatedHooks dev ssr n q).
  Proof. unfold callUpdatedHooks. pres_flush. Qed.

Lemma flushSchedulerQueue_preserves n :
    preserves R (flushSchedulerQueue dev ssr n).
  Proof.
    unfold flushSchedulerQueue, callActivatedHooks.
    repeat first [ apply flushLoop_preserves | apply callUpdatedHooks_preserves
                 | apply (preserves_modify R); intros ?; pres_sched | pres_step ].
  Qed.

Lemma next_tick_preserves n : preserves R (next_tick dev ssr n).
  Proof.
    unfold next_tick.
    repeat first [ apply flushSchedulerQueue_preserves
                 | apply (preserves_modify R); intros ?; pres_sched | pres_step ].
  Qed.
End Respects.


(** ** Uniqueness of subscribers, through every call *)

Lemma subs_inv_kept_preorder : PreOrder subs_inv_kept.
Proof.
  split.
  - intros s Hs. exact Hs.
  - intros s1 s2 s3 H12 H23 Hs. exact (H23 (H12 Hs)).
Qed.

(** The invariant looks only at the subscriber lists and at the four
    dependency fields of the watchers. *)
Lemma subs_inv_ext s s' :
  (∀ d, subsOf d s' = subsOf d s) →
  (∀ w W', watchers s' !! w = Some W' →
     ∃ W, watchers s !! w = Some W
          ∧ w_depIds W' = w_depIds W ∧ w_newDepIds W' = w_newDepIds W
          ∧ w_deps W' = w_deps W ∧ w_newDeps W' = w_newDeps W) →
  (∀ w W, watchers s !! w = Some W → is_Some (watchers s' !! w)) →
  subs_inv s → subs_inv s'.
Proof.
  intros Hsubs Hw Hdom [Hnd Hkn Hdp Hnw]. split.
  - intros d. rewrite Hsubs. apply Hnd.
  - intros d w. rewrite Hsubs. intros (W&HW&Hin)%Hkn.
    destruct (Hdom w W HW) as [W' HW'].
    destruct (Hw w W' HW') as (W0&HW0&Hd&Hn&_). exists W'.
    split; [done|]. rewrite Hd, Hn. by assert (W0 = W) as -> by congruence.
  - intros w W' d HW'. destruct (Hw w W' HW') as (W0&HW0&->&_&->&_). eauto.
  - intros w W' d HW'. destruct (Hw w W' HW') as (W0&HW0&_&->&_&->). eauto.
Qed.

Lemma subs_inv_frame s s' :
  dep_subs s' = dep_subs s → watchers s' = watchers s → subs_inv s → subs_inv s'.
Proof.
  intros Hs Hw. apply subs_inv_ext.
  - intros d. unfold subsOf. by rewrite Hs.
  - intros w W'. rewrite Hw. intros ?. by exists W'.
  - intros w W. rewrite Hw. eauto.
Qed.

Lemma subs_inv_upd_watcher w f s :
  (∀ W, w_depIds (f W) = w_depIds W ∧ w_newDepIds (f W) = w_newDepIds W
        ∧ w_deps (f W) = w_deps W ∧ w_newDeps (f W) = w_newDeps W) →
  subs_inv s → subs_inv (upd_watcher w f s).
Proof.
  intros Hf. apply subs_inv_ext; simpl.
  - done.
  - intros x W'. destruct (decide (x = w)) as [->|Hne].
    + rewrite lookup_alter_eq. destruct (watchers s !! w) as [W|]; [|done].
      simpl. intros [= <-]. exists W. split; [done|]. apply Hf.
    + rewrite lookup_alter_ne by done. intros ?. by exists W'.
  - intros x W HW. destruct (decide (x = w)) as [->|Hne].
    + rewrite lookup_alter_eq, HW. by eexists.
    + rewrite lookup_alter_ne by done. eauto.
Qed.

Lemma queueWatcher_frame w s :
  let s' := queueWatcher w s in
  watchers s' = watchers s ∧ dep_subs s' = dep_subs s ∧ trace s' = trace s
  ∧ target s' = target s ∧ targetStack s' = targetStack s
  ∧ flushing s' = flushing s ∧ index s' = index s.
Proof.
  destruct s as [? ? ? ? ? ? ? ? ? ? wt fl ? ? ? ? ? ? ? ?].
  unfold queueWatcher; simpl. case_decide; [done|].
  by destruct fl, wt.
Qed.

Lemma subs_inv_respects : respects subs_inv_kept (fun _ => true).
Proof.
  split; unfold subs_inv_kept.
  - apply subs_inv_kept_preorder.
  - intros t s. exact (pushTarget_preserves t s).
  - intros s. exact (popTarget_preserves s).
  - intros x s. by apply subs_inv_frame.
  - intros d s. exact (depend_preserves d s).
  - intros w s. exact (cleanupDeps_preserves w s).
  - intros w s. exact (teardown_preserves w s).
  - intros w v s. by apply subs_inv_upd_watcher.
  - intros w s. by apply subs_inv_upd_watcher.
  - intros w s. destruct (queueWatcher_frame w s) as (?&?&_). by apply subs_inv_frame.
  - intros p f s. by apply subs_inv_frame.
  - intros r d s. by apply subs_inv_frame.
  - intros r s. by apply subs_inv_frame.
  - intros r key d s. by apply subs_inv_frame.
  - intros d P s. by apply subs_inv_frame.
  - intros s [Hnd Hkn Hdp Hnw]. split; simpl; [| |done..].
    + intros d. unfold subsOf; simpl.
      destruct (decide (dep_uid s = d)) as [->|Hne].
      * rewrite lookup_total_insert_eq. constructor.
      * rewrite lookup_total_insert_ne by done. apply Hnd.
    + intros d w. unfold subsOf; simpl.
      destruct (decide (dep_uid s = d)) as [->|Hne].
      * rewrite lookup_total_insert_eq. by intros ?%elem_of_nil.
      * rewrite lookup_total_insert_ne by done. apply Hkn.
  - intros s. by apply subs_inv_frame.
  - intros e s _. by apply subs_inv_frame.
  - done.
Qed.

(** Projections of updated states, without unfolding anything else. *)
Ltac ssimpl :=
  cbn [seenObjects watchers dep_subs dep_uid target targetStack queue activatedChildren has
       circular waiting flushing index shouldObserve objects next_ref props vms
       ticks trace
       set_seenObjects set_watchers set_dep_subs set_dep_uid set_target set_targetStack set_queue
       set_activatedChildren set_has set_circular set_waiting set_flushing
       set_index set_shouldObserve set_objects set_next_ref set_props set_vms
       set_ticks set_trace].

Lemma subs_inv_respects_sched dev : respects_sched dev subs_inv_kept.
Proof.
  split; unfold subs_inv_kept; intros; try by apply (subs_inv_frame s).
  (* resetSchedulerState *)
  revert H. apply subs_inv_frame; unfold resetSchedulerState; by destruct dev.
Qed.

Lemma addDep_subscribed w d s :
  subs_inv s → w ∈ subsOf d s → subsOf d (Watcher_addDep w d s) = subsOf d s.
Proof.
  intros [_ Hkn _ _] (W&HW&Hin)%Hkn. unfold Watcher_addDep. rewrite HW.
  case_decide as Hnew; [done|]. destruct Hin as [Hold|?]; [|done].
  by rewrite decide_True.
Qed.

Lemma run_ops_preserve ops s : subs_inv s → subs_inv (foldl run_op s ops).
Proof.
  revert s. induction ops as [|o ops IH]; intros s Hs; simpl; [done|].
  apply IH. destruct o; simpl.
  - by apply pushTarget_preserves.
  - by apply popTarget_preserves.
  - by apply depend_preserves.
  - by apply cleanupDeps_preserves.
  - by apply teardown_preserves.
Qed.

Lemma ex_state_subs_inv : subs_inv ex_state.
Proof.
  assert (∀ d, subsOf d ex_state = if decide (d = 0) then [1] else []) as Hsubs.
  { intros d. unfold subsOf, ex_state; simpl. case_decide as Hd.
    - subst. by rewrite lookup_total_singleton_eq.
    - by rewrite lookup_total_singleton_ne. }
  assert (∀ w W, watchers ex_state !! w = Some W → w = 1 ∧ W = ex_watcher) as Hw.
  { intros w W. unfold ex_state; simpl. by intros [-> ->]%lookup_singleton_Some. }
  split.
  - intros d. rewrite Hsubs. case_decide; [apply NoDup_singleton|constructor].
  - intros d w. rewrite Hsubs. case_decide as Hd; [|by intros ?%elem_of_nil].
    intros ->%list_elem_of_singleton. subst d. exists ex_watcher. split; [done|].
    left. simpl. set_solver.
  - intros w W d [-> ->]%Hw. simpl. set_solver.
  - intros w W d [-> ->]%Hw. simpl. set_solver.
Qed.

(** ** C7 *)

(** C7, against the claim as stated: [Dep.addSub] is a plain [push]. On a
    Dep whose list already holds the watcher 1, a second [addSub(1)]
    does not leave the list unchanged: it now holds the watcher twice. *)
Lemma C7_addSub_appends_unconditionally :
  let s := Dep_addSub 0 1 blank in
  1 ∈ subsOf 0 s
  ∧ subsOf 0 (Dep_addSub 0 1 s) = [1; 1]
  ∧ subsOf 0 (Dep_addSub 0 1 s) ≠ subsOf 0 s.
Proof. vm_compute. split_and!; [apply list_elem_of_here|done|done]. Qed.

(** C7, as amended: uniqueness is a property of [Watcher.addDep], the only
    caller of [addSub], and not of [addSub] itself. From any state that
    satisfies the subscription invariant, tracking a Dep to which the
    watcher is already subscribed leaves the subscriber list unchanged,
    and every subscriber list is free of duplicates after any sequence of
    track, cleanup and teardown operations, after any application code,
    and after any flush. *)
Theorem C7_subscribers_stay_unique dev ssr s :
  subs_inv s →
  (∀ w d, w ∈ subsOf d s → subsOf d (Watcher_addDep w d s) = subsOf d s)
  ∧ (∀ ops d, NoDup (subsOf d (foldl run_op s ops)))
  ∧ (∀ n c r s' d, exec dev ssr n c s = Some (r, s') → NoDup (subsOf d s'))
  ∧ (∀ n r s' d, next_tick dev ssr n s = Some (r, s') → NoDup (subsOf d s')).
Proof.
  intros Hs. split_and!.
  - intros w d. by apply addDep_subscribed.
  - intros ops d. by apply run_ops_preserve.
  - intros n c r s' d Hrun. apply inv_NoDup.
    exact (ep_exec _ _ _ _ _
             (engine_respects dev ssr _ _ subs_inv_respects n) c s r s' Hrun Hs).
  - intros n r s' d Hrun. apply inv_NoDup.
    exact (next_tick_preserves dev ssr _ _ subs_inv_respects
             (subs_inv_respects_sched dev) n s r s' Hrun Hs).
Qed.

(** The theorem at [ex_state]: the watcher 1 reads the field twice more
    while it is the target. *)
Lemma C7_subscribers_stay_unique_witness :
  subs_inv ex_state
  ∧ ∀ d, NoDup (subsOf d (foldl run_op ex_state
                            [OpPushTarget (Some 1); OpTrack 0; OpTrack 0; OpPopTarget])).
Proof.
  split; [exact ex_state_subs_inv|].
  intros d.
  exact (proj1 (proj2 (C7_subscribers_stay_unique true false ex_state
                         ex_state_subs_inv)) _ d).
Defined.

(** ** One evaluation *)

Lemma addDep_spec w d s W :
  watchers s !! w = Some W →
  let s' := Watcher_addDep w d s in
  ∃ W', watchers s' !! w = Some W'
    ∧ w_depIds W' = w_depIds W ∧ w_deps W' = w_deps W
    ∧ w_newDepIds W' = {[d]} ∪ w_newDepIds W
    ∧ w_newDeps W' = (if decide (d ∈ w_newDepIds W) then w_newDeps W else (w_newDeps W ++ [d]))
    ∧ target s' = target s ∧ targetStack s' = targetStack s ∧ trace s' = trace s
    ∧ (∀ d', subsOf d' s' =
         if decide (d' = d ∧ (d ∉ w_newDepIds W) ∧ (d ∉ w_depIds W))
         then subsOf d s ++ [w] else subsOf d' s).
Proof.
  intros HW. unfold Watcher_addDep. rewrite HW.
  case_decide as Hnew.
  - exists W. split_and!; try done.
    + set_solver.
    + intros d'. rewrite decide_False; [done|tauto].
  - simpl. case_decide as Hold; simpl.
    + eexists. rewrite lookup_insert_eq. split_and!; try done.
      intros d'. rewrite decide_False; [done|tauto].
    + eexists. rewrite lookup_insert_eq. split_and!; try done.
      intros d'. rewrite subsOf_addSub. unfold subsOf at 1 3; simpl.
      destruct (decide (d = d')) as [->|Hne].
      * by rewrite decide_True.
      * rewrite decide_False; [done|]. intros (->&_); done.
Qed.

Lemma track_all_cons d rs s : track_all (d :: rs) s = track_all rs (Dep_depend d s).
Proof. reflexivity. Qed.

Lemma track_all_spec w rs : ∀ s W,
  watchers s !! w = Some W → target s = Some w →
  let s' := track_all rs s in
  ∃ W', watchers s' !! w = Some W'
    ∧ w_depIds W' = w_depIds W ∧ w_deps W' = w_deps W
    ∧ w_newDepIds W' = w_newDepIds W ∪ list_to_set rs
    ∧ ((∀ d, d ∈ w_newDepIds W → d ∈ w_newDeps W) →
       ∀ d, d ∈ w_newDeps W' ↔ d ∈ w_newDeps W ∨ d ∈ rs)
    ∧ (NoDup (w_newDeps W) → (∀ d, d ∈ w_newDeps W → d ∈ w_newDepIds W) → NoDup (w_newDeps W'))
    ∧ target s' = Some w ∧ targetStack s' = targetStack s ∧ trace s' = trace s
    ∧ (∀ d, d ∈ w_depIds W → subsOf d s' = subsOf d s)
    ∧ (∀ d x, x ∈ subsOf d s → x ∈ subsOf d s')
    ∧ (∀ d, d ∈ rs → d ∉ w_depIds W → d ∉ w_newDepIds W → w ∈ subsOf d s').
Proof.
  induction rs as [|d rs IH]; intros s W HW Ht.
  { exists W. simpl. split_and!; try done; set_solver. }
  rewrite track_all_cons. unfold Dep_depend. rewrite Ht. simpl.
  destruct (addDep_spec w d s W HW) as (W1&HW1&Hi1&Hd1&Hni1&Hn1&Ht1&Hts1&Htr1&Hs1).
  destruct (IH (Watcher_addDep w d s) W1 HW1) as (W2&HW2&Hi2&Hd2&Hni2&Hn2&Hnd2&Ht2&Hts2&Htr2&Hs2&Hmono&Hnew).
  { by rewrite Ht1. }
  clear IH. exists W2. split_and!.
  - done.
  - by rewrite Hi2.
  - by rewrite Hd2.
  - rewrite Hni2, Hni1. clear. set_solver.
  - intros Hcons d'. rewrite Hn2.
    + rewrite Hn1. clear -Hcons. case_decide; set_solver.
    + intros d0. rewrite Hn1, Hni1. clear -Hcons. case_decide; set_solver.
  - intros Hnd Hcons. apply Hnd2.
    + rewrite Hn1. case_decide; [done|]. apply NoDup_app. split_and!; [done| |apply NoDup_singleton].
      intros x Hx ->%list_elem_of_singleton. by apply Hcons in Hx.
    + intros d'. rewrite Hn1, Hni1. clear -Hcons. case_decide; set_solver.
  - done.
  - by rewrite Hts2.
  - by rewrite Htr2.
  - intros d' Hd'. rewrite Hs2 by (by rewrite Hi1). rewrite Hs1.
    rewrite decide_False; [done|]. intros (->&_&?). done.
  - intros d' x Hx. apply Hmono. rewrite Hs1. clear -Hx. case_decide as Hc; [|done].
    destruct Hc as (->&_). apply elem_of_app. by left.
  - intros d' [->|Hin]%elem_of_cons Hold Hnotnew.
    + apply Hmono. rewrite Hs1, decide_True by done. apply elem_of_app. right. apply list_elem_of_here.
    + destruct (decide (d' = d)) as [->|Hne].
      * apply Hmono. rewrite Hs1, decide_True by done. apply elem_of_app. right. apply list_elem_of_here.
      * apply Hnew; [done|by rewrite Hi1|]. rewrite Hni1. clear -Hne Hnotnew. set_solver.
Qed.

Lemma cleanupDeps_spec w s W :
  watchers s !! w = Some W →
  let s' := Watcher_cleanupDeps w s in
  ∃ W', watchers s' !! w = Some W'
    ∧ w_depIds W' = w_newDepIds W ∧ w_deps W' = w_newDeps W
    ∧ w_newDepIds W' = ∅ ∧ w_newDeps W' = []
    ∧ trace s' = trace s
    ∧ (∀ d, d ∈ w_deps W → d ∉ w_newDepIds W → NoDup (subsOf d s) → w ∉ subsOf d s')
    ∧ (∀ d, d ∈ w_newDepIds W → subsOf d s' = subsOf d s).
Proof.
  intros HW. rewrite cleanupDeps_unfold, HW. simpl.
  eexists. rewrite lookup_insert_eq. split_and!; try done.
  - by destruct (unsubscribe_frame w (w_newDepIds W) (reverse (w_deps W)) s) as (_&_&_&_&->&_).
  - intros d Hd Hnot Hnd. apply unsubscribe_gone; [|done..]. by apply elem_of_reverse.
  - intros d Hd. by apply unsubscribe_kept.
Qed.

Lemma popTarget_frame s :
  watchers (popTarget s) = watchers s ∧ dep_subs (popTarget s) = dep_subs s
  ∧ trace (popTarget s) = trace s.
Proof. unfold popTarget. by destruct (targetStack s). Qed.

Lemma pushTarget_frame t s :
  watchers (pushTarget t s) = watchers s ∧ dep_subs (pushTarget t s) = dep_subs s
  ∧ trace (pushTarget t s) = trace s ∧ target (pushTarget t s) = t.
Proof. unfold pushTarget. by destruct (target s). Qed.

Lemma after_getter_frame W r s :
  watchers (after_getter W r s) = watchers s
  ∧ dep_subs (after_getter W r s) = dep_subs s
  ∧ target (after_getter W r s) = target s.
Proof. unfold after_getter. destruct r; [done|]. by destruct (w_user W). Qed.

(** [get()], once it is known how the getter completes. *)
Lemma Watcher_get_unfold dev ssr n w W s r s2 :
  watchers s !! w = Some W →
  exec dev ssr n (w_getter W) (getter_start w s) = Some (r, s2) →
  Watcher_get dev ssr (S n) w s
  = get_end W r (get_finally dev ssr n w W (value_of r) (after_getter W r s2)).
Proof.
  intros HW Hget. simpl. unfold bind at 1. unfold the_watcher at 1. rewrite HW.
  unfold bind at 1. unfold modify at 1.
  unfold try_finally, try_catch. unfold bind at 1, record at 1, modify at 1.
  change (set_trace _ (pushTarget (Some w) s)) with (getter_start w s).
  rewrite Hget. unfold get_end, get_finally.
  destruct r as [v|e]; simpl; [done|].
  by destruct (w_user W).
Qed.

(** The [finally] block of a watcher that is not deep. *)
Lemma get_finally_shallow dev ssr n w W v s :
  w_deep W = false →
  get_finally dev ssr n w W v s = Some (Ok tt, Watcher_cleanupDeps w (popTarget s)).
Proof. intros Hd. unfold get_finally. by rewrite Hd. Qed.

(** [traverse] returns at once from a value that is no object. *)
Lemma traverse_not_object dev ssr n v s :
  isObject v = false →
  traverse (_traverse dev ssr (S n)) v s = Some (Ok tt, set_seenObjects ∅ s).
Proof. intros Hv. unfold traverse. by destruct v. Qed.

Lemma get_finally_not_object dev ssr n w W v s :
  isObject v = false →
  get_finally dev ssr (S n) w W v s
  = Some (Ok tt, Watcher_cleanupDeps w
                   (popTarget (if w_deep W then set_seenObjects ∅ s else s))).
Proof.
  intros Hv. unfold get_finally. destruct (w_deep W); [|done].
  unfold when, bind at 1. by rewrite traverse_not_object.
Qed.

(** Nothing runs on no fuel. *)
Lemma exec_fuel dev ssr n c s x : exec dev ssr n c s = Some x → n ≠ 0.
Proof. by destruct n. Qed.

(** ** What one evaluation leaves in [deps] *)

(** Let the watcher [w], not a deep one, be between two evaluations
    ([newDeps] and [newDepIds] empty, [deps] and [depIds] in step, no
    duplicate in the subscriber lists of its Deps), and let its getter
    be one whose effect on the engine is to track the Deps [rs]. Then
    [get()] completes, and afterwards [depIds] is exactly the set of
    the Deps read, [deps] lists the same Deps without repetition,
    [newDeps] and [newDepIds] are empty again, every Dep of the old
    [deps] that was not read has lost [w] from its subscriber list, and
    every Dep read for the first time has [w] in its list. *)
Theorem get_tracks_reads dev ssr n w W s r rs :
  watchers s !! w = Some W → w_deep W = false →
  w_newDeps W = [] → w_newDepIds W = ∅ →
  (∀ d, d ∈ w_depIds W ↔ d ∈ w_deps W) →
  (∀ d, d ∈ w_deps W → NoDup (subsOf d s)) →
  let s2 := track_all rs (getter_start w s) in
  exec dev ssr n (w_getter W) (getter_start w s) = Some (r, s2) →
  ∃ s' W',
    Watcher_get dev ssr (S n) w s = Some (get_result W r, s')
    ∧ watchers s' !! w = Some W'
    ∧ w_depIds W' = list_to_set rs
    ∧ (∀ d, d ∈ w_deps W' ↔ d ∈ rs)
    ∧ NoDup (w_deps W')
    ∧ w_newDeps W' = [] ∧ w_newDepIds W' = ∅
    ∧ (∀ d, d ∈ w_deps W → d ∉ rs → w ∉ subsOf d s')
    ∧ (∀ d, d ∈ rs → d ∉ w_deps W → w ∈ subsOf d s').
Proof.
  intros HW Hdeep Hnd0 Hni0 Hcons Hnodup s2 Hget.
  pose proof (Watcher_get_unfold dev ssr n w W s r s2 HW Hget) as Hrun.
  rewrite get_finally_shallow in Hrun by done. cbn [get_end] in Hrun.
  set (s3 := after_getter W r s2) in *.
  (* the reads of the getter *)
  destruct (pushTarget_frame (Some w) s) as (Hw0&Hs0&_&Ht0).
  destruct (track_all_spec w rs (getter_start w s) W) as
    (W2&HW2&Hi2&Hd2&Hni2&Hn2&Hnd2&Ht2&_&_&Hs2&Hmono2&Hnew2).
  { unfold getter_start; ssimpl. by rewrite Hw0. }
  { unfold getter_start; ssimpl. done. }
  fold s2 in HW2, Ht2, Hs2, Hmono2, Hnew2.
  destruct (after_getter_frame W r s2) as (Hw3&Hsub3&Ht3). fold s3 in Hw3, Hsub3, Ht3.
  assert (∀ d, subsOf d s3 = subsOf d s2) as Hsubs3.
  { intros d. unfold subsOf. by rewrite Hsub3. }
  assert (∀ d, subsOf d (getter_start w s) = subsOf d s) as Hsubs1.
  { intros d. unfold subsOf, getter_start; ssimpl. by rewrite Hs0. }
  assert (NoDup (w_newDeps W2)) as HND2.
  { apply Hnd2; rewrite Hnd0; [constructor|]. by intros ? ?%elem_of_nil. }
  (* cleanupDeps *)
  destruct (popTarget_frame s3) as (Hw5&Hs5&_).
  destruct (cleanupDeps_spec w (popTarget s3) W2) as
    (W6&HW6&Hi6&Hd6&Hni6&Hn6&_&Hgone&Hkept).
  { by rewrite Hw5, Hw3. }
  assert (∀ d, subsOf d (popTarget s3) = subsOf d s3) as Hsubs5.
  { intros d. unfold subsOf. by rewrite Hs5. }
  assert (w_newDepIds W2 = list_to_set rs) as Hset.
  { rewrite Hni2, Hni0. set_solver. }
  assert (∀ d, d ∈ w_newDeps W2 ↔ d ∈ rs) as Hlist.
  { intros d. rewrite Hn2 by (rewrite Hni0; set_solver). rewrite Hnd0. set_solver. }
  exists (Watcher_cleanupDeps w (popTarget s3)), W6. split_and!.
  - done.
  - done.
  - by rewrite Hi6.
  - intros d. by rewrite Hd6.
  - by rewrite Hd6.
  - done.
  - done.
  - intros d Hd Hnot. apply Hgone.
    + by rewrite Hd2.
    + rewrite Hset. by rewrite elem_of_list_to_set.
    + rewrite Hsubs5, Hsubs3. rewrite Hs2, Hsubs1; [by apply Hnodup|]. by apply Hcons.
  - intros d Hd Hnot. rewrite Hkept by (rewrite Hset; by apply elem_of_list_to_set).
    rewrite Hsubs5, Hsubs3. assert (d ∉ w_depIds W) as Hnot' by (by rewrite Hcons).
    apply Hnew2; [done..|]. rewrite Hni0. set_solver.
Qed.

(** The theorem at [stale_state]: [flag] is now false, the getter reads
    the Dep 0 alone, and the watcher leaves the list of the Dep 1. *)
Lemma get_tracks_reads_witness :
  ∃ s' W',
    Watcher_get true false 3 1 stale_state = Some (Ok VUndef, s')
    ∧ watchers s' !! 1 = Some W'
    ∧ w_depIds W' = {[0]}
    ∧ 1 ∉ subsOf 1 s'.
Proof.
  destruct (get_tracks_reads true false 2 1
              stale_watcher stale_state (Ok VUndef) [0])
    as (s'&W'&Hget&HW'&Hids&_&_&_&_&Hgone&_).
  - reflexivity.
  - reflexivity.
  - reflexivity.
  - reflexivity.
  - intros d. simpl. rewrite !elem_of_union, !elem_of_singleton, !elem_of_cons, elem_of_nil.
    tauto.
  - intros d [->| [->|[]%elem_of_nil]%elem_of_cons]%elem_of_cons; vm_compute; apply NoDup_singleton.
  - vm_compute. reflexivity.
  - exists s', W'. split_and!; [done|done| |].
    + rewrite Hids. simpl. set_solver.
    + apply Hgone; simpl; set_solver.
Defined.

(** ** C1 *)

(** C1, where the code departs from the claim: the getter of the
    watcher 1 calls [callHook(vm, "created")] and then reads the field
    [a], whose value, 5, it returns. If the handler of the hook does
    nothing, [get()] ends with the Dep of [a] in [deps] and the watcher
    among the subscribers of that Dep. If the handler calls another
    hook, or reads a computed property that has to be evaluated, the
    [popTarget()] of the hook finds the stack empty and leaves the rest
    of the getter without a target: the read of [a] tracks nothing,
    [get()] still returns 5, with [deps] empty and no subscriber of the
    Dep of [a], and a later write to [a] notifies no watcher and queues
    none. *)
Theorem C1_read_after_hook_is_not_tracked :
  outcome (Watcher_get true false 9 1 (hook_read_state (Ret VUndef)))
  = Some (Ok (VNum 5), [1], Some [0], None, [])
  ∧ outcome (Watcher_get true false 9 1
               (hook_read_state (RunHook 0 "mounted" (Ret VUndef))))
    = Some (Ok (VNum 5), [], Some [], None, [])
  ∧ outcome (Watcher_get true false 9 1
               (hook_read_state (ReadComputed 2 (fun _ => Ret VUndef))))
    = Some (Ok (VNum 5), [], Some [], None, [])
  ∧ (fun x => (fst x, trace (snd x), queue (snd x)))
      <$> exec true false 9 (Write 0 (VNum 6) (Ret VUndef))
            (set_trace []
               (after (Watcher_get true false 9 1)
                      (hook_read_state (RunHook 0 "mounted" (Ret VUndef)))))
    = Some (Ok VUndef, [EvNotify 0], [])
  ∧ (fun x => (fst x, trace (snd x), queue (snd x)))
      <$> exec true false 9 (Write 0 (VNum 6) (Ret VUndef))
            (set_trace []
               (after (Watcher_get true false 9 1) (hook_read_state (Ret VUndef))))
    = Some (Ok VUndef, [EvNotify 0], [1]).
Proof. vm_compute. done. Qed.

(** ** Torn-down watchers *)

Lemma stays_silent_preorder w : PreOrder (stays_silent w).
Proof.
  split.
  - intros s Hs. split; [done|]. exists []. split; [by rewrite app_nil_r|].
    intros v o. apply not_elem_of_nil.
  - intros s1 s2 s3 H12 H23 Hs. destruct (H12 Hs) as (Hs2&t1&Ht1&Hn1).
    destruct (H23 Hs2) as (Hs3&t2&Ht2&Hn2). split; [done|].
    exists (t1 ++ t2). split; [by rewrite Ht2, Ht1, app_assoc|].
    intros v o [?|?]%elem_of_app; [by eapply Hn1|by eapply Hn2].
Qed.

(** A step that leaves the trace alone and keeps [active] as it is. *)
Lemma stays_silent_frame w s s' :
  trace s' = trace s →
  (∀ W, watchers s !! w = Some W → w_active W = false →
        ∃ W', watchers s' !! w = Some W' ∧ w_active W' = false) →
  stays_silent w s s'.
Proof.
  intros Ht Hw (W&HW&Hact). split.
  - apply Hw in HW as (W'&?&?); [|done]. by exists W'.
  - exists []. split; [by rewrite app_nil_r|]. intros v o. apply not_elem_of_nil.
Qed.

Lemma stays_silent_same w s s' :
  trace s' = trace s → watchers s' = watchers s → stays_silent w s s'.
Proof. intros Ht Hw. apply stays_silent_frame; [done|]. rewrite Hw. eauto. Qed.

Lemma Dep_addSub_frame d x s :
  watchers (Dep_addSub d x s) = watchers s ∧ trace (Dep_addSub d x s) = trace s
  ∧ target (Dep_addSub d x s) = target s.
Proof. done. Qed.

Lemma addDep_active w d s x W :
  watchers s !! x = Some W →
  ∃ W', watchers (Watcher_addDep w d s) !! x = Some W' ∧ w_active W' = w_active W.
Proof.
  intros HW. unfold Watcher_addDep.
  destruct (watchers s !! w) as [W0|] eqn:HW0; [|by exists W].
  case_decide; [by exists W|].
  assert (∃ W', <[w:=set_w_newDeps (w_newDeps W0 ++ [d])
                       (set_w_newDepIds ({[d]} ∪ w_newDepIds W0) W0)]> (watchers s) !! x = Some W'
                ∧ w_active W' = w_active W) as Hx.
  { destruct (decide (x = w)) as [->|Hne].
    - rewrite lookup_insert_eq. eexists. split; [done|]. simpl. congruence.
    - rewrite lookup_insert_ne by done. by exists W. }
  by case_decide.
Qed.

Lemma addDep_trace w d s : trace (Watcher_addDep w d s) = trace s.
Proof.
  unfold Watcher_addDep. destruct (watchers s !! w); [|done].
  case_decide; [done|]. by case_decide.
Qed.

Lemma depend_trace d s : trace (Dep_depend d s) = trace s.
Proof. unfold Dep_depend. destruct (target s); [apply addDep_trace|done]. Qed.

Lemma track_all_trace rs s : trace (track_all rs s) = trace s.
Proof.
  revert s. induction rs as [|d rs IH]; intros s; [done|].
  rewrite track_all_cons, IH. apply depend_trace.
Qed.

Lemma cleanupDeps_trace w s : trace (Watcher_cleanupDeps w s) = trace s.
Proof.
  rewrite cleanupDeps_unfold. destruct (watchers s !! w) as [W|]; [|done]. simpl.
  by destruct (unsubscribe_frame w (w_newDepIds W) (reverse (w_deps W)) s) as (_&_&_&_&->&_).
Qed.

Lemma cleanupDeps_active w s x W :
  watchers s !! x = Some W →
  ∃ W', watchers (Watcher_cleanupDeps w s) !! x = Some W' ∧ w_active W' = w_active W.
Proof.
  intros HW. rewrite cleanupDeps_unfold.
  destruct (watchers s !! w) as [W0|] eqn:HW0; [|by exists W]. simpl.
  destruct (unsubscribe_frame w (w_newDepIds W0) (reverse (w_deps W0)) s) as (->&_).
  destruct (decide (x = w)) as [->|Hne].
  - rewrite lookup_insert_eq. eexists. split; [done|]. simpl. congruence.
  - rewrite lookup_insert_ne by done. by exists W.
Qed.

Lemma teardown_trace w s : trace (Watcher_teardown w s) = trace s.
Proof.
  rewrite teardown_unfold. destruct (watchers s !! w) as [W|]; [|done].
  destruct (w_active W); [|done]. simpl.
  set (s1 := match vms s !! _ with Some _ => _ | None => _ end).
  destruct (unsubscribe_frame w ∅ (reverse (w_deps W)) s1) as (_&_&_&_&->&_).
  subst s1. destruct (vms s !! _) as [V|]; [|done]. by destruct (vm_isBeingDestroyed V).
Qed.

Lemma teardown_watchers w s W :
  watchers s !! w = Some W →
  watchers (Watcher_teardown w s) = <[w := set_w_active false W]> (watchers s).
Proof.
  intros HW. rewrite teardown_unfold, HW. destruct (w_active W) eqn:Hact.
  - simpl. set (s1 := match vms s !! _ with Some _ => _ | None => _ end).
    destruct (unsubscribe_frame w ∅ (reverse (w_deps W)) s1) as (->&_).
    subst s1. destruct (vms s !! _) as [V|]; [|done]. by destruct (vm_isBeingDestroyed V).
  - rewrite insert_id; [done|]. rewrite HW. f_equal. destruct W; simpl in *. by subst.
Qed.

Lemma teardown_inactive w s x :
  inactive x s → inactive x (Watcher_teardown w s).
Proof.
  intros (W&HW&Hact). destruct (watchers s !! w) as [W0|] eqn:HW0.
  - unfold inactive. rewrite (teardown_watchers w s W0 HW0).
    destruct (decide (x = w)) as [->|Hne].
    + rewrite lookup_insert_eq. by eexists.
    + rewrite lookup_insert_ne by done. by exists W.
  - rewrite teardown_unfold, HW0. by exists W.
Qed.

Lemma upd_watcher_active w f s x :
  (∀ W, w_active (f W) = w_active W) →
  inactive x s → inactive x (upd_watcher w f s).
Proof.
  intros Hf (W&HW&Hact). unfold inactive, upd_watcher; simpl.
  destruct (decide (x = w)) as [->|Hne].
  - rewrite lookup_alter_eq, HW. simpl. eexists. split; [done|]. by rewrite Hf.
  - rewrite lookup_alter_ne by done. by exists W.
Qed.

Lemma stays_silent_inactive w s s' :
  trace s' = trace s → (inactive w s → inactive w s') → stays_silent w s s'.
Proof.
  intros Ht Hin Hs. split; [by apply Hin|].
  exists []. split; [by rewrite app_nil_r|]. intros v o. apply not_elem_of_nil.
Qed.

Lemma stays_silent_respects w :
  respects (stays_silent w) (fun w' => bool_decide (w' ≠ w)).
Proof.
  split.
  - apply stays_silent_preorder.
  - intros t s. destruct (pushTarget_frame t s) as (?&_&?&_). by apply stays_silent_same.
  - intros s. destruct (popTarget_frame s) as (?&_&?). by apply stays_silent_same.
  - intros x s. by apply stays_silent_same.
  - intros d s. apply stays_silent_inactive; [apply depend_trace|].
    intros (W&HW&Hact). unfold Dep_depend. destruct (target s) as [x|]; [|by exists W].
    destruct (addDep_active x d s w W HW) as (W'&?&?). exists W'. split; [done|congruence].
  - intros x s. apply stays_silent_inactive; [apply cleanupDeps_trace|].
    intros (W&HW&Hact). destruct (cleanupDeps_active x s w W HW) as (W'&?&?).
    exists W'. split; [done|congruence].
  - intros x s. apply stays_silent_inactive; [apply teardown_trace|apply teardown_inactive].
  - intros x v s. apply stays_silent_inactive; [done|]. by apply upd_watcher_active.
  - intros x s. apply stays_silent_inactive; [done|]. by apply upd_watcher_active.
  - intros x s. destruct (queueWatcher_frame x s) as (?&_&?&_). by apply stays_silent_same.
  - intros p f s. by apply stays_silent_same.
  - intros r d s. by apply stays_silent_same.
  - intros r s. by apply stays_silent_same.
  - intros r key d s. by apply stays_silent_same.
  - intros d P s. by apply stays_silent_same.
  - intros s. by apply stays_silent_same.
  - intros s. by apply stays_silent_same.
  - intros e s He Hs. split; [done|]. exists [e]. split; [done|].
    intros v o Heq%list_elem_of_singleton.
    specialize (He w v o (eq_sym Heq)). by apply bool_decide_eq_true in He.
  - intros x W s s' Hx%bool_decide_eq_false HW Hact (W'&HW'&Hact').
    apply dec_stable in Hx. subst x. congruence.
Qed.

Lemma stays_silent_respects_sched dev w : respects_sched dev (stays_silent w).
Proof.
  split; intros; try by apply stays_silent_same.
  apply stays_silent_same; unfold resetSchedulerState; by destruct dev.
Qed.

Lemma teardown_unsubscribes w W s d :
  watchers s !! w = Some W → w_active W = true →
  d ∈ w_deps W → NoDup (subsOf d s) → w ∉ subsOf d (Watcher_teardown w s).
Proof.
  intros HW Hact Hd Hnd. rewrite teardown_unfold, HW, Hact. simpl.
  set (s1 := match vms s !! _ with Some _ => _ | None => _ end).
  assert (subsOf d s1 = subsOf d s) as Hs1.
  { subst s1. destruct (vms s !! _) as [V|]; [|done]. by destruct (vm_isBeingDestroyed V). }
  change (w ∉ subsOf d (unsubscribe w ∅ (reverse (w_deps W)) s1)).
  apply unsubscribe_gone; [by apply elem_of_reverse|set_solver|by rewrite Hs1].
Qed.

Lemma teardown_makes_inactive w W s :
  watchers s !! w = Some W → inactive w (Watcher_teardown w s).
Proof.
  intros HW. unfold inactive. rewrite (teardown_watchers w s W HW), lookup_insert_eq.
  by eexists.
Qed.

Lemma teardown_inactive_id w s : inactive w s → Watcher_teardown w s = s.
Proof. intros (W&HW&Hact). by rewrite teardown_unfold, HW, Hact. Qed.

Lemma run_inactive dev ssr n w s :
  inactive w s → Watcher_run dev ssr (S n) w s = Some (Ok tt, s).
Proof.
  intros (W&HW&Hact). simpl. unfold bind, the_watcher. by rewrite HW, Hact.
Qed.

(** ** C8 *)





(** That write does complete: it notifies the Dep 0, which has no
    subscriber left. *)
Example teardown_then_write :
  (fun x => (fst x, trace (snd x))) <$>
    exec true false 9 (Write 0 (VNum 2) (Ret VUndef))
      (Watcher_teardown 1 ex_state)
  = Some (Ok VUndef, [EvNotify 0]).
Proof. vm_compute. reflexivity. Qed.

(** ** The constructor's fields *)

Lemma same_watcher_refl W : same_watcher W W.
Proof. by repeat split. Qed.

Lemma same_watcher_trans W1 W2 W3 :
  same_watcher W1 W2 → same_watcher W2 W3 → same_watcher W1 W3.
Proof.
  unfold same_watcher.
  intros (?&?&?&?&?&?&?&?&?&?) (?&?&?&?&?&?&?&?&?&?). split_and!; congruence.
Qed.

Lemma keeps_watcher_preorder w : PreOrder (keeps_watcher w).
Proof.
  split.
  - intros s W HW. exists W. split; [done|apply same_watcher_refl].
  - intros s1 s2 s3 H12 H23 W HW. destruct (H12 W HW) as (W2&HW2&?).
    destruct (H23 W2 HW2) as (W3&HW3&?). exists W3. split; [done|].
    by eapply same_watcher_trans.
Qed.

Lemma keeps_watcher_same w s s' : watchers s' = watchers s → keeps_watcher w s s'.
Proof. intros Hw W HW. exists W. rewrite Hw. split; [done|apply same_watcher_refl]. Qed.

Lemma keeps_watcher_insert w x s s' W0 W1 :
  watchers s !! x = Some W0 → same_watcher W0 W1 →
  watchers s' = <[x := W1]> (watchers s) → keeps_watcher w s s'.
Proof.
  intros HW0 Hsame Hw W HW. rewrite Hw. destruct (decide (w = x)) as [->|Hne].
  - rewrite lookup_insert_eq. exists W1. split; [done|]. congruence.
  - rewrite lookup_insert_ne by done. exists W. split; [done|apply same_watcher_refl].
Qed.

Lemma addDep_keeps w x d s : keeps_watcher w s (Watcher_addDep x d s).
Proof.
  unfold Watcher_addDep. destruct (watchers s !! x) as [W0|] eqn:HW0; [|by apply keeps_watcher_same].
  case_decide; [by apply keeps_watcher_same|].
  case_decide; (eapply keeps_watcher_insert; [done| |done]); by repeat split.
Qed.

Lemma cleanupDeps_keeps w x s : keeps_watcher w s (Watcher_cleanupDeps x s).
Proof.
  rewrite cleanupDeps_unfold.
  destruct (watchers s !! x) as [W0|] eqn:HW0; [|by apply keeps_watcher_same]. simpl.
  eapply keeps_watcher_insert; [done| |].
  2: { simpl. by destruct (unsubscribe_frame x (w_newDepIds W0) (reverse (w_deps W0)) s) as (->&_). }
  by repeat split.
Qed.

Lemma teardown_keeps w x s : keeps_watcher w s (Watcher_teardown x s).
Proof.
  destruct (watchers s !! x) as [W0|] eqn:HW0.
  - eapply keeps_watcher_insert; [done| |by apply teardown_watchers]. by repeat split.
  - apply keeps_watcher_same. by rewrite teardown_unfold, HW0.
Qed.

Lemma upd_watcher_keeps w x f s :
  (∀ W, same_watcher W (f W)) → keeps_watcher w s (upd_watcher x f s).
Proof.
  intros Hf W HW. unfold upd_watcher; simpl. destruct (decide (w = x)) as [->|Hne].
  - rewrite lookup_alter_eq, HW. simpl. by eexists.
  - rewrite lookup_alter_ne by done. exists W. split; [done|apply same_watcher_refl].
Qed.

Lemma keeps_watcher_respects w : respects (keeps_watcher w) (fun _ => true).
Proof.
  split.
  - apply keeps_watcher_preorder.
  - intros t s. destruct (pushTarget_frame t s) as (?&_). by apply keeps_watcher_same.
  - intros s. destruct (popTarget_frame s) as (?&_). by apply keeps_watcher_same.
  - intros x s. by apply keeps_watcher_same.
  - intros d s. unfold Dep_depend. destruct (target s); [apply addDep_keeps|by apply keeps_watcher_same].
  - intros x s. apply cleanupDeps_keeps.
  - intros x s. apply teardown_keeps.
  - intros x v s. apply upd_watcher_keeps. intros W. by repeat split.
  - intros x s. apply upd_watcher_keeps. intros W. by repeat split.
  - intros x s. destruct (queueWatcher_frame x s) as (?&_). by apply keeps_watcher_same.
  - intros p f s. by apply keeps_watcher_same.
  - intros r d s. by apply keeps_watcher_same.
  - intros r s. by apply keeps_watcher_same.
  - intros r key d s. by apply keeps_watcher_same.
  - intros d P s. by apply keeps_watcher_same.
  - intros s. by apply keeps_watcher_same.
  - intros s. by apply keeps_watcher_same.
  - intros e s _. by apply keeps_watcher_same.
  - done.
Qed.

Lemma exec_keeps_watcher dev ssr n c s r s' w W :
  exec dev ssr n c s = Some (r, s') → watchers s !! w = Some W →
  ∃ W', watchers s' !! w = Some W' ∧ same_watcher W W'.
Proof.
  intros Hrun HW.
  exact (ep_exec _ _ _ _ _
           (engine_respects dev ssr _ _ (keeps_watcher_respects w) n) c s r s' Hrun W HW).
Qed.

(** ** How [get()] ends *)

(** What the end of the [finally] block, [popTarget()] and
    [cleanupDeps()], leaves of the trace and of the watcher. *)
Lemma get_end_trace w s : trace (Watcher_cleanupDeps w (popTarget s)) = trace s.
Proof. rewrite cleanupDeps_trace. by destruct (popTarget_frame s) as (_&_&->). Qed.

Lemma track_all_keeps w rs s : keeps_watcher w s (track_all rs s).
Proof.
  revert s. induction rs as [|d rs IH]; intros s.
  - by apply keeps_watcher_same.
  - rewrite track_all_cons. pose proof (keeps_watcher_preorder w).
    etrans; [|apply IH]. apply (rs_depend _ _ (keeps_watcher_respects w)).
Qed.

Lemma get_end_watcher w s W2 :
  watchers s !! w = Some W2 →
  ∃ W', watchers (Watcher_cleanupDeps w (popTarget s)) !! w = Some W'
        ∧ same_watcher W2 W'.
Proof.
  intros HW2.
  assert (keeps_watcher w s (Watcher_cleanupDeps w (popTarget s))) as Hk.
  { pose proof (keeps_watcher_preorder w).
    etrans; [|apply cleanupDeps_keeps].
    apply (rs_popTarget _ _ (keeps_watcher_respects w)). }
  by apply Hk.
Qed.

(** The [finally] block, once it is known how [traverse] completes. *)
Lemma get_finally_unfold dev ssr n w W v s s3 :
  when (w_deep W) (traverse (_traverse dev ssr n) v) s = Some (Ok tt, s3) →
  get_finally dev ssr n w W v s = Some (Ok tt, Watcher_cleanupDeps w (popTarget s3)).
Proof. intros Ht. unfold get_finally, bind at 1. by rewrite Ht. Qed.

Lemma get_finally_throws dev ssr n w W v s e s3 :
  when (w_deep W) (traverse (_traverse dev ssr n) v) s = Some (Thrown e, s3) →
  get_finally dev ssr n w W v s = Some (Thrown e, s3).
Proof. intros Ht. unfold get_finally, bind at 1. by rewrite Ht. Qed.

Lemma traverse_preserves dev ssr n v R cb_ok :
  respects R cb_ok → preserves R (traverse (_traverse dev ssr n) v).
Proof.
  intros HR. pose proof (respects_preorder R cb_ok HR).
  unfold traverse. apply (preserves_bind R).
  - apply (ep_traverse _ _ _ _ _ (engine_respects dev ssr R cb_ok HR n)).
  - intros _. apply (preserves_modify R). intros s. apply (rs_seen _ _ HR).
Qed.

Lemma getter_start_watchers w s : watchers (getter_start w s) = watchers s.
Proof. unfold getter_start. ssimpl. by destruct (pushTarget_frame (Some w) s) as (->&_). Qed.

Lemma getter_start_trace w s : trace (getter_start w s) = trace s ++ [EvGetter w].
Proof. unfold getter_start. ssimpl. by destruct (pushTarget_frame (Some w) s) as (_&_&->&_). Qed.

(** ** C6 *)

(** C6, against the claim as stated: the user watcher 1 of [throw_state]
    has the value 1 cached and its getter throws. [get()] reports the
    error and returns [undefined], which is not the cached value; [run()]
    therefore stores [undefined] and calls the callback with
    [(undefined, 1)]. *)
Lemma C6_get_returns_undefined_after_an_error :
  w_value <$> watchers throw_state !! 1 = Some (VNum 1)
  ∧ fst <$> Watcher_get true false 2 1 throw_state = Some (Ok VUndef)
  ∧ (fun x => (fst x, trace (snd x), w_value <$> watchers (snd x) !! 1))
      <$> Watcher_run true false 4 1 throw_state
    = Some (Ok tt,
            [EvGetter 1; EvHandleError "boom" 0 (getter_info throw_watcher);
             EvCallback 1 VUndef (VNum 1)],
            Some VUndef).
Proof. vm_compute. done. Qed.

(** C6, as amended: when the getter of a watcher throws [e], [get()]
    still pops the target and cleans the dependencies up ([traverse], for
    a deep watcher, finds [undefined] and returns at once). For a user
    watcher it reports [e] with the text that names the expression of the
    watcher, reports nothing else, and completes normally with the value
    [undefined]; for any other watcher it reports nothing and completes
    by throwing [e] to its caller. *)
Theorem C6_getter_error dev ssr n w W s e s2 :
  watchers s !! w = Some W →
  exec dev ssr n (w_getter W) (getter_start w s) = Some (Thrown e, s2) →
  let s3 := after_getter W (Thrown e) s2 in
  let s' := Watcher_cleanupDeps w
              (popTarget (if w_deep W then set_seenObjects ∅ s3 else s3)) in
  Watcher_get dev ssr (S n) w s
  = Some (if w_user W then Ok VUndef else Thrown e, s')
  ∧ trace s' = trace s2
               ++ (if w_user W then [EvHandleError e (w_vm W) (getter_info W)] else []).
Proof.
  intros HW Hget s3 s'. split.
  - rewrite (Watcher_get_unfold dev ssr n w W s (Thrown e) s2 HW Hget).
    destruct n as [|n]; [done|]. cbn [value_of].
    rewrite get_finally_not_object by done. reflexivity.
  - subst s'. rewrite get_end_trace.
    assert (trace (if w_deep W then set_seenObjects ∅ s3 else s3) = trace s3) as ->
      by (by destruct (w_deep W)).
    subst s3. unfold after_getter. destruct (w_user W); [done|by rewrite app_nil_r].
Qed.

(** The theorem at [throw_state]. *)
Lemma C6_getter_error_witness :
  ∃ s', Watcher_get true false 2 1 throw_state = Some (Ok VUndef, s')
        ∧ trace s' = [EvGetter 1; EvHandleError "boom" 0 (getter_info throw_watcher)].
Proof.
  destruct (C6_getter_error true false 1 1 throw_watcher throw_state "boom"
              (getter_start 1 throw_state) eq_refl eq_refl) as (Hget&Htrace).
  eexists. split; [exact Hget|]. rewrite Htrace. reflexivity.
Defined.

(** ** C5 *)

Lemma evaluate_clean dev ssr n w W s :
  watchers s !! w = Some W → w_dirty W = false →
  Watcher_evaluate dev ssr (S n) w s = Some (Ok (w_value W), s).
Proof.
  intros HW Hd. simpl. unfold bind at 1. unfold the_watcher at 1. rewrite HW, Hd.
  unfold bind, ret, the_watcher. by rewrite HW.
Qed.

Lemma evaluate_dirty dev ssr n w W s v s2 s3 :
  watchers s !! w = Some W → w_dirty W = true →
  exec dev ssr n (w_getter W) (getter_start w s) = Some (Ok v, s2) →
  when (w_deep W) (traverse (_traverse dev ssr n) v) s2 = Some (Ok tt, s3) →
  ∃ s' W',
    Watcher_evaluate dev ssr (S (S n)) w s = Some (Ok v, s')
    ∧ watchers s' !! w = Some W'
    ∧ w_dirty W' = false ∧ w_value W' = v ∧ same_watcher W W'
    ∧ trace s' = trace s3.
Proof.
  intros HW Hd Hget Htr.
  pose proof (Watcher_get_unfold dev ssr n w W s (Ok v) s2 HW Hget) as Hrun.
  cbn [value_of after_getter] in Hrun.
  rewrite (get_finally_unfold _ _ _ _ _ _ _ _ Htr) in Hrun. cbn [get_end get_result] in Hrun.
  set (s4 := Watcher_cleanupDeps w _) in Hrun.
  destruct (exec_keeps_watcher dev ssr n _ _ _ _ w W Hget) as (W2&HW2&Hsame2).
  { by rewrite getter_start_watchers. }
  assert (∃ W3, watchers s3 !! w = Some W3 ∧ same_watcher W2 W3) as (W3&HW3&Hsame3).
  { destruct (w_deep W).
    - exact (traverse_preserves dev ssr n v _ _ (keeps_watcher_respects w)
               s2 _ s3 Htr W2 HW2).
    - injection Htr as <-. exists W2. split; [done|apply same_watcher_refl]. }
  destruct (get_end_watcher w s3 W3 HW3) as (W4&HW4&Hsame4).
  change (watchers s4 !! w = Some W4) in HW4.
  exists (upd_watcher w (fun W => set_w_dirty false (set_w_value v W)) s4),
         (set_w_dirty false (set_w_value v W4)).
  split_and!.
  - change (Watcher_evaluate dev ssr (S (S n)) w s)
      with ((W <- the_watcher w ;;
             (if w_dirty W then
                v <- Watcher_get dev ssr (S n) w ;;
                modify (upd_watcher w (fun W => set_w_dirty false (set_w_value v W)))
              else ret tt) ;;;
             W1 <- the_watcher w ;;
             ret (w_value W1)) s).
    unfold bind at 1. unfold the_watcher at 1. rewrite HW, Hd.
    unfold bind at 1. unfold bind at 1. rewrite Hrun.
    unfold modify, bind, the_watcher, ret.
    unfold upd_watcher at 1. ssimpl. by rewrite lookup_alter_eq, HW4.
  - unfold upd_watcher. ssimpl. by rewrite lookup_alter_eq, HW4.
  - done.
  - done.
  - eapply same_watcher_trans; [exact Hsame2|].
    eapply same_watcher_trans; [exact Hsame3|].
    eapply same_watcher_trans; [exact Hsame4|]. by repeat split.
  - unfold upd_watcher. ssimpl. subst s4. apply get_end_trace.
Qed.



(** Scenario 3 in full: read 10, set [a = 6] (which only marks the
    watcher dirty), read 12. The getter runs twice, once per read. *)
Example scenario_3 :
  (fun x => (fst x, trace (snd x))) <$>
    exec true false 12
      (ReadComputed 2 (fun v1 =>
         Write 0 (VNum 6) (ReadComputed 2 (fun v2 =>
           Ret (if strict_eq v1 (VNum 10) then v2 else VUndef)))))
      double_state
  = Some (Ok (VNum 12), [EvGetter 2; EvNotify 0; EvGetter 2]).
Proof. vm_compute. reflexivity. Qed.

(** ** Observers stay *)

Lemma bind_assoc {A B C} (m : M A) (k : A → M B) (h : B → M C) s :
  bind (bind m k) h s = bind m (fun a => bind (k a) h) s.
Proof. unfold bind. by destruct (m s) as [[[a|e] s1]|]. Qed.

Lemma stays_observed_preorder r : PreOrder (stays_observed r).
Proof.
  split.
  - by intros s ??.
  - intros s1 s2 s3 H12 H23 Hf Ho. destruct (H12 Hf Ho). by apply H23.
Qed.

Lemma stays_observed_same r s s' :
  objects s' = objects s → next_ref s' = next_ref s → stays_observed r s s'.
Proof.
  intros Ho Hn Hf Hob. unfold refs_fresh, observed. rewrite Ho, Hn. done.
Qed.

Lemma stays_observed_upd_obj r x f s :
  (∀ o, is_Some (o_ob o) → is_Some (o_ob (f o))) →
  stays_observed r s (upd_obj x f s).
Proof.
  intros Hf Hfr (o&ob&Ho&Hob). split.
  - intros y. unfold upd_obj; simpl. rewrite lookup_alter_is_Some. apply Hfr.
  - unfold observed, upd_obj; simpl. destruct (decide (r = x)) as [->|Hne].
    + rewrite lookup_alter_eq, Ho. simpl.
      destruct (Hf o) as [ob' Hob']; [by rewrite Hob|]. by exists (f o), ob'.
    + rewrite lookup_alter_ne by done. by exists o, ob.
Qed.

Lemma unsubscribe_next_ref w keep l s :
  next_ref (unsubscribe w keep l s) = next_ref s.
Proof.
  revert s. induction l as [|d l IH]; intros s; simpl; [done|].
  case_decide; by rewrite IH.
Qed.

Lemma stays_observed_respects r : respects (stays_observed r) (fun _ => true).
Proof.
  split.
  - apply stays_observed_preorder.
  - intros t s. apply stays_observed_same; unfold pushTarget; by destruct (target s).
  - intros s. apply stays_observed_same; unfold popTarget; by destruct (targetStack s).
  - intros x s. by apply stays_observed_same.
  - intros d s. apply stays_observed_same; unfold Dep_depend, Watcher_addDep;
      destruct (target s); try done; destruct (watchers s !! _); try done;
      case_decide; try done; by case_decide.
  - intros w s. rewrite cleanupDeps_unfold. destruct (watchers s !! w) as [W|];
      [|by apply stays_observed_same].
    destruct (unsubscribe_frame w (w_newDepIds W) (reverse (w_deps W)) s)
      as (_&_&_&_&_&_&_&_&Ho).
    apply stays_observed_same; simpl; [done|]. apply unsubscribe_next_ref.
  - intros w s. rewrite teardown_unfold. destruct (watchers s !! w) as [W|];
      [|by apply stays_observed_same].
    destruct (w_active W); [|by apply stays_observed_same]. simpl.
    set (s1 := match vms s !! _ with Some _ => _ | None => _ end).
    assert (objects s1 = objects s ∧ next_ref s1 = next_ref s) as [Ho1 Hn1].
    { subst s1. destruct (vms s !! _) as [V|]; [|done]. by destruct (vm_isBeingDestroyed V). }
    destruct (unsubscribe_frame w ∅ (reverse (w_deps W)) s1) as (_&_&_&_&_&_&_&_&Ho).
    apply stays_observed_same; simpl; [congruence|].
    by rewrite unsubscribe_next_ref.
  - intros w v s. by apply stays_observed_same.
  - intros w s. by apply stays_observed_same.
  - intros w s. destruct s as [? ? ? ? ? ? ? ? ? ? wt fl ? ? ? ? ? ? ? ?].
    apply stays_observed_same; unfold queueWatcher; simpl; case_decide; try done;
      by destruct fl, wt.
  - intros p f s. by apply stays_observed_same.
  - intros x d s. apply stays_observed_upd_obj. intros o _. simpl. by eexists.
  - intros x s. apply stays_observed_upd_obj. intros o [ob ->]. simpl. by eexists.
  - intros x key d s. by apply stays_observed_upd_obj.
  - intros d P s. by apply stays_observed_same.
  - intros s. by apply stays_observed_same.
  - intros s Hf (o&ob&Ho&Hob). split.
    + intros y. simpl. rewrite lookup_insert_is_Some'. intros [->|Hy]; [lia|].
      apply Hf in Hy. lia.
    + exists o, ob. split; [|done]. simpl. rewrite lookup_insert_ne; [done|].
      intros <-. assert (next_ref s < next_ref s); [|lia]. apply Hf. by rewrite Ho.
  - intros e s _. by apply stays_observed_same.
  - done.
Qed.

Lemma Observer_new_observes dev ssr n r s res s' :
  Observer_new dev ssr n r s = Some (res, s') →
  refs_fresh s → is_Some (objects s !! r) → observed r s'.
Proof.
  destruct n as [|n]; [done|]. simpl.
  unfold bind at 1. unfold new_Dep at 1.
  unfold bind at 1. unfold modify at 1.
  set (s1 := upd_obj r _ _). intros Hrun Hf [o Ho].
  assert (refs_fresh s1 ∧ observed r s1) as [Hf1 Hob1].
  { split.
    - intros y. subst s1. unfold upd_obj; simpl. rewrite lookup_alter_is_Some. apply Hf.
    - subst s1. unfold observed, upd_obj; simpl. rewrite lookup_alter_eq, Ho.
      simpl. by eexists _, _. }
  unfold bind in Hrun at 1. unfold the_obj in Hrun at 1.
  destruct (objects s1 !! r) as [o1|]; [|done].
  pose proof (engine_respects dev ssr _ _ (stays_observed_respects r) n) as Heng.
  destruct (o_isArray o1).
  - by apply (ep_observeArray _ _ _ _ _ Heng _ _ _ _ Hrun).
  - by apply (ep_walk _ _ _ _ _ Heng _ _ _ _ Hrun).
Qed.

(** [observe] on an unobserved container that qualifies: when it
    completes normally, it returns the observer of that container, which
    is attached from then on. *)
Lemma observe_attaches dev ssr n r s res s' :
  observe dev ssr n (VObj r) false s = Some (Ok res, s') →
  observable ssr r s → refs_fresh s →
  res = Some r ∧ observed r s'.
Proof.
  destruct n as [|n]; [done|]. simpl.
  intros Hrun (o&Ho&Hvn&Hob&Hso&Hssr&Hkind&Hext&Hvue) Hf.
  unfold bind at 1 in Hrun. unfold the_obj at 1 in Hrun. rewrite Ho, Hvn in Hrun.
  unfold bind at 1 in Hrun. unfold gets at 1 in Hrun.
  rewrite Hob, Hso, Hssr, Hkind, Hext, Hvue in Hrun. simpl in Hrun.
  unfold bind at 1 in Hrun. unfold bind at 1 in Hrun.
  destruct (Observer_new dev false n r s) as [[[[]|e] s1]|] eqn:Hnew; [|done..].
  unfold ret at 1 in Hrun. unfold bind, ret in Hrun. simpl in Hrun.
  injection Hrun as <- <-. split; [done|].
  eapply Observer_new_observes; [exact Hnew|done|by rewrite Ho].
Qed.

(** ** C4 *)

(** C4, against the claim as stated: the field 0 of [shallow_state] was
    defined with [shallow = true]. Writing the unobserved plain object 5
    over its value 1 stores the object and notifies, and makes nothing
    reactive: the object has no observer afterwards and [childOb] is
    not set. On [deep_state], where the same field is not shallow, the
    same write attaches an observer. *)
Lemma C4_shallow_write_observes_nothing :
  same_value (VObj 5) (VNum 1) = false
  ∧ (fun x => (fst x, trace (snd x), p_val <$> props (snd x) !! 0,
               p_childOb <$> props (snd x) !! 0,
               o_ob <$> objects (snd x) !! 5))
      <$> reactiveSetter true false 9 0 (VObj 5) shallow_state
    = Some (Ok tt, [EvNotify 0], Some (VObj 5), Some None, Some None)
  ∧ (fun x => (fst x, trace (snd x), p_val <$> props (snd x) !! 0,
               p_childOb <$> props (snd x) !! 0,
               o_ob <$> objects (snd x) !! 5))
      <$> reactiveSetter true false 9 0 (VObj 5) deep_state
    = Some (Ok tt, [EvNotify 0], Some (VObj 5), Some (Some 5),
            Some (Some (mkObserver 1 0))).
Proof. vm_compute. done. Qed.

(** C4, as amended: let [value] be the current value of the property
    (what its original getter returns, else [val]), read in [s] and
    leaving [s1] ([s1 = s] without original getter). If the new value
    is the same value, the setter returns in [s1]: nothing is stored,
    observed or notified. If not, and once the custom setter and the
    assignment ([val = newVal], or the original setter) have completed,
    the setter ends with exactly one [notify()] of the Dep of the
    property, called last; before it, [childOb] is set to what
    [observe(newVal)] returned, unless the property is shallow, in which
    case [observe] is not called and [childOb] is cleared. Where
    [observe] is called on an unobserved container that qualifies for
    observation, the container has its observer when [notify()]
    starts. *)
Theorem C4_reactive_setter dev ssr n p P s newVal value s1 :
  props s !! p = Some P →
  current_value dev ssr n P s = Some (Ok value, s1) →
  (p_getter P = None → value = p_val P ∧ s1 = s)
  ∧ (same_value newVal value = true →
     reactiveSetter dev ssr (S n) p newVal s = Some (Ok tt, s1))
  ∧ (same_value newVal value = false →
     (p_customSetter P = None → p_setter P = None →
      store_value dev ssr n p P newVal s1
      = Some (Ok tt, upd_prop p (set_p_val newVal) s1))
     ∧ ∀ s2, store_value dev ssr n p P newVal s1 = Some (Ok tt, s2) →
       (p_shallow P = true →
        reactiveSetter dev ssr (S n) p newVal s
        = Dep_notify dev ssr n (p_dep P) (upd_prop p (set_p_childOb None) s2))
       ∧ (p_shallow P = false → ∀ ob s3,
          observe dev ssr n newVal false s2 = Some (Ok ob, s3) →
          reactiveSetter dev ssr (S n) p newVal s
          = Dep_notify dev ssr n (p_dep P) (upd_prop p (set_p_childOb ob) s3)
          ∧ ∀ r, newVal = VObj r → observable ssr r s2 → refs_fresh s2 →
                 ob = Some r ∧ observed r (upd_prop p (set_p_childOb ob) s3))).
Proof.
  intros HP Hcur.
  split_and!.
  - intros Hg. unfold current_value in Hcur. rewrite Hg in Hcur.
    by injection Hcur as <- <-.
  - intros Hsame. simpl. unfold bind at 1. unfold the_prop at 1. rewrite HP.
    unfold bind at 1. unfold current_value in Hcur. rewrite Hcur. by rewrite Hsame.
  - intros Hdiff. split.
    { intros Hc Hs. unfold store_value. by rewrite Hc, Hs. }
    intros s2 Hstore.
    assert (∀ k : M unit,
              reactiveSetter dev ssr (S n) p newVal s
              = (store_value dev ssr n p P newVal ;;; k) s1 →
              reactiveSetter dev ssr (S n) p newVal s = k s2) as Hk.
    { intros k ->. unfold bind at 1. by rewrite Hstore. }
    assert (reactiveSetter dev ssr (S n) p newVal s
            = (store_value dev ssr n p P newVal ;;;
               childOb <- (if p_shallow P then ret None
                           else observe dev ssr n newVal false) ;;
               modify (upd_prop p (set_p_childOb childOb)) ;;;
               Dep_notify dev ssr n (p_dep P)) s1) as Hbody.
    { simpl. unfold bind at 1. unfold the_prop at 1. rewrite HP.
      unfold bind at 1. unfold current_value in Hcur. rewrite Hcur, Hdiff.
      unfold store_value. by rewrite bind_assoc. }
    apply Hk in Hbody. split.
    + intros Hsh. rewrite Hbody, Hsh. reflexivity.
    + intros Hsh ob s3 Hobs. split.
      * rewrite Hbody, Hsh. unfold bind at 1. rewrite Hobs. reflexivity.
      * intros r -> Hable Hfresh.
        destruct (observe_attaches dev ssr n r s2 ob s3 Hobs Hable Hfresh) as [-> Hobd].
        split; [done|]. exact Hobd.
Qed.

(** The theorem at [deep_state]: writing the value that is there is a
    no-op, and writing the unobserved object 5 leaves it observed. *)
Lemma C4_reactive_setter_witness :
  reactiveSetter true false 9 0 (VNum 1) deep_state = Some (Ok tt, deep_state)
  ∧ ∀ ob s3,
      observe true false 8 (VObj 5) false
        (upd_prop 0 (set_p_val (VObj 5)) deep_state) = Some (Ok ob, s3) →
      reactiveSetter true false 9 0 (VObj 5) deep_state
      = Dep_notify true false 8 0 (upd_prop 0 (set_p_childOb ob) s3)
      ∧ ob = Some 5 ∧ observed 5 (upd_prop 0 (set_p_childOb ob) s3).
Proof.
  split.
  - destruct (C4_reactive_setter true false 8 0
                (mkProperty 0 (VNum 1) None None None None false)
                deep_state (VNum 1) (VNum 1) deep_state eq_refl eq_refl)
      as (_&Hsame&_).
    by apply Hsame.
  - intros ob s3 Hobs.
    destruct (C4_reactive_setter true false 8 0
                (mkProperty 0 (VNum 1) None None None None false)
                deep_state (VObj 5) (VNum 1) deep_state eq_refl eq_refl)
      as (_&_&Hdiff).
    destruct (Hdiff eq_refl) as (Hstore&Hrest).
    destruct (Hrest _ (Hstore eq_refl eq_refl)) as (_&Hdeep).
    destruct (Hdeep eq_refl ob s3 Hobs) as (Hset&Hob).
    split; [exact Hset|]. apply (Hob 5 eq_refl).
    + exists empty_object. by split_and!.
    + intros r [o Ho]. change (objects _) with ({[5 := empty_object]} : gmap nat Obj) in Ho.
      apply lookup_singleton_Some in Ho as [<- _].
      change (5 < 6). lia.
Defined.
(** ** The backward scan *)

Lemma scan_le q idx id j : scan q idx id j ≤ j.
Proof.
  induction j as [|i IH]; simpl; [done|].
  destruct (q !! i) as [x|]; [|done].
  destruct (_ && _); lia.
Qed.

Lemma scan_gt q idx id j : idx < j → idx < scan q idx id j.
Proof.
  induction j as [|i IH]; simpl; [done|]. intros Hj.
  destruct (q !! i) as [x|]; [|done].
  destruct (bool_decide (idx < i) && bool_decide (id < x)) eqn:Hc; [|done].
  apply andb_prop in Hc as [Hi%bool_decide_eq_true _]. by apply IH.
Qed.

(** Everything from the position found up to the start of the scan is
    greater than [id]. *)
Lemma scan_after q idx id j i x :
  scan q idx id j ≤ i → i < j → q !! i = Some x → id < x.
Proof.
  induction j as [|i0 IH]; simpl; [lia|]. intros Hk Hi Hx.
  destruct (q !! i0) as [x0|] eqn:Hx0.
  - destruct (bool_decide (idx < i0) && bool_decide (id < x0)) eqn:Hc; [|lia].
    apply andb_prop in Hc as [_ Hlt%bool_decide_eq_true].
    destruct (decide (i = i0)) as [->|Hne]; [congruence|].
    apply IH; [done|lia|done].
  - lia.
Qed.

(** When the scan stops behind the cursor's successor, it stopped at an
    id that is not greater than [id]. *)
Lemma scan_before q idx id j x :
  S idx < scan q idx id j → q !! (scan q idx id j - 1) = Some x → x ≤ id.
Proof.
  induction j as [|i0 IH]; cbn [scan]; [lia|].
  destruct (q !! i0) as [x0|] eqn:Hx0.
  - destruct (bool_decide (idx < i0) && bool_decide (id < x0)) eqn:Hc; [done|].
    intros Hk. replace (S i0 - 1) with i0 by lia. rewrite Hx0. intros [= ->].
    apply andb_false_iff in Hc as [Hc%bool_decide_eq_false|Hc%bool_decide_eq_false]; lia.
  - intros _. replace (S i0 - 1) with i0 by lia. by rewrite Hx0.
Qed.

Lemma StronglySorted_lookup_lt (l : list nat) i j x y :
  StronglySorted lt l → i < j → l !! i = Some x → l !! j = Some y → x < y.
Proof.
  intros Hs. revert i j. induction Hs as [|a l Hs IH Ha]; intros i j Hij Hx Hy; [done|].
  destruct j as [|j]; [lia|]. destruct i as [|i]; simpl in *.
  - injection Hx as ->. rewrite Forall_forall in Ha. apply Ha.
    by eapply list_elem_of_lookup_2.
  - apply (IH i j); [lia|done..].
Qed.

Lemma StronglySorted_insert (L R : list nat) w :
  StronglySorted lt (L ++ R) →
  Forall (fun x => x < w) L → Forall (fun y => w < y) R →
  StronglySorted lt (L ++ w :: R).
Proof.
  induction L as [|a L IH]; simpl; intros Hs HL HR.
  - by constructor.
  - apply StronglySorted_inv in Hs as [Hs Ha]. apply Forall_cons in HL as [Haw HL].
    constructor; [by apply IH|].
    apply Forall_app in Ha as [HaL HaR]. apply Forall_app. split; [done|].
    by constructor.
Qed.

(** ** [queueWatcher] *)

(** [queueWatcher] during a flush, for a watcher that is not flagged:
    the watcher goes behind the cursor, at the position the backward scan
    stops at; the queue up to and including the cursor is untouched; and
    the part behind the cursor is again in strictly ascending order. *)
Lemma queueWatcher_flushing w s :
  flush_inv s → w ∉ has s →
  let s' := queueWatcher w s in
  let j := scan (queue s) (index s) w (length (queue s)) in
  queue s' = splice_in j w (queue s)
  ∧ index s < j ≤ length (queue s)
  ∧ queue s' !! j = Some w
  ∧ has s' = {[w]} ∪ has s
  ∧ take (S (index s)) (queue s') = take (S (index s)) (queue s)
  ∧ (∀ x, x ∈ pending s' ↔ x = w ∨ x ∈ pending s)
  ∧ flush_inv s'
  ∧ index s' = index s.
Proof.
  intros (Hfl&Hidx&Hsorted&Hhas) Hw s' j.
  assert (index s < j ≤ length (queue s)) as Hj.
  { subst j. split; [by apply scan_gt|apply scan_le]. }
  assert (queue s' = splice_in j w (queue s) ∧ has s' = {[w]} ∪ has s
          ∧ index s' = index s ∧ flushing s' = true) as (Hq&Hh&Hi&Hf).
  { subst s' j. unfold queueWatcher. rewrite decide_False by done.
    ssimpl. rewrite Hfl. by destruct (waiting _). }
  assert (w ∉ pending s) as Hwp by (intros ?%Hhas; done).
  (* the part behind the cursor, split at the position found *)
  set (L := drop (S (index s)) (take j (queue s))).
  set (R := drop j (queue s)).
  assert (pending s = L ++ R) as Hsplit.
  { unfold pending, L, R. rewrite <- (take_drop j (queue s)) at 1.
    rewrite drop_app_le; [done|]. rewrite length_take. lia. }
  assert (pending s' = L ++ w :: R) as Hsplit'.
  { unfold pending. rewrite Hi, Hq. unfold splice_in. fold R.
    rewrite drop_app_le; [done|]. rewrite length_take. lia. }
  assert (Forall (fun y => w < y) R) as HR.
  { apply Forall_forall. intros y Hy. apply list_elem_of_lookup in Hy as [i Hy].
    unfold R in Hy. rewrite lookup_drop in Hy.
    apply (scan_after (queue s) (index s) w (length (queue s)) (j + i) y); [lia| |done].
    by apply lookup_lt_Some in Hy. }
  assert (Forall (fun x => x < w) L) as HL.
  { apply Forall_forall. intros x Hx.
    assert (x ∈ pending s) as Hxp by (rewrite Hsplit; set_solver).
    assert (x ≠ w) as Hne by (intros ->; done).
    apply list_elem_of_lookup in Hx as [i Hx].
    assert (i < length L) as Hi' by (by apply lookup_lt_Some in Hx).
    assert (length L = j - S (index s)) as HlenL.
    { unfold L. rewrite length_drop, length_take. lia. }
    (* the last element of [L] is not greater than [w] *)
    destruct (L !! (length L - 1)) as [z|] eqn:Hz.
    2: { apply lookup_ge_None in Hz. lia. }
    assert (z ≤ w) as Hzw.
    { apply (scan_before (queue s) (index s) w (length (queue s)) z);
        [change (S (index s) < j); lia|change (queue s !! (j - 1) = Some z)].
      rewrite <- Hz, HlenL. unfold L. rewrite lookup_drop, lookup_take_lt by lia.
      f_equal. lia. }
    destruct (decide (i = length L - 1)) as [->|Hlast].
    - assert (x = z) as -> by congruence. lia.
    - assert (x < z); [|lia].
      assert (StronglySorted lt L) as HsL.
      { rewrite Hsplit in Hsorted. by apply StronglySorted_app_1_l in Hsorted. }
      eapply (StronglySorted_lookup_lt L i (length L - 1)); [done|lia|done|done]. }
  split; [exact Hq|]. split; [exact Hj|]. split.
  { rewrite Hq. unfold splice_in. rewrite lookup_app_r by (rewrite length_take; lia).
    rewrite length_take. replace (j - j `min` length (queue s)) with 0 by lia. done. }
  split; [exact Hh|]. split.
  { rewrite Hq. unfold splice_in. rewrite take_app_le by (rewrite length_take; lia).
    rewrite take_take. f_equal. lia. }
  split.
  { intros x. rewrite Hsplit', Hsplit. set_solver. }
  split; [|exact Hi].
  split; [exact Hf|]. split.
  { rewrite Hi, Hq. unfold splice_in. rewrite length_app, length_take. simpl.
    rewrite length_drop. lia. }
  split.
  { rewrite Hsplit'. apply StronglySorted_insert; [by rewrite <- Hsplit|done..]. }
  intros x. rewrite Hsplit', Hh. rewrite Hsplit in Hhas.
  intros [Hx|[->|Hx]%elem_of_cons]%elem_of_app; [|set_solver|];
    apply elem_of_union; right; apply Hhas; set_solver.
Qed.

Lemma queueWatcher_flagged w s : w ∈ has s → queueWatcher w s = s.
Proof. intros Hw. unfold queueWatcher. by rewrite decide_True. Qed.

(** [queueWatcher] between two flushes, for a watcher that is not
    flagged: the watcher goes to the end of the queue, and a flush is
    requested unless one is awaited already. *)
Lemma queueWatcher_idle w s :
  flushing s = false → w ∉ has s →
  let s' := queueWatcher w s in
  queue s' = queue s ++ [w] ∧ has s' = {[w]} ∪ has s
  ∧ flushing s' = false ∧ index s' = index s ∧ waiting s' = true
  ∧ ticks s' = (if waiting s then ticks s else S (ticks s)).
Proof.
  destruct s as [? ? ? ? ? ? ? ? ? ? wt fl ? ? ? ? ? ? ? ?]. simpl.
  intros -> Hw. unfold queueWatcher. simpl. rewrite decide_False by done.
  by destruct wt.
Qed.

Lemma sched_kept_preorder : PreOrder sched_kept.
Proof.
  split.
  - intros s Hs. split_and!; try done.
    intros _. split_and!; [done|by left|done].
  - intros s1 s2 s3 H12 H23 Hs.
    destruct (H12 Hs) as (Hs2&Hf2&Hi2&Hh2&Hfl2&Hid2).
    destruct (H23 Hs2) as (Hs3&Hf3&Hi3&Hh3&Hfl3&Hid3).
    split_and!; [done|congruence|congruence|set_solver| |].
    + intros Hf. rewrite Hf2, Hi2 in Hfl3.
      destruct (Hfl2 Hf) as (Ht2&Hp2&Hm2). destruct (Hfl3 Hf) as (Ht3&Hp3&Hm3).
      split_and!; [congruence| |by intros x Hx%Hm2%Hm3].
      intros x [Hx|Hx]%Hp3; [by apply Hp2|]. right. set_solver.
    + intros Hf. rewrite Hf2 in Hid3. etrans; [by apply Hid2|by apply Hid3].
Qed.

Lemma sched_kept_same s s' :
  queue s' = queue s → has s' = has s → flushing s' = flushing s →
  index s' = index s → sched_kept s s'.
Proof.
  intros Hq Hh Hf Hi Hs.
  assert (pending s' = pending s) as Hp by (unfold pending; congruence).
  split_and!; try done.
  - destruct Hs as [(?&?&?&?)|(?&?&?)]; [left|right].
    + unfold flush_inv. rewrite Hf, Hi, Hq, Hp, Hh. done.
    + unfold idle_inv. rewrite Hf, Hq, Hh. done.
  - by rewrite Hh.
  - intros _. rewrite Hq, Hp. split_and!; [done|by left|done].
  - intros _. by rewrite Hq.
Qed.

Lemma queueWatcher_kept w s : sched_kept s (queueWatcher w s).
Proof.
  destruct (decide (w ∈ has s)) as [Hw|Hw].
  { rewrite queueWatcher_flagged by done. by apply sched_kept_same. }
  intros [Hfl|Hid].
  - destruct (queueWatcher_flushing w s Hfl Hw) as (Hq&Hj&_&Hh&Ht&Hp&Hinv&Hi).
    pose proof Hfl as (Hf&_).
    split_and!.
    + by left.
    + destruct Hinv as (->&_). done.
    + done.
    + rewrite Hh. set_solver.
    + intros _. split_and!; [done| |].
      * intros x [->|Hx]%Hp; [by right|by left].
      * intros x Hx. apply Hp. by right.
    + rewrite Hf. done.
  - destruct Hid as (Hf&Hnd&Hhas).
    destruct (queueWatcher_idle w s Hf Hw) as (Hq&Hh&Hf'&Hi&_).
    split_and!.
    + right. split_and!; [done| |].
      * rewrite Hq. apply NoDup_app. split_and!; [done| |apply NoDup_singleton].
        intros x Hx ->%list_elem_of_singleton. by apply Hhas in Hx.
      * intros x. rewrite Hq, Hh, elem_of_app, list_elem_of_singleton, Hhas. set_solver.
    + congruence.
    + done.
    + rewrite Hh. set_solver.
    + rewrite Hf. done.
    + intros _. rewrite Hq. by apply prefix_app_r.
Qed.

Lemma unsubscribe_sched w keep l s :
  let s' := unsubscribe w keep l s in
  flushing s' = flushing s ∧ index s' = index s.
Proof.
  revert s. induction l as [|d l IH]; intros s; simpl; [done|].
  case_decide; [apply IH|]. destruct (IH (Dep_removeSub d w s)) as (->&->). done.
Qed.

Lemma sched_kept_respects : respects sched_kept (fun _ => true).
Proof.
  split.
  - apply sched_kept_preorder.
  - intros t s. apply sched_kept_same; unfold pushTarget; by destruct (target s).
  - intros s. apply sched_kept_same; unfold popTarget; by destruct (targetStack s).
  - intros x s. by apply sched_kept_same.
  - intros d s. apply sched_kept_same; unfold Dep_depend, Watcher_addDep;
      destruct (target s); try done; destruct (watchers s !! _); try done;
      case_decide; try done; by case_decide.
  - intros w s. rewrite cleanupDeps_unfold. destruct (watchers s !! w) as [W|];
      [|by apply sched_kept_same].
    destruct (unsubscribe_frame w (w_newDepIds W) (reverse (w_deps W)) s)
      as (_&_&_&_&_&Hq&Hh&_).
    destruct (unsubscribe_sched w (w_newDepIds W) (reverse (w_deps W)) s) as (Hf&Hi).
    by apply sched_kept_same.
  - intros w s. rewrite teardown_unfold. destruct (watchers s !! w) as [W|];
      [|by apply sched_kept_same].
    destruct (w_active W); [|by apply sched_kept_same]. simpl.
    set (s1 := match vms s !! _ with Some _ => _ | None => _ end).
    assert (queue s1 = queue s ∧ has s1 = has s ∧ flushing s1 = flushing s
            ∧ index s1 = index s) as (Hq1&Hh1&Hf1&Hi1).
    { subst s1. destruct (vms s !! _) as [V|]; [|done]. by destruct (vm_isBeingDestroyed V). }
    destruct (unsubscribe_frame w ∅ (reverse (w_deps W)) s1) as (_&_&_&_&_&Hq&Hh&_).
    destruct (unsubscribe_sched w ∅ (reverse (w_deps W)) s1) as (Hf&Hi).
    apply sched_kept_same; simpl; congruence.
  - intros w v s. by apply sched_kept_same.
  - intros w s. by apply sched_kept_same.
  - intros w s. apply queueWatcher_kept.
  - intros p f s. by apply sched_kept_same.
  - intros x d s. by apply sched_kept_same.
  - intros x s. by apply sched_kept_same.
  - intros x key d s. by apply sched_kept_same.
  - intros d P s. by apply sched_kept_same.
  - intros s. by apply sched_kept_same.
  - intros s. by apply sched_kept_same.
  - intros e s _. by apply sched_kept_same.
  - done.
Qed.

(** ** The flush loop *)

Lemma bind_Some {A B} (m : M A) (k : A → M B) s r s' :
  bind m k s = Some (r, s') →
  (∃ a s1, m s = Some (Ok a, s1) ∧ k a s1 = Some (r, s'))
  ∨ (∃ e, m s = Some (Thrown e, s') ∧ r = Thrown e).
Proof.
  unfold bind. destruct (m s) as [[[a|e] s1]|]; [|intros [= <- <-]|done].
  - intros Hk. left. by exists a, s1.
  - right. by exists e.
Qed.

Lemma loop_head w s :
  loop_inv s → queue s !! index s = Some w →
  flush_inv s ∧ w ∈ has s ∧ w ∉ pending s ∧ Forall (lt w) (pending s)
  ∧ StronglySorted lt (pending s).
Proof.
  intros (Hf&Hs&Hh) Hw.
  assert (drop (index s) (queue s) = w :: pending s) as Hd.
  { unfold pending. by apply drop_S. }
  rewrite Hd in Hs, Hh. apply StronglySorted_inv in Hs as [Hs Hall].
  split_and!.
  - split_and!; [done|by apply lookup_lt_Some in Hw|done|]. intros x Hx. apply Hh. set_solver.
  - apply Hh. set_solver.
  - intros Hin. rewrite Forall_forall in Hall. apply Hall in Hin. lia.
  - done.
  - done.
Qed.

Lemma next_loop_inv s : flush_inv s → loop_inv (set_index (S (index s)) s).
Proof. intros (Hf&_&Hs&Hh). split_and!; done. Qed.

(** The body of a turn, up to and including [run()], keeps the cursor
    and the queue up to it, and leaves the rest in order. *)
Lemma turn_run_kept dev ssr n w s r s1 :
  loop_inv s → queue s !! index s = Some w →
  turn_run dev ssr n w s = Some (r, s1) →
  flush_inv s1 ∧ index s1 = index s
  ∧ take (S (index s)) (queue s1) = take (S (index s)) (queue s)
  ∧ ∀ x, x ∈ pending s → x ∈ pending s1.
Proof.
  intros Hloop Hw Hrun.
  destruct (loop_head w s Hloop Hw) as (Hinv&Hwhas&Hwp&_&_).
  pose proof (engine_respects dev ssr _ _ sched_kept_respects n) as Heng.
  pose proof sched_kept_preorder as Hpre.
  unfold turn_run in Hrun.
  apply bind_Some in Hrun as [(W&sa&HW&Hrun)|(e&HW&_)].
  2: { unfold the_watcher in HW. by destruct (watchers s !! w). }
  assert (sa = s) as ->.
  { unfold the_watcher in HW. destruct (watchers s !! w); [|done]. by injection HW. }
  (* the [before] hook *)
  assert (∀ rb sb,
            match w_before W with
            | Some b => record (EvBefore w) ;;; exec dev ssr n b ;;; ret tt
            | None => ret tt
            end s = Some (rb, sb) → sched_kept s sb) as Hbefore.
  { intros rb sb. destruct (w_before W) as [b|].
    - apply (preserves_bind sched_kept).
      + apply (preserves_record sched_kept _ sched_kept_respects). by intros.
      + intros _. apply (preserves_bind sched_kept); [apply (ep_exec _ _ _ _ _ Heng)|].
        intros _. apply (preserves_ret sched_kept).
    - apply (preserves_ret sched_kept). }
  assert (∀ sb, sched_kept s sb →
            flush_inv sb ∧ index sb = index s
            ∧ take (S (index s)) (queue sb) = take (S (index s)) (queue s)
            ∧ w ∉ pending sb
            ∧ ∀ x, x ∈ pending s → x ∈ pending sb) as Hafter.
  { intros sb Hk. destruct (Hk (or_introl Hinv)) as (Hok&Hf&Hi&Hh&Hfl&_).
    destruct Hinv as (Hflush&_). destruct (Hfl Hflush) as (Ht&Hp&Hm).
    split_and!; [|done|done| |done].
    - destruct Hok as [?|(Hidle&_)]; [done|congruence].
    - intros [?|?]%Hp; done. }
  apply bind_Some in Hrun as [([]&sb&Hb&Hrun)|(e&Hb&->)].
  2: { destruct (Hafter s1 (Hbefore _ _ Hb)) as (?&?&?&_&?). done. }
  destruct (Hafter sb (Hbefore _ _ Hb)) as (Hinvb&Hib&Htb&Hwb&Hmb).
  (* has[id] = null *)
  apply bind_Some in Hrun as [([]&sc&Hc&Hrun)|(e&Hc&_)]; [|done].
  injection Hc as <-.
  set (sc := set_has (has sb ∖ {[w]}) sb) in *.
  assert (flush_inv sc) as Hinvc.
  { destruct Hinvb as (?&?&?&Hh). split_and!; [done..|].
    intros x Hx. subst sc. ssimpl. apply elem_of_difference. split; [by apply Hh|].
    intros ->%elem_of_singleton. done. }
  (* run() *)
  pose proof (ep_run _ _ _ _ _ Heng w sc r s1 Hrun (or_introl Hinvc))
    as (Hok&Hf&Hi&_&Hfl&_).
  destruct Hinvc as (Hflush&_). destruct (Hfl Hflush) as (Ht&_&Hm).
  split_and!.
  - destruct Hok as [?|(Hidle&_)]; [done|]. subst sc. ssimpl. congruence.
  - rewrite Hi. subst sc. ssimpl. done.
  - assert (index sc = index s) as Hic by (subst sc; ssimpl; done).
    assert (queue sc = queue sb) as Hqc by (subst sc; ssimpl; done).
    rewrite Hic, Hqc in Ht. by rewrite Ht.
  - intros x Hx. apply Hm. by apply Hmb.
Qed.

Lemma circular_check_frame dev w W s :
  let r := circular_check dev w W s in
  queue r.2 = queue s ∧ index r.2 = index s ∧ has r.2 = has s
  ∧ flushing r.2 = flushing s.
Proof.
  unfold circular_check. destruct (_ && _); [|done].
  by destruct (bool_decide _).
Qed.

Lemma bind_the_watcher {B} w W (k : Watcher → M B) s :
  watchers s !! w = Some W → bind (the_watcher w) k s = k W s.
Proof. intros HW. unfold bind, the_watcher. by rewrite HW. Qed.

Lemma bind_unfold {A B} (m : M A) (k : A → M B) s :
  bind m k s =
  match m s with
  | Some (Ok a, s1) => k a s1
  | Some (Thrown e, s1) => Some (Thrown e, s1)
  | None => None
  end.
Proof. reflexivity. Qed.

(** A turn is its first half followed by the check. *)
Lemma flush_turn_unfold dev ssr n w W s :
  watchers s !! w = Some W →
  flush_turn dev ssr n w s =
  match turn_run dev ssr n w s with
  | Some (Ok _, s1) =>
      Some (Ok (circular_check dev w W s1).1, (circular_check dev w W s1).2)
  | Some (Thrown e, s1) => Some (Thrown e, s1)
  | None => None
  end.
Proof.
  intros HW. unfold flush_turn, turn_run.
  rewrite !(bind_the_watcher _ _ _ _ HW).
  rewrite (bind_unfold _ _ s).
  rewrite (bind_unfold (match w_before W with Some _ => _ | None => _ end) _ s).
  match goal with |- match ?x with _ => _ end = _ => destruct x as [[[[]|e] s1]|] end;
    [|done..].
  rewrite !(bind_unfold (modify _) _ s1).
  unfold modify, gets.
  set (s2 := set_has _ s1).
  rewrite (bind_unfold _ _ s2).
  destruct (Watcher_run dev ssr n w s2) as [[[[]|e] s3]|]; [|done..].
  rewrite (bind_unfold _ _ s3). unfold circular_check.
  destruct (dev && bool_decide (w ∈ has s3)); [|done].
  rewrite (bind_unfold _ _ s3).
  rewrite (bind_unfold _ _ (set_circular _ s3)).
  ssimpl. rewrite lookup_insert_eq. simpl.
  destruct (bool_decide (MAX_UPDATE_COUNT < _)); [|done].
  unfold bind, record, modify, ret. by ssimpl.
Qed.
(** A turn of the loop keeps the cursor and the queue up to it, and
    leaves the rest in order. *)
Lemma flush_turn_kept dev ssr n w s r s1 :
  loop_inv s → queue s !! index s = Some w →
  flush_turn dev ssr n w s = Some (r, s1) →
  flush_inv s1 ∧ index s1 = index s
  ∧ take (S (index s)) (queue s1) = take (S (index s)) (queue s)
  ∧ ∀ x, x ∈ pending s → x ∈ pending s1.
Proof.
  intros Hloop Hw Hturn.
  destruct (watchers s !! w) as [W|] eqn:HW.
  2: { unfold flush_turn, bind, the_watcher in Hturn. by rewrite HW in Hturn. }
  rewrite (flush_turn_unfold dev ssr n w W s HW) in Hturn.
  destruct (turn_run dev ssr n w s) as [[[[]|e] s2]|] eqn:Hrun; [| |done].
  - destruct (turn_run_kept dev ssr n w s _ s2 Hloop Hw Hrun) as (Hinv&Hi&Ht&Hm).
    injection Hturn as <- <-.
    destruct (circular_check_frame dev w W s2) as (Hq&Hi2&Hh&Hf).
    simpl in Hq, Hi2, Hh, Hf.
    destruct Hinv as (?&?&?&?).
    unfold flush_inv, pending in *. rewrite Hq, Hi2, Hh, Hf. done.
  - injection Hturn as <- <-.
    exact (turn_run_kept dev ssr n w s _ s2 Hloop Hw Hrun).
Qed.

(** The log is that of the loop. *)
Lemma flush_log_loop dev ssr n : ∀ s,
  flushLoop dev ssr n s = (fun x => (x.1.2, x.2)) <$> flush_log dev ssr n s.
Proof.
  induction n as [|n IH]; intros s; [done|].
  simpl. unfold bind at 1 2, gets at 1 2.
  destruct (queue s !! index s) as [w|] eqn:Hw; [|done].
  rewrite (bind_unfold _ _ s).
  destruct (flush_turn dev ssr n w s) as [[[[]|e] s1]|] eqn:Hturn; [| |done..].
  - rewrite (bind_unfold _ _ s1). unfold modify at 1. rewrite IH.
    by destruct (flush_log dev ssr n _) as [[[steps r] s']|].
  - done.
Qed.

(** ** Sorting *)

Lemma StronglySorted_le_lt (l : list nat) :
  NoDup l → StronglySorted le l → StronglySorted lt l.
Proof.
  induction 2 as [|x l Hs IH Hall]; [constructor|].
  apply NoDup_cons in H as [Hx Hl]. constructor; [by apply IH|].
  rewrite Forall_forall in Hall |- *. intros y Hy.
  pose proof (Hall y Hy). assert (x ≠ y) by (intros ->; done). lia.
Qed.

Lemma sort_queue_sorted q : NoDup q → StronglySorted lt (sort_queue q).
Proof.
  intros Hq. apply StronglySorted_le_lt.
  - unfold sort_queue. by rewrite merge_sort_Permutation.
  - unfold sort_queue. apply (StronglySorted_merge_sort _).
Qed.

Lemma sort_queue_elem q x : x ∈ sort_queue q ↔ x ∈ q.
Proof. unfold sort_queue. by rewrite merge_sort_Permutation. Qed.

Lemma flush_start_inv s : idle_inv s → loop_inv (flush_start s).
Proof.
  intros (Hf&Hq&Hh). unfold flush_start, loop_inv. ssimpl. rewrite drop_0.
  split_and!; [done|by apply sort_queue_sorted|].
  intros x Hx. apply Hh. by apply sort_queue_elem.
Qed.

Lemma flush_start_queue s :
  queue (flush_start s) = sort_queue (queue s) ∧ index (flush_start s) = 0
  ∧ has (flush_start s) = has s.
Proof. done. Qed.

(** ** The course of a flush *)

Lemma take_S_lookup {A} (l1 l2 : list A) i x :
  take (S i) l1 = take (S i) l2 → l2 !! i = Some x → l1 !! i = Some x.
Proof.
  intros Ht Hx. rewrite <- (lookup_take_lt l1 (S i) i) by lia.
  rewrite Ht. rewrite lookup_take_lt by lia. done.
Qed.

Lemma take_S_take {A} (l1 l2 : list A) i :
  take (S i) l1 = take (S i) l2 → take i l1 = take i l2.
Proof.
  intros Ht. assert (take i (take (S i) l1) = take i (take (S i) l2)) as H by congruence.
  rewrite !take_take in H. by replace (i `min` S i) with i in H by lia.
Qed.

Lemma count_occ_NoDup (l : list nat) w :
  NoDup l → count_occ Nat.eq_dec l w = if decide (w ∈ l) then 1 else 0.
Proof.
  induction 1 as [|x l Hx Hl IH].
  - destruct (decide (w ∈ [])) as [H|H]; [by apply elem_of_nil in H|done].
  - cbn [count_occ]. rewrite IH.
    destruct (Nat.eq_dec x w) as [->|Hne].
    + destruct (decide (w ∈ l)); [done|].
      destruct (decide (w ∈ w :: l)) as [H|H]; [done|]. destruct H. by left.
    + destruct (decide (w ∈ l)) as [Hin|Hin];
        destruct (decide (w ∈ x :: l)) as [H|H]; try done.
      * destruct H. by right.
      * apply elem_of_cons in H as [?|?]; congruence.
Qed.

Lemma StronglySorted_lt_NoDup (l : list nat) : StronglySorted lt l → NoDup l.
Proof.
  induction 1 as [|x l Hs IH Hall]; constructor; [|done].
  intros Hx. rewrite Forall_forall in Hall. apply Hall in Hx. lia.
Qed.

Lemma flush_turn_ok dev ssr n w s r s1 :
  loop_inv s → queue s !! index s = Some w →
  flush_turn dev ssr n w s = Some (r, s1) →
  turn_ok (w, pending s, pending s1).
Proof.
  intros Hloop Hw Hturn.
  destruct (flush_turn_kept dev ssr n w s r s1 Hloop Hw Hturn) as (Hinv&Hi&Ht&Hm).
  destruct (loop_head w s Hloop Hw) as (_&_&_&Hall&Hs).
  destruct Hinv as (_&_&Hs1&_).
  split_and!; simpl; try done. by constructor.
Qed.

Lemma flush_log_spec dev ssr n : ∀ s steps r s',
  flush_log dev ssr n s = Some (steps, r, s') → loop_inv s →
  Forall turn_ok steps
  ∧ index s ≤ index s'
  ∧ take (index s) (queue s') = take (index s) (queue s)
  ∧ (completed r s' →
     runs steps = drop (index s) (queue s')
     ∧ (∀ x, x ∈ drop (index s) (queue s) → x ∈ runs steps)
     ∧ ∀ w, count_occ Nat.eq_dec (runs steps) w
            = count_occ Nat.eq_dec (drop (index s) (queue s)) w + requeues w steps).
Proof.
  induction n as [|n IH]; intros s steps r s' Hlog Hloop; [done|].
  simpl in Hlog.
  destruct (queue s !! index s) as [w|] eqn:Hw.
  2: { injection Hlog as <- <- <-.
       split_and!; [constructor|done|done|]. intros _.
       apply lookup_ge_None in Hw. rewrite drop_ge by done.
       split_and!; [done|by intros x ?%elem_of_nil|done]. }
  destruct (flush_turn dev ssr n w s) as [[[[]|e] s1]|] eqn:Hturn; [| | |done].
  - destruct (flush_log dev ssr n _) as [[[steps0 r0] s0]|] eqn:Hrec; [|done].
    injection Hlog as <- <- <-.
    pose proof (flush_turn_ok dev ssr n w s _ s1 Hloop Hw Hturn) as Hok.
    destruct (flush_turn_kept dev ssr n w s _ s1 Hloop Hw Hturn) as (Hinv&Hi&Ht&Hm).
    destruct (IH _ _ _ _ Hrec (next_loop_inv s1 Hinv)) as (Hall&Hle&Htake&Hdone).
    clear IH. simpl in Hle, Htake, Hdone. rewrite Hi in Hle, Htake, Hdone.
    assert (take (S (index s)) (queue s0) = take (S (index s)) (queue s)) as Htake'
      by congruence.
    split_and!; [by constructor|lia|by apply take_S_take|].
    intros Hc. destruct (Hdone Hc) as (Hruns&Hin&Hcount).
    assert (drop (index s) (queue s) = w :: pending s) as Hd by (by apply drop_S).
    replace (drop (S (index s)) (queue s1)) with (pending s1) in Hin, Hcount
      by (unfold pending; by rewrite Hi).
    split_and!.
    + unfold runs in *. simpl. rewrite Hruns. symmetry. apply drop_S.
      by apply (take_S_lookup _ (queue s)).
    + intros x. rewrite Hd. unfold runs. simpl.
      intros [->|Hx]%elem_of_cons; [by left|]. right. apply Hin. by apply Hm.
    + intros w'. unfold runs, requeues in *. rewrite Hd.
      cbn [map count_occ fst snd List.filter]. rewrite Hcount.
      destruct Hok as (Hs&Hs1&_). simpl in Hs, Hs1.
      apply StronglySorted_inv in Hs as [Hs Hall0].
      rewrite !count_occ_NoDup by by apply StronglySorted_lt_NoDup.
      unfold requeued_in. cbn [fst snd].
      destruct (decide (w' ∈ pending s1)) as [H1|H1];
        destruct (decide (w' ∈ pending s)) as [H0|H0].
      * rewrite bool_decide_eq_true_2 by done.
        rewrite (bool_decide_eq_true_2 (w' ∈ pending s)) by done. simpl.
        destruct (Nat.eq_dec w w'); lia.
      * rewrite bool_decide_eq_true_2 by done.
        rewrite (bool_decide_eq_false_2 (w' ∈ pending s)) by done. simpl.
        destruct (Nat.eq_dec w w'); lia.
      * destruct H1. by apply Hm.
      * rewrite bool_decide_eq_false_2 by done. simpl.
        destruct (Nat.eq_dec w w'); lia.
  - injection Hlog as <- <- <-.
    pose proof (flush_turn_ok dev ssr n w s _ s1 Hloop Hw Hturn) as Hok.
    destruct (flush_turn_kept dev ssr n w s _ s1 Hloop Hw Hturn) as (Hinv&Hi&Ht&Hm).
    split_and!; [by apply Forall_singleton|lia|by apply take_S_take|].
    intros (_&Hnone). rewrite Hi in Hnone.
    by rewrite (take_S_lookup _ _ _ _ Ht Hw) in Hnone.
  - injection Hlog as <- <- <-.
    pose proof (flush_turn_ok dev ssr n w s _ s1 Hloop Hw Hturn) as Hok.
    destruct (flush_turn_kept dev ssr n w s _ s1 Hloop Hw Hturn) as (Hinv&Hi&Ht&Hm).
    split_and!; [by apply Forall_singleton|lia|by apply take_S_take|].
    by intros (?&_).
Qed.
(** What is behind the cursor at the end of a turn has its own turn
    later, when the loop runs to completion. *)
Lemma flush_log_later dev ssr n : ∀ s steps r s',
  flush_log dev ssr n s = Some (steps, r, s') → loop_inv s → completed r s' →
  ∀ i t x, steps !! i = Some t → x ∈ t.2 → x ∈ drop (S i) (runs steps).
Proof.
  induction n as [|n IH]; intros s steps r s' Hlog Hloop Hc i t x Ht Hx; [done|].
  simpl in Hlog.
  destruct (queue s !! index s) as [w|] eqn:Hw.
  2: { by injection Hlog as <- <- <-. }
  destruct (flush_turn dev ssr n w s) as [[[[]|e] s1]|] eqn:Hturn; [| | |done].
  - destruct (flush_log dev ssr n _) as [[[steps0 r0] s0]|] eqn:Hrec; [|done].
    injection Hlog as <- <- <-.
    destruct (flush_turn_kept dev ssr n w s _ s1 Hloop Hw Hturn) as (Hinv&Hi&_).
    pose proof (next_loop_inv s1 Hinv) as Hnext.
    destruct i as [|i]; simpl in Ht.
    + injection Ht as <-. simpl in Hx. unfold runs. simpl. rewrite drop_0.
      destruct (flush_log_spec dev ssr n _ _ _ _ Hrec Hnext) as (_&_&_&Hdone).
      destruct (Hdone Hc) as (_&Hin&_). by apply Hin.
    + unfold runs. simpl. by apply (IH _ _ _ _ Hrec Hnext Hc i t x).
  - injection Hlog as <- <- <-. destruct Hc as (_&Hnone).
    destruct (flush_turn_kept dev ssr n w s _ s1 Hloop Hw Hturn) as (_&Hi&Htk&_).
    rewrite Hi in Hnone. by rewrite (take_S_lookup _ _ _ _ Htk Hw) in Hnone.
  - injection Hlog as <- <- <-. by destruct Hc.
Qed.

(** Where every turn adds only watchers above its own, the runs are in
    ascending order. *)
Lemma flush_log_ascending dev ssr n : ∀ s steps r s' b,
  flush_log dev ssr n s = Some (steps, r, s') →
  Forall (fun t => Forall (lt t.1.1) t.2) steps →
  Forall (le b) (drop (index s) (queue s)) →
  Forall (le b) (runs steps) ∧ StronglySorted lt (runs steps).
Proof.
  induction n as [|n IH]; intros s steps r s' b Hlog Hup Hb; [done|].
  simpl in Hlog.
  destruct (queue s !! index s) as [w|] eqn:Hw.
  2: { injection Hlog as <- <- <-. split; constructor. }
  rewrite (drop_S _ _ _ Hw) in Hb. apply Forall_cons in Hb as [Hbw _].
  destruct (flush_turn dev ssr n w s) as [[[[]|e] s1]|] eqn:Hturn; [| | |done].
  - destruct (flush_log dev ssr n _) as [[[steps0 r0] s0]|] eqn:Hrec; [|done].
    injection Hlog as <- <- <-.
    apply Forall_cons in Hup as [Hw1 Hup]. simpl in Hw1.
    destruct (IH _ _ _ _ (S w) Hrec Hup Hw1) as (Hall&Hs).
    unfold runs in *. simpl. split.
    + constructor; [done|]. eapply Forall_impl; [exact Hall|]. simpl. lia.
    + by constructor.
  - injection Hlog as <- <- <-. unfold runs. simpl. split; repeat constructor. done.
  - injection Hlog as <- <- <-. unfold runs. simpl. split; repeat constructor. done.
Qed.

(** ** Bursts *)

Lemma Watcher_update_batched dev ssr n w W s :
  watchers s !! w = Some W → w_computed W = false → w_sync W = false →
  Watcher_update dev ssr (S n) w s = Some (Ok tt, queueWatcher w s).
Proof.
  intros HW Hc Hs. simpl. rewrite (bind_the_watcher _ _ _ _ HW). by rewrite Hc, Hs.
Qed.

Lemma queueWatcher_has w s : w ∈ has (queueWatcher w s).
Proof.
  unfold queueWatcher. case_decide; [done|].
  destruct s as [? ? ? ? ? ? ? ? ? ? wt fl ? ? ? ? ? ? ? ?]. simpl.
  destruct fl, wt; simpl; set_solver.
Qed.

Lemma queueWatcher_iter w s N :
  Nat.iter (S N) (queueWatcher w) s = queueWatcher w s.
Proof.
  induction N as [|N IH]; [done|].
  change (Nat.iter (S (S N)) (queueWatcher w) s)
    with (queueWatcher w (Nat.iter (S N) (queueWatcher w) s)).
  rewrite IH. apply queueWatcher_flagged, queueWatcher_has.
Qed.

Lemma burst_idle dev ssr n c s r s' :
  idle_inv s → exec dev ssr n c s = Some (r, s') →
  idle_inv s' ∧ queue s `prefix_of` queue s' ∧ has s ⊆ has s'.
Proof.
  intros Hid Hexec.
  pose proof (engine_respects dev ssr _ _ sched_kept_respects n) as Heng.
  destruct (ep_exec _ _ _ _ _ Heng c s r s' Hexec (or_intror Hid))
    as (Hok&Hf&_&Hh&_&Hpre).
  destruct Hid as (Hfl&_). split_and!; [|by apply Hpre|done].
  destruct Hok as [(?&_)|?]; [congruence|done].
Qed.

(** ** [flushSchedulerQueue] *)

Lemma flushSchedulerQueue_unfold dev ssr n s :
  flushSchedulerQueue dev ssr n s =
  match flushLoop dev ssr n (flush_start s) with
  | Some (Ok _, s1) =>
      (callActivatedHooks (activatedChildren s1) ;;;
       callUpdatedHooks dev ssr n (queue s1)) (resetSchedulerState dev s1)
  | Some (Thrown e, s1) => Some (Thrown e, s1)
  | None => None
  end.
Proof.
  unfold flushSchedulerQueue.
  do 3 (rewrite bind_unfold; unfold modify at 1).
  rewrite bind_unfold.
  change (flushLoop dev ssr n (set_index 0 _)) with (flushLoop dev ssr n (flush_start s)).
  destruct (flushLoop dev ssr n (flush_start s)) as [[[[]|e] s1]|]; [|done..].
  do 2 (rewrite bind_unfold; unfold gets at 1).
  rewrite bind_unfold. unfold modify at 1. done.
Qed.
(** ** Bursts *)

Lemma ex_state_idle : idle_inv ex_state.
Proof.
  split_and!; [done|constructor|]. intros x. split.
  - by intros ?%elem_of_nil.
  - by intros ?%elem_of_empty.
Qed.

(** As in scenario 2, with a third write: one tick, and one call of the
    callback, with the last value and the value from before the burst. *)
Example burst_of_three :
  let s1 := after (exec true false 9 three_writes) ex_state in
  (queue s1, ticks s1) = ([1], 1)
  ∧ (fun x => (fst x, trace (snd x), queue (snd x)))
      <$> next_tick true false 9 s1
    = Some (Ok tt, [EvNotify 0; EvNotify 0; EvNotify 0;
                    EvGetter 1; EvCallback 1 (VNum 4) (VNum 1)], []).
Proof. vm_compute. done. Qed.

(** ** C3 *)

(** C3, against the claim as stated: in [relay_state] the write to [a]
    queues the watchers 4 and 2. The flush sorts them and runs 2, whose
    callback writes [b] and so queues the watchers 3 and 1 behind the
    cursor; 1 runs next, after 2. The turns are 2, 1, 3, 4, which is
    not an ascending order, although each turn went to the least of
    those that were waiting. *)
Lemma C3_lower_id_runs_after_higher :
  let s1 := after (exec true false 9 (Write 0 (VNum 7) (Ret VUndef)))
                  relay_state in
  queue s1 = [4; 2]
  ∧ queue (flush_start s1) = [2; 4]
  ∧ (fun x => x.1.1) <$> flush_log true false 9 (flush_start s1)
    = Some [(2, [4], [1; 3; 4]); (1, [3; 4], [3; 4]); (3, [4], [4]); (4, [], [])]
  ∧ (fun x => (fst x, trace (snd x)))
      <$> flushSchedulerQueue true false 9 s1
    = Some (Ok tt,
            [EvNotify 0;
             EvGetter 2; EvCallback 2 (VNum 7) (VNum 0); EvNotify 1;
             EvGetter 1; EvCallback 1 (VNum 7) (VNum 0);
             EvGetter 3; EvCallback 3 (VNum 7) (VNum 0);
             EvGetter 4; EvCallback 4 (VNum 7) (VNum 0)]).
Proof. vm_compute. done. Qed.

(** C3, as amended: [flushSchedulerQueue] enters its loop with the
    queue sorted in ascending order of id, the cursor at 0. In every
    turn of the loop the watcher that runs is below all the watchers
    that are behind the cursor when the turn starts, which are in
    strictly ascending order at the start and at the end of the turn,
    none of them dropped. If the loop runs to completion, the turns are
    the entries of the final queue, and every watcher that was behind
    the cursor when a turn ended has a later turn in the same flush.
    The turns as a whole are in ascending order if every turn leaves
    only watchers above its own behind the cursor. A watcher that is
    queued during the flush and not flagged is inserted at the position
    [j] that the backward scan from the tail finds: [j] is behind the
    cursor, every entry from [j] on is above the watcher, and the entry
    before [j] is not, unless [j] is right behind the cursor; the
    cursor is unchanged and the watchers behind it are still in
    strictly ascending order, the new one among them. *)
Theorem C3_flush_order dev ssr s :
  idle_inv s →
  (StronglySorted lt (queue (flush_start s))
   ∧ queue (flush_start s) ≡ₚ queue s
   ∧ index (flush_start s) = 0)
  ∧ (∀ m steps r s',
       flush_log dev ssr m (flush_start s) = Some (steps, r, s') →
       flushLoop dev ssr m (flush_start s) = Some (r, s')
       ∧ Forall turn_ok steps
       ∧ (Forall (fun t => Forall (lt t.1.1) t.2) steps → StronglySorted lt (runs steps))
       ∧ (completed r s' →
          runs steps = queue s'
          ∧ ∀ i t x, steps !! i = Some t → x ∈ t.2 → x ∈ drop (S i) (runs steps)))
  ∧ (∀ s1 w,
       flush_inv s1 → w ∉ has s1 →
       let j := scan (queue s1) (index s1) w (length (queue s1)) in
       queue (queueWatcher w s1) = take j (queue s1) ++ w :: drop j (queue s1)
       ∧ index s1 < j ≤ length (queue s1)
       ∧ (∀ i x, j ≤ i → queue s1 !! i = Some x → w < x)
       ∧ (S (index s1) < j → ∃ x, queue s1 !! (j - 1) = Some x ∧ x ≤ w)
       ∧ index (queueWatcher w s1) = index s1
       ∧ StronglySorted lt (pending (queueWatcher w s1))
       ∧ w ∈ pending (queueWatcher w s1)).
Proof.
  intros Hid. pose proof (flush_start_inv s Hid) as Hloop.
  split_and!.
  - destruct Hid as (_&Hnd&_). by apply sort_queue_sorted.
  - unfold flush_start, sort_queue. ssimpl. apply merge_sort_Permutation.
  - done.
  - intros m steps r s' Hlog.
    destruct (flush_log_spec dev ssr m _ _ _ _ Hlog Hloop) as (Hok&_&_&Hdone).
    split_and!.
    + rewrite flush_log_loop, Hlog. done.
    + done.
    + intros Hup.
      assert (Forall (le 0) (drop (index (flush_start s)) (queue (flush_start s))))
        as H0 by (apply Forall_forall; intros; lia).
      by destruct (flush_log_ascending dev ssr m _ _ _ _ 0 Hlog Hup H0).
    + intros Hc. destruct (Hdone Hc) as (Hruns&_&_). split.
      * rewrite Hruns. by rewrite drop_0.
      * by apply (flush_log_later dev ssr m _ _ _ _ Hlog Hloop Hc).
  - intros s1 w Hinv Hw j.
    destruct (queueWatcher_flushing w s1 Hinv Hw) as (Hq&Hj&Hat&_&_&Hp&Hinv'&Hi).
    fold j in Hq, Hj, Hat.
    split_and!; [done|lia|lia| | |done| |].
    + intros i x Hji Hx. apply (scan_after (queue s1) (index s1) w (length (queue s1)) i x).
      * by fold j.
      * by apply lookup_lt_Some in Hx.
      * done.
    + intros Hlt.
      destruct (lookup_lt_is_Some_2 (queue s1) (j - 1)) as [x Hx]; [lia|].
      exists x. split; [done|].
      by apply (scan_before (queue s1) (index s1) w (length (queue s1)) x).
    + by destruct Hinv' as (_&_&?&_).
    + apply Hp. by left.
Qed.

Lemma relay_burst_idle :
  idle_inv (after (exec true false 9 (Write 0 (VNum 7) (Ret VUndef)))
                  relay_state).
Proof.
  set (s1 := after _ _).
  assert (queue s1 = [4; 2]) as Hq by (vm_compute; reflexivity).
  assert (has s1 = {[4; 2]}) as Hh by (vm_compute; reflexivity).
  assert (flushing s1 = false) as Hf by (vm_compute; reflexivity).
  clearbody s1. unfold idle_inv. rewrite Hq, Hh. split_and!; [done| |].
  - apply NoDup_cons. split; [|apply NoDup_singleton].
    intros ?%list_elem_of_singleton. lia.
  - intros x. clear. set_solver.
Qed.

(** The theorem at the flush of [relay_state]: the queue is sorted to
    2, 4; every turn is in order; and in the turn of watcher 2, once
    [has[2]] is cleared, watcher 1 is inserted right behind the
    cursor. *)
Lemma C3_flush_order_witness :
  let s1 := after (exec true false 9 (Write 0 (VNum 7) (Ret VUndef)))
                  relay_state in
  let s2 := set_has (has s1 ∖ {[2]}) (flush_start s1) in
  queue (flush_start s1) = [2; 4]
  ∧ StronglySorted lt (queue (flush_start s1))
  ∧ Forall turn_ok [(2, [4], [1; 3; 4]); (1, [3; 4], [3; 4]); (3, [4], [4]); (4, [], [])]
  ∧ queue (queueWatcher 1 s2) = [2; 1; 4]
  ∧ StronglySorted lt (pending (queueWatcher 1 s2)).
Proof.
  intros s1 s2.
  destruct (C3_flush_order true false s1 relay_burst_idle)
    as ((Hsorted&_&_)&Hlog&Hins).
  set (s3 := after (flushLoop true false 9) (flush_start s1)).
  assert (flush_log true false 9 (flush_start s1)
          = Some ([(2, [4], [1; 3; 4]); (1, [3; 4], [3; 4]); (3, [4], [4]); (4, [], [])],
                  Ok tt, s3)) as Hrun by (vm_compute; reflexivity).
  destruct (Hlog 9 _ _ _ Hrun) as (_&Hok&_).
  assert (flushing s2 = true) as Hf by (vm_compute; reflexivity).
  assert (index s2 < length (queue s2)) as Hi by (vm_compute; lia).
  assert (pending s2 = [4]) as Hp2 by (vm_compute; reflexivity).
  assert (has s2 = {[4]}) as Hh2 by (vm_compute; reflexivity).
  assert (flush_inv s2) as Hinv.
  { unfold flush_inv. rewrite Hp2, Hh2. split_and!; [done|done|repeat constructor|].
    clear. intros x. set_solver. }
  assert (1 ∉ has s2) as Hw by (rewrite Hh2; clear; set_solver).
  destruct (Hins s2 1 Hinv Hw) as (Hq&_&_&_&_&Hp&_).
  split_and!; [vm_compute; reflexivity|exact Hsorted|exact Hok| |exact Hp].
  rewrite Hq. vm_compute. reflexivity.
Defined.

(** ** C9 *)

(** C9, where the code departs from the claim: in [mutual_state 150]
    the watchers 1 and 2 trigger each other. After one write to [x],
    each of them has 150 turns in the one flush of a development build,
    queued again 149 times by the other. The guard looks at a watcher
    right after its own [run()] only, where [has[id]] is set again only
    if the watcher queued itself: no turn is counted, the loop is not
    aborted and nothing is reported. *)
Theorem C9_mutual_watchers_are_not_counted :
  let s1 := after (exec true false 9 (Write 0 (VNum 1) (Ret VUndef)))
                  (mutual_state 150) in
  queue s1 = [1]
  ∧ (fun x => (count_occ Nat.eq_dec (runs x.1.1) 1,
               count_occ Nat.eq_dec (runs x.1.1) 2,
               x.1.2, circular x.2, existsb is_warn (trace x.2)))
      <$> flush_log true false 400 (flush_start s1)
    = Some (150, 150, Ok tt, ∅, false)
  ∧ (fun x => (fst x, callbacks 1 (trace (snd x)), callbacks 2 (trace (snd x)),
               existsb is_warn (trace (snd x))))
      <$> flushSchedulerQueue true false 400 s1
    = Some (Ok tt, 150, 150, false).
Proof. vm_compute. done. Qed.

(** ** The guard against circular updates *)

(** In a development build, a turn of the flush loop is counted for its
    watcher when, after [run()], the watcher is flagged in [has] again,
    which is when it was queued again after [has[id]] was cleared in its
    own turn. When the count [c] of the watcher is still at most 100
    the loop goes on; when it exceeds 100 the turn warns with the text
    that names the watcher, and the loop ends there without throwing:
    the cursor stays, no other watcher runs, and what the turns wrote is
    kept. The production build counts nothing and never ends the loop
    this way. Whenever the loop ends without throwing,
    [flushSchedulerQueue] goes on to [resetSchedulerState], which
    empties the queue, [has] and the counts and clears [waiting] and
    [flushing], and leaves the store as it is. *)
Theorem circular_guard ssr n w W s s1 :
  watchers s !! w = Some W →
  queue s !! index s = Some w →
  turn_run true ssr n w s = Some (Ok tt, s1) →
  let c := S (default 0 (circular s1 !! w)) in
  let counted := set_circular (<[w := c]> (circular s1)) s1 in
  let warned := set_trace (trace s1 ++ [EvWarn (loop_warning W) (w_vm W)]) counted in
  (w ∉ has s1 → flush_turn true ssr n w s = Some (Ok true, s1))
  ∧ (w ∈ has s1 → c ≤ MAX_UPDATE_COUNT →
     flush_turn true ssr n w s = Some (Ok true, counted))
  ∧ (w ∈ has s1 → MAX_UPDATE_COUNT < c →
     flush_turn true ssr n w s = Some (Ok false, warned)
     ∧ flushLoop true ssr (S n) s = Some (Ok tt, warned)
     ∧ index warned = index s1 ∧ queue warned = queue s1
     ∧ props warned = props s1 ∧ objects warned = objects s1
     ∧ watchers warned = watchers s1 ∧ dep_subs warned = dep_subs s1)
  ∧ (∀ k w0 s0 s2, flush_turn false ssr k w0 s0 ≠ Some (Ok false, s2))
  ∧ (∀ dev m s0 s2,
       flushLoop dev ssr m (flush_start s0) = Some (Ok tt, s2) →
       let s3 := resetSchedulerState dev s2 in
       flushSchedulerQueue dev ssr m s0
       = (callActivatedHooks (activatedChildren s2) ;;;
          callUpdatedHooks dev ssr m (queue s2)) s3
       ∧ queue s3 = [] ∧ has s3 = ∅ ∧ index s3 = 0
       ∧ waiting s3 = false ∧ flushing s3 = false
       ∧ (dev = true → circular s3 = ∅)
       ∧ props s3 = props s2 ∧ objects s3 = objects s2
       ∧ watchers s3 = watchers s2 ∧ dep_subs s3 = dep_subs s2
       ∧ trace s3 = trace s2).
Proof.
  intros HW Hw Hrun c counted warned.
  pose proof (flush_turn_unfold true ssr n w W s HW) as Hturn.
  rewrite Hrun in Hturn. unfold circular_check in Hturn. simpl in Hturn.
  fold c in Hturn.
  split_and!.
  - intros Hno. rewrite Hturn. by rewrite bool_decide_eq_false_2.
  - intros Hin Hc. rewrite Hturn. rewrite bool_decide_eq_true_2 by done.
    by rewrite bool_decide_eq_false_2 by lia.
  - intros Hin Hc.
    assert (flush_turn true ssr n w s = Some (Ok false, warned)) as Hbreak.
    { rewrite Hturn. rewrite bool_decide_eq_true_2 by done.
      by rewrite bool_decide_eq_true_2 by done. }
    split_and!; try done.
    simpl. unfold bind at 1 2, gets at 1 2. rewrite Hw.
    rewrite (bind_unfold _ _ s). by rewrite Hbreak.
  - intros k w0 s0 s2.
    destruct (watchers s0 !! w0) as [W0|] eqn:HW0.
    + rewrite (flush_turn_unfold false ssr k w0 W0 s0 HW0).
      destruct (turn_run false ssr k w0 s0) as [[[[]|e] s4]|]; simpl; congruence.
    + unfold flush_turn. unfold bind at 1. unfold the_watcher at 1. by rewrite HW0.
  - intros dev m s0 s2 Hloop s3. split.
    + rewrite flushSchedulerQueue_unfold, Hloop. done.
    + subst s3. unfold resetSchedulerState. destruct dev; split_and!; done.
Qed.

(** The theorem at the turn of watcher 1 of [self_state] that finds its
    count at 100: the watcher queues itself again, the turn warns, and
    the loop ends with the watcher still queued behind the cursor. *)
Lemma circular_guard_witness :
  let W := self_watcher 1000 in
  let s := set_circular {[1 := 100]}
             (flush_start (after (exec true false 9
                                    (Write 0 (VNum 1) (Ret VUndef)))
                                 (self_state 1000))) in
  let s1 := after (turn_run true false 9 1) s in
  let warned := set_trace (trace s1 ++ [EvWarn (loop_warning W) 0])
                  (set_circular (<[1 := 101]> (circular s1)) s1) in
  flushLoop true false 10 s = Some (Ok tt, warned)
  ∧ pending warned = [1].
Proof.
  intros W s s1 warned.
  assert (watchers s !! 1 = Some W) as HW by reflexivity.
  assert (queue s !! index s = Some 1) as Hw by reflexivity.
  assert (turn_run true false 9 1 s = Some (Ok tt, s1)) as Hrun
    by (vm_compute; reflexivity).
  assert (has s1 = {[1]}) as Hh by (vm_compute; reflexivity).
  assert (circular s1 !! 1 = Some 100) as Hc by (vm_compute; reflexivity).
  destruct (circular_guard false 9 1 W s s1 HW Hw Hrun)
    as (_&_&Hbreak&_).
  destruct Hbreak as (_&Hloop&_).
  - rewrite Hh. clear. set_solver.
  - rewrite Hc. unfold MAX_UPDATE_COUNT. simpl. lia.
  - rewrite Hc in Hloop. split; [exact Hloop|]. vm_compute. reflexivity.
Defined.

(** The whole flush of [self_state] after one write, in a development
    build: the callback of watcher 1 is called 101 times, the 101st
    turn warns and ends the loop, the scheduler is reset, and the field
    keeps the value written last. *)
Example self_trigger_flush :
  let s1 := after (exec true false 9 (Write 0 (VNum 1) (Ret VUndef)))
                  (self_state 1000) in
  (fun x => (fst x, callbacks 1 (trace (snd x)),
             filter (fun e => is_warn e = true) (trace (snd x)),
             queue (snd x), has (snd x), circular (snd x),
             waiting (snd x), flushing (snd x), index (snd x),
             p_val <$> props (snd x) !! 0))
    <$> flushSchedulerQueue true false 200 s1
  = Some (Ok tt, 101, [EvWarn (loop_warning (self_watcher 1000)) 0],
          [], ∅, ∅, false, false, 0, Some (VNum 102)).
Proof. vm_compute. done. Qed.

(** The same watcher in a production build, with a callback that stops
    at 150: nothing is counted and the loop runs to its end. *)
Example self_trigger_production :
  let s1 := after (exec false false 9 (Write 0 (VNum 1) (Ret VUndef)))
                  (self_state 150) in
  (fun x => (fst x, callbacks 1 (trace (snd x)), existsb is_warn (trace (snd x)),
             p_val <$> props (snd x) !! 0))
    <$> flushSchedulerQueue false false 400 s1
  = Some (Ok tt, 150, false, Some (VNum 150)).
Proof. vm_compute. done. Qed.
(** ** C10 *)

(** [pushTarget()] stores the target it replaces only if there is one.
    Called where the target is already [undefined], as inside a hook,
    it stores nothing, and the [popTarget()] that pairs with it takes
    the watcher that the hook had suspended off the stack and makes it
    the target again. The same holds for the [pushTarget(this)] of a
    [get()] inside a hook. *)
Lemma push_pop_under_hook s t w st :
  target s = None → targetStack s = w :: st →
  targetStack (pushTarget t s) = w :: st
  ∧ target (popTarget (pushTarget t s)) = Some w
  ∧ targetStack (popTarget (pushTarget t s)) = st.
Proof.
  intros Ht Hst. unfold pushTarget. rewrite Ht.
  unfold popTarget. ssimpl. rewrite Hst. done.
Qed.

(** C10, where the code departs from the claim: the watcher 1 calls
    [callHook(vm, "created")] in its getter, and the handler reads the
    field [a]. If the handler does nothing else, the read subscribes no
    watcher. If the handler first calls another hook, or first reads a
    computed property that has to be evaluated, the inner
    [popTarget()] makes watcher 1 the target inside the handler: the
    read of [a] subscribes watcher 1 to the Dep of [a], and the
    subscription is kept when the evaluation ends. The same happens
    for [data()] under [getData]. In each case the [popTarget()] of
    the hook then finds the stack empty and leaves the rest of the
    getter of watcher 1 without a target. *)
Theorem C10_read_in_hook_can_subscribe :
  outcome (Watcher_get true false 9 1 (hook_state read_a (Ret VUndef)))
  = Some (Ok VUndef, [], Some [], None, [])
  ∧ outcome (Watcher_get true false 9 1
               (hook_state hook_then_read (Ret VUndef)))
    = Some (Ok VUndef, [1], Some [0], None, [])
  ∧ outcome (Watcher_get true false 9 1
               (hook_state computed_then_read (Ret VUndef)))
    = Some (Ok VUndef, [1], Some [0], None, [])
  ∧ outcome (Watcher_get true false 9 1 (data_state read_a))
    = Some (Ok VUndef, [], Some [], None, [])
  ∧ outcome (Watcher_get true false 9 1 (data_state hook_then_read))
    = Some (Ok VUndef, [1], Some [0], None, [])
  ∧ outcome (Watcher_get true false 9 1 (data_state computed_then_read))
    = Some (Ok VUndef, [1], Some [0], None, [])
  ∧ (fun x => (target (snd x), targetStack (snd x), subsOf 0 (snd x)))
      <$> callHook true false 9 0 "created"
            (pushTarget (Some 1) (hook_state hook_then_read (Ret VUndef)))
    = Some (None, [], [1]).
Proof. vm_compute. done. Qed.

(** What the hooks rely on: right after [pushTarget()] there is no
    target, and a read without a target returns the value and leaves
    the state as it is. *)
Lemma read_without_target dev ssr n p P s0 :
  let s := pushTarget None s0 in
  props s0 !! p = Some P → p_getter P = None →
  target s = None
  ∧ reactiveGetter dev ssr (S n) p s = Some (Ok (p_val P), s).
Proof.
  intros s HP Hg.
  assert (target s = None) as Ht by done.
  assert (props s !! p = Some P) as HP'.
  { subst s. unfold pushTarget. by destruct (target s0). }
  split; [done|].
  simpl. unfold bind at 1. unfold the_prop at 1. rewrite HP'. rewrite Hg.
  unfold bind at 1. unfold ret at 1. unfold bind at 1. unfold gets at 1.
  rewrite Ht. done.
Qed.

(** ** Completions *)

Lemma returns_ok_ret {A} (a : A) : returns_ok (ret a).
Proof. intros s r s' [= <- <-]. by eexists. Qed.

Lemma returns_ok_modify f : returns_ok (modify f).
Proof. intros s r s' [= <- <-]. by eexists. Qed.

Lemma returns_ok_record e : returns_ok (record e).
Proof. apply returns_ok_modify. Qed.

Lemma returns_ok_gets {A} (f : State → A) : returns_ok (gets f).
Proof. intros s r s' [= <- <-]. by eexists. Qed.

Lemma returns_ok_bind {A B} (m : M A) (k : A → M B) :
  returns_ok m → (∀ a, returns_ok (k a)) → returns_ok (bind m k).
Proof.
  intros Hm Hk s r s' [(a&s1&_&Hks)|(e&Hms&_)]%bind_Some.
  - by eapply Hk.
  - by destruct (Hm _ _ _ Hms).
Qed.

Lemma returns_ok_when b m : returns_ok m → returns_ok (when b m).
Proof. destruct b; [done|]. intros _. apply returns_ok_ret. Qed.

Lemma returns_ok_try_catch {A} (m : M A) h :
  (∀ e, returns_ok (h e)) → returns_ok (try_catch m h).
Proof.
  intros Hh s r s'. unfold try_catch.
  destruct (m s) as [[[a|e] s1]|] eqn:Hms; [|by apply Hh|done].
  intros [= <- <-]. by eexists.
Qed.

Lemma returns_ok_for_each {A} (l : list A) f :
  (∀ x, returns_ok (f x)) → returns_ok (for_each l f).
Proof.
  intros Hf. induction l as [|x l IH]; simpl; [apply returns_ok_ret|].
  by apply returns_ok_bind.
Qed.

Lemma returns_ok_the_vm v : returns_ok (the_vm v).
Proof.
  intros s r s'. unfold the_vm. destruct (vms s !! v); [|done].
  intros [= <- <-]. by eexists.
Qed.

Lemma returns_ok_unit (m : M unit) s r s' : returns_ok m → m s = Some (r, s') → r = Ok tt.
Proof. intros Hm Hs. by destruct (Hm _ _ _ Hs) as [[] ->]. Qed.

(** ** The trace only grows *)

Lemma trace_grows_preorder : PreOrder trace_grows.
Proof.
  split.
  - intros s. exists []. by rewrite app_nil_r.
  - intros s1 s2 s3 [t1 H1] [t2 H2]. exists (t1 ++ t2). by rewrite H2, H1, app_assoc.
Qed.

Lemma trace_grows_same s s' : trace s' = trace s → trace_grows s s'.
Proof. intros H. exists []. by rewrite app_nil_r. Qed.

Lemma trace_grows_respects : respects trace_grows (fun _ => true).
Proof.
  split.
  - apply trace_grows_preorder.
  - intros t s. destruct (pushTarget_frame t s) as (_&_&?&_). by apply trace_grows_same.
  - intros s. destruct (popTarget_frame s) as (_&_&?). by apply trace_grows_same.
  - intros x s. by apply trace_grows_same.
  - intros d s. apply trace_grows_same, depend_trace.
  - intros w s. apply trace_grows_same, cleanupDeps_trace.
  - intros w s. apply trace_grows_same, teardown_trace.
  - intros w v s. by apply trace_grows_same.
  - intros w s. by apply trace_grows_same.
  - intros w s. destruct (queueWatcher_frame w s) as (_&_&?&_). by apply trace_grows_same.
  - intros p f s. by apply trace_grows_same.
  - intros x d s. by apply trace_grows_same.
  - intros x s. by apply trace_grows_same.
  - intros x key d s. by apply trace_grows_same.
  - intros d P s. by apply trace_grows_same.
  - intros s. by apply trace_grows_same.
  - intros s. by apply trace_grows_same.
  - intros e s _. by exists [e].
  - done.
Qed.

Lemma exec_trace_grows dev ssr n c s r s' :
  exec dev ssr n c s = Some (r, s') → trace_grows s s'.
Proof.
  exact (ep_exec _ _ _ _ _ (engine_respects dev ssr _ _ trace_grows_respects n) c s r s').
Qed.

(** ** Hooks and events *)

Lemma for_each_events {A} (l : list A) (f : A → M unit) (ev : A → event) :
  (∀ x s r s', f x s = Some (r, s') →
               r = Ok tt ∧ ∃ t, trace s' = trace s ++ ev x :: t) →
  ∀ s r s', for_each l f s = Some (r, s') →
            r = Ok tt ∧ ∃ t, trace s' = trace s ++ t ∧ map ev l `sublist_of` t.
Proof.
  intros Hf. induction l as [|x l IH]; intros s r s'; simpl.
  - intros [= <- <-]. split; [done|]. exists []. by rewrite app_nil_r.
  - intros [([]&s1&Hx&Hl)|(e&Hx&_)]%bind_Some.
    + destruct (Hf _ _ _ _ Hx) as (_&t1&Ht1).
      destruct (IH _ _ _ Hl) as (->&t2&Ht2&Hsub).
      split; [done|]. exists (ev x :: t1 ++ t2). split.
      * rewrite Ht2, Ht1. by rewrite <- app_assoc.
      * apply sublist_skip. by apply sublist_inserts_l.
    + by destruct (Hf _ _ _ _ Hx) as ([=]&_).
Qed.

Lemma Vue_emit_returns_ok dev ssr n vm ev :
  returns_ok (Vue_emit dev ssr n vm ev).
Proof.
  destruct n as [|n]; [by intros ???|]. simpl.
  apply returns_ok_bind; [apply returns_ok_the_vm|]. intros V.
  destruct (vm_events V !! ev); [|apply returns_ok_ret].
  apply returns_ok_for_each. intros f. apply returns_ok_try_catch.
  intros e. apply returns_ok_record.
Qed.

Lemma map_imap_index {A} (ev : nat → event) (hs : list A) k :
  map (fun ih : nat * A => ev ih.1) (imap (fun i h => (k + i, h)) hs)
  = map ev (seq k (length hs)).
Proof.
  revert k. induction hs as [|h hs IH]; intros k; [done|].
  rewrite imap_cons. simpl. rewrite Nat.add_0_r. f_equal.
  rewrite <- (IH (S k)). f_equal. apply imap_ext. intros i x _. simpl. f_equal. lia.
Qed.

Lemma returns_ok_the_watcher w : returns_ok (the_watcher w).
Proof.
  intros s r s'. unfold the_watcher. destruct (watchers s !! w); [|done].
  intros [= <- <-]. by eexists.
Qed.

Lemma callHook_returns_ok dev ssr n vm hook :
  returns_ok (callHook dev ssr n vm hook).
Proof.
  destruct n as [|n]; [by intros ???|]. simpl.
  apply returns_ok_bind; [apply returns_ok_modify|]. intros _.
  apply returns_ok_bind; [apply returns_ok_the_vm|]. intros V.
  apply returns_ok_bind.
  { destruct (vm_hooks V !! hook); [|apply returns_ok_ret].
    apply returns_ok_for_each. intros ih. apply returns_ok_try_catch.
    intros e. apply returns_ok_record. }
  intros _. apply returns_ok_bind; [apply returns_ok_the_vm|]. intros V1.
  apply returns_ok_bind; [apply returns_ok_when, Vue_emit_returns_ok|].
  intros _. apply returns_ok_modify.
Qed.

(** One turn of the loop of [callHook]. *)
Lemma hook_handler_caught dev ssr n vm hook (ih : nat * code) s r s' :
  try_catch
    (record (EvHandler vm hook ih.1) ;;; exec dev ssr n ih.2 ;;; ret tt)
    (fun e => record (EvHandleError e vm (hook +:+ " hook"))) s = Some (r, s') →
  r = Ok tt ∧ ∃ t, trace s' = trace s ++ EvHandler vm hook ih.1 :: t.
Proof.
  unfold try_catch. rewrite bind_unfold. unfold record at 1, modify at 1.
  set (s0 := set_trace _ s). rewrite bind_unfold.
  destruct (exec dev ssr n ih.2 s0) as [[[v|e] s1]|] eqn:Hrun; [| |done].
  - intros [= <- <-]. split; [done|].
    destruct (exec_trace_grows _ _ _ _ _ _ _ Hrun) as [t Ht].
    exists t. rewrite Ht. subst s0. ssimpl. by rewrite <- app_assoc.
  - intros [= <- <-]. split; [done|].
    destruct (exec_trace_grows _ _ _ _ _ _ _ Hrun) as [t Ht].
    exists (t ++ [EvHandleError e vm (hook +:+ " hook")]). ssimpl.
    rewrite Ht. subst s0. ssimpl. by rewrite <- !app_assoc.
Qed.

Lemma callHook_events dev ssr n vm hook V s r s' :
  vms s !! vm = Some V →
  callHook dev ssr n vm hook s = Some (r, s') →
  r = Ok tt
  ∧ ∃ t, trace s' = trace s ++ t
         ∧ map (EvHandler vm hook) (seq 0 (length (handlers_of V hook))) `sublist_of` t.
Proof.
  intros HV. destruct n as [|n]; [done|]. simpl.
  rewrite bind_unfold. unfold modify at 1. set (s0 := pushTarget None s).
  assert (vms s0 !! vm = Some V) as HV0.
  { subst s0. unfold pushTarget. by destruct (target s). }
  assert (trace s0 = trace s) as Ht0 by (by destruct (pushTarget_frame None s) as (_&_&?&_)).
  rewrite bind_unfold. unfold the_vm at 1. rewrite HV0.
  intros [([]&s1&Hloop&Hrest)|(e&Hloop&_)]%bind_Some.
  2: { exfalso. unfold handlers_of in *. destruct (vm_hooks V !! hook) as [hs|]; [|done].
       by destruct (for_each_events _ _ (fun ih => EvHandler vm hook ih.1)
                      (hook_handler_caught dev ssr n vm hook) _ _ _ Hloop) as ([=]&_). }
  assert (∃ t, trace s1 = trace s0 ++ t
               ∧ map (EvHandler vm hook) (seq 0 (length (handlers_of V hook)))
                   `sublist_of` t) as (t1&Ht1&Hsub).
  { unfold handlers_of. destruct (vm_hooks V !! hook) as [hs|].
    - destruct (for_each_events _ _ (fun ih => EvHandler vm hook ih.1)
                  (hook_handler_caught dev ssr n vm hook) _ _ _ Hloop) as (_&t&Ht&Hsub).
      exists t. split; [done|]. simpl.
      by rewrite <- (map_imap_index (EvHandler vm hook) hs 0).
    - injection Hloop as <-. exists []. split; [by rewrite app_nil_r|]. simpl. constructor. }
  apply bind_Some in Hrest as [(V1&s2&HV1&Hrest)|(e&HV1&_)].
  2: { unfold the_vm in HV1. by destruct (vms s1 !! vm). }
  assert (s2 = s1) as ->.
  { unfold the_vm in HV1. destruct (vms s1 !! vm); [|done]. by injection HV1. }
  apply bind_Some in Hrest as [([]&s3&Hemit&Hpop)|(e&Hemit&_)].
  2: { exfalso.
       assert (returns_ok (when (vm_hasHookEvent V1)
                 (Vue_emit dev ssr n vm ("hook:" +:+ hook)))) as Hok
         by apply returns_ok_when, Vue_emit_returns_ok.
       by destruct (Hok _ _ _ Hemit). }
  injection Hpop as <- <-. split; [done|].
  assert (trace_grows s1 s3) as [t3 Ht3].
  { destruct (vm_hasHookEvent V1); simpl in Hemit.
    - exact (ep_emit _ _ _ _ _
               (engine_respects dev ssr _ _ trace_grows_respects n) _ _ _ _ _ Hemit).
    - injection Hemit as <-. apply trace_grows_preorder. }
  exists (t1 ++ t3). split.
  - destruct (popTarget_frame s3) as (_&_&->). rewrite Ht3, Ht1, Ht0. by rewrite app_assoc.
  - by apply sublist_inserts_r.
Qed.

(** The loop of [callHook] over handlers that return or throw at
    once. *)
Lemma for_each_at_once dev ssr n vm hook os : ∀ k s,
  for_each (imap (fun i h => (k + i, h)) (map at_once os)) (fun ih =>
    try_catch
      (record (EvHandler vm hook ih.1) ;;; exec dev ssr (S n) ih.2 ;;; ret tt)
      (fun e => record (EvHandleError e vm (hook +:+ " hook")))) s
  = Some (Ok tt, set_trace (trace s ++ hook_events vm hook k os) s).
Proof.
  induction os as [|o os IH]; intros k s.
  - simpl. unfold ret. do 2 f_equal. rewrite app_nil_r. by destruct s.
  - rewrite map_cons, imap_cons. cbn [for_each].
    rewrite (imap_ext _ (fun i h => (S k + i, h))).
    2: { intros i x _. simpl. f_equal. lia. }
    rewrite bind_unfold. rewrite Nat.add_0_r.
    destruct o as [v|e]; cbn [at_once hook_events fst snd].
    + unfold try_catch at 1. rewrite bind_unfold. unfold record at 1, modify at 1.
      rewrite bind_unfold. cbn [exec]. unfold ret at 1. unfold ret at 1.
      rewrite IH. ssimpl. by rewrite <- app_assoc.
    + unfold try_catch at 1. rewrite bind_unfold. unfold record at 1, modify at 1.
      rewrite bind_unfold. cbn [exec]. unfold throw at 1.
      unfold record at 1, modify at 1.
      rewrite IH. ssimpl. by rewrite <- !app_assoc.
Qed.

(** [callHook] never throws, and every handler of the hook is called,
    in the order of the array, whatever the handlers before it did.
    What a handler throws goes to [handleError]: when the handlers
    return or throw at once (and the component has no hook events), the
    trace is the call of each handler in turn, followed, for those that
    threw and only for those, by the report of what was thrown; and the
    target is popped at the end. *)
Theorem callHook_never_throws dev ssr n vm hook V s :
  vms s !! vm = Some V →
  (∀ r s', callHook dev ssr n vm hook s = Some (r, s') →
     r = Ok tt
     ∧ ∃ t, trace s' = trace s ++ t
            ∧ map (EvHandler vm hook) (seq 0 (length (handlers_of V hook)))
                `sublist_of` t)
  ∧ ∀ os, vm_hooks V !! hook = Some (map at_once os) → vm_hasHookEvent V = false →
          callHook dev ssr (S (S n)) vm hook s
          = Some (Ok tt,
                  popTarget (set_trace (trace s ++ hook_events vm hook 0 os)
                               (pushTarget None s))).
Proof.
  intros HV. split; [intros r s'; by apply callHook_events|].
  intros os Hhooks Hev.
  assert (vms (pushTarget None s) !! vm = Some V) as HV0.
  { unfold pushTarget. by destruct (target s). }
  assert (trace (pushTarget None s) = trace s) as Ht0
    by (by destruct (pushTarget_frame None s) as (_&_&?&_)).
  change (callHook dev ssr (S (S n)) vm hook s)
    with ((modify (pushTarget None) ;;;
           V <- the_vm vm ;;
           match vm_hooks V !! hook with
           | Some handlers =>
               for_each (imap (fun i h => (0 + i, h)) handlers) (fun ih =>
                 try_catch
                   (record (EvHandler vm hook ih.1) ;;; exec dev ssr (S n) ih.2 ;;; ret tt)
                   (fun e => record (EvHandleError e vm (hook +:+ " hook"))))
           | None => ret tt
           end ;;;
           V1 <- the_vm vm ;;
           when (vm_hasHookEvent V1) (Vue_emit dev ssr (S n) vm ("hook:" +:+ hook)) ;;;
           modify popTarget) s).
  rewrite bind_unfold. unfold modify at 1.
  rewrite bind_unfold. unfold the_vm at 1. rewrite HV0, Hhooks.
  rewrite bind_unfold, for_each_at_once.
  rewrite bind_unfold. unfold the_vm at 1. ssimpl. rewrite HV0, Hev.
  rewrite Ht0. reflexivity.
Qed.

(** The theorem at [noisy_state], where the second handler throws and
    the third is called all the same, and at the component 0 of
    [family_state], whose second handler throws. *)
Lemma callHook_never_throws_witness :
  let s' := after (callHook true false 5 0 "created") noisy_state in
  callHook true false 5 0 "created" noisy_state = Some (Ok tt, s')
  ∧ (∃ t, trace s' = trace noisy_state ++ t
          ∧ map (EvHandler 0 "created") [0; 1; 2] `sublist_of` t)
  ∧ callHook true false 5 0 "updated" family_state
    = Some (Ok tt,
            set_trace [EvHandler 0 "updated" 0; EvHandler 0 "updated" 1;
                       EvHandleError "oops" 0 "updated hook"] family_state).
Proof.
  intros s'.
  assert (callHook true false 5 0 "created" noisy_state = Some (Ok tt, s'))
    as Hrun by (vm_compute; reflexivity).
  split_and!; [exact Hrun| |].
  - by destruct (proj1 (callHook_never_throws true false 5 0 "created" noisy_vm
                          noisy_state eq_refl) (Ok tt) s' Hrun) as (_&?).
  - rewrite (proj2 (callHook_never_throws true false 3 0 "updated"
                      (mkVM [1] (Some 1) false true false
                         {["updated" := [Ret VUndef; Raise "oops"]]} ∅ (Ret VUndef))
                      family_state eq_refl)
               [inl VUndef; inr "oops"] eq_refl eq_refl).
    reflexivity.
Defined.

Example noisy_hook :
  (fun x => (fst x, trace (snd x), target (snd x)))
    <$> callHook true false 5 0 "created" noisy_state
  = Some (Ok tt,
          [EvHandler 0 "created" 0; EvHandler 0 "created" 1;
           EvHandleError "oops" 0 "created hook"; EvHandler 0 "created" 2;
           EvHandleError "late" 0 ("event handler for " +:+ quote +:+ "hook:created" +:+ quote)],
          None).
Proof. vm_compute. reflexivity. Qed.

Lemma for_each_raise dev ssr n vm info (es : list Exn) s :
  for_each (map Raise es) (fun f =>
    try_catch (exec dev ssr (S n) f ;;; ret tt)
      (fun e => record (EvHandleError e vm info))) s
  = Some (Ok tt, set_trace (trace s ++ map (fun e => EvHandleError e vm info) es) s).
Proof.
  revert s. induction es as [|e es IH]; intros s; simpl.
  - unfold ret. do 2 f_equal. rewrite app_nil_r. by destruct s.
  - rewrite bind_unfold. unfold try_catch at 1. unfold bind at 1, throw at 1.
    unfold record at 1, modify at 1. rewrite IH. ssimpl.
    by rewrite <- app_assoc.
Qed.

(** [$emit] never throws: what a listener throws goes to [handleError]
    with the name of the event, and the listeners after it are still
    called; so listeners that all throw leave one report each, in the
    order in which they were registered. *)
Theorem emit_never_throws dev ssr n vm ev V s :
  vms s !! vm = Some V →
  (∀ r s', Vue_emit dev ssr n vm ev s = Some (r, s') →
           r = Ok tt ∧ ∃ t, trace s' = trace s ++ t)
  ∧ ∀ es, vm_events V !! ev = Some (map Raise es) →
          Vue_emit dev ssr (S (S n)) vm ev s
          = Some (Ok tt,
                  set_trace
                    (trace s ++
                     map (fun e => EvHandleError e vm
                                     ("event handler for " +:+ quote +:+ ev +:+ quote)) es)
                    s).
Proof.
  intros HV. split.
  - intros r s' Hrun. split.
    + by apply (returns_ok_unit _ _ _ _ (Vue_emit_returns_ok dev ssr n vm ev) Hrun).
    + exact (ep_emit _ _ _ _ _
               (engine_respects dev ssr _ _ trace_grows_respects n) _ _ _ _ _ Hrun).
  - intros es Hev.
    change (Vue_emit dev ssr (S (S n)) vm ev s)
      with ((V <- the_vm vm ;;
             match vm_events V !! ev with
             | Some cbs =>
                 for_each cbs (fun f =>
                   try_catch (exec dev ssr (S n) f ;;; ret tt)
                     (fun e => record (EvHandleError e vm
                                 ("event handler for " +:+ quote +:+ ev +:+ quote))))
             | None => ret tt
             end) s).
    rewrite bind_unfold. unfold the_vm at 1. rewrite HV, Hev.
    apply for_each_raise.
Qed.

(** The theorem at [noisy_state]: the first listener of the hook event
    throws. *)
Lemma emit_never_throws_witness :
  let s' := after (Vue_emit true false 5 0 "hook:created") noisy_state in
  Vue_emit true false 5 0 "hook:created" noisy_state = Some (Ok tt, s')
  ∧ ∃ t, trace s' = trace noisy_state ++ t.
Proof.
  intros s'.
  assert (Vue_emit true false 5 0 "hook:created" noisy_state = Some (Ok tt, s'))
    as Hrun by (vm_compute; reflexivity).
  split; [exact Hrun|].
  destruct (emit_never_throws true false 5 0 "hook:created" noisy_vm
              noisy_state eq_refl) as (Hok&_).
  by destruct (Hok _ _ Hrun).
Defined.

(** ** [getData] *)

(** [getData] never throws: when [data()] throws, the exception goes to
    [handleError] and the result is a new empty object. *)
Theorem getData_never_throws dev ssr n vm V s :
  vms s !! vm = Some V →
  let s0 := set_trace (trace (pushTarget None s) ++ [EvData vm]) (pushTarget None s) in
  (∀ r s', getData dev ssr n vm s = Some (r, s') → ∃ v, r = Ok v)
  ∧ (∀ v s1, exec dev ssr n (vm_data V) s0 = Some (Ok v, s1) →
             getData dev ssr (S n) vm s = Some (Ok v, popTarget s1))
  ∧ (∀ e s1, exec dev ssr n (vm_data V) s0 = Some (Thrown e, s1) →
             let s2 := set_trace (trace s1 ++ [EvHandleError e vm "data()"]) s1 in
             getData dev ssr (S n) vm s
             = Some (Ok (VObj (next_ref s1)),
                     popTarget (set_next_ref (S (next_ref s1))
                                  (set_objects (<[next_ref s1 := empty_object]> (objects s2))
                                     s2)))).
Proof.
  intros HV s0.
  assert (vms (pushTarget None s) !! vm = Some V) as HV0.
  { unfold pushTarget. by destruct (target s). }
  split_and!.
  - intros r s'. destruct n as [|n]; [done|]. simpl.
    rewrite bind_unfold. unfold modify at 1.
    rewrite bind_unfold. unfold the_vm at 1. rewrite HV0.
    unfold try_finally, try_catch. rewrite bind_unfold. unfold record at 1, modify at 1.
    destruct (exec dev ssr n (vm_data V) _) as [[[v|e] s1]|]; [| |done].
    + unfold modify. intros [= <- <-]. by eexists.
    + rewrite bind_unfold. unfold record at 1, modify at 1. unfold new_object, modify.
      intros [= <- <-]. by eexists.
  - intros v s1 Hrun. simpl.
    rewrite bind_unfold. unfold modify at 1.
    rewrite bind_unfold. unfold the_vm at 1. rewrite HV0.
    unfold try_finally, try_catch. rewrite bind_unfold. unfold record at 1, modify at 1.
    fold s0. by rewrite Hrun.
  - intros e s1 Hrun s2. simpl.
    rewrite bind_unfold. unfold modify at 1.
    rewrite bind_unfold. unfold the_vm at 1. rewrite HV0.
    unfold try_finally, try_catch. rewrite bind_unfold. unfold record at 1, modify at 1.
    fold s0. rewrite Hrun. rewrite bind_unfold. unfold record at 1, modify at 1.
    by unfold new_object, modify.
Qed.

Lemma getData_never_throws_witness :
  getData true false 3 0 noisy_state
  = Some (Ok (VObj 0),
          mkState ∅ ∅ ∅ 0 None [] [] [] ∅ ∅ false false 0 true {[0 := empty_object]} 1 ∅
                  {[0 := noisy_vm]} 0 [EvData 0; EvHandleError "no data" 0 "data()"]).
Proof.
  destruct (getData_never_throws true false 2 0 noisy_vm noisy_state eq_refl)
    as (_&_&Herr).
  rewrite (Herr "no data" _ eq_refl). vm_compute. reflexivity.
Defined.

(** ** User watchers *)

Lemma Watcher_get_user_ok dev ssr n w W s r s' :
  watchers s !! w = Some W → w_user W = true → w_deep W = false →
  Watcher_get dev ssr n w s = Some (r, s') → ∃ v, r = Ok v.
Proof.
  intros HW Hu Hd. destruct n as [|n]; [done|]. simpl.
  rewrite (bind_the_watcher _ _ _ _ HW). rewrite bind_unfold. unfold modify at 1.
  unfold try_finally, try_catch. rewrite Hu, Hd.
  set (s0 := pushTarget (Some w) s).
  destruct ((record (EvGetter w) ;;; exec dev ssr n (w_getter W)) s0)
    as [[[v|e] s1]|]; [| |done].
  - simpl; unfold bind, modify, ret; intros [= <- <-]; by eexists.
  - rewrite bind_unfold. unfold record at 1, modify at 1. unfold ret at 1.
    simpl; unfold bind, modify, ret; intros [= <- <-]; by eexists.
Qed.

Lemma getAndInvoke_get_throws dev ssr n w cb s e s1 :
  Watcher_get dev ssr n w s = Some (Thrown e, s1) →
  Watcher_getAndInvoke dev ssr (S n) w cb s = Some (Thrown e, s1).
Proof. intros Hget. simpl. rewrite bind_unfold. by rewrite Hget. Qed.

Lemma run_active dev ssr n w W s :
  watchers s !! w = Some W → w_active W = true →
  Watcher_run dev ssr (S n) w s = Watcher_getAndInvoke dev ssr n w OwnCb s.
Proof. intros HW Hact. simpl. by rewrite (bind_the_watcher _ _ _ _ HW), Hact. Qed.

(** [run()] of a user watcher that is not deep never throws, whatever
    its getter and its callback do, and neither does its [update()] nor,
    when it has no [before] hook, its turn in a flush. A deep user
    watcher is not covered: what [traverse] throws, when the getter of a
    member of the value throws, is thrown by [get()] and by [run()], and
    the state is left as [traverse] left it, the target not popped and
    the dependencies not cleaned up. *)
Theorem user_watcher_never_throws dev ssr n w W s :
  watchers s !! w = Some W → w_user W = true →
  (w_deep W = false →
   (∀ r s', Watcher_run dev ssr n w s = Some (r, s') → r = Ok tt)
   ∧ (w_computed W = false →
      ∀ r s', Watcher_update dev ssr n w s = Some (r, s') → r = Ok tt)
   ∧ (w_before W = None →
      ∀ r s', flush_turn dev ssr n w s = Some (r, s') → ∃ b, r = Ok b))
  ∧ (w_deep W = true → ∀ v s2 e s3,
       exec dev ssr n (w_getter W) (getter_start w s) = Some (Ok v, s2) →
       traverse (_traverse dev ssr n) v s2 = Some (Thrown e, s3) →
       Watcher_get dev ssr (S n) w s = Some (Thrown e, s3)
       ∧ (w_active W = true →
          Watcher_run dev ssr (S (S (S n))) w s = Some (Thrown e, s3))).
Proof.
  intros HW Hu. split.
  2: { intros Hd v s2 e s3 Hget Htr.
       assert (Watcher_get dev ssr (S n) w s = Some (Thrown e, s3)) as Hthrow.
       { rewrite (Watcher_get_unfold dev ssr n w W s (Ok v) s2 HW Hget).
         cbn [value_of after_getter].
         rewrite (get_finally_throws dev ssr n w W v s2 e s3); [done|].
         by rewrite Hd. }
       split; [done|]. intros Hact.
       rewrite (run_active dev ssr _ w W s HW Hact).
       by apply getAndInvoke_get_throws. }
  intros Hd.
  assert (∀ m s0 W0 r s', watchers s0 !! w = Some W0 → w_user W0 = true →
            w_deep W0 = false →
            Watcher_getAndInvoke dev ssr m w OwnCb s0 = Some (r, s') → r = Ok tt)
    as Hinvoke.
  { intros m s0 W0 r s' HW0 Hu0 Hd0. destruct m as [|m]; [done|]. simpl.
    intros [(v&s1&Hget&Hrest)|(e&Hget&_)]%bind_Some.
    2: { by destruct (Watcher_get_user_ok _ _ _ _ _ _ _ _ HW0 Hu0 Hd0 Hget). }
    destruct (ep_get _ _ _ _ _
                (engine_respects dev ssr _ _ (keeps_watcher_respects w) m)
                w s0 _ s1 Hget W0 HW0) as (W1&HW1&Hsame).
    rewrite (bind_the_watcher _ _ _ _ HW1) in Hrest.
    assert (w_user W1 = true) as Hu1.
    { destruct Hsame as (_&_&_&_&->&_). done. }
    rewrite Hu1 in Hrest.
    destruct (_ || _); [|by injection Hrest as <- <-].
    apply bind_Some in Hrest as [([]&s2&_&Hcall)|(e&[=]&_)].
    unfold try_catch in Hcall.
    destruct ((record (EvCallback w v (w_value W1)) ;;;
               exec dev ssr m (w_cb W1 v (w_value W1)) ;;; ret tt) s2)
      as [[[[]|e] s3]|]; [by injection Hcall as <- <-| |done].
    by injection Hcall as <- <-. }
  assert (∀ m s0 W0 r s', watchers s0 !! w = Some W0 → w_user W0 = true →
            w_deep W0 = false →
            Watcher_run dev ssr m w s0 = Some (r, s') → r = Ok tt) as Hrun.
  { intros m s0 W0 r s' HW0 Hu0 Hd0. destruct m as [|m]; [done|]. simpl.
    rewrite (bind_the_watcher _ _ _ _ HW0).
    destruct (w_active W0); [by apply (Hinvoke m s0 W0)|]. by intros [= <- <-]. }
  split_and!.
  - intros r s'. by apply (Hrun n s W).
  - intros Hc r s'. destruct n as [|n]; [done|]. simpl.
    rewrite (bind_the_watcher _ _ _ _ HW). rewrite Hc.
    destruct (w_sync W); [by apply (Hrun n s W)|]. by intros [= <- <-].
  - intros Hb r s'. unfold flush_turn.
    rewrite (bind_the_watcher _ _ _ _ HW). rewrite Hb.
    rewrite bind_unfold. unfold ret at 1.
    rewrite bind_unfold. unfold modify at 1.
    intros [([]&s1&Hr&Hrest)|(e&Hr&_)]%bind_Some.
    2: { by specialize (Hrun n (set_has (has s ∖ {[w]}) s) W _ _ HW Hu Hd Hr). }
    apply bind_Some in Hrest as [(again&s2&_&Hrest)|(e&[=]&_)].
    destruct (dev && again); [|injection Hrest as <- <-; by eexists].
    apply bind_Some in Hrest as [([]&s3&_&Hrest)|(e&[=]&_)].
    apply bind_Some in Hrest as [(c&s4&_&Hrest)|(e&[=]&_)].
    destruct (bool_decide _).
    + apply bind_Some in Hrest as [([]&s5&_&Hrest)|(e&[=]&_)].
      injection Hrest as <- <-. by eexists.
    + injection Hrest as <- <-. by eexists.
Qed.


(** The theorem at [grumpy_state]: the callback throws, and [run()]
    reports it and completes; and at [thorny_state]: [run()] throws what
    the getter of the member threw, with the watcher still the target. *)
Lemma user_watcher_never_throws_witness :
  let s' := after (Watcher_run true false 5 1) grumpy_state in
  Watcher_run true false 5 1 grumpy_state = Some (Ok tt, s')
  ∧ trace s' = [EvGetter 1; EvCallback 1 (VNum 1) (VNum 0);
                EvHandleError "cb" 0 ("callback for watcher " +:+ quote +:+ "a" +:+ quote)]
  ∧ Watcher_run true false 6 1 thorny_state
    = Some (Thrown "thorn", getter_start 1 thorny_state).
Proof.
  intros s'.
  destruct (user_watcher_never_throws true false 5 1
              (watch "a" 0 (fun _ _ => Raise "cb") (VNum 0)) grumpy_state eq_refl eq_refl)
    as (Hshallow&_).
  destruct (Hshallow eq_refl) as (Hrun&_).
  assert (∃ r, Watcher_run true false 5 1 grumpy_state = Some (r, s'))
    as [r Hr] by (eexists; vm_compute; reflexivity).
  rewrite Hr. rewrite (Hrun _ _ Hr). split_and!; [done|vm_compute; reflexivity|].
  destruct (user_watcher_never_throws true false 3 1
              (mkWatcher 0 "form" (fun _ _ => Ret VUndef)
                 true true false false false true 0
                 [] [] ∅ ∅ None (Ret (VObj 0)) VUndef)
              thorny_state eq_refl eq_refl) as (_&Hdeep).
  destruct (Hdeep eq_refl (VObj 0) (getter_start 1 thorny_state) "thorn"
              (getter_start 1 thorny_state) eq_refl eq_refl) as (_&Hthrown).
  by apply Hthrown.
Defined.

(** ** Notifications *)

Lemma queueWatcher_store w s :
  props (queueWatcher w s) = props s ∧ objects (queueWatcher w s) = objects s
  ∧ vms (queueWatcher w s) = vms s ∧ dep_uid (queueWatcher w s) = dep_uid s
  ∧ next_ref (queueWatcher w s) = next_ref s
  ∧ shouldObserve (queueWatcher w s) = shouldObserve s.
Proof.
  destruct s as [? ? ? ? ? ? ? ? ? ? wt fl ? ? ? ? ? ? ? ?].
  unfold queueWatcher; simpl. case_decide; [done|].
  by destruct fl, wt.
Qed.

Lemma queue_all_frame l s :
  watchers (queue_all l s) = watchers s ∧ trace (queue_all l s) = trace s
  ∧ dep_subs (queue_all l s) = dep_subs s ∧ props (queue_all l s) = props s
  ∧ objects (queue_all l s) = objects s.
Proof.
  revert s. induction l as [|w l IH]; intros s; simpl; [done|].
  destruct (IH (queueWatcher w s)) as (->&->&->&->&->).
  destruct (queueWatcher_store w s) as (->&->&_).
  by destruct (queueWatcher_frame w s) as (->&->&->&_).
Qed.

Lemma queue_all_has l s x : x ∈ l → x ∈ has (queue_all l s).
Proof.
  revert s. induction l as [|w l IH]; intros s; [by intros ?%elem_of_nil|].
  assert (∀ l s, x ∈ has s → x ∈ has (queue_all l s)) as Hmono.
  { clear. induction l as [|w l IH]; intros s Hx; simpl; [done|]. apply IH.
    unfold queueWatcher. case_decide; [done|].
    destruct s as [? ? ? ? ? ? ? ? ? ? wt fl ? ? ? ? ? ? ? ?]. simpl in *.
    destruct fl, wt; simpl; set_solver. }
  intros [->|Hx]%elem_of_cons; simpl; [|by apply IH].
  apply Hmono, queueWatcher_has.
Qed.

Lemma update_each_batched dev ssr n l s :
  (∀ w, w ∈ l → batched w s) →
  for_each l (Watcher_update dev ssr (S n)) s = Some (Ok tt, queue_all l s).
Proof.
  revert s. induction l as [|w l IH]; intros s Hall; simpl; [done|].
  destruct (Hall w) as (W&HW&Hc&Hs); [by left|].
  rewrite bind_unfold. rewrite (bind_the_watcher _ _ _ _ HW). rewrite Hc, Hs.
  unfold modify at 1. apply IH.
  intros x Hx. destruct (Hall x) as (X&HX&?&?); [by right|].
  exists X. by destruct (queueWatcher_frame w s) as (->&_).
Qed.

(** [notify()] of a Dep whose subscribers are all batched runs none of
    them and nothing of the application: it hands each to
    [queueWatcher], in the order of [subs]. *)
Lemma notify_batched dev ssr n d s :
  (∀ w, w ∈ subsOf d s → batched w s) →
  Dep_notify dev ssr (S (S n)) d s
  = Some (Ok tt, queue_all (subsOf d s) (set_trace (trace s ++ [EvNotify d]) s)).
Proof.
  intros Hall.
  change (Dep_notify dev ssr (S (S n)) d s)
    with ((record (EvNotify d) ;;;
           l <- gets (subsOf d) ;;
           for_each l (fun w => Watcher_update dev ssr (S n) w)) s).
  rewrite bind_unfold. unfold record at 1, modify at 1.
  rewrite bind_unfold. unfold gets at 1.
  by apply update_each_batched.
Qed.

(** A write to a plain reactive property whose subscribers are all
    batched runs no watcher: it stores the value and queues the
    subscribers. No getter or callback is called before the write
    returns, and the values cached by the watchers are as they were. *)
Theorem write_only_queues dev ssr n p P s v :
  props s !! p = Some P →
  p_getter P = None → p_setter P = None → p_customSetter P = None →
  isObject v = false → same_value v (p_val P) = false →
  (∀ w, w ∈ subsOf (p_dep P) s → batched w s) →
  let s1 := upd_prop p (set_p_childOb None) (upd_prop p (set_p_val v) s) in
  let s' := queue_all (subsOf (p_dep P) s)
              (set_trace (trace s ++ [EvNotify (p_dep P)]) s1) in
  reactiveSetter dev ssr (S (S (S n))) p v s = Some (Ok tt, s')
  ∧ trace s' = trace s ++ [EvNotify (p_dep P)]
  ∧ watchers s' = watchers s
  ∧ (∀ w, w ∈ subsOf (p_dep P) s → w ∈ has s')
  ∧ p_val <$> props s' !! p = Some v.
Proof.
  intros HP Hg Hs Hc Hv Hdiff Hall s1 s'.
  split_and!.
  - change (reactiveSetter dev ssr (S (S (S n))) p v s)
      with ((P <- the_prop p ;;
             value <- match p_getter P with
                      | Some g => exec dev ssr (S (S n)) g
                      | None => ret (p_val P)
                      end ;;
             if same_value v value then ret tt
             else
               match p_customSetter P with
               | Some f => when dev (exec dev ssr (S (S n)) f ;;; ret tt)
               | None => ret tt
               end ;;;
               match p_setter P with
               | Some f => exec dev ssr (S (S n)) (f v) ;;; ret tt
               | None => modify (upd_prop p (set_p_val v))
               end ;;;
               childOb <- (if p_shallow P then ret None
                           else observe dev ssr (S (S n)) v false) ;;
               modify (upd_prop p (set_p_childOb childOb)) ;;;
               Dep_notify dev ssr (S (S n)) (p_dep P)) s).
    rewrite bind_unfold. unfold the_prop at 1. rewrite HP, Hg.
    rewrite bind_unfold. unfold ret at 1. rewrite Hdiff, Hc, Hs.
    rewrite bind_unfold. unfold ret at 1.
    rewrite bind_unfold. unfold modify at 1.
    assert ((if p_shallow P then ret None else observe dev ssr (S (S n)) v false)
            = ret None) as ->.
    { destruct (p_shallow P); [done|]. by destruct v. }
    rewrite bind_unfold. unfold ret at 1.
    rewrite bind_unfold. unfold modify at 1. fold s1.
    rewrite notify_batched; [done|].
    intros w Hw. destruct (Hall w Hw) as (W&?&?&?). by exists W.
  - subst s'. by destruct (queue_all_frame (subsOf (p_dep P) s)
                             (set_trace (trace s ++ [EvNotify (p_dep P)]) s1)) as (_&->&_).
  - subst s'. by destruct (queue_all_frame (subsOf (p_dep P) s)
                             (set_trace (trace s ++ [EvNotify (p_dep P)]) s1)) as (->&_&_).
  - intros w Hw. by apply queue_all_has.
  - subst s'.
    destruct (queue_all_frame (subsOf (p_dep P) s)
                (set_trace (trace s ++ [EvNotify (p_dep P)]) s1)) as (_&_&_&->&_).
    subst s1. unfold upd_prop. ssimpl. rewrite !lookup_alter_eq, HP. done.
Qed.


(** ** Flushes handed to [nextTick] *)

Lemma sched_flags_preorder : PreOrder sched_flags.
Proof.
  split.
  - intros s. by split_and!.
  - intros s1 s2 s3 (Hf1&Hw1&Hs1) (Hf2&Hw2&Hs2). split_and!.
    + congruence.
    + intros Hw. destruct (Hw1 Hw) as (Hw'&Ht'). destruct (Hw2 Hw') as (?&?).
      split; [done|congruence].
    + intros Hs. by apply Hs2, Hs1.
Qed.

Lemma sched_flags_same s s' :
  flushing s' = flushing s → waiting s' = waiting s → ticks s' = ticks s →
  queue s' = queue s → sched_flags s s'.
Proof.
  intros Hf Hw Ht Hq. unfold sched_flags, scheduled. rewrite Hf, Hw, Ht, Hq. by split_and!.
Qed.

Lemma queueWatcher_flags w s : sched_flags s (queueWatcher w s).
Proof.
  destruct (decide (w ∈ has s)) as [Hw|Hw].
  { rewrite queueWatcher_flagged by done. apply sched_flags_preorder. }
  unfold queueWatcher, sched_flags, scheduled. rewrite decide_False by done.
  ssimpl. destruct (flushing s) eqn:Hf; ssimpl; destruct (waiting s) eqn:Hwt; ssimpl;
    rewrite ?Hf, ?Hwt; split_and!; try done.
  - intros (?&?&?). done.
  - intros (?&?&?). done.
  - intros (_&Ht&Hq). split_and!; [done|done|]. intros _. done.
  - intros (_&->&Hq). by split_and!.
Qed.

Lemma unsubscribe_flags w keep l s :
  let s' := unsubscribe w keep l s in
  flushing s' = flushing s ∧ waiting s' = waiting s ∧ ticks s' = ticks s.
Proof.
  revert s. induction l as [|d l IH]; intros s; simpl; [done|].
  case_decide; [apply IH|]. destruct (IH (Dep_removeSub d w s)) as (->&->&->). done.
Qed.

Lemma sched_flags_respects : respects sched_flags (fun _ => true).
Proof.
  split.
  - apply sched_flags_preorder.
  - intros t s. apply sched_flags_same; unfold pushTarget; by destruct (target s).
  - intros s. apply sched_flags_same; unfold popTarget; by destruct (targetStack s).
  - intros x s. by apply sched_flags_same.
  - intros d s. apply sched_flags_same; unfold Dep_depend, Watcher_addDep;
      destruct (target s); try done; destruct (watchers s !! _); try done;
      case_decide; try done; by case_decide.
  - intros w s. rewrite cleanupDeps_unfold. destruct (watchers s !! w) as [W|];
      [|by apply sched_flags_same].
    destruct (unsubscribe_frame w (w_newDepIds W) (reverse (w_deps W)) s)
      as (_&_&_&_&_&Hq&_).
    destruct (unsubscribe_flags w (w_newDepIds W) (reverse (w_deps W)) s) as (Hf&Hw&Ht).
    by apply sched_flags_same.
  - intros w s. rewrite teardown_unfold. destruct (watchers s !! w) as [W|];
      [|by apply sched_flags_same].
    destruct (w_active W); [|by apply sched_flags_same]. simpl.
    set (s1 := match vms s !! _ with Some _ => _ | None => _ end).
    assert (queue s1 = queue s ∧ flushing s1 = flushing s ∧ waiting s1 = waiting s
            ∧ ticks s1 = ticks s) as (Hq1&Hf1&Hw1&Ht1).
    { subst s1. destruct (vms s !! _) as [V|]; [|done]. by destruct (vm_isBeingDestroyed V). }
    destruct (unsubscribe_frame w ∅ (reverse (w_deps W)) s1) as (_&_&_&_&_&Hq&_).
    destruct (unsubscribe_flags w ∅ (reverse (w_deps W)) s1) as (Hf&Hw&Ht).
    apply sched_flags_same; simpl; congruence.
  - intros w v s. by apply sched_flags_same.
  - intros w s. by apply sched_flags_same.
  - intros w s. apply queueWatcher_flags.
  - intros p f s. by apply sched_flags_same.
  - intros x d s. by apply sched_flags_same.
  - intros x s. by apply sched_flags_same.
  - intros x key d s. by apply sched_flags_same.
  - intros d P s. by apply sched_flags_same.
  - intros s. by apply sched_flags_same.
  - intros s. by apply sched_flags_same.
  - intros e s _. by apply sched_flags_same.
  - done.
Qed.

#[local] Existing Instance sched_flags_preorder.

Ltac flags_step dev ssr n :=
  first
    [ done
    | apply (preserves_ret sched_flags)
    | apply (preserves_gets sched_flags)
    | apply (preserves_the_watcher sched_flags)
    | apply (preserves_the_vm sched_flags)
    | apply (preserves_when sched_flags)
    | apply (preserves_for_each sched_flags); intros ?
    | apply (preserves_record sched_flags _ sched_flags_respects); by intros
    | apply (ep_exec _ _ _ _ _ (engine_respects dev ssr _ _ sched_flags_respects n))
    | apply (ep_run _ _ _ _ _ (engine_respects dev ssr _ _ sched_flags_respects n))
    | apply (ep_callHook _ _ _ _ _ (engine_respects dev ssr _ _ sched_flags_respects n))
    | apply (preserves_modify sched_flags); intros ?; by apply sched_flags_same
    | apply (preserves_bind sched_flags); [|intros ?] ].

Lemma flush_turn_flags dev ssr n w :
  preserves sched_flags (flush_turn dev ssr n w).
Proof.
  unfold flush_turn. apply (preserves_bind sched_flags); [flags_step dev ssr n|].
  intros W. apply (preserves_bind sched_flags).
  { destruct (w_before W); repeat flags_step dev ssr n. }
  intros _. repeat flags_step dev ssr n.
  destruct (dev && _); repeat flags_step dev ssr n.
  destruct (bool_decide _); repeat flags_step dev ssr n.
Qed.

Lemma flushLoop_flags dev ssr n :
  preserves sched_flags (flushLoop dev ssr n).
Proof.
  induction n as [|n IH]; simpl; [by intros ???|].
  repeat flags_step dev ssr n.
  destruct (_ !! _); [|flags_step dev ssr n].
  apply (preserves_bind sched_flags); [apply flush_turn_flags|].
  intros []; repeat flags_step dev ssr n.
Qed.

Lemma flush_hooks_flags dev ssr n qa qu :
  preserves sched_flags (callActivatedHooks qa ;;; callUpdatedHooks dev ssr n qu).
Proof. unfold callActivatedHooks, callUpdatedHooks. repeat flags_step dev ssr n. Qed.

Lemma flush_hooks_kept dev ssr n qa qu :
  preserves sched_kept (callActivatedHooks qa ;;; callUpdatedHooks dev ssr n qu).
Proof.
  pose proof sched_kept_preorder as Hpre.
  unfold callActivatedHooks, callUpdatedHooks.
  repeat first
    [ done
    | apply (preserves_ret sched_kept)
    | apply (preserves_the_watcher sched_kept)
    | apply (preserves_the_vm sched_kept)
    | apply (preserves_when sched_kept)
    | apply (preserves_for_each sched_kept); intros ?
    | apply (preserves_record sched_kept _ sched_kept_respects); by intros
    | apply (ep_callHook _ _ _ _ _ (engine_respects dev ssr _ _ sched_kept_respects n))
    | apply (preserves_bind sched_kept); [|intros ?] ].
Qed.

Lemma flush_hooks_ok dev ssr n qa qu :
  returns_ok (callActivatedHooks qa ;;; callUpdatedHooks dev ssr n qu).
Proof.
  unfold callActivatedHooks, callUpdatedHooks.
  apply returns_ok_bind.
  - apply returns_ok_for_each. intros x. apply returns_ok_record.
  - intros _. apply returns_ok_for_each. intros w.
    apply returns_ok_bind; [apply returns_ok_the_watcher|]. intros W.
    apply returns_ok_bind; [apply returns_ok_the_vm|]. intros V.
    apply returns_ok_when. apply callHook_returns_ok.
Qed.

Lemma reset_scheduled dev s : ticks s = 0 → scheduled (resetSchedulerState dev s).
Proof. intros Ht. unfold resetSchedulerState, scheduled. by destruct dev; ssimpl. Qed.

Lemma reset_idle dev s : idle_inv (resetSchedulerState dev s).
Proof.
  unfold resetSchedulerState, idle_inv. destruct dev; ssimpl;
    (split_and!; [done|constructor|set_solver]).
Qed.

(** Between flushes at most one flush is waiting in [nextTick], and one
    is waiting whenever a watcher is queued: [queueWatcher] hands
    [flushSchedulerQueue] to [nextTick] only when [waiting] is not set,
    and sets it. Whatever a burst of application code does keeps it so;
    and a flush that completes leaves it so, the queue then holding,
    once each, the watchers that the [updated] hooks queued. *)
Theorem one_flush_pending dev ssr s :
  scheduled s →
  ticks s ≤ 1 ∧ (queue s ≠ [] → ticks s = 1)
  ∧ (∀ n c r s', exec dev ssr n c s = Some (r, s') → scheduled s')
  ∧ (∀ n s', waiting s = true →
             next_tick dev ssr n s = Some (Ok tt, s') →
             scheduled s' ∧ idle_inv s').
Proof.
  intros Hs. split_and!.
  - destruct Hs as (_&->&_). destruct (waiting s); lia.
  - destruct Hs as (_&->&Hq). intros Hne. by rewrite (Hq Hne).
  - intros n c r s' Hrun.
    by apply (ep_exec _ _ _ _ _
                (engine_respects dev ssr _ _ sched_flags_respects n) c s r s' Hrun).
  - intros n s' Hw. destruct Hs as (Hf&Ht&_). rewrite Hw in Ht.
    unfold next_tick. rewrite bind_unfold. unfold gets at 1. rewrite Ht.
    rewrite bind_unfold. unfold modify at 1. rewrite flushSchedulerQueue_unfold.
    set (s0 := flush_start (set_ticks 0 s)).
    destruct (flushLoop dev ssr n s0) as [[[[]|e] s1]|] eqn:Hloop; [|done..].
    intros Hhooks.
    destruct (flushLoop_flags dev ssr n _ _ _ Hloop) as (_&Hkeep&_).
    destruct Hkeep as (_&Ht1); [done|].
    split.
    + apply (flush_hooks_flags dev ssr n _ _ _ _ _ Hhooks).
      apply reset_scheduled. by rewrite Ht1.
    + destruct (flush_hooks_kept dev ssr n _ _ _ _ _ Hhooks) as (Hok&Hfl&_).
      { right. apply reset_idle. }
      destruct Hok as [(Hfl'&_)|?]; [|done].
      rewrite Hfl in Hfl'. by destruct dev.
Qed.

(** An exception that escapes from [flushSchedulerQueue] (thrown by the
    getter or the callback of a watcher that is not a user watcher, or
    by a [before] hook) leaves [flushing] and [waiting] set, since
    [resetSchedulerState] is not reached. From then on nothing hands a
    flush to [nextTick] again: whatever the application does,
    [queueWatcher] finds [waiting] set. *)
Theorem throwing_flush_wedges dev ssr n s e s1 :
  waiting s = true →
  flushSchedulerQueue dev ssr n s = Some (Thrown e, s1) →
  flushing s1 = true ∧ waiting s1 = true ∧ ticks s1 = ticks s
  ∧ ∀ m c r s2, exec dev ssr m c s1 = Some (r, s2) →
      flushing s2 = true ∧ waiting s2 = true ∧ ticks s2 = ticks s1.
Proof.
  intros Hw. rewrite flushSchedulerQueue_unfold.
  destruct (flushLoop dev ssr n (flush_start s)) as [[[[]|e'] s']|] eqn:Hloop; [| |done].
  { intros Hhooks. by destruct (flush_hooks_ok dev ssr n _ _ _ _ _ Hhooks). }
  intros [= <- <-].
  destruct (flushLoop_flags dev ssr n _ _ _ Hloop) as (Hf&Hkeep&_).
  destruct Hkeep as (Hw1&Ht1); [done|].
  split_and!; [done..|].
  intros m c r s2 Hrun.
  destruct (ep_exec _ _ _ _ _
              (engine_respects dev ssr _ _ sched_flags_respects m) c s' r s2 Hrun)
    as (Hf2&Hkeep2&_).
  destruct (Hkeep2 Hw1) as (?&?). split_and!; [by rewrite Hf2, Hf|done..].
Qed.

Lemma one_flush_pending_witness :
  let s := after (exec true false 9 three_writes) ex_state in
  scheduled s
  ∧ queue s = [1] ∧ ticks s = 1
  ∧ scheduled (after (exec true false 9 three_writes) s)
  ∧ scheduled (after (next_tick true false 9) s).
Proof.
  intros s.
  assert (scheduled s) as Hs by (by vm_compute).
  assert (exec true false 9 three_writes s
          = Some (Ok VUndef, after (exec true false 9 three_writes) s))
    as Hburst by (vm_compute; reflexivity).
  assert (next_tick true false 9 s
          = Some (Ok tt, after (next_tick true false 9) s))
    as Hflush by (vm_compute; reflexivity).
  destruct (one_flush_pending true false s Hs) as (_&_&Hb&Hf).
  split_and!; [done|by vm_compute|by vm_compute|exact (Hb _ _ _ _ Hburst)|].
  exact (proj1 (Hf 9 _ eq_refl Hflush)).
Defined.

Lemma throwing_flush_wedges_witness :
  let s := after (exec true false 9 (Write 0 (VNum 1) (Ret VUndef)))
             fragile_state in
  let s1 := after (flushSchedulerQueue true false 9) s in
  queue s = [1] ∧ waiting s = true
  ∧ flushSchedulerQueue true false 9 s = Some (Thrown "boom", s1)
  ∧ flushing s1 = true ∧ waiting s1 = true ∧ ticks s1 = ticks s.
Proof.
  intros s s1.
  assert (flushSchedulerQueue true false 9 s = Some (Thrown "boom", s1))
    as Hflush by (vm_compute; reflexivity).
  split_and!; [by vm_compute|by vm_compute|exact Hflush|..];
    apply (throwing_flush_wedges true false 9 s "boom" s1 eq_refl Hflush).
Defined.

Lemma write_only_queues_witness :
  let s' := after (reactiveSetter true false 3 0 (VNum 2)) ex_state in
  reactiveSetter true false 3 0 (VNum 2) ex_state = Some (Ok tt, s')
  ∧ trace s' = [EvNotify 0] ∧ queue s' = [1]
  ∧ w_value <$> watchers s' !! 1 = Some (VNum 1).
Proof.
  intros s'.
  assert (∀ w, w ∈ subsOf (p_dep ex_prop) ex_state → batched w ex_state) as Hall.
  { intros w Hw. assert (w = 1) as -> by (vm_compute in Hw; set_solver).
    exists ex_watcher. by split_and!. }
  destruct (write_only_queues true false 0 0 ex_prop ex_state (VNum 2)
              eq_refl eq_refl eq_refl eq_refl eq_refl eq_refl Hall) as (Hrun&_).
  split_and!; [exact Hrun|by vm_compute..].
Defined.


(** ** An active computed watcher *)

(** [update()] of a computed watcher whose Dep has a subscriber calls
    the getter at once. If the getter throws, so does [update()], with
    nothing cached. If it returns the cached value, not an object, and
    the watcher is not deep, nothing more happens: the Dep of the
    watcher is not notified. Otherwise the Dep is notified, as the first
    thing after [get()]. *)
Theorem active_computed_update dev ssr n w W s :
  watchers s !! w = Some W → w_computed W = true → subsOf (w_dep W) s ≠ [] →
  ∀ r1 s1, Watcher_get dev ssr n w s = Some (r1, s1) →
    match r1 with
    | Thrown e => Watcher_update dev ssr (S (S n)) w s = Some (Thrown e, s1)
    | Ok v =>
        ∀ W1, watchers s1 !! w = Some W1 →
          let changed := negb (strict_eq v (w_value W1)) || isObject v || w_deep W1 in
          (changed = false →
           Watcher_update dev ssr (S (S n)) w s = Some (Ok tt, s1))
          ∧ (changed = true → ∀ r s',
               Watcher_update dev ssr (S (S n)) w s = Some (r, s') →
               ∃ t, trace s' = trace s1 ++ EvNotify (w_dep W1) :: t)
    end.
Proof.
  intros HW Hc Hsubs r1 s1 Hget.
  assert (Watcher_update dev ssr (S (S n)) w s
          = Watcher_getAndInvoke dev ssr (S n) w NotifyOwnDep s) as ->.
  { change (Watcher_update dev ssr (S (S n)) w s)
      with ((W <- the_watcher w ;;
             if w_computed W then
               l <- gets (subsOf (w_dep W)) ;;
               if bool_decide (length l = 0)
               then modify (upd_watcher w (set_w_dirty true))
               else Watcher_getAndInvoke dev ssr (S n) w NotifyOwnDep
             else if w_sync W then Watcher_run dev ssr (S n) w
             else modify (queueWatcher w)) s).
    rewrite (bind_the_watcher _ _ _ _ HW), Hc. rewrite bind_unfold. unfold gets at 1.
    rewrite bool_decide_eq_false_2; [done|]. by destruct (subsOf (w_dep W) s). }
  change (Watcher_getAndInvoke dev ssr (S n) w NotifyOwnDep s)
    with ((value <- Watcher_get dev ssr n w ;;
           W <- the_watcher w ;;
           if negb (strict_eq value (w_value W)) || isObject value || w_deep W then
             let oldValue := w_value W in
             modify (upd_watcher w (fun W => set_w_dirty false (set_w_value value W))) ;;;
             let call := Dep_notify dev ssr n (w_dep W) in
             if w_user W
             then try_catch call
                    (fun e => record (EvHandleError e (w_vm W) (callback_info W)))
             else call
           else ret tt) s).
  rewrite bind_unfold, Hget. destruct r1 as [v|e]; [|done].
  intros W1 HW1 changed. rewrite (bind_the_watcher _ _ _ _ HW1).
  fold changed. split; intros Hch; rewrite Hch; [done|].
  intros r s'. cbv zeta. rewrite bind_unfold. unfold modify at 1.
  set (s2 := upd_watcher w _ s1).
  assert (trace s2 = trace s1) as Ht2 by done.
  assert (∀ r s', Dep_notify dev ssr n (w_dep W1) s2 = Some (r, s') →
                  ∃ t, trace s' = trace s1 ++ EvNotify (w_dep W1) :: t) as Hnotify.
  { intros r0 s0. destruct n as [|n]; [done|]. simpl.
    rewrite bind_unfold. unfold record at 1, modify at 1.
    set (s3 := set_trace _ s2). intros Hrest.
    assert (trace_grows s3 s0) as [t Ht].
    { revert Hrest. pose proof trace_grows_preorder.
      apply (preserves_bind trace_grows); [apply (preserves_gets trace_grows)|].
      intros l. apply (preserves_for_each trace_grows). intros x.
      apply (ep_update _ _ _ _ _
               (engine_respects dev ssr _ _ trace_grows_respects n)). }
    exists t. rewrite Ht. subst s3. ssimpl. by rewrite Ht2, <- app_assoc. }
  destruct (w_user W1); [|apply Hnotify].
  unfold try_catch.
  destruct (Dep_notify dev ssr n (w_dep W1) s2) as [[[[]|e] s3]|] eqn:Hn; [| |done].
  - intros [= <- <-]. by apply (Hnotify _ _ eq_refl).
  - intros [= <- <-]. destruct (Hnotify _ _ eq_refl) as [t Ht].
    exists (t ++ [EvHandleError e (w_vm W1) (callback_info W1)]). ssimpl.
    by rewrite Ht, <- app_assoc.
Qed.

Lemma active_computed_update_witness :
  let write z := exec true false 9 (Write 0 (VNum z) (Ret VUndef)) in
  let s1 := after (write 2%Z) sign_state in
  let s2 := after (write (-1)%Z) s1 in
  Watcher_update true false 5 2 sign_state
  = Some (Ok tt, after (Watcher_get true false 3 2) sign_state)
  ∧ write 2%Z sign_state = Some (Ok VUndef, s1)
  ∧ trace s1 = [EvNotify 0; EvGetter 2] ∧ queue s1 = []
  ∧ write (-1)%Z s1 = Some (Ok VUndef, s2)
  ∧ trace s2 = trace s1 ++ [EvNotify 0; EvGetter 2; EvNotify 1] ∧ queue s2 = [1].
Proof.
  intros write s1 s2.
  assert (Watcher_get true false 3 2 sign_state
          = Some (Ok (VBool true), after (Watcher_get true false 3 2) sign_state))
    as Hget by (vm_compute; reflexivity).
  pose proof (active_computed_update true false 3 2 _ sign_state
                eq_refl eq_refl ltac:(done) _ _ Hget _ eq_refl) as (Hsame&_).
  split_and!; [by apply Hsame|by vm_compute..].
Defined.


(** ** Conversion of a container by its observer *)

Lemma same_flags_refl o : same_flags o o.
Proof. by repeat split. Qed.

Lemma same_flags_trans o1 o2 o3 : same_flags o1 o2 → same_flags o2 o3 → same_flags o1 o3.
Proof. intros (?&?&?&?&?&?) (?&?&?&?&?&?). repeat split; congruence. Qed.

Lemma keys_kept_preorder X : PreOrder (keys_kept X).
Proof.
  split.
  - intros s Hf. split_and!; [done..|]. intros r o Ho. exists o.
    split_and!; [done|apply same_flags_refl|done].
  - intros s1 s2 s3 H12 H23 Hf.
    destruct (H12 Hf) as (Hf2&Hso2&Hp2&H2). destruct (H23 Hf2) as (Hf3&Hso3&Hp3&H3).
    split_and!; [done|congruence|by intros p ?%Hp2%Hp3|].
    intros r o Ho. destruct (H2 r o Ho) as (o2&Ho2&Hfl2&Hob2).
    destruct (H3 r o2 Ho2) as (o3&Ho3&Hfl3&Hob3).
    exists o3. split_and!; [done|by eapply same_flags_trans|].
    intros Hob. destruct (Hob2 Hob) as [Hob' Hk2]. destruct (Hob3 Hob') as [Hob'' Hk3].
    split; [done|]. intros HX. rewrite Hk3, Hk2; done.
Qed.

#[local] Existing Instance keys_kept_preorder.

Lemma keys_kept_weaken X s s' : keys_kept None s s' → keys_kept X s s'.
Proof.
  intros H Hf. destruct (H Hf) as (?&?&?&Ho). split_and!; [done..|].
  intros r o Hr. destruct (Ho r o Hr) as (o'&?&?&Hob). exists o'. split_and!; [done..|].
  intros Hs. destruct (Hob Hs) as [? Hk]. split; [done|]. intros _. by apply Hk.
Qed.

Lemma preserves_weaken {A} X (m : M A) :
  preserves (keys_kept None) m → preserves (keys_kept X) m.
Proof. intros H s r s' Hm. by apply keys_kept_weaken, (H s r s'). Qed.

Lemma keys_kept_same X s s' :
  objects s' = objects s → next_ref s' = next_ref s → shouldObserve s' = shouldObserve s →
  (∀ p, is_Some (props s !! p) → is_Some (props s' !! p)) →
  keys_kept X s s'.
Proof.
  intros Ho Hn Hso Hp Hf. unfold refs_fresh. rewrite Ho, Hn, Hso. split_and!; [done..|].
  intros r o Hr. exists o. split_and!; [done|apply same_flags_refl|done].
Qed.

Lemma keys_kept_upd_obj X x f s :
  (∀ o, same_flags o (f o) ∧ (is_Some (o_ob o) → is_Some (o_ob (f o)))
        ∧ (X ≠ Some x → o_keys (f o) = o_keys o)) →
  keys_kept X s (upd_obj x f s).
Proof.
  intros Hf Hfr. split_and!.
  - intros y. unfold upd_obj; simpl. rewrite lookup_alter_is_Some. apply Hfr.
  - done.
  - done.
  - intros r o Ho. unfold upd_obj; simpl. destruct (decide (r = x)) as [->|Hne].
    + rewrite lookup_alter_eq, Ho. simpl. exists (f o).
      destruct (Hf o) as (Hfl&Hob&Hk). split_and!; [done..|].
      intros Hs. split; [by apply Hob|done].
    + rewrite lookup_alter_ne by done. exists o.
      split_and!; [done|apply same_flags_refl|done].
Qed.

Lemma keys_kept_new_object X s :
  keys_kept X s (set_next_ref (S (next_ref s))
                   (set_objects (<[next_ref s := empty_object]> (objects s)) s)).
Proof.
  intros Hf. split_and!.
  - intros y. simpl. rewrite lookup_insert_is_Some'. intros [->|Hy]; [lia|].
    apply Hf in Hy. lia.
  - done.
  - done.
  - intros r o Ho. exists o. split_and!; [|apply same_flags_refl|done].
    simpl. rewrite lookup_insert_ne; [done|].
    intros <-. assert (next_ref s < next_ref s); [|lia]. apply Hf. by rewrite Ho.
Qed.

Lemma keys_kept_upd_prop X p f s : keys_kept X s (upd_prop p f s).
Proof.
  apply keys_kept_same; [done..|]. intros q. unfold upd_prop; simpl.
  by rewrite lookup_alter_is_Some.
Qed.

Lemma keys_kept_new_prop X d P s : keys_kept X s (set_props (<[d := P]> (props s)) s).
Proof.
  apply keys_kept_same; [done..|]. intros q Hq. simpl.
  rewrite lookup_insert_is_Some'. by right.
Qed.

Lemma unsubscribe_shouldObserve w keep l s :
  shouldObserve (unsubscribe w keep l s) = shouldObserve s.
Proof.
  revert s. induction l as [|d l IH]; intros s; simpl; [done|].
  case_decide; by rewrite IH.
Qed.

Lemma keys_kept_depend X d s : keys_kept X s (Dep_depend d s).
Proof.
  apply keys_kept_same; unfold Dep_depend, Watcher_addDep;
    destruct (target s); try done; destruct (watchers s !! _); try done;
    case_decide; try done; by case_decide.
Qed.

Lemma keys_kept_foldl {A} X (f : State → A → State) l s :
  (∀ s a, keys_kept X s (f s a)) → keys_kept X s (foldl f s l).
Proof.
  pose proof (keys_kept_preorder X).
  intros Hf. revert s. induction l as [|a l IH]; intros s; simpl; [reflexivity|].
  etrans; [apply Hf|apply IH].
Qed.

Lemma keys_kept_prim X s :
  (∀ t, keys_kept X s (pushTarget t s))
  ∧ keys_kept X s (popTarget s)
  ∧ (∀ w, keys_kept X s (Watcher_cleanupDeps w s))
  ∧ (∀ w, keys_kept X s (Watcher_teardown w s))
  ∧ (∀ w, keys_kept X s (Watcher_depend w s))
  ∧ (∀ w, keys_kept X s (queueWatcher w s))
  ∧ (∀ x, keys_kept X s (set_seenObjects x s)).
Proof.
  split_and!.
  - intros t. apply keys_kept_same; unfold pushTarget; by destruct (target s).
  - apply keys_kept_same; unfold popTarget; by destruct (targetStack s).
  - intros w. rewrite cleanupDeps_unfold. destruct (watchers s !! w) as [W|];
      [|by apply keys_kept_same].
    destruct (unsubscribe_frame w (w_newDepIds W) (reverse (w_deps W)) s)
      as (_&_&_&_&_&_&_&Hp&Ho).
    apply keys_kept_same; simpl;
      [done|apply unsubscribe_next_ref|apply unsubscribe_shouldObserve|by rewrite Hp].
  - intros w. rewrite teardown_unfold. destruct (watchers s !! w) as [W|];
      [|by apply keys_kept_same].
    destruct (w_active W); [|by apply keys_kept_same]. simpl.
    set (s1 := match vms s !! _ with Some _ => _ | None => _ end).
    assert (objects s1 = objects s ∧ next_ref s1 = next_ref s
            ∧ shouldObserve s1 = shouldObserve s ∧ props s1 = props s) as (Ho1&Hn1&Hs1&Hp1).
    { subst s1. destruct (vms s !! _) as [V|]; [|done]. by destruct (vm_isBeingDestroyed V). }
    destruct (unsubscribe_frame w ∅ (reverse (w_deps W)) s1) as (_&_&_&_&_&_&_&Hp&Ho).
    apply keys_kept_same; simpl;
      [congruence|by rewrite unsubscribe_next_ref
      |by rewrite unsubscribe_shouldObserve|by rewrite Hp, Hp1].
  - intros w. unfold Watcher_depend. destruct (watchers s !! w); [|by apply keys_kept_same].
    destruct (_ && _); [apply keys_kept_depend|by apply keys_kept_same].
  - intros w. destruct (queueWatcher_store w s) as (Hp&?&_&_&?&?).
    apply keys_kept_same; [done..|by rewrite Hp].
  - intros x. by apply keys_kept_same.
Qed.

Ltac keys_prim X :=
  first
    [ apply keys_kept_depend
    | apply (proj1 (keys_kept_prim X _))
    | apply (proj1 (proj2 (keys_kept_prim X _)))
    | apply (proj1 (proj2 (proj2 (keys_kept_prim X _))))
    | apply (proj1 (proj2 (proj2 (proj2 (keys_kept_prim X _)))))
    | apply (proj1 (proj2 (proj2 (proj2 (proj2 (keys_kept_prim X _))))))
    | apply (proj1 (proj2 (proj2 (proj2 (proj2 (proj2 (keys_kept_prim X _)))))))
    | apply (proj2 (proj2 (proj2 (proj2 (proj2 (proj2 (keys_kept_prim X _)))))))
    | apply keys_kept_new_object
    | apply keys_kept_upd_prop
    | apply keys_kept_new_prop
    | by apply keys_kept_same
    | apply keys_kept_upd_obj; intros ?; split_and!;
        [by repeat split|intros [? ->]; by eexists|done]
    | apply keys_kept_upd_obj; intros ?; split_and!;
        [by repeat split|by eexists|done]
    | apply keys_kept_upd_obj; intros ?; split_and!;
        [by repeat split|done|by intros []] ].

Ltac keys_step X :=
  lazymatch goal with
  | |- preserves _ (traverse _ _) => unfold traverse
  | |- preserves _ (bind _ _) =>
      apply (@preserves_bind (keys_kept X) (keys_kept_preorder X)); [|intros ?]
  | |- preserves _ (ret _) => apply (@preserves_ret (keys_kept X) (keys_kept_preorder X))
  | |- preserves _ (throw _) => apply (@preserves_throw (keys_kept X) (keys_kept_preorder X))
  | |- preserves _ no_result => by intros ???
  | |- preserves _ (gets _) => apply (@preserves_gets (keys_kept X) (keys_kept_preorder X))
  | |- preserves _ (when _ _) => apply (@preserves_when (keys_kept X) (keys_kept_preorder X))
  | |- preserves _ (try_catch _ _) =>
      apply (@preserves_try_catch (keys_kept X) (keys_kept_preorder X)); [|intros ?]
  | |- preserves _ (try_finally _ _) =>
      apply (@preserves_try_finally (keys_kept X) (keys_kept_preorder X)); [|intros ?]
  | |- preserves _ (for_each _ _) =>
      apply (@preserves_for_each (keys_kept X) (keys_kept_preorder X)); intros ?
  | |- preserves _ (the_watcher _) =>
      apply (@preserves_the_watcher (keys_kept X) (keys_kept_preorder X))
  | |- preserves _ (the_prop _) =>
      apply (@preserves_the_prop (keys_kept X) (keys_kept_preorder X))
  | |- preserves _ (the_obj _) =>
      apply (@preserves_the_obj (keys_kept X) (keys_kept_preorder X))
  | |- preserves _ (the_vm _) =>
      apply (@preserves_the_vm (keys_kept X) (keys_kept_preorder X))
  | |- preserves _ (record _) =>
      apply (preserves_modify (keys_kept X)); intros ?; by apply keys_kept_same
  | |- preserves _ new_Dep => intros ??? [= <- <-]; by apply keys_kept_same
  | |- preserves _ new_object => intros ??? [= <- <-]; apply keys_kept_new_object
  | |- preserves _ (modify _) =>
      apply (preserves_modify (keys_kept X)); intros ?; keys_prim X
  | |- preserves _ (if ?b then _ else _) => destruct b
  | |- preserves _ (match ?x with _ => _ end) => destruct x
  end.

Lemma dependArray_keys n v : preserves (keys_kept None) (dependArray n v).
Proof.
  revert v. induction n as [|n IH]; intros v; simpl; [by intros ???|].
  repeat first [apply IH | keys_step (@None nat)].
Qed.

Lemma observe_keys dev ssr n :
  (∀ r, preserves (keys_kept (Some r)) (Observer_new dev ssr n r)) →
  ∀ v b, preserves (keys_kept None) (observe dev ssr (S n) v b).
Proof.
  intros Hnew v b s res s'. simpl. pose proof (keys_kept_preorder None) as Hpre.
  destruct v as [| | | | | |r]; try (intros [= <- <-]; reflexivity).
  rewrite bind_unfold. unfold the_obj at 1.
  destruct (objects s !! r) as [o|] eqn:Ho; [|done].
  destruct (o_isVNode o); [intros [= <- <-]; reflexivity|].
  rewrite bind_unfold. unfold gets at 1.
  assert (∀ ob : option nat, preserves (keys_kept None)
            (when (b && bool_decide (is_Some ob))
               (modify (upd_obj r (fun o =>
                  set_o_ob ((fun b => mkObserver (ob_dep b) (S (ob_vmCount b)))
                              <$> o_ob o) o))) ;;;
             ret ob)) as Hrest.
  { intros ob. repeat first [done | keys_step (@None nat)]. }
  assert (∀ m : M (option nat), preserves (keys_kept None) m →
            preserves (keys_kept None)
              (ob <- m ;;
               when (b && bool_decide (is_Some ob))
                 (modify (upd_obj r (fun o =>
                    set_o_ob ((fun b => mkObserver (ob_dep b) (S (ob_vmCount b)))
                                <$> o_ob o) o))) ;;;
               ret ob)) as Hall.
  { intros m Hm. apply (@preserves_bind _ Hpre); [done|]. intros ob. apply Hrest. }
  destruct (o_ob o) as [ob|] eqn:Hob.
  { apply (Hall (ret (Some r))). apply (@preserves_ret _ Hpre). }
  destruct (shouldObserve s && negb ssr && (o_isArray o || o_isPlain o)
            && o_extensible o && negb (o_isVue o)).
  2: { apply (Hall (ret None)). apply (@preserves_ret _ Hpre). }
  assert (∀ x s1, (Observer_new dev ssr n r ;;; ret (Some r)) s = Some (x, s1) →
                  keys_kept None s s1) as Hfirst.
  { intros x s1 Hrun.
    assert (keys_kept (Some r) s s1) as Hk.
    { revert Hrun. apply (@preserves_bind (keys_kept (Some r)) (keys_kept_preorder _));
        [apply Hnew|]. intros _. apply (@preserves_ret _ (keys_kept_preorder _)). }
    intros Hf. destruct (Hk Hf) as (?&?&?&Hk'). split_and!; [done..|].
    intros r' o' Hr'. destruct (Hk' r' o' Hr') as (o1&?&?&Hob1). exists o1.
    split_and!; [done..|]. intros Hs. destruct (Hob1 Hs) as [? Hkeys]. split; [done|].
    intros _. apply Hkeys. intros [= ->]. rewrite Ho in Hr'. injection Hr' as <-.
    rewrite Hob in Hs. by destruct Hs. }
  intros [(ob&s1&Hm&Hk)|(e&Hm&->)]%bind_Some.
  - etrans; [by eapply Hfirst|by eapply Hrest].
  - by eapply Hfirst.
Qed.

Theorem engine_keys dev ssr n : keys_preserved dev ssr n.
Proof.
  induction n as [|n IH].
  { split; intros; by intros ???. }
  destruct IH as [? ? ? ? ? ? ? ? ? ? ? Hnew ? ? ? ? ? ? ?].
  split; intros.
  11: by apply observe_keys.
  all: simpl.
  all: try (repeat first
         [ done
         | apply dependArray_keys
         | apply preserves_weaken; done
         | keys_step (@None nat) ]; fail).
  all: repeat first
         [ done
         | apply preserves_weaken; done
         | keys_step (Some r) ].
Qed.


Lemma slot_of_put_slot k k' sl o o' :
  o_keys o' = put_slot k sl (o_keys o) →
  slot_of k' o' = if decide (k' = k) then Some sl else slot_of k' o.
Proof.
  unfold slot_of. intros ->. destruct (decide (k' = k)) as [->|Hkk].
  - induction (o_keys o) as [|[k0 x] l IH]; simpl.
    + by rewrite decide_True.
    + destruct (decide (k0 = k)) as [->|Hne]; simpl.
      * by rewrite decide_True.
      * rewrite decide_False by done.
        destruct (list_find _ (put_slot k sl l)) as [[i [k1 x1]]|]; simplify_eq/=; done.
  - induction (o_keys o) as [|[k0 x] l IH]; simpl.
    + by rewrite decide_False by done.
    + destruct (decide (k0 = k)) as [->|Hne]; simpl.
      * rewrite !decide_False by done. done.
      * destruct (decide (k0 = k')) as [->|Hne']; simpl; [done|].
        destruct (list_find _ (put_slot k sl l)) as [[i [k1 x1]]|];
          destruct (list_find _ l) as [[j [k2 x2]]|]; simplify_eq/=; done.
Qed.

Lemma put_slot_fst k sl l : k ∈ l.*1 → (put_slot k sl l).*1 = l.*1.
Proof.
  induction l as [|[k0 x] l IH]; simpl; [by intros ?%elem_of_nil|].
  destruct (decide (k0 = k)) as [->|Hne]; [done|].
  intros [?|?]%elem_of_cons; [done|]. rewrite !fmap_cons. f_equal. by apply IH.
Qed.

Lemma slot_of_elem k o sl : slot_of k o = Some sl → k ∈ (o_keys o).*1.
Proof.
  unfold slot_of. destruct (list_find _ _) as [[i [k0 x]]|] eqn:Hfind; [|done].
  intros _. apply list_find_Some in Hfind as (Hi&Hk&_). simpl in Hk. subst k0.
  apply list_elem_of_fmap. exists (k, x). split; [done|]. by eapply list_elem_of_lookup_2.
Qed.

Lemma eligible_kept X ssr r s s' :
  keys_kept X s s' → refs_fresh s → eligible ssr r s → eligible ssr r s'.
Proof.
  intros Hk Hf (o&Ho&Hvn&Hel). destruct (Hk Hf) as (_&Hso&_&Hobj).
  destruct (Hobj r o Ho) as (o'&Ho'&(Ha&Hp&He&Hv&Hn&_)&Hob).
  exists o'. split_and!; [done|congruence|].
  destruct Hel as [Hs|(?&?&?&?&?)]; [left; by apply Hob|right].
  rewrite Hso, Ha, Hp, He, Hv. done.
Qed.

Lemma observed_kept X r s s' :
  keys_kept X s s' → refs_fresh s → observed r s → observed r s'.
Proof.
  intros Hk Hf (o&ob&Ho&Hob). destruct (Hk Hf) as (_&_&_&Hobj).
  destruct (Hobj r o Ho) as (o'&Ho'&_&Hob'). destruct Hob' as [[ob' ?] _]; [by eexists|].
  by exists o', ob'.
Qed.

(** [observe] of a container that is eligible returns its observer. *)
Lemma observe_eligible dev ssr n r s res s' :
  observe dev ssr n (VObj r) false s = Some (Ok res, s') →
  eligible ssr r s → refs_fresh s →
  res = Some r ∧ observed r s'.
Proof.
  intros Hrun (o&Ho&Hvn&[[ob Hob]|(?&?&?&?&?)]) Hf.
  - destruct n as [|n]; [done|]. simpl in Hrun.
    rewrite bind_unfold in Hrun. unfold the_obj at 1 in Hrun. rewrite Ho, Hvn in Hrun.
    rewrite bind_unfold in Hrun. unfold gets at 1 in Hrun. rewrite Hob in Hrun.
    injection Hrun as <- <-. split; [done|]. by exists o, ob.
  - destruct (o_ob o) as [ob|] eqn:Hob.
    + destruct n as [|n]; [done|]. simpl in Hrun.
      rewrite bind_unfold in Hrun. unfold the_obj at 1 in Hrun. rewrite Ho, Hvn in Hrun.
      rewrite bind_unfold in Hrun. unfold gets at 1 in Hrun. rewrite Hob in Hrun.
      injection Hrun as <- <-. split; [done|]. by exists o, ob.
    + eapply observe_attaches; [done| |done]. exists o. by split_and!.
Qed.

(** The part of [defineReactive] behind the test of [configurable], on
    a container that has its observer: nothing that it calls touches
    the properties of the container. *)
Lemma defineReactive_tail dev ssr n r key d getter setter cs sh (m1 : M Val) s0 s' o :
  preserves (keys_kept None) m1 →
  refs_fresh s0 → objects s0 !! r = Some o → is_Some (o_ob o) →
  (val1 <- m1 ;;
   childOb <- (if sh : bool then ret None else observe dev ssr n val1 false) ;;
   modify (fun s => set_props
             (<[d := mkProperty d val1 childOb getter setter cs sh]> (props s)) s) ;;;
   modify (upd_obj r (fun o => set_o_keys (put_slot key (SReactive d) (o_keys o)) o)))
    s0 = Some (Ok tt, s') →
  ∃ val1 s1 childOb s2 o2,
    m1 s0 = Some (Ok val1, s1)
    ∧ (if sh then ret None else observe dev ssr n val1 false) s1 = Some (Ok childOb, s2)
    ∧ refs_fresh s1 ∧ refs_fresh s2
    ∧ objects s2 !! r = Some o2 ∧ o_keys o2 = o_keys o ∧ is_Some (o_ob o2)
    ∧ s' = upd_obj r (fun o => set_o_keys (put_slot key (SReactive d) (o_keys o)) o)
             (set_props (<[d := mkProperty d val1 childOb getter setter cs sh]> (props s2)) s2).
Proof.
  intros Hm1 Hf Ho Hob Hrun.
  apply bind_Some in Hrun as [(val1&s1&Hval&Hrun)|(e&_&[=])].
  apply bind_Some in Hrun as [(childOb&s2&Hchild&Hrun)|(e&_&[=])].
  injection Hrun as <-.
  pose proof (Hm1 _ _ _ Hval) as Hk1. destruct (Hk1 Hf) as (Hf1&_&_&Hobj1).
  destruct (Hobj1 r o Ho) as (o1&Ho1&_&Hob1). destruct (Hob1 Hob) as [Hob1' Hkeys1].
  assert (keys_kept None s1 s2) as Hk2.
  { destruct sh.
    - injection Hchild as <- <-. apply keys_kept_preorder.
    - by apply (kp_observe _ _ _ (engine_keys dev ssr n) _ _ _ _ _ Hchild). }
  destruct (Hk2 Hf1) as (Hf2&_&_&Hobj2).
  destruct (Hobj2 r o1 Ho1) as (o2&Ho2&_&Hob2). destruct (Hob2 Hob1') as [Hob2' Hkeys2].
  exists val1, s1, childOb, s2, o2. split_and!; [done..| |done|done].
  rewrite Hkeys2, Hkeys1; done.
Qed.

(** [defineReactive(obj, key)] on a container that has its observer. *)
Lemma defineReactive_slot dev ssr n r key s s' o :
  refs_fresh s → objects s !! r = Some o → is_Some (o_ob o) →
  defineReactive dev ssr (S n) r key None None false s = Some (Ok tt, s') →
  keys_kept (Some r) s s'
  ∧ ∃ o', objects s' !! r = Some o'
      ∧ (∀ k, k ≠ key → slot_of k o' = slot_of k o)
      ∧ (key ∈ (o_keys o).*1 → (o_keys o').*1 = (o_keys o).*1)
      ∧ ∀ sl, slot_of key o = Some sl →
          made_reactive s' sl (slot_of key o')
          ∧ ∀ r', sl = SData (VObj r') true → eligible ssr r' s → observed r' s'.
Proof.
  intros Hf Ho Hob Hrun. split.
  { by apply (kp_defineReactive _ _ _ (engine_keys dev ssr (S n)) _ _ _ _ _ _ _ _ Hrun). }
  simpl in Hrun.
  apply bind_Some in Hrun as [(d&s0&Hd&Hrun)|(e&_&[=])].
  injection Hd as <- <-. set (d := dep_uid s) in *.
  set (s0 := set_dep_uid _ _) in *.
  apply bind_Some in Hrun as [(o0&s0'&Ho0&Hrun)|(e&_&[=])].
  unfold the_obj in Ho0. change (objects s0) with (objects s) in Ho0. rewrite Ho in Ho0.
  injection Ho0 as <- <-.
  assert (refs_fresh s0) as Hf0 by done.
  assert (objects s0 !! r = Some o) as Ho0 by done.
  pose proof (engine_keys dev ssr n) as Heng.
  assert (∀ m1 getter setter s',
    preserves (keys_kept None) m1 →
    (val1 <- m1 ;;
     childOb <- observe dev ssr n val1 false ;;
     modify (fun s => set_props
               (<[d := mkProperty d val1 childOb getter setter None false]> (props s)) s) ;;;
     modify (upd_obj r (fun o => set_o_keys (put_slot key (SReactive d) (o_keys o)) o)))
      s0 = Some (Ok tt, s') →
    ∃ val1 s1 childOb s2 o',
      m1 s0 = Some (Ok val1, s1)
      ∧ observe dev ssr n val1 false s1 = Some (Ok childOb, s2)
      ∧ refs_fresh s1
      ∧ objects s' !! r = Some o'
      ∧ (∀ k, k ≠ key → slot_of k o' = slot_of k o)
      ∧ (key ∈ (o_keys o).*1 → (o_keys o').*1 = (o_keys o).*1)
      ∧ slot_of key o' = Some (SReactive d)
      ∧ is_Some (props s' !! d)
      ∧ ∀ r', observed r' s2 → observed r' s') as Htail.
  { intros m1 getter setter s1' Hm1 Hrun1.
    destruct (defineReactive_tail dev ssr n r key d getter setter None false
                m1 s0 s1' o Hm1 Hf0 Ho0 Hob Hrun1)
      as (val1&s1&childOb&s2&o2&Hval&Hchild&Hf1&Hf2&Ho2&Hkeys&Hob2&->).
    exists val1, s1, childOb, s2,
      (set_o_keys (put_slot key (SReactive d) (o_keys o2)) o2).
    split_and!; [done..| | | | | |].
    - unfold upd_obj; simpl. by rewrite lookup_alter_eq, Ho2.
    - intros k Hk. rewrite (slot_of_put_slot key k (SReactive d) o2) by done.
      rewrite decide_False by done. unfold slot_of. by rewrite Hkeys.
    - intros Hin. simpl. rewrite Hkeys. by apply put_slot_fst.
    - rewrite (slot_of_put_slot key key (SReactive d) o2) by done. by rewrite decide_True.
    - unfold upd_obj; simpl. rewrite lookup_insert_eq. by eexists.
    - intros r' (o'&ob'&Ho'&Hob'). unfold observed, upd_obj; simpl.
      destruct (decide (r' = r)) as [->|Hne].
      + rewrite lookup_alter_eq, Ho'. simpl. by eexists _, ob'.
      + rewrite lookup_alter_ne by done. by exists o', ob'. }
  pose proof (keys_kept_preorder None) as Hpre.
  destruct (slot_of key o) as [[v [|]|g f [|]|p]|] eqn:Hslot.
  - (* a data property *)
    destruct (Htail _ _ _ _ (@preserves_ret _ Hpre _ v) Hrun)
      as (val1&s1&childOb&s2&o'&Hval&Hchild&Hf1&Ho'&Hother&Hfst&Hkey&Hp&Hobs).
    injection Hval as <- <-.
    exists o'. split_and!; [done..|]. intros sl [= <-]. split; [by exists d|].
    intros r' [= ->] Hel. apply Hobs.
    by destruct (observe_eligible dev ssr n r' s0 childOb s2 Hchild Hel Hf0).
  - injection Hrun as <-. exists o. split_and!; [done..|]. intros sl [= <-]. by split.
  - (* an accessor *)
    simpl in Hrun.
    match type of Hrun with
    | bind ?m1 _ _ = _ =>
        assert (preserves (keys_kept None) m1) as Hm1
          by (repeat first [apply (kp_exec _ _ _ Heng) | keys_step (@None nat)])
    end.
    destruct (Htail _ _ _ _ Hm1 Hrun)
      as (val1&s1&childOb&s2&o'&Hval&Hchild&Hf1&Ho'&Hother&Hfst&Hkey&Hp&Hobs).
    exists o'. split_and!; [done..|]. intros sl [= <-]. split; [by exists d|done].
  - injection Hrun as <-. exists o. split_and!; [done..|]. intros sl [= <-]. by split.
  - (* an accessor of [defineReactive] *)
    simpl in Hrun.
    match type of Hrun with
    | bind ?m1 _ _ = _ =>
        assert (preserves (keys_kept None) m1) as Hm1
          by (repeat first [apply (kp_exec _ _ _ Heng) | keys_step (@None nat)])
    end.
    destruct (Htail _ _ _ _ Hm1 Hrun)
      as (val1&s1&childOb&s2&o'&Hval&Hchild&Hf1&Ho'&Hother&Hfst&Hkey&Hp&Hobs).
    exists o'. split_and!; [done..|]. intros sl [= <-]. split; [by exists d|done].
  - (* no such property *)
    destruct (Htail _ _ _ _ (@preserves_ret _ Hpre _ VUndef) Hrun)
      as (val1&s1&childOb&s2&o'&Hval&Hchild&Hf1&Ho'&Hother&Hfst&Hkey&Hp&Hobs).
    exists o'. split_and!; [done..|]. intros sl [=].
Qed.

Lemma made_reactive_kept X s s' sl new :
  keys_kept X s s' → refs_fresh s → made_reactive s sl new → made_reactive s' sl new.
Proof.
  intros Hk Hf. destruct (Hk Hf) as (_&_&Hp&_).
  destruct sl as [v [|]|g f [|]|p]; simpl; try done;
    intros (d&?&?); exists d; split; try done; by apply Hp.
Qed.

Lemma made_reactive_again s sl d new :
  made_reactive s (SReactive d) new →
  match sl with SData _ false | SAccessor _ _ false => False | _ => True end →
  made_reactive s sl new.
Proof. by destruct sl as [v [|]|g f [|]|p]. Qed.

(** The loop of [walk] over the keys [K]. *)
Lemma walk_loop dev ssr m r K : ∀ s s' o,
  refs_fresh s → objects s !! r = Some o → is_Some (o_ob o) →
  for_each K (fun key => defineReactive dev ssr m r key None None false) s
  = Some (Ok tt, s') →
  keys_kept (Some r) s s'
  ∧ ∃ o', objects s' !! r = Some o'
      ∧ (∀ k, k ∉ K → slot_of k o' = slot_of k o)
      ∧ ((∀ k, k ∈ K → k ∈ (o_keys o).*1) → (o_keys o').*1 = (o_keys o).*1)
      ∧ ∀ k sl, k ∈ K → slot_of k o = Some sl →
          made_reactive s' sl (slot_of k o')
          ∧ ∀ r', sl = SData (VObj r') true → eligible ssr r' s → observed r' s'.
Proof.
  induction K as [|key K IH]; intros s s' o Hf Ho Hob Hrun.
  { injection Hrun as <-. split; [apply keys_kept_preorder|].
    exists o. split_and!; [done..|]. by intros k sl ?%elem_of_nil. }
  simpl in Hrun. apply bind_Some in Hrun as [([]&s1&Hdef&Hrun)|(e&_&[=])].
  destruct m as [|n]; [done|].
  destruct (defineReactive_slot dev ssr n r key s s1 o Hf Ho Hob Hdef)
    as (Hk1&o1&Ho1&Hother1&Hfst1&Hkey1).
  destruct (Hk1 Hf) as (Hf1&_&_&Hobj1).
  assert (is_Some (o_ob o1)) as Hob1.
  { destruct (Hobj1 r o Ho) as (o1'&Ho1'&_&Hob1'). rewrite Ho1 in Ho1'.
    injection Ho1' as <-. by apply Hob1'. }
  destruct (IH s1 s' o1 Hf1 Ho1 Hob1 Hrun) as (Hk2&o'&Ho'&Hother2&Hfst2&Hkeys2).
  split; [by etrans|].
  exists o'. split_and!; [done| | |].
  - intros k Hk. rewrite Hother2, Hother1; set_solver.
  - intros Hin. rewrite Hfst2, Hfst1; [done|set_solver|].
    intros k Hk. rewrite Hfst1; set_solver.
  - intros k sl Hk Hsl.
    destruct (decide (k = key)) as [->|Hne].
    + destruct (Hkey1 sl Hsl) as [Hmade Hchild]. split.
      * destruct (decide (key ∈ K)) as [HinK|HinK].
        -- destruct sl as [v [|]|g f [|]|p]; simpl in Hmade.
           ++ destruct Hmade as (d&Hd&_).
              by destruct (Hkeys2 key (SReactive d) HinK Hd) as [? _].
           ++ by destruct (Hkeys2 key _ HinK Hmade) as [? _].
           ++ destruct Hmade as (d&Hd&_).
              by destruct (Hkeys2 key (SReactive d) HinK Hd) as [? _].
           ++ by destruct (Hkeys2 key _ HinK Hmade) as [? _].
           ++ destruct Hmade as (d&Hd&_).
              by destruct (Hkeys2 key (SReactive d) HinK Hd) as [? _].
        -- rewrite (Hother2 key HinK). by eapply made_reactive_kept.
      * intros r' Hr' Hel. eapply observed_kept; [exact Hk2|done|]. by apply Hchild.
    + assert (k ∈ K) as HinK by set_solver.
      rewrite <- (Hother1 k Hne) in Hsl.
      destruct (Hkeys2 k sl HinK Hsl) as [Hmade Hchild]. split; [done|].
      intros r' Hr' Hel. apply Hchild; [done|]. by eapply eligible_kept.
Qed.

(** The loop of [observeArray]. *)
Lemma observeArray_loop dev ssr n items : ∀ s s',
  refs_fresh s →
  for_each items (fun e => observe dev ssr n e false ;;; ret tt) s = Some (Ok tt, s') →
  keys_kept None s s'
  ∧ ∀ r', VObj r' ∈ items → eligible ssr r' s → observed r' s'.
Proof.
  pose proof (keys_kept_preorder None) as Hpre.
  induction items as [|e items IH]; intros s s' Hf Hrun.
  { injection Hrun as <-. split; [reflexivity|]. by intros r' ?%elem_of_nil. }
  simpl in Hrun. apply bind_Some in Hrun as [([]&s1&Hobs&Hrun)|(e'&_&[=])].
  apply bind_Some in Hobs as [(res&s1'&Hobs&[= <-])|(e'&_&[=])].
  pose proof (kp_observe _ _ _ (engine_keys dev ssr n) _ _ _ _ _ Hobs) as Hk1.
  destruct (Hk1 Hf) as (Hf1&_).
  destruct (IH s1' s' Hf1 Hrun) as (Hk2&Hrest).
  split; [by etrans|].
  intros r' [<-|Hin]%elem_of_cons Hel.
  - eapply observed_kept; [exact Hk2|done|].
    by destruct (observe_eligible dev ssr n r' s res s1' Hobs Hel Hf).
  - apply Hrest; [done|]. by eapply eligible_kept.
Qed.


(** [observe(value)] on a container without an observer that qualifies
    for one, when it returns: the container has its observer. Of an
    array, every element that [observe] accepts has its observer too. Of
    an object, the keys are as they were and in the same order; every
    own property is left as it was if it is not configurable, and has
    the accessor of a closure of [defineReactive] otherwise; and a
    container that [observe] accepts and that was the value of a
    configurable data property has its observer. *)
Theorem observe_converts dev ssr n r b s o res s' :
  refs_fresh s → objects s !! r = Some o → o_ob o = None → eligible ssr r s →
  observe dev ssr n (VObj r) b s = Some (Ok res, s') →
  res = Some r
  ∧ ∃ o', objects s' !! r = Some o' ∧ is_Some (o_ob o')
      ∧ (o_isArray o = true →
         ∀ r', VObj r' ∈ o_items o → eligible ssr r' s → observed r' s')
      ∧ (o_isArray o = false →
         (o_keys o').*1 = (o_keys o).*1
         ∧ ∀ k sl, slot_of k o = Some sl →
             made_reactive s' sl (slot_of k o')
             ∧ ∀ r', sl = SData (VObj r') true → eligible ssr r' s → observed r' s').
Proof.
  intros Hf Ho Hob (o0&Ho0&Hvn&Hel) Hrun.
  rewrite Ho in Ho0. injection Ho0 as <-.
  destruct Hel as [[? Hs]|(Hso&->&Hkind&Hext&Hvue)]; [by rewrite Hob in Hs|].
  destruct n as [|n]; [done|]. simpl in Hrun.
  rewrite bind_unfold in Hrun. unfold the_obj at 1 in Hrun. rewrite Ho, Hvn in Hrun.
  rewrite bind_unfold in Hrun. unfold gets at 1 in Hrun.
  rewrite Hob, Hso, Hkind, Hext, Hvue in Hrun. simpl in Hrun.
  apply bind_Some in Hrun as [(ob&s3&Hnew&Hrun)|(e&_&[=])].
  apply bind_Some in Hnew as [([]&s2&Hnew&[= <- <-])|(e&_&[=])].
  (* the constructor *)
  destruct n as [|n]; [done|]. simpl in Hnew.
  rewrite bind_unfold in Hnew. unfold new_Dep at 1 in Hnew.
  rewrite bind_unfold in Hnew. unfold modify at 1 in Hnew.
  set (d := dep_uid s) in *.
  set (s1 := upd_obj r _ _) in *.
  set (o1 := set_o_ob (Some (mkObserver d 0)) o).
  assert (objects s1 !! r = Some o1) as Ho1.
  { subst s1. unfold upd_obj; simpl. by rewrite lookup_alter_eq, Ho. }
  assert (keys_kept None s s1) as Hk1.
  { subst s1. etrans; [|apply keys_kept_upd_obj; intros ?; split_and!;
                          [by repeat split|by eexists|done]].
    by apply keys_kept_same. }
  destruct (Hk1 Hf) as (Hf1&_).
  rewrite bind_unfold in Hnew. unfold the_obj at 1 in Hnew. rewrite Ho1 in Hnew.
  change (o_isArray o1) with (o_isArray o) in Hnew.
  change (o_items o1) with (o_items o) in Hnew.
  (* what the loop of the constructor shows, in the state [s2] it ends in *)
  assert (∃ o2, objects s2 !! r = Some o2 ∧ is_Some (o_ob o2)
            ∧ keys_kept (Some r) s1 s2
            ∧ (o_isArray o = true →
               ∀ r', VObj r' ∈ o_items o → eligible false r' s → observed r' s2)
            ∧ (o_isArray o = false →
               (o_keys o2).*1 = (o_keys o).*1
               ∧ ∀ k sl, slot_of k o = Some sl →
                   made_reactive s2 sl (slot_of k o2)
                   ∧ ∀ r', sl = SData (VObj r') true → eligible false r' s →
                           observed r' s2)) as (o2&Ho2&Hob2&Hk2&Harr&Hobj).
  { destruct (o_isArray o) eqn:Hisarr.
    - destruct n as [|n]; [done|]. simpl in Hnew.
      destruct (observeArray_loop dev false n (o_items o) s1 s2 Hf1 Hnew) as (Hk&Hitems).
      destruct (Hk Hf1) as (_&_&_&Hobjs).
      destruct (Hobjs r o1 Ho1) as (o2&Ho2&_&Hob2).
      exists o2. split_and!; [done|by apply Hob2|by apply keys_kept_weaken| |done].
      intros _ r' Hin Helr. apply Hitems; [done|]. by eapply eligible_kept.
    - destruct n as [|n]; [done|]. simpl in Hnew.
      rewrite bind_unfold in Hnew. unfold the_obj at 1 in Hnew. rewrite Ho1 in Hnew.
      change (o_keys o1) with (o_keys o) in Hnew.
      destruct (walk_loop dev false n r (o_keys o).*1 s1 s2 o1 Hf1 Ho1
                  ltac:(by eexists) Hnew) as (Hk&o2&Ho2&_&Hfst&Hkeys).
      destruct (Hk Hf1) as (_&_&_&Hobjs).
      destruct (Hobjs r o1 Ho1) as (o2'&Ho2'&_&Hob2). rewrite Ho2 in Ho2'.
      injection Ho2' as <-.
      exists o2. split_and!; [done|by apply Hob2|done|done|].
      intros _. split; [by apply Hfst|].
      intros k sl Hsl. destruct (Hkeys k sl) as [Hmade Hchild];
        [by eapply slot_of_elem|done|].
      split; [done|]. intros r' Hr' Helr. apply Hchild; [done|]. by eapply eligible_kept. }
  (* vmCount *)
  destruct (Hk2 Hf1) as (Hf2&_).
  apply bind_Some in Hrun as [([]&s4&Hcount&[= <- <-])|(e&_&[=])].
  assert (∃ o4, objects s4 !! r = Some o4 ∧ o_keys o4 = o_keys o2 ∧ is_Some (o_ob o4)
                ∧ props s4 = props s2
                ∧ ∀ r', observed r' s2 → observed r' s4) as (o4&Ho4&Hk4&Hob4&Hp4&Hkeep).
  { destruct b; simpl in Hcount; injection Hcount as <-; [|by exists o2].
    eexists. split_and!.
    - unfold upd_obj; simpl. by rewrite lookup_alter_eq, Ho2.
    - done.
    - destruct Hob2 as [? ->]. by eexists.
    - done.
    - intros r' (x&ob'&Hx&Hobx). unfold observed, upd_obj; simpl.
      destruct (decide (r' = r)) as [->|Hne].
      + rewrite lookup_alter_eq, Hx. simpl. rewrite Hobx. by eexists _, _.
      + rewrite lookup_alter_ne by done. by exists x, ob'. }
  assert (∀ sl new, made_reactive s2 sl new → made_reactive s4 sl new) as Hmr.
  { intros sl new. unfold made_reactive. by rewrite Hp4. }
  split; [done|]. exists o4. split_and!; [done..| |].
  - intros Ha r' Hin Helr. apply Hkeep. by apply Harr.
  - intros Ha. destruct (Hobj Ha) as [Hfst Hkeys]. split; [by rewrite Hk4|].
    intros k sl Hsl. destruct (Hkeys k sl Hsl) as [Hmade Hchild]. split.
    + unfold slot_of. rewrite Hk4. by apply Hmr.
    + intros r' Hr' Helr. apply Hkeep. by apply Hchild.
Qed.

Lemma observe_converts_witness :
  let s' := after (observe true false 9 (VObj 0) true) tree_state in
  observe true false 9 (VObj 0) true tree_state = Some (Ok (Some 0), s')
  ∧ (o_keys <$> objects s' !! 0)
    = Some [("a", SReactive 1); ("child", SReactive 2); ("fixed", SData (VNum 3) false)]
  ∧ observed 1 s'
  ∧ (o_keys <$> objects s' !! 1) = Some [("c", SReactive 4)].
Proof.
  intros s'.
  assert (observe true false 9 (VObj 0) true tree_state
          = Some (Ok (Some 0), s')) as Hrun by (vm_compute; reflexivity).
  assert (refs_fresh tree_state) as Hf.
  { intros r [x Hx]. destruct (decide (r < 3)) as [|Hge]; [done|].
    exfalso. unfold tree_state in Hx. simpl in Hx.
    rewrite !lookup_insert_ne, lookup_singleton_ne in Hx by lia. done. }
  assert (∀ r, r < 3 → eligible false r tree_state) as Hel.
  { intros r Hr. destruct r as [|[|[|r]]]; [| | |lia];
      (eexists; split_and!; [reflexivity|done|right; by split_and!]). }
  destruct (observe_converts true false 9 0 true tree_state _ _ s'
              Hf eq_refl eq_refl (Hel 0 ltac:(lia)) Hrun)
    as (_&o'&Ho'&_&_&Hobj).
  destruct (Hobj eq_refl) as [_ Hkeys].
  destruct (Hkeys "child" _ eq_refl) as [_ Hchild].
  split_and!; [done|by vm_compute|apply (Hchild 1 eq_refl); apply Hel; lia|by vm_compute].
Defined.


(** [observe(value)] gives nothing and does nothing, whatever
    [asRootData] is, for a value that is not a container and for a
    container that [observe] does not accept: a VNode, and, when it has
    no observer yet, a container that is neither an array nor a plain
    object, that is not extensible or that is the instance of a
    component, and any container while [shouldObserve] is off or on the
    server. *)
Theorem observe_refuses dev ssr n v b s res s' :
  (∀ r, v = VObj r → ¬ eligible ssr r s) →
  observe dev ssr n v b s = Some (res, s') →
  res = Ok None ∧ s' = s.
Proof.
  intros Hnot. destruct n as [|n]; [done|]. simpl.
  destruct v as [| | | | | |r]; try by intros [= <- <-].
  specialize (Hnot r eq_refl).
  rewrite bind_unfold. unfold the_obj at 1.
  destruct (objects s !! r) as [o|] eqn:Ho; [|done].
  destruct (o_isVNode o) eqn:Hvn; [by intros [= <- <-]|].
  rewrite bind_unfold. unfold gets at 1.
  destruct (o_ob o) as [ob|] eqn:Hob.
  { exfalso. apply Hnot. exists o. split_and!; [done..|]. left. by rewrite Hob. }
  destruct (shouldObserve s) eqn:Hso, ssr, (o_isArray o || o_isPlain o) eqn:Hkind,
    (o_extensible o) eqn:Hext, (o_isVue o) eqn:Hvue, b; simpl;
    try by intros [= <- <-].
  all: exfalso; apply Hnot; exists o; split_and!; [done..|]; right; by split_and!.
Qed.

Lemma observe_refuses_witness :
  observe true false 9 (VObj 0) true sealed_state = Some (Ok None, sealed_state)
  ∧ observe true false 9 (VObj 1) false sealed_state
    = Some (Ok None, sealed_state)
  ∧ observe true false 9 (VStr "a") true sealed_state
    = Some (Ok None, sealed_state).
Proof.
  assert (∀ v b, (∀ r, v = VObj r → ¬ eligible false r sealed_state) →
                 is_Some (observe true false 9 v b sealed_state) →
                 observe true false 9 v b sealed_state
                 = Some (Ok None, sealed_state)) as Huse.
  { intros v b Hnot [[res s'] Hrun].
    destruct (observe_refuses true false 9 v b sealed_state res s' Hnot Hrun)
      as [-> ->]. done. }
  split_and!; apply Huse; try (by eexists); intros r [= <-].
  - intros (o&[= <-]&_&[[? [=]]|(_&_&_&[=]&_)]).
  - intros (o&[= <-]&_&[[? [=]]|(_&_&_&_&[=])]).
Defined.


(** * Mutation of containers *)

(** ** array.js *)

Lemma notify_first dev ssr n d s r s' :
  Dep_notify dev ssr n d s = Some (r, s') →
  keys_kept None s s' ∧ ∃ t, trace s' = trace s ++ EvNotify d :: t.
Proof.
  intros Hrun. split.
  { by apply (kp_notify _ _ _ (engine_keys dev ssr n) _ _ _ _ Hrun). }
  destruct n as [|n]; [done|]. simpl in Hrun.
  rewrite bind_unfold in Hrun. unfold record at 1, modify at 1 in Hrun.
  set (s1 := set_trace _ s) in *.
  assert (trace_grows s1 s') as [t Ht].
  { revert Hrun. pose proof trace_grows_preorder.
    apply (preserves_bind trace_grows); [apply (preserves_gets trace_grows)|].
    intros l. apply (preserves_for_each trace_grows). intros x.
    apply (ep_update _ _ _ _ _
             (engine_respects dev ssr _ _ trace_grows_respects n)). }
  exists t. rewrite Ht. subst s1. ssimpl. by rewrite <- app_assoc.
Qed.

Lemma eligible_upd_items_fn ssr r (f : Obj → list Val) r' s :
  eligible ssr r' s → eligible ssr r' (upd_obj r (fun o => set_o_items (f o) o) s).
Proof.
  intros (o&Ho&Hvn&Hel). unfold eligible, upd_obj; simpl.
  destruct (decide (r' = r)) as [->|Hne].
  - rewrite lookup_alter_eq, Ho. simpl. by exists (set_o_items (f o) o).
  - rewrite lookup_alter_ne by done. by exists o.
Qed.

Lemma eligible_upd_items ssr r l r' s :
  eligible ssr r' s → eligible ssr r' (upd_obj r (set_o_items l) s).
Proof. apply (eligible_upd_items_fn ssr r (fun _ => l)). Qed.

Lemma refs_fresh_upd_obj r f s : refs_fresh s → refs_fresh (upd_obj r f s).
Proof. intros Hf y. unfold upd_obj; simpl. rewrite lookup_alter_is_Some. apply Hf. Qed.

(** The native method: what it leaves in the array and what it returns. *)
Lemma original_spec r m o s res s1 :
  refs_fresh s → objects s !! r = Some o →
  original r m s = Some (res, s1) →
  refs_fresh s1 ∧ trace s1 = trace s
  ∧ objects s1 !! r = Some (set_o_items (native r m (o_items o)).1 o)
  ∧ (∀ ssr r', eligible ssr r' s → eligible ssr r' s1)
  ∧ match (native r m (o_items o)).2 with
    | inl x => res = Ok x
    | inr removed =>
        res = Ok (VObj (next_ref s))
        ∧ objects s1 !! next_ref s
          = Some (mkObj false true false true false false None [] removed)
    end.
Proof.
  intros Hf Ho. unfold original. rewrite bind_unfold. unfold the_obj at 1. rewrite Ho.
  destruct (o_isArray o && o_extensible o); [|done].
  destruct (native r m (o_items o)) as [l result]. simpl.
  rewrite bind_unfold. unfold modify at 1.
  set (s0 := upd_obj r (set_o_items l) s).
  assert (objects s0 !! r = Some (set_o_items l o)) as Ho0.
  { subst s0. unfold upd_obj; simpl. by rewrite lookup_alter_eq, Ho. }
  assert (refs_fresh s0) as Hf0 by by apply refs_fresh_upd_obj.
  destruct result as [x|removed].
  - intros [= <- <-]. split_and!; [done..| |done].
    intros ssr r'. apply eligible_upd_items.
  - intros [= <- <-].
    assert (r ≠ next_ref s) as Hne.
    { intros ->. assert (next_ref s < next_ref s); [|lia]. apply Hf. by rewrite Ho. }
    split_and!.
    + intros y. simpl. rewrite lookup_insert_is_Some'. intros [->|Hy]; [lia|].
      apply Hf0 in Hy. simpl in Hy. lia.
    + done.
    + simpl. rewrite lookup_insert_ne by done. by rewrite lookup_alter_eq, Ho.
    + intros ssr r' Hel. apply (eligible_upd_items ssr r l) in Hel.
      destruct Hel as (o'&Ho'&Hrest). exists o'. split; [|done].
      change (objects s0 !! r' = Some o') in Ho'.
      simpl. rewrite lookup_insert_ne; [done|].
      intros <-. assert (next_ref s < next_ref s0) as Hlt; [|simpl in Hlt; lia].
      apply Hf0. by rewrite Ho'.
    + done.
    + simpl. by rewrite lookup_insert_eq.
Qed.

(** The method of array.js on an array that has its observer. *)
Lemma mutator_spec dev ssr n r m o ob s v s' :
  refs_fresh s → objects s !! r = Some o → o_ob o = Some ob →
  mutator dev ssr n r m s = Some (Ok v, s') →
  (∃ o', objects s' !! r = Some o' ∧ o_items o' = (native r m (o_items o)).1
         ∧ o_keys o' = o_keys o)
  ∧ match (native r m (o_items o)).2 with
    | inl x => v = x
    | inr removed =>
        v = VObj (next_ref s)
        ∧ ∃ a, objects s' !! next_ref s = Some a ∧ o_isArray a = true
               ∧ o_items a = removed
    end
  ∧ (∃ t1 t2, trace s' = trace s ++ t1 ++ EvNotify (ob_dep ob) :: t2)
  ∧ ∀ r', VObj r' ∈ default [] (inserted m) → eligible ssr r' s → observed r' s'.
Proof.
  intros Hf Ho Hob Hrun. destruct n as [|n]; [done|]. simpl in Hrun.
  apply bind_Some in Hrun as [(result&s1&Horig&Hrun)|(e&_&[=])].
  destruct (original_spec r m o s _ s1 Hf Ho Horig) as (Hf1&Ht1&Ho1&Hel1&Hres).
  rewrite bind_unfold in Hrun. unfold the_obj at 1 in Hrun. rewrite Ho1 in Hrun.
  change (o_ob (set_o_items _ o)) with (o_ob o) in Hrun. rewrite Hob in Hrun.
  apply bind_Some in Hrun as [([]&s2&Hins&Hrun)|(e&_&[=])].
  apply bind_Some in Hrun as [([]&s3&Hnotify&[= <- <-])|(e&_&[=])].
  assert (keys_kept None s1 s2 ∧ trace_grows s1 s2
          ∧ ∀ r', VObj r' ∈ default [] (inserted m) → eligible ssr r' s1 → observed r' s2)
    as (Hk2&[t1 Ht2]&Hchild).
  { destruct (inserted m) as [l|]; simpl.
    - split_and!.
      + by apply (kp_observeArray _ _ _ (engine_keys dev ssr n) _ _ _ _ Hins).
      + by apply (ep_observeArray _ _ _ _ _
                    (engine_respects dev ssr _ _ trace_grows_respects n) _ _ _ _ Hins).
      + destruct n as [|n]; [done|]. simpl in Hins.
        by destruct (observeArray_loop dev ssr n l s1 s2 Hf1 Hins).
    - injection Hins as <-. split_and!; [reflexivity|by exists []; rewrite app_nil_r|].
      by intros r' ?%elem_of_nil. }
  destruct (Hk2 Hf1) as (Hf2&_).
  destruct (notify_first dev ssr n (ob_dep ob) s2 _ s3 Hnotify) as (Hk3&t2&Ht3).
  assert (keys_kept None s1 s3) as Hk by by etrans.
  destruct (Hk Hf1) as (_&_&_&Hobjs).
  split_and!.
  - destruct (Hobjs r _ Ho1) as (o'&Ho'&(_&_&_&_&_&Hitems)&Hkeys).
    exists o'. split_and!; [done|done|]. destruct Hkeys as [_ Hkeys]; [exists ob; exact Hob|].
    by rewrite Hkeys.
  - destruct (native r m (o_items o)).2 as [x|removed].
    + by injection Hres.
    + destruct Hres as [[= <-] Hnew]. split; [done|].
      destruct (Hobjs _ _ Hnew) as (a&Ha&(Harr&_&_&_&_&Hitems)&_). by exists a.
  - exists t1, t2. by rewrite Ht3, Ht2, Ht1, <- app_assoc.
  - intros r' Hin Hel. eapply observed_kept; [exact Hk3|done|].
    apply Hchild; [done|]. by apply Hel1.
Qed.

Lemma splice_replace_one r i val (l : list Val) :
  (native r (Splice (Z.of_nat i) (Some 1%Z) [val])
     (l ++ replicate (i - length l) VUndef)).1
  = <[i := val]> (l ++ replicate (S i - length l) VUndef).
Proof.
  unfold native, splice_start, splice_count; cbn [fst].
  rewrite bool_decide_eq_false_2 by lia. rewrite Nat2Z.id.
  change (Z.to_nat (1 `max` 0)) with 1.
  rewrite length_app, length_replicate.
  destruct (decide (i < length l)) as [Hlt|Hge].
  - replace (i - length l) with 0 by lia. replace (S i - length l) with 0 by lia.
    cbn [replicate]. rewrite !app_nil_r, Nat.add_0_r.
    rewrite (Nat.min_l i) by lia. rewrite (Nat.min_l 1) by lia.
    rewrite insert_take_drop by done. by replace (i + 1) with (S i) by lia.
  - replace (S i - length l) with (S (i - length l)) by lia.
    rewrite replicate_S_end, app_assoc.
    set (l' := l ++ replicate (i - length l) VUndef).
    assert (length l' = i) as Hlen.
    { subst l'. rewrite length_app, length_replicate. lia. }
    replace (length l + (i - length l)) with i by lia.
    rewrite (Nat.min_l i) by lia. rewrite (Nat.min_r 1) by lia.
    rewrite Nat.sub_diag, Nat.add_0_r. rewrite take_ge, drop_ge by lia.
    rewrite insert_app_r_alt by lia.
    rewrite insert_app_r_alt by (rewrite length_replicate; lia).
    rewrite length_replicate, Nat.sub_diag. subst l'. cbn [insert list_insert].
    by rewrite app_nil_r, app_assoc.
Qed.

Lemma splice_remove_one r i (l : list Val) :
  (native r (Splice (Z.of_nat i) (Some 1%Z) []) l).1 = delete i l.
Proof.
  unfold native, splice_start, splice_count; cbn [fst].
  rewrite bool_decide_eq_false_2 by lia. rewrite Nat2Z.id.
  change (Z.to_nat (1 `max` 0)) with 1. rewrite app_nil_l.
  destruct (decide (i < length l)) as [Hlt|Hge].
  - rewrite (Nat.min_l i) by lia. rewrite (Nat.min_l 1) by lia.
    rewrite delete_take_drop. by replace (i + 1) with (S i) by lia.
  - rewrite (Nat.min_r i) by lia. rewrite Nat.sub_diag. rewrite (Nat.min_r 1) by lia.
    rewrite Nat.add_0_r. rewrite take_ge, drop_ge by lia. rewrite app_nil_r.
    rewrite delete_take_drop, take_ge, drop_ge by lia. by rewrite app_nil_r.
Qed.



Lemma list_state_fresh : refs_fresh list_state.
Proof.
  intros r [x Hx]. destruct (decide (r < 3)) as [|Hge]; [done|].
  exfalso. unfold list_state in Hx. simpl in Hx.
  rewrite !lookup_insert_ne, lookup_singleton_ne in Hx by lia. done.
Qed.


(** [set(target, key, val)] on an array, for a key that is an index,
    when it returns: it returns [val], and the array holds [val] at the
    index, is as long as it was or just long enough to hold it, with
    [undefined] in between, and is as it was elsewhere. If the array has
    its observer, the Dep of the observer has been notified, and [val]
    has its observer if [observe] accepts it; if it has none, nothing is
    notified. *)
Theorem set_at_index dev ssr hidden iop wr n r i val o s v s' :
  refs_fresh s → objects s !! r = Some o → o_isArray o = true →
  Vue_set dev ssr hidden iop wr n r (KIndex i) val s = Some (Ok v, s') →
  v = val
  ∧ (∃ o', objects s' !! r = Some o'
       ∧ o_items o' = <[i := val]> (o_items o ++ replicate (S i - length (o_items o)) VUndef)
       ∧ o_items o' !! i = Some val
       ∧ length (o_items o') = length (o_items o) `max` S i)
  ∧ match o_ob o with
    | Some ob =>
        (∃ t1 t2, trace s' = trace s ++ t1 ++ EvNotify (ob_dep ob) :: t2)
        ∧ ∀ r', val = VObj r' → eligible ssr r' s → observed r' s'
    | None => trace s' = trace s
    end.
Proof.
  intros Hf Ho Harr Hrun. destruct n as [|n]; [done|]. simpl in Hrun.
  rewrite bind_unfold in Hrun. unfold the_obj at 1 in Hrun. rewrite Ho, Harr in Hrun.
  rewrite bind_unfold in Hrun. unfold modify at 1 in Hrun.
  set (l0 := o_items o ++ replicate (i - length (o_items o)) VUndef) in *.
  set (s0 := upd_obj r _ s) in *.
  assert (objects s0 !! r = Some (set_o_items l0 o)) as Ho0.
  { subst s0. unfold upd_obj; simpl. by rewrite lookup_alter_eq, Ho. }
  assert (refs_fresh s0) as Hf0 by by apply refs_fresh_upd_obj.
  apply bind_Some in Hrun as [(res&s1&Hcall&[= <- <-])|(e&_&[=])].
  unfold call_method in Hcall. rewrite bind_unfold in Hcall.
  unfold the_obj at 1 in Hcall. rewrite Ho0 in Hcall.
  change (o_ob (set_o_items l0 o)) with (o_ob o) in Hcall.
  assert (∀ l, l = <[i := val]> (o_items o ++ replicate (S i - length (o_items o)) VUndef) →
               l !! i = Some val ∧ length l = length (o_items o) `max` S i) as Hlist.
  { intros l ->. split.
    - apply list_lookup_insert_eq. rewrite length_app, length_replicate. lia.
    - rewrite length_insert, length_app, length_replicate. lia. }
  split; [done|].
  destruct (o_ob o) as [ob|] eqn:Hob.
  - destruct (mutator_spec dev ssr n r _ (set_o_items l0 o) ob s0 res s1
                Hf0 Ho0 Hob Hcall) as ((o'&Ho'&Hitems&_)&_&Htrace&Hobs).
    cbn [o_items set_o_items] in Hitems. subst l0.
    rewrite splice_replace_one in Hitems.
    split; [exists o'; by destruct (Hlist _ Hitems)|]. split; [done|].
    intros r' -> Hel. apply Hobs; [simpl; constructor|].
    by apply (eligible_upd_items_fn ssr r
                (fun o => o_items o ++ replicate (i - length (o_items o)) VUndef)).
  - destruct (original_spec r _ (set_o_items l0 o) s0 _ s1 Hf0 Ho0 Hcall)
      as (_&Ht&Ho'&_).
    cbn [o_items set_o_items] in Ho'. subst l0. rewrite splice_replace_one in Ho'.
    split; [|done]. eexists. split; [exact Ho'|]. cbn [o_items set_o_items].
    split; [done|]. by apply Hlist.
Qed.

(** [del(target, key)] on an array, for a key that is an index, when it
    returns: the element at the index is gone and those behind it have
    moved up; an index past the end removes nothing. If the array has
    its observer, the Dep of the observer has been notified either way;
    if it has none, nothing is notified. *)
Theorem del_at_index dev ssr hidden n r i o s res s' :
  refs_fresh s → objects s !! r = Some o → o_isArray o = true →
  Vue_del dev ssr hidden n r (KIndex i) s = Some (Ok res, s') →
  (∃ o', objects s' !! r = Some o' ∧ o_items o' = delete i (o_items o))
  ∧ match o_ob o with
    | Some ob => ∃ t1 t2, trace s' = trace s ++ t1 ++ EvNotify (ob_dep ob) :: t2
    | None => trace s' = trace s
    end.
Proof.
  intros Hf Ho Harr Hrun. destruct n as [|n]; [done|]. simpl in Hrun.
  rewrite bind_unfold in Hrun. unfold the_obj at 1 in Hrun. rewrite Ho, Harr in Hrun.
  apply bind_Some in Hrun as [(v&s1&Hcall&[= <- <-])|(e&_&[=])].
  unfold call_method in Hcall. rewrite bind_unfold in Hcall.
  unfold the_obj at 1 in Hcall. rewrite Ho in Hcall.
  destruct (o_ob o) as [ob|] eqn:Hob.
  - destruct (mutator_spec dev ssr n r _ o ob s v s1 Hf Ho Hob Hcall)
      as ((o'&Ho'&Hitems&_)&_&Htrace&_).
    rewrite splice_remove_one in Hitems. split; [by exists o'|done].
  - destruct (original_spec r _ o s _ s1 Hf Ho Hcall) as (_&Ht&Ho'&_).
    rewrite splice_remove_one in Ho'. split; [|done]. by eexists.
Qed.

Lemma set_at_index_witness :
  let set := Vue_set true false (fun _ _ => false) (fun _ => false)
               (fun _ _ => true) 9 in
  let s1 := after (set 0 (KIndex 4) (VObj 1)) list_state in
  let s2 := after (set 2 (KIndex 0) (VNum 8)) list_state in
  set 0 (KIndex 4) (VObj 1) list_state = Some (Ok (VObj 1), s1)
  ∧ (o_items <$> objects s1 !! 0) = Some [VNum 1; VNum 2; VUndef; VUndef; VObj 1]
  ∧ observed 1 s1 ∧ trace s1 = [EvNotify 0]
  ∧ set 2 (KIndex 0) (VNum 8) list_state = Some (Ok (VNum 8), s2)
  ∧ (o_items <$> objects s2 !! 2) = Some [VNum 8] ∧ trace s2 = [].
Proof.
  intros set s1 s2.
  assert (set 0 (KIndex 4) (VObj 1) list_state = Some (Ok (VObj 1), s1)) as Hrun1
    by (vm_compute; reflexivity).
  assert (set 2 (KIndex 0) (VNum 8) list_state = Some (Ok (VNum 8), s2)) as Hrun2
    by (vm_compute; reflexivity).
  destruct (set_at_index _ _ _ _ _ _ 0 4 (VObj 1) _ list_state _ s1
              list_state_fresh eq_refl eq_refl Hrun1) as (_&_&_&Hobs).
  destruct (set_at_index _ _ _ _ _ _ 2 0 (VNum 8) _ list_state _ s2
              list_state_fresh eq_refl eq_refl Hrun2) as (_&_&Htrace).
  split_and!; [done|by vm_compute| |by vm_compute|done|by vm_compute|exact Htrace].
  apply (Hobs 1 eq_refl).
  eexists. split_and!; [reflexivity|done|right; by split_and!].
Defined.

Lemma del_at_index_witness :
  let del := Vue_del true false (fun _ _ => false) 9 in
  let s1 := after (del 0 (KIndex 0)) list_state in
  let s2 := after (del 0 (KIndex 5)) list_state in
  del 0 (KIndex 0) list_state = Some (Ok tt, s1)
  ∧ (o_items <$> objects s1 !! 0) = Some [VNum 2] ∧ trace s1 = [EvNotify 0]
  ∧ del 0 (KIndex 5) list_state = Some (Ok tt, s2)
  ∧ (o_items <$> objects s2 !! 0) = Some [VNum 1; VNum 2] ∧ trace s2 = [EvNotify 0].
Proof.
  intros del s1 s2.
  assert (del 0 (KIndex 0) list_state = Some (Ok tt, s1)) as Hrun1
    by (vm_compute; reflexivity).
  assert (del 0 (KIndex 5) list_state = Some (Ok tt, s2)) as Hrun2
    by (vm_compute; reflexivity).
  destruct (del_at_index _ _ _ _ 0 0 _ list_state _ s1
              list_state_fresh eq_refl eq_refl Hrun1) as ((o1&Ho1&Hitems1)&_).
  destruct (del_at_index _ _ _ _ 0 5 _ list_state _ s2
              list_state_fresh eq_refl eq_refl Hrun2) as ((o2&Ho2&Hitems2)&_).
  split_and!; [done| |by vm_compute|done| |by vm_compute].
  - rewrite Ho1. simpl. by rewrite Hitems1.
  - rewrite Ho2. simpl. by rewrite Hitems2.
Defined.

(** ** [set] and [del] on an object *)

Lemma slot_of_None k o : slot_of k o = None → k ∉ (o_keys o).*1.
Proof.
  unfold slot_of. destruct (list_find _ _) as [[i [k0 x]]|] eqn:Hfind; [done|].
  intros _ (kv&->&Hin)%list_elem_of_fmap.
  apply list_find_None in Hfind. rewrite Forall_forall in Hfind. by apply (Hfind kv).
Qed.

Lemma put_slot_fst_new k sl l : k ∉ l.*1 → (put_slot k sl l).*1 = l.*1 ++ [k].
Proof.
  induction l as [|[k0 x] l IH]; simpl; [done|].
  intros Hnin. destruct (decide (k0 = k)) as [->|Hne]; [set_solver|].
  rewrite !fmap_cons. simpl. f_equal. apply IH. set_solver.
Qed.

Lemma slot_of_filter k k' o o' :
  o_keys o' = filter (fun kv => kv.1 ≠ k) (o_keys o) →
  slot_of k' o' = if decide (k' = k) then None else slot_of k' o.
Proof.
  unfold slot_of. intros ->. induction (o_keys o) as [|[k0 x] l IH]; simpl.
  - by case_decide.
  - rewrite filter_cons. simpl. destruct (decide (k0 ≠ k)) as [Hne|Heq]; simpl.
    + destruct (decide (k0 = k')) as [->|Hne'].
      * by rewrite decide_False by done.
      * destruct (decide (k' = k)) as [->|].
        -- destruct (list_find _ (filter _ l)) as [[i [k1 x1]]|]; simplify_eq/=; done.
        -- destruct (list_find _ (filter _ l)) as [[i [k1 x1]]|];
             destruct (list_find _ l) as [[j [k2 x2]]|]; simplify_eq/=; done.
    + apply dec_stable in Heq. subst k0.
      destruct (decide (k = k')) as [<-|Hne'].
      * by rewrite decide_True in * by done.
      * rewrite decide_False in * by done.
        destruct (list_find _ (filter _ l)) as [[i [k1 x1]]|];
          destruct (list_find _ l) as [[j [k2 x2]]|]; simplify_eq/=; done.
Qed.


(** [set] and [del] change nothing of a component or of the data of a
    component ([vmCount] above 0): [set] of a key that the object does
    not have returns [val] and leaves the object without the key, and
    [del] leaves every property where it is; neither notifies. *)
Theorem root_is_closed dev ssr hidden iop wr n r key val o s :
  objects s !! r = Some o → o_isArray o = false →
  o_isVue o || is_root o = true →
  (slot_of (key_name key) o = None → hidden r (key_name key) = false →
   Vue_set dev ssr hidden iop wr (S n) r key val s = Some (Ok val, s))
  ∧ Vue_del dev ssr hidden (S n) r key s = Some (Ok tt, s).
Proof.
  intros Ho Harr Hroot. split.
  - intros Hslot Hhid. simpl.
    rewrite bind_unfold. unfold the_obj at 1. rewrite Ho, Harr.
    destruct key as [i|k]; simpl in *; by rewrite Hslot, Hhid, Hroot.
  - simpl. rewrite bind_unfold. unfold the_obj at 1. rewrite Ho, Harr.
    destruct key as [i|k]; simpl in *; by rewrite Hroot.
Qed.

(** [del(target, key)] on an object that is no array, no component and
    not the data of one. A key that the object does not have: nothing
    happens. A property that is not configurable: [delete] throws, and
    nothing has changed. Otherwise, when the call returns, the property
    is gone and the others are as they were; and the Dep of the observer
    has been notified if the object has one, nothing if not. *)
Theorem del_key dev ssr hidden n r key o s :
  refs_fresh s → objects s !! r = Some o → o_isArray o = false →
  o_isVue o || is_root o = false →
  (slot_of (key_name key) o = None → hidden r (key_name key) = false →
   Vue_del dev ssr hidden (S n) r key s = Some (Ok tt, s))
  ∧ (∀ sl, slot_of (key_name key) o = Some sl → configurable sl = false →
     Vue_del dev ssr hidden (S n) r key s = Some (Thrown "TypeError", s))
  ∧ (∀ sl res s', slot_of (key_name key) o = Some sl → configurable sl = true →
     Vue_del dev ssr hidden n r key s = Some (Ok res, s') →
     (∃ o', objects s' !! r = Some o'
        ∧ ∀ k, slot_of k o' = if decide (k = key_name key) then None else slot_of k o)
     ∧ match o_ob o with
       | Some ob => ∃ t, trace s' = trace s ++ EvNotify (ob_dep ob) :: t
       | None => s' = upd_obj r (fun o =>
                        set_o_keys (filter (fun kv => kv.1 ≠ key_name key) (o_keys o)) o) s
       end).
Proof.
  intros Hf Ho Harr Hroot.
  assert (∀ m, Vue_del dev ssr hidden (S m) r key s =
     match slot_of (key_name key) o with
     | None => if hidden r (key_name key) then no_result else ret tt
     | Some sl =>
         if configurable sl then
           modify (upd_obj r (fun o =>
             set_o_keys (filter (fun kv => kv.1 ≠ key_name key) (o_keys o)) o)) ;;;
           match o_ob o with
           | Some ob => Dep_notify dev ssr m (ob_dep ob)
           | None => ret tt
           end
         else throw "TypeError"
     end s) as Hdel.
  { intros m. simpl. rewrite bind_unfold. unfold the_obj at 1. rewrite Ho, Harr.
    destruct key as [i|k]; simpl in *; by rewrite Hroot. }
  split_and!.
  - intros Hslot Hhid. by rewrite Hdel, Hslot, Hhid.
  - intros sl Hslot Hconf. by rewrite Hdel, Hslot, Hconf.
  - intros sl res s' Hslot Hconf Hrun. destruct n as [|n]; [done|].
    rewrite Hdel, Hslot, Hconf in Hrun.
    rewrite bind_unfold in Hrun. unfold modify at 1 in Hrun.
    set (s1 := upd_obj r _ s) in *.
    set (o1 := set_o_keys (filter (fun kv => kv.1 ≠ key_name key) (o_keys o)) o).
    assert (objects s1 !! r = Some o1) as Ho1.
    { subst s1. unfold upd_obj; simpl. by rewrite lookup_alter_eq, Ho. }
    assert (refs_fresh s1) as Hf1 by by apply refs_fresh_upd_obj.
    destruct (o_ob o) as [ob|] eqn:Hob.
    + destruct (notify_first dev ssr n (ob_dep ob) s1 _ s' Hrun) as (Hk&t&Ht).
      destruct (Hk Hf1) as (_&_&_&Hobjs).
      destruct (Hobjs r o1 Ho1) as (o'&Ho'&_&Hob').
      destruct Hob' as [_ Hkeys']; [exists ob; exact Hob|]. specialize (Hkeys' ltac:(done)).
      split; [|by exists t]. exists o'. split; [done|]. intros k.
      unfold slot_of. rewrite Hkeys'. fold (slot_of k o1).
      by apply slot_of_filter.
    + injection Hrun as <- <-. split; [|done]. exists o1. split; [done|].
      intros k. by apply slot_of_filter.
Qed.


Lemma form_state_fresh : refs_fresh form_state.
Proof.
  intros r [x Hx]. destruct (decide (r < 3)) as [|Hge]; [done|].
  exfalso. unfold form_state in Hx. simpl in Hx.
  rewrite !lookup_insert_ne, lookup_singleton_ne in Hx by lia. done.
Qed.


Lemma root_is_closed_witness :
  Vue_set true false (fun _ _ => false) (fun _ => false)
    (fun _ _ => true) 9 1 (KName "b") (VNum 2) form_state
  = Some (Ok (VNum 2), form_state)
  ∧ Vue_del true false (fun _ _ => false) 9 1 (KName "a") form_state
    = Some (Ok tt, form_state).
Proof.
  destruct (root_is_closed true false (fun _ _ => false) (fun _ => false)
              (fun _ _ => true) 8 1 (KName "b") (VNum 2) _ form_state
              eq_refl eq_refl eq_refl) as [Hset _].
  destruct (root_is_closed true false (fun _ _ => false) (fun _ => false)
              (fun _ _ => true) 8 1 (KName "a") (VNum 2) _ form_state
              eq_refl eq_refl eq_refl) as [_ Hdel].
  split; [by apply Hset|exact Hdel].
Defined.

Lemma del_key_witness :
  let del := Vue_del true false (fun _ _ => false) 9 in
  let s1 := after (del 0 (KName "a")) form_state in
  del 0 (KName "a") form_state = Some (Ok tt, s1)
  ∧ (o_keys <$> objects s1 !! 0) = Some [("fixed", SData (VNum 3) false)]
  ∧ trace s1 = [EvNotify 1] ∧ queue s1 = [1]
  ∧ del 0 (KName "fixed") form_state = Some (Thrown "TypeError", form_state)
  ∧ del 0 (KName "z") form_state = Some (Ok tt, form_state).
Proof.
  intros del s1.
  assert (del 0 (KName "a") form_state = Some (Ok tt, s1)) as Hrun
    by (vm_compute; reflexivity).
  destruct (del_key true false (fun _ _ => false) 8 0 (KName "fixed")
              _ form_state form_state_fresh eq_refl eq_refl eq_refl) as (_&Hfixed&_).
  destruct (del_key true false (fun _ _ => false) 8 0 (KName "z")
              _ form_state form_state_fresh eq_refl eq_refl eq_refl) as (Hmissing&_&_).
  destruct (del_key true false (fun _ _ => false) 9 0 (KName "a")
              _ form_state form_state_fresh eq_refl eq_refl eq_refl) as (_&_&Hgone).
  destruct (Hgone _ _ s1 eq_refl eq_refl Hrun) as (_&t&Ht).
  split_and!; [done|by vm_compute|by vm_compute|by vm_compute| |].
  - exact (Hfixed _ eq_refl eq_refl).
  - exact (Hmissing eq_refl eq_refl).
Defined.


(** ** Reads *)

Lemma reads_grow_preorder w : PreOrder (reads_grow w).
Proof.
  split.
  - intros s. split_and!; [done..|]. intros W HW. by exists W.
  - intros s1 s2 s3 (Ht1&Htr1&Ho1&Hp1&Hs1&HW1) (Ht2&Htr2&Ho2&Hp2&Hs2&HW2).
    split_and!; [congruence..| |].
    + intros d x Hx. by apply Hs2, Hs1.
    + intros W HW. destruct (HW1 W HW) as (W1&HW1'&Hd1&Hn1).
      destruct (HW2 W1 HW1') as (W2&HW2'&Hd2&Hn2).
      exists W2. split_and!; [done|congruence|set_solver].
Qed.

Lemma reached_kept w d s s' : reads_grow w s s' → reached w d s → reached w d s'.
Proof.
  intros (_&_&_&_&Hs&HW) (W&HWs&Hin&Hsub).
  destruct (HW W HWs) as (W'&HW'&Hd&Hn).
  exists W'. split_and!; [done|set_solver|].
  destruct Hsub as [?|?]; [left; congruence|right; by apply Hs].
Qed.

(** [dep.depend()] while [w] is the target. *)
Lemma depend_reaches w W d s :
  target s = Some w → watchers s !! w = Some W → collected w s →
  let s' := Dep_depend d s in
  reads_grow w s s' ∧ collected w s' ∧ reached w d s'.
Proof.
  intros Ht HW Hcol s'.
  assert (s' = Watcher_addDep w d s) as Hs' by (subst s'; unfold Dep_depend; by rewrite Ht).
  destruct (addDep_spec w d s W HW) as (W'&HW'&Hd&_&Hn&_&Ht'&_&Htr'&Hsubs).
  rewrite <- Hs' in *. cbv zeta in *.
  assert (objects s' = objects s ∧ props s' = props s) as [Ho Hp].
  { rewrite Hs'. unfold Watcher_addDep. rewrite HW. case_decide; [done|]. by case_decide. }
  assert (reads_grow w s s') as Hgrow.
  { split_and!; [by rewrite Ht'|done..| |].
    - intros d' x Hx. rewrite Hsubs.
      destruct (decide _) as [(->&_)|_]; [|done]. apply elem_of_app. by left.
    - intros W0 HW0. rewrite HW in HW0. injection HW0 as <-.
      exists W'. split_and!; [done..|set_solver]. }
  assert (reached w d s') as Hreach.
  { destruct (decide (d ∈ w_newDepIds W)) as [Hin|Hnin].
    - eapply reached_kept; [done|]. by eapply Hcol.
    - exists W'. split_and!; [done|set_solver|].
      destruct (decide (d ∈ w_depIds W)) as [Hold|Hnew]; [left; congruence|right].
      rewrite Hsubs, decide_True by done. set_solver. }
  split_and!; [done| |done].
  intros W0 d' HW0 Hin. rewrite HW' in HW0. injection HW0 as <-.
  rewrite Hn in Hin. apply elem_of_union in Hin as [->%elem_of_singleton|Hin]; [done|].
  eapply reached_kept; [done|]. by eapply Hcol.
Qed.

Lemma nested_same s s' v r : objects s' = objects s → nested s v r → nested s' v r.
Proof.
  intros Ho. induction 1 as [a oa r Ha Harr Hin|a oa r r' Ha Harr Hin _ IH].
  - eapply nested_here; [by rewrite Ho|done..].
  - eapply nested_deeper; [by rewrite Ho|done..].
Qed.

(** [dependArray(value)] while [w] is the target. *)
Lemma dependArray_reaches w n : ∀ v s res s',
  target s = Some w → is_Some (watchers s !! w) → collected w s →
  dependArray n v s = Some (res, s') →
  res = Ok tt ∧ reads_grow w s s' ∧ collected w s'
  ∧ ∀ r o ob, nested s v r → objects s !! r = Some o → o_ob o = Some ob →
              reached w (ob_dep ob) s'.
Proof.
  pose proof (reads_grow_preorder w) as Hpre.
  induction n as [|n IH]; intros v s res s' Ht HWs Hcol Hrun; [done|].
  simpl in Hrun. destruct v as [| | | | | |a];
    try (injection Hrun as <- <-; split_and!; [done|reflexivity|done|];
         intros r o ob Hn; inversion Hn).
  rewrite bind_unfold in Hrun. unfold the_obj at 1 in Hrun.
  destruct (objects s !! a) as [oa|] eqn:Ha; [|done].
  destruct (o_isArray oa) eqn:Harr; simpl in Hrun.
  2: { injection Hrun as <- <-. split_and!; [done|reflexivity|done|].
       intros r o ob Hn.
       inversion Hn as [? ? ? Ha' Harr' ?|? ? ? ? Ha' Harr' ? ?];
         rewrite Ha in Ha'; injection Ha' as <-; congruence. }
  (* the loop, over any part of the elements *)
  assert (∀ items s0 res s',
    target s0 = Some w → is_Some (watchers s0 !! w) → collected w s0 →
    objects s0 = objects s →
    for_each items (fun e =>
      match e with
      | VObj r' =>
          o' <- the_obj r' ;;
          match o_ob o' with
          | Some ob => modify (Dep_depend (ob_dep ob))
          | None => ret tt
          end ;;;
          dependArray n e
      | _ => ret tt
      end) s0 = Some (res, s') →
    res = Ok tt ∧ reads_grow w s0 s' ∧ collected w s'
    ∧ ∀ e, e ∈ items →
        (∀ r o ob, e = VObj r → objects s !! r = Some o → o_ob o = Some ob →
                   reached w (ob_dep ob) s')
        ∧ ∀ r o ob, nested s e r → objects s !! r = Some o → o_ob o = Some ob →
                    reached w (ob_dep ob) s') as Hloop.
  { clear Hrun res s' Ht HWs Hcol.
    induction items as [|e items IHl]; intros s0 res s' Ht [W0 HW0] Hcol Hobj Hrun.
    { injection Hrun as <- <-. split_and!; [done|reflexivity|done|].
      by intros e ?%elem_of_nil. }
    simpl in Hrun.
    (* one element *)
    assert (∀ res1 s1,
      match e with
      | VObj r' =>
          o' <- the_obj r' ;;
          match o_ob o' with
          | Some ob => modify (Dep_depend (ob_dep ob))
          | None => ret tt
          end ;;;
          dependArray n e
      | _ => ret tt
      end s0 = Some (res1, s1) →
      res1 = Ok tt ∧ reads_grow w s0 s1 ∧ collected w s1
      ∧ (∀ r o ob, e = VObj r → objects s !! r = Some o → o_ob o = Some ob →
                   reached w (ob_dep ob) s1)
      ∧ ∀ r o ob, nested s e r → objects s !! r = Some o → o_ob o = Some ob →
                  reached w (ob_dep ob) s1) as Hone.
    { intros res1 s1 Hrun1.
      destruct e as [| | | | | |r'];
        try (injection Hrun1 as <- <-; split_and!; [done|reflexivity|done|done|];
             intros r o ob Hn; inversion Hn).
      rewrite bind_unfold in Hrun1. unfold the_obj at 1 in Hrun1.
      destruct (objects s0 !! r') as [o'|] eqn:Ho'; [|done].
      rewrite bind_unfold in Hrun1.
      assert (∃ s2, match o_ob o' with
                    | Some ob => modify (Dep_depend (ob_dep ob))
                    | None => ret tt
                    end s0 = Some (Ok tt, s2)
                    ∧ reads_grow w s0 s2 ∧ collected w s2
                    ∧ ∀ ob, o_ob o' = Some ob → reached w (ob_dep ob) s2)
        as (s2&Hs2&Hg2&Hc2&Hr2).
      { destruct (o_ob o') as [ob|].
        - eexists. split; [done|].
          destruct (depend_reaches w W0 (ob_dep ob) s0 Ht HW0 Hcol) as (?&?&?).
          split_and!; [done..|]. by intros ? [= <-].
        - exists s0. split_and!; [done|reflexivity|done|done]. }
      rewrite Hs2 in Hrun1.
      destruct Hg2 as (Ht2&Htr2&Ho2&Hp2&Hsub2&HW2).
      destruct (HW2 W0 HW0) as (W2&HW2'&_).
      destruct (IH (VObj r') s2 res1 s1) as (->&Hg3&Hc3&Hn3);
        [congruence|by eexists|done|done|].
      assert (reads_grow w s0 s2) as Hg2 by by split_and!.
      split_and!; [done|by etrans|done| |].
      - intros r o ob [= <-] Ho Hob. eapply reached_kept; [exact Hg3|].
        apply Hr2. rewrite Hobj, Ho in Ho'. by injection Ho' as <-.
      - intros r o ob Hn Ho Hob. apply (Hn3 r o ob); [|congruence..].
        apply nested_same with s; [congruence|done]. }
    apply bind_Some in Hrun as [([]&s1&Hrun1&Hrest)|(e0&Hrun1&_)].
    2: { by destruct (Hone _ _ Hrun1) as ([=]&_). }
    destruct (Hone _ _ Hrun1) as (_&Hg1&Hc1&Hself&Hnest).
    destruct Hg1 as (Ht1&Htr1&Ho1&Hp1&Hsub1&HW1).
    destruct (HW1 W0 HW0) as (W1&HW1'&_).
    destruct (IHl s1 res s') as (->&Hg2&Hc2&Hitems); [congruence|by eexists|done|congruence|done|].
    assert (reads_grow w s0 s1) as Hg1 by by split_and!.
    split_and!; [done|by etrans|done|].
    intros e' [->|Hin]%elem_of_cons.
    - split; intros r o ob ???; (eapply reached_kept; [exact Hg2|]); eauto.
    - by apply Hitems. }
  destruct (Hloop _ _ _ _ Ht HWs Hcol eq_refl Hrun) as (->&Hg&Hc&Hitems).
  split_and!; [done..|].
  intros r o ob Hn Ho Hob. inversion Hn as [a' oa' r0 Ha' Harr' Hin|a' oa' r0 r1 Ha' Harr' Hin Hdeep];
    simplify_eq.
  - by apply (proj1 (Hitems _ Hin) r o ob).
  - by apply (proj2 (Hitems _ Hin) r o ob).
Qed.


(** A read of a reactive property that has no getter of its own, when
    it returns, returns the value. Outside the evaluation of a watcher
    it changes nothing. During the evaluation of the watcher [w] it only
    adds to what [w] has collected and to lists of subscribers; [w] has
    then collected the Dep of the property, the Dep of the observer of
    the value, and, of an array, the Dep of the observer of every
    container among its elements, however deeply nested; and [w] is a
    subscriber of each of them, unless it has it from the evaluation
    before. *)
Theorem read_subscribes dev ssr n p P s :
  props s !! p = Some P → p_getter P = None →
  (target s = None → reactiveGetter dev ssr (S n) p s = Some (Ok (p_val P), s))
  ∧ ∀ w res s', target s = Some w → is_Some (watchers s !! w) → collected w s →
      reactiveGetter dev ssr n p s = Some (res, s') →
      res = Ok (p_val P) ∧ reads_grow w s s' ∧ collected w s'
      ∧ reached w (p_dep P) s'
      ∧ ∀ c oc obc, p_childOb P = Some c → objects s !! c = Some oc → o_ob oc = Some obc →
          reached w (ob_dep obc) s'
          ∧ ∀ r o ob, nested s (p_val P) r → objects s !! r = Some o → o_ob o = Some ob →
                      reached w (ob_dep ob) s'.
Proof.
  intros HP Hg. split.
  - intros Ht. simpl. rewrite bind_unfold. unfold the_prop at 1. rewrite HP, Hg.
    rewrite bind_unfold. unfold ret at 1. rewrite bind_unfold. unfold gets at 1.
    by rewrite Ht.
  - intros w res s' Ht [W HW] Hcol Hrun.
    pose proof (reads_grow_preorder w) as Hpre.
    destruct n as [|n]; [done|]. simpl in Hrun.
    rewrite bind_unfold in Hrun. unfold the_prop at 1 in Hrun. rewrite HP, Hg in Hrun.
    rewrite bind_unfold in Hrun. unfold ret at 1 in Hrun.
    rewrite bind_unfold in Hrun. unfold gets at 1 in Hrun. rewrite Ht in Hrun.
    assert (∀ r0 s3,
      (modify (Dep_depend (p_dep P)) ;;;
       P1 <- the_prop p ;;
       match p_childOb P1 with
       | Some r =>
           o <- the_obj r ;;
           match o_ob o with
           | Some ob => modify (Dep_depend (ob_dep ob))
           | None => ret tt
           end ;;;
           dependArray n (p_val P)
       | None => ret tt
       end) s = Some (r0, s3) →
      r0 = Ok tt ∧ reads_grow w s s3 ∧ collected w s3
      ∧ reached w (p_dep P) s3
      ∧ ∀ c oc obc, p_childOb P = Some c → objects s !! c = Some oc → o_ob oc = Some obc →
          reached w (ob_dep obc) s3
          ∧ ∀ r o ob, nested s (p_val P) r → objects s !! r = Some o → o_ob o = Some ob →
                      reached w (ob_dep ob) s3) as Hin.
    { intros r0 s3 HA.
      rewrite bind_unfold in HA. unfold modify at 1 in HA.
      destruct (depend_reaches w W (p_dep P) s Ht HW Hcol) as (Hg1&Hc1&Hr1).
      set (s1 := Dep_depend (p_dep P) s) in *.
      destruct Hg1 as (Ht1&Htr1&Ho1&Hp1&Hsub1&HW1).
      destruct (HW1 W HW) as (W1&HW1'&_).
      assert (reads_grow w s s1) as Hg1 by by split_and!.
      rewrite bind_unfold in HA. unfold the_prop at 1 in HA. rewrite Hp1, HP in HA.
      destruct (p_childOb P) as [c|] eqn:Hchild.
      2: { injection HA as <- <-. split_and!; [done..|]. by intros c oc obc [=]. }
      rewrite bind_unfold in HA. unfold the_obj at 1 in HA. rewrite Ho1 in HA.
      destruct (objects s !! c) as [oc|] eqn:Hoc; [|done].
      assert (∃ s2, match o_ob oc with
                    | Some ob => modify (Dep_depend (ob_dep ob))
                    | None => ret tt
                    end s1 = Some (Ok tt, s2)
                    ∧ reads_grow w s1 s2 ∧ collected w s2
                    ∧ ∀ ob, o_ob oc = Some ob → reached w (ob_dep ob) s2)
        as (s2&Hs2&Hg2&Hc2&Hr2).
      { destruct (o_ob oc) as [ob|].
        - eexists. split; [done|].
          destruct (depend_reaches w W1 (ob_dep ob) s1) as (?&?&?); [congruence|done..|].
          split_and!; [done..|]. by intros ? [= <-].
        - exists s1. split_and!; [done|reflexivity|done|done]. }
      rewrite bind_unfold, Hs2 in HA.
      destruct Hg2 as (Ht2&Htr2&Ho2&Hp2&Hsub2&HW2).
      destruct (HW2 W1 HW1') as (W2&HW2'&_).
      assert (reads_grow w s1 s2) as Hg2 by by split_and!.
      destruct (dependArray_reaches w n (p_val P) s2 r0 s3) as (->&Hg3&Hc3&Hn3);
        [congruence|by eexists|done|done|].
      split_and!; [done|by do 2 (etrans; [eassumption|])|done| |].
      + eapply reached_kept; [exact Hg3|]. by eapply reached_kept.
      + intros c' oc' obc [= <-] Hoc' Hobc. rewrite Hoc in Hoc'. injection Hoc' as <-.
        split.
        * eapply reached_kept; [exact Hg3|]. by apply Hr2.
        * intros r o ob Hn Ho Hob. apply (Hn3 r o ob); [|congruence..].
          apply nested_same with s; [congruence|done]. }
    apply bind_Some in Hrun as [([]&s3&HA&[= <- <-])|(e&HA&_)].
    + by destruct (Hin _ _ HA) as (_&?).
    + by destruct (Hin _ _ HA) as ([=]&_).
Qed.

Lemma read_subscribes_witness :
  let s' := after (reactiveGetter true false 9 0) reading_state in
  reactiveGetter true false 9 0 reading_state = Some (Ok (VObj 0), s')
  ∧ (w_newDeps <$> watchers s' !! 1) = Some [1; 0; 3]
  ∧ reached 1 1 s' ∧ reached 1 0 s' ∧ reached 1 3 s'
  ∧ subsOf 0 s' = [1] ∧ subsOf 1 s' = [1] ∧ subsOf 3 s' = [1] ∧ subsOf 2 s' = [].
Proof.
  intros s'.
  assert (reactiveGetter true false 9 0 reading_state
          = Some (Ok (VObj 0), s')) as Hrun by (vm_compute; reflexivity).
  assert (collected 1 reading_state) as Hcol.
  { intros W d [= <-] Hin. simpl in Hin. by apply elem_of_empty in Hin. }
  destruct (read_subscribes true false 9 0 _ reading_state
              eq_refl eq_refl) as [_ Hread].
  destruct (Hread 1 _ s' eq_refl ltac:(by eexists) Hcol Hrun) as (_&_&_&Hdep&Hchild).
  destruct (Hchild 0
              (mkObj false true false true false false (Some (mkObserver 0 0)) [] [VObj 1; VNum 2])
              (mkObserver 0 0) eq_refl eq_refl eq_refl) as [Hob Hnested].
  split_and!; [done|by vm_compute|done|done| |by vm_compute..].
  apply (Hnested 1
           (mkObj false false true true false false (Some (mkObserver 3 0)) [("c", SReactive 2)] [])
           (mkObserver 3 0)); [|reflexivity|reflexivity].
  eapply nested_here; [reflexivity|reflexivity|]. simpl. constructor.
Defined.


(** ** The stack of targets *)

(** [pushTarget] followed by [popTarget] leaves the state as it was
    when there is a target, and when there is neither a target nor a
    saved one. With no target and a saved one, [pushTarget] saves
    nothing, and [popTarget] then takes the saved target off the stack
    and makes it the target. *)
Theorem push_pop_round_trip t s :
  (is_Some (target s) ∨ targetStack s = [] → popTarget (pushTarget t s) = s)
  ∧ (∀ w st, target s = None → targetStack s = w :: st →
       target (popTarget (pushTarget t s)) = Some w
       ∧ targetStack (popTarget (pushTarget t s)) = st).
Proof.
  unfold popTarget, pushTarget. split.
  - destruct s as [? ? ? ? tg stk ? ? ? ? ? ? ? ? ? ? ? ? ? ?]. simpl.
    intros [[w ->]| ->]; simpl; [done|]. by destruct tg.
  - intros w st -> Hst. simpl. rewrite Hst. done.
Qed.

Lemma push_pop_round_trip_witness :
  popTarget (pushTarget None reading_state) = reading_state
  ∧ target (popTarget (pushTarget (Some 2) (set_targetStack [1] blank))) = Some 1.
Proof.
  split.
  - apply (proj1 (push_pop_round_trip None reading_state)). left. by eexists.
  - by apply (proj2 (push_pop_round_trip (Some 2) (set_targetStack [1] blank)) 1 []).
Defined.


(** ** The [updated] hooks of a flush *)

Lemma vm_static_preorder : PreOrder vm_static.
Proof.
  split.
  - intros s. split; intros x X HX; by exists X.
  - intros s1 s2 s3 [Hv1 Hw1] [Hv2 Hw2]. split.
    + intros v V HV. destruct (Hv1 v V HV) as (V1&HV1&?&?&?).
      destruct (Hv2 v V1 HV1) as (V2&HV2&?&?&?). exists V2.
      split_and!; [done|congruence..].
    + intros w W HW. destruct (Hw1 w W HW) as (W1&HW1&?).
      destruct (Hw2 w W1 HW1) as (W2&HW2&?). exists W2. split; [done|congruence].
Qed.

Lemma vm_static_same s s' :
  vms s' = vms s → watchers s' = watchers s → vm_static s s'.
Proof. intros Hv Hw. split; intros x X HX; exists X; by rewrite ?Hv, ?Hw. Qed.

Lemma vm_static_watchers s s' :
  vms s' = vms s →
  (∀ w W, watchers s !! w = Some W →
     ∃ W', watchers s' !! w = Some W' ∧ w_vm W' = w_vm W) →
  vm_static s s'.
Proof. intros Hv Hw. split; [|done]. intros x X HX. exists X. by rewrite Hv. Qed.

Lemma vm_static_upd_watcher w f s :
  (∀ W, w_vm (f W) = w_vm W) → vm_static s (upd_watcher w f s).
Proof.
  intros Hf. apply vm_static_watchers; [done|]. intros x X HX.
  unfold upd_watcher; simpl. destruct (decide (x = w)) as [->|Hne].
  - rewrite lookup_alter_eq, HX. simpl. by eexists.
  - rewrite lookup_alter_ne by done. by exists X.
Qed.

Lemma vm_static_insert w W0 W1 s s1 :
  watchers s !! w = Some W0 → w_vm W1 = w_vm W0 →
  vms s1 = vms s → watchers s1 = watchers s →
  vm_static s (set_watchers (<[w := W1]> (watchers s1)) s1).
Proof.
  intros HW0 Hvm Hv Hw. apply vm_static_watchers; [done|]. intros x X HX. simpl.
  destruct (decide (x = w)) as [->|Hne].
  - rewrite lookup_insert_eq. eexists. split; [done|]. congruence.
  - rewrite lookup_insert_ne by done. exists X. by rewrite Hw.
Qed.

Lemma vm_static_addDep w d s : vm_static s (Watcher_addDep w d s).
Proof.
  unfold Watcher_addDep. destruct (watchers s !! w) as [W|] eqn:HW;
    [|by apply vm_static_same].
  case_decide; [by apply vm_static_same|].
  case_decide; by eapply (vm_static_insert w W _ s s).
Qed.

Lemma vm_static_depend d s : vm_static s (Dep_depend d s).
Proof.
  unfold Dep_depend. destruct (target s); [apply vm_static_addDep|by apply vm_static_same].
Qed.

Lemma vm_static_respects : respects vm_static (fun _ => true).
Proof.
  pose proof vm_static_preorder as Hpre.
  split.
  - done.
  - intros t s. apply vm_static_same; unfold pushTarget; by destruct (target s).
  - intros s. apply vm_static_same; unfold popTarget; by destruct (targetStack s).
  - intros x s. by apply vm_static_same.
  - apply vm_static_depend.
  - intros w s. rewrite cleanupDeps_unfold. destruct (watchers s !! w) as [W|] eqn:HW;
      [|by apply vm_static_same].
    destruct (unsubscribe_frame w (w_newDepIds W) (reverse (w_deps W)) s)
      as (Hw&_&_&Hv&_).
    cbv zeta. set (s1 := unsubscribe _ _ _ s) in *.
    apply vm_static_watchers; [done|]. intros x X HX. simpl.
    destruct (decide (x = w)) as [->|Hne].
    + rewrite lookup_insert_eq. eexists. split; [done|]. simpl. congruence.
    + rewrite lookup_insert_ne by done. exists X. by rewrite Hw.
  - intros w s. rewrite teardown_unfold. destruct (watchers s !! w) as [W|] eqn:HW;
      [|by apply vm_static_same].
    destruct (w_active W); [|by apply vm_static_same]. cbv zeta.
    set (s1 := match vms s !! _ with Some _ => _ | None => _ end).
    assert (watchers s1 = watchers s
            ∧ ∀ v V, vms s !! v = Some V →
                ∃ V', vms s1 !! v = Some V' ∧ vm_watcher V' = vm_watcher V
                      ∧ vm_isMounted V' = vm_isMounted V ∧ vm_hooks V' = vm_hooks V)
      as [Hw1 Hv1].
    { subst s1. destruct (vms s !! w_vm W) as [V0|] eqn:HV0; [|split; [done|by eauto]].
      destruct (vm_isBeingDestroyed V0); [split; [done|by eauto]|].
      split; [done|]. intros v V HV. simpl. destruct (decide (v = w_vm W)) as [->|Hne].
      - rewrite lookup_insert_eq. eexists. split; [done|]. rewrite HV0 in HV.
        by injection HV as <-.
      - rewrite lookup_insert_ne by done. by eauto. }
    destruct (unsubscribe_frame w ∅ (reverse (w_deps W)) s1) as (Hw&_&_&Hv&_).
    set (s2 := unsubscribe _ _ _ s1) in *.
    split.
    + intros v V HV. simpl. rewrite Hv. by apply Hv1.
    + intros x X HX. simpl. destruct (decide (x = w)) as [->|Hne].
      * rewrite lookup_insert_eq. eexists. split; [done|]. simpl. congruence.
      * rewrite lookup_insert_ne by done. exists X. by rewrite Hw, Hw1.
  - intros w v s. by apply vm_static_upd_watcher.
  - intros w s. by apply vm_static_upd_watcher.
  - intros w s. destruct (queueWatcher_frame w s) as (Hw&_).
    destruct (queueWatcher_store w s) as (_&_&Hv&_). by apply vm_static_same.
  - intros p f s. by apply vm_static_same.
  - intros x d s. by apply vm_static_same.
  - intros x s. by apply vm_static_same.
  - intros x key d s. by apply vm_static_same.
  - intros d P s. by apply vm_static_same.
  - intros s. by apply vm_static_same.
  - intros s. by apply vm_static_same.
  - intros e s _. by apply vm_static_same.
  - done.
Qed.

Lemma updated_of_static s s' w : vm_static s s' →
  is_Some (watchers s !! w) → (∀ W, watchers s !! w = Some W → is_Some (vms s !! w_vm W)) →
  updated_of s' w = updated_of s w.
Proof.
  intros [Hv Hw] [W HW] HV. destruct (HV W HW) as [V HVs].
  destruct (Hw w W HW) as (W'&HW'&Hvm). destruct (Hv _ V HVs) as (V'&HV'&Hwt&Hm&_).
  unfold updated_of. rewrite HW, HW', Hvm, HVs, HV'. by rewrite Hwt, Hm.
Qed.

(** The loop of [callUpdatedHooks], entered in a state [s] that the
    engine reaches from [s0]. *)
Lemma updated_loop dev ssr n s0 l : ∀ s r s',
  vm_static s0 s →
  for_each l (fun w =>
    W <- the_watcher w ;;
    V <- the_vm (w_vm W) ;;
    when (bool_decide (vm_watcher V = Some w) && vm_isMounted V)
      (callHook dev ssr n (w_vm W) "updated")) s = Some (r, s') →
  r = Ok tt
  ∧ ∃ t, trace s' = trace s ++ t
         ∧ concat (hook_calls s0 "updated" <$> omap (updated_of s0) l) `sublist_of` t.
Proof.
  pose proof vm_static_preorder as Hpre.
  induction l as [|w l IH]; intros s r s' Hst Hrun.
  { injection Hrun as <- <-. split; [done|]. exists []. by rewrite app_nil_r. }
  simpl in Hrun.
  apply bind_Some in Hrun as [([]&s1&Hone&Hrest)|(e&Hone&_)].
  2: { exfalso. revert Hone. clear.
       intros Hone. assert (returns_ok (W <- the_watcher w ;;
         V <- the_vm (w_vm W) ;;
         when (bool_decide (vm_watcher V = Some w) && vm_isMounted V)
           (callHook dev ssr n (w_vm W) "updated"))) as Hok.
       { apply returns_ok_bind; [apply returns_ok_the_watcher|]. intros W.
         apply returns_ok_bind; [apply returns_ok_the_vm|]. intros V.
         apply returns_ok_when, callHook_returns_ok. }
       by destruct (Hok _ _ _ Hone). }
  rewrite bind_unfold in Hone. unfold the_watcher at 1 in Hone.
  destruct (watchers s !! w) as [W|] eqn:HW; [|done].
  rewrite bind_unfold in Hone. unfold the_vm at 1 in Hone.
  destruct (vms s !! w_vm W) as [V|] eqn:HV; [|done].
  (* this turn *)
  assert (vm_static s s1
          ∧ ∃ t1, trace s1 = trace s ++ t1
                  ∧ (∀ vm, updated_of s0 w = Some vm →
                           hook_calls s0 "updated" vm `sublist_of` t1))
    as (Hst1&t1&Ht1&Hsub1).
  { destruct (bool_decide (vm_watcher V = Some w) && vm_isMounted V) eqn:Hcond; simpl in Hone.
    - split.
      + by apply (ep_callHook _ _ _ _ _
                    (engine_respects dev ssr _ _ vm_static_respects n) _ _ _ _ _ Hone).
      + destruct (callHook_events dev ssr n (w_vm W) "updated" V s _ s1 HV Hone)
          as (_&t1&Ht1&Hsub). exists t1. split; [done|].
        intros vm Hup. unfold updated_of in Hup.
        destruct (watchers s0 !! w) as [W0|] eqn:HW0; [|done].
        destruct (vms s0 !! w_vm W0) as [V0|] eqn:HV0; [|done].
        destruct (bool_decide (vm_watcher V0 = Some w) && vm_isMounted V0); [|done].
        injection Hup as <-.
        destruct Hst as [Hv Hw]. destruct (Hw w W0 HW0) as (W'&HW'&Hvm).
        rewrite HW in HW'. injection HW' as <-.
        destruct (Hv _ V0 HV0) as (V'&HV'&_&_&Hhooks). rewrite <- Hvm, HV in HV'.
        injection HV' as <-.
        unfold hook_calls. rewrite HV0. unfold handlers_of in *. rewrite <- Hhooks, <- Hvm.
        done.
    - injection Hone as <-. split; [reflexivity|]. exists []. split; [by rewrite app_nil_r|].
      intros vm Hup. exfalso. unfold updated_of in Hup.
      destruct (watchers s0 !! w) as [W0|] eqn:HW0; [|done].
      destruct (vms s0 !! w_vm W0) as [V0|] eqn:HV0; [|done].
      destruct Hst as [Hv Hw]. destruct (Hw w W0 HW0) as (W'&HW'&Hvm).
      rewrite HW in HW'. injection HW' as <-.
      destruct (Hv _ V0 HV0) as (V'&HV'&Hwt&Hm&_). rewrite <- Hvm, HV in HV'.
      injection HV' as <-. rewrite <- Hwt, <- Hm, Hcond in Hup. done. }
  destruct (IH s1 r s') as (->&t2&Ht2&Hsub2); [by etrans|done|].
  split; [done|]. exists (t1 ++ t2). split; [by rewrite Ht2, Ht1, app_assoc|].
  simpl. destruct (updated_of s0 w) as [vm|] eqn:Hup; simpl.
  - apply sublist_app; [by apply Hsub1|done].
  - by apply sublist_inserts_l.
Qed.

(** The same loop is [callHook(vm, "updated")] for the components that
    [updated_of] finds in the state [s0], and nothing else. *)
Lemma updated_loop_eq dev ssr n s0 l : ∀ s,
  vm_static s0 s →
  (∀ w, w ∈ l → ∃ W, watchers s0 !! w = Some W ∧ is_Some (vms s0 !! w_vm W)) →
  for_each l (fun w =>
    W <- the_watcher w ;;
    V <- the_vm (w_vm W) ;;
    when (bool_decide (vm_watcher V = Some w) && vm_isMounted V)
      (callHook dev ssr n (w_vm W) "updated")) s
  = for_each (omap (updated_of s0) l) (fun vm => callHook dev ssr n vm "updated") s.
Proof.
  pose proof vm_static_preorder as Hpre.
  induction l as [|w l IH]; intros s Hst Hl; [done|].
  destruct (Hl w) as (W0&HW0&V0&HV0); [by left|].
  pose proof Hst as [Hv Hw].
  destruct (Hw w W0 HW0) as (W&HW&Hvm).
  destruct (Hv _ V0 HV0) as (V&HV&Hwt&Hm&_).
  assert (∀ x, x ∈ l → ∃ W, watchers s0 !! x = Some W ∧ is_Some (vms s0 !! w_vm W)) as Hl'.
  { intros x Hx. apply Hl. by right. }
  cbn [for_each omap list_omap]. unfold updated_of at 1. rewrite HW0, HV0.
  rewrite bind_unfold. rewrite (bind_the_watcher _ _ _ _ HW).
  rewrite bind_unfold. unfold the_vm at 1. rewrite Hvm, HV, Hwt, Hm.
  destruct (bool_decide (vm_watcher V0 = Some w) && vm_isMounted V0); simpl.
  - rewrite bind_unfold.
    destruct (callHook dev ssr n (w_vm W0) "updated" s) as [[[[]|e] s1]|] eqn:Hone; [|done..].
    apply IH; [|done]. etrans; [exact Hst|].
    by apply (ep_callHook _ _ _ _ _
                (engine_respects dev ssr _ _ vm_static_respects n) _ _ _ _ _ Hone).
  - by apply IH.
Qed.

(** [callUpdatedHooks(queue)], for a queue of watchers of components of
    the store, is [callHook(vm, "updated")] for the components that are
    mounted and whose render watcher is in the queue, and for no other,
    from the last watcher of the queue to the first, that is, with the
    queue that the flush has sorted, a child before its parent. It
    never throws, and every handler of these hooks is called, whatever
    the handlers before it did. *)
Theorem updated_hooks_order dev ssr n q s :
  (∀ w, w ∈ q → ∃ W, watchers s !! w = Some W ∧ is_Some (vms s !! w_vm W)) →
  callUpdatedHooks dev ssr n q s
  = for_each (omap (updated_of s) (reverse q))
      (fun vm => callHook dev ssr n vm "updated") s
  ∧ ∀ r s', callUpdatedHooks dev ssr n q s = Some (r, s') →
      r = Ok tt
      ∧ ∃ t, trace s' = trace s ++ t
             ∧ concat (hook_calls s "updated" <$> omap (updated_of s) (reverse q))
                 `sublist_of` t.
Proof.
  intros Hq. split.
  - apply updated_loop_eq; [apply vm_static_preorder|].
    intros w Hw. apply Hq. by apply elem_of_reverse.
  - intros r s' Hrun. eapply updated_loop; [|exact Hrun]. apply vm_static_preorder.
Qed.

(** The theorem at [family_state], for a queue that holds the four
    watchers: the hooks of the components 1 and 0 are called, in this
    order, and the call does not throw. *)
Lemma updated_hooks_order_witness :
  callUpdatedHooks true false 9 [1; 2; 3; 4] family_state
  = for_each [1; 0] (fun vm => callHook true false 9 vm "updated") family_state
  ∧ ∀ r s', callUpdatedHooks true false 9 [1; 2; 3; 4] family_state = Some (r, s') →
            r = Ok tt.
Proof.
  destruct (updated_hooks_order true false 9 [1; 2; 3; 4] family_state) as (Heq&Hok).
  { intros w Hw. repeat (apply elem_of_cons in Hw as [->|Hw]);
      [by eexists; split; [reflexivity|eexists] ..|by apply elem_of_nil in Hw]. }
  split.
  - rewrite Heq. reflexivity.
  - intros r s' Hrun. by destruct (Hok r s' Hrun).
Defined.

(** ** The callback of a watcher *)

(** [run()] of an active watcher calls the getter. If the getter throws
    (the watcher not being a user watcher, whose errors [get()] reports
    instead), so does [run()], with nothing cached and no callback. If
    [get()] returns the cached value, not an object, and the watcher is
    not deep, nothing more happens: the callback is not called. Otherwise
    the callback is called, with the new value and the cached one, as the
    first thing after [get()]. *)
Theorem run_calls_back_if_changed dev ssr n w W s :
  watchers s !! w = Some W → w_active W = true →
  ∀ r1 s1, Watcher_get dev ssr n w s = Some (r1, s1) →
    match r1 with
    | Thrown e => Watcher_run dev ssr (S (S n)) w s = Some (Thrown e, s1)
    | Ok v =>
        ∀ W1, watchers s1 !! w = Some W1 →
          let changed := negb (strict_eq v (w_value W1)) || isObject v || w_deep W1 in
          (changed = false →
           Watcher_run dev ssr (S (S n)) w s = Some (Ok tt, s1))
          ∧ (changed = true → ∀ r s',
               Watcher_run dev ssr (S (S n)) w s = Some (r, s') →
               ∃ t, trace s' = trace s1 ++ EvCallback w v (w_value W1) :: t)
    end.
Proof.
  intros HW Hact r1 s1 Hget.
  assert (Watcher_run dev ssr (S (S n)) w s
          = Watcher_getAndInvoke dev ssr (S n) w OwnCb s) as ->.
  { change (Watcher_run dev ssr (S (S n)) w s)
      with ((W <- the_watcher w ;;
             if w_active W then Watcher_getAndInvoke dev ssr (S n) w OwnCb
             else ret tt) s).
    by rewrite (bind_the_watcher _ _ _ _ HW), Hact. }
  change (Watcher_getAndInvoke dev ssr (S n) w OwnCb s)
    with ((value <- Watcher_get dev ssr n w ;;
           W <- the_watcher w ;;
           if negb (strict_eq value (w_value W)) || isObject value || w_deep W then
             let oldValue := w_value W in
             modify (upd_watcher w (fun W => set_w_dirty false (set_w_value value W))) ;;;
             let call :=
               record (EvCallback w value oldValue) ;;;
               exec dev ssr n (w_cb W value oldValue) ;;; ret tt in
             if w_user W
             then try_catch call
                    (fun e => record (EvHandleError e (w_vm W) (callback_info W)))
             else call
           else ret tt) s).
  rewrite bind_unfold, Hget. destruct r1 as [v|e]; [|done].
  intros W1 HW1 changed. rewrite (bind_the_watcher _ _ _ _ HW1).
  fold changed. split; intros Hch; rewrite Hch; [done|].
  intros r s'. cbv zeta. rewrite bind_unfold. unfold modify at 1.
  set (s2 := upd_watcher w _ s1).
  assert (trace s2 = trace s1) as Ht2 by done.
  assert (∀ r s',
            (record (EvCallback w v (w_value W1)) ;;;
             exec dev ssr n (w_cb W1 v (w_value W1)) ;;; ret tt) s2 = Some (r, s') →
            ∃ t, trace s' = trace s1 ++ EvCallback w v (w_value W1) :: t) as Hcall.
  { intros r0 s0. rewrite bind_unfold. unfold record at 1, modify at 1.
    set (s3 := set_trace _ s2). intros Hrest.
    assert (trace_grows s3 s0) as [t Ht].
    { revert Hrest. pose proof trace_grows_preorder.
      apply (preserves_bind trace_grows); [intros ???; apply exec_trace_grows|].
      intros _. apply (preserves_ret trace_grows). }
    exists t. rewrite Ht. subst s3. ssimpl. by rewrite Ht2, <- app_assoc. }
  destruct (w_user W1); [|apply Hcall].
  unfold try_catch.
  destruct ((record (EvCallback w v (w_value W1)) ;;;
             exec dev ssr n (w_cb W1 v (w_value W1)) ;;; ret tt) s2)
    as [[[[]|e] s3]|] eqn:Hc; [| |done].
  - intros [= <- <-]. by apply (Hcall _ _ eq_refl).
  - intros [= <- <-]. destruct (Hcall _ _ eq_refl) as [t Ht].
    exists (t ++ [EvHandleError e (w_vm W1) (callback_info W1)]). ssimpl.
    by rewrite Ht, <- app_assoc.
Qed.

Lemma run_calls_back_if_changed_witness :
  let run := Watcher_run true false 9 1 in
  let s1 := after (exec true false 9 (Write 0 (VNum 2) (Ret VUndef)))
              echo_state in
  let s2 := after run s1 in
  Watcher_run true false 5 1 echo_state
  = Some (Ok tt, after (Watcher_get true false 3 1) echo_state)
  ∧ trace (after run echo_state) = [EvGetter 1]
  ∧ run s1 = Some (Ok tt, s2)
  ∧ trace s2 = [EvNotify 0; EvGetter 1; EvCallback 1 (VNum 2) (VNum 1); EvNotify 1]
  ∧ (p_val <$> props s2 !! 1) = Some (VNum 2).
Proof.
  intros run s1 s2.
  assert (Watcher_get true false 3 1 echo_state
          = Some (Ok (VNum 1), after (Watcher_get true false 3 1) echo_state))
    as Hget by (vm_compute; reflexivity).
  pose proof (run_calls_back_if_changed true false 3 1 _ echo_state
                eq_refl eq_refl _ _ Hget _ eq_refl) as (Hsame&_).
  split_and!; [by apply Hsame|by vm_compute..].
Defined.

(** ** C2 *)


#[local] Existing Instance trace_grows_preorder.

Ltac grows_step dev ssr n :=
  first
    [ done
    | apply (preserves_ret trace_grows)
    | apply (preserves_throw trace_grows)
    | apply (preserves_gets trace_grows)
    | apply (preserves_the_watcher trace_grows)
    | apply (preserves_when trace_grows)
    | apply (preserves_record trace_grows _ trace_grows_respects); by intros
    | apply (ep_exec _ _ _ _ _ (engine_respects dev ssr _ _ trace_grows_respects n))
    | apply (ep_notify _ _ _ _ _ (engine_respects dev ssr _ _ trace_grows_respects n))
    | apply (traverse_preserves dev ssr n _ _ _ trace_grows_respects)
    | apply (preserves_modify trace_grows); intros ?;
        first [ apply (rs_popTarget _ _ trace_grows_respects)
              | apply (rs_cleanupDeps _ _ trace_grows_respects)
              | apply (rs_value _ _ trace_grows_respects) ]
    | apply (preserves_try_catch trace_grows); [|intros ?]
    | apply (preserves_try_finally trace_grows); [|intros ?]
    | apply (preserves_bind trace_grows); [|intros ?] ].

(** [get()] calls the getter before anything else that leaves the
    engine. *)
Lemma get_calls_getter dev ssr n w s r s' :
  Watcher_get dev ssr n w s = Some (r, s') →
  ∃ t, trace s' = trace s ++ EvGetter w :: t.
Proof.
  destruct n as [|n]; [done|]. simpl.
  rewrite bind_unfold. unfold the_watcher at 1.
  destruct (watchers s !! w) as [W|]; [|done].
  rewrite bind_unfold. unfold modify at 1.
  intros Hrun.
  assert (try_finally
            (try_catch (exec dev ssr n (w_getter W))
               (fun e =>
                  if w_user W
                  then record (EvHandleError e (w_vm W) (getter_info W)) ;;; ret VUndef
                  else throw e))
            (fun r =>
               let value := match r with Ok v => v | Thrown _ => VUndef end in
               when (w_deep W) (traverse (_traverse dev ssr n) value) ;;;
               modify popTarget ;;;
               modify (Watcher_cleanupDeps w))
            (getter_start w s) = Some (r, s')) as Hrun' by exact Hrun.
  clear Hrun.
  assert (trace_grows (getter_start w s) s') as [t Ht].
  { revert Hrun'. generalize (getter_start w s). intros s0 Hrun'. revert s0 r s' Hrun'.
    change (preserves trace_grows
              (try_finally
                 (try_catch (exec dev ssr n (w_getter W))
                    (fun e =>
                       if w_user W
                       then record (EvHandleError e (w_vm W) (getter_info W)) ;;; ret VUndef
                       else throw e))
                 (fun r =>
                    let value := match r with Ok v => v | Thrown _ => VUndef end in
                    when (w_deep W) (traverse (_traverse dev ssr n) value) ;;;
                    modify popTarget ;;;
                    modify (Watcher_cleanupDeps w)))).
    repeat grows_step dev ssr n.
    destruct (w_user W); repeat grows_step dev ssr n. }
  exists t. rewrite Ht, getter_start_trace. by rewrite <- app_assoc.
Qed.

(** [run()] of an active watcher calls [get()], and with it the getter,
    before anything else that leaves the engine. *)
Lemma run_calls_getter dev ssr n w W s r s' :
  watchers s !! w = Some W → w_active W = true →
  Watcher_run dev ssr n w s = Some (r, s') →
  ∃ t, trace s' = trace s ++ EvGetter w :: t.
Proof.
  intros HW Hact. destruct n as [|n]; [done|].
  rewrite (run_active dev ssr n w W s HW Hact).
  destruct n as [|n]; [done|]. simpl.
  intros [(v&s1&Hget&Hrest)|(e&Hget&_)]%bind_Some.
  2: { by eapply get_calls_getter. }
  destruct (get_calls_getter dev ssr n w s _ s1 Hget) as [t1 Ht1].
  assert (trace_grows s1 s') as [t2 Ht2].
  { revert Hrest. generalize s1 r s'.
    change (preserves trace_grows
              (W <- the_watcher w ;;
               if negb (strict_eq v (w_value W)) || isObject v || w_deep W then
                 let oldValue := w_value W in
                 modify (upd_watcher w (fun W => set_w_dirty false (set_w_value v W))) ;;;
                 let call :=
                   record (EvCallback w v oldValue) ;;;
                   exec dev ssr n (w_cb W v oldValue) ;;; ret tt in
                 if w_user W
                 then try_catch call
                        (fun e => record (EvHandleError e (w_vm W) (callback_info W)))
                 else call
               else ret tt)).
    repeat grows_step dev ssr n. cbv zeta.
    match goal with |- preserves _ (if ?b then _ else _) => destruct b end;
      repeat grows_step dev ssr n. }
  exists (t1 ++ t2). rewrite Ht2, Ht1. by rewrite <- !app_assoc.
Qed.


